(** * Receipt bot: field extraction, beneficiary validation, calendar
      conversion and ledger reconciliation of [better1.py]

    The development embeds the pure part of [better1.py] -- the amount and
    house-number extractors, [normalize_name] / [validate_beneficiary],
    [convert_to_ethiopian_month], the house/amount/month resolution of
    [extract_payment_data_buffered] and the save phase of
    [process_buffered_messages] -- and states the properties of the
    specification over it.  It goes on with code the specification does not
    speak of: the worksheets that [setup_sheets] builds and the set-up before
    the save phase ([Startup.save_phase]), [save_to_sheets] of
    the history scanner and the column-letter helpers, the payment reasons,
    the date, payer-name and typed transaction-id patterns, [is_admin],
    [get_admin_groups] and [handle_admin_command], and the history link with
    [handle_history_deep_link].

    Python values are modelled as follows.
    - A [str] is the list of its Unicode code points ([N]); literals are
      written [u "..."] and decoded from UTF-8, so that [len], slices and
      substring tests count code points as Python does.
    - Character tables ([str.lower], [str.upper], [\s], [\d], [\w]) come
      from the Unicode database, which is not part of the repository.  They
      are given here for ASCII and for the Ethiopic block, the two scripts of
      the receipts: case mapping is the ASCII one (Ethiopic has no case),
      [\s] is the full Unicode white-space list, [\d] is [0-9] and [\w] is
      ASCII alphanumerics, underscore and Ethiopic letters and numerals.
      A property that would not hold of Python for other characters is
      stated for texts written with those ([Text.tabled_text]).
    - The [re] module is a backtracking matcher with Python's priorities
      (leftmost match, ordered alternation, greedy and lazy repetition,
      numbered groups).
    - A [float] is an exact decimal [mant / 10 ^ scale]; this is what Python
      computes for the amounts of a receipt (at most 15 significant digits,
      below 10^16), where [float], [>], [min] and [str] are exact.  Beyond
      that size Python rounds ([float("99999999999999.99")] prints as
      [99999999999999.98]) and [str] writes an exponent from [1e+16] on;
      the property of re-wrapped amounts has the bound as a hypothesis. *)

From Stdlib Require Import String Ascii NArith ZArith Bool Lia PeanoNat List.
Import ListNotations.

Set Implicit Arguments.

(* ================================================================== *)
(** ** Python strings *)

Module Py.

Definition str := list N.

(** UTF-8 decoding of a literal: [need] continuation bytes are still
    expected for the code point accumulated in [acc]. *)
Fixpoint utf8_go (need : nat) (acc : N) (bs : list N) : str :=
  match bs with
  | [] => []
  | b :: r =>
      match need with
      | S k =>
          let acc' := (acc * 64 + b mod 64)%N in
          match k with
          | O => acc' :: utf8_go 0 0 r
          | S _ => utf8_go k acc' r
          end
      | O =>
          if (b <? 128)%N then b :: utf8_go 0 0 r
          else if (b <? 224)%N then utf8_go 1 (b mod 32)%N r
          else if (b <? 240)%N then utf8_go 2 (b mod 16)%N r
          else utf8_go 3 (b mod 8)%N r
      end
  end.

Definition u (s : string) : str :=
  utf8_go 0 0 (map N_of_ascii (list_ascii_of_string s)).

Definition str_eqb (a b : str) : bool :=
  if list_eq_dec N.eq_dec a b then true else false.

(** Truth value of a string: [if s:] / [if not s:]. *)
Definition truthy (s : str) : bool :=
  match s with [] => false | _ :: _ => true end.

(** *** Character tables *)

Definition lower_cp (c : N) : N :=
  if ((65 <=? c) && (c <=? 90))%N then (c + 32)%N else c.

Definition upper_cp (c : N) : N :=
  if ((97 <=? c) && (c <=? 122))%N then (c - 32)%N else c.

Definition lower (s : str) : str := map lower_cp s.
Definition upper (s : str) : str := map upper_cp s.

(** [str.isspace] and the class [\s]. *)
Definition is_space (c : N) : bool :=
  (((9 <=? c) && (c <=? 13)) || ((28 <=? c) && (c <=? 32))
   || (c =? 133) || (c =? 160) || (c =? 5760)
   || ((8192 <=? c) && (c <=? 8202)) || (c =? 8232) || (c =? 8233)
   || (c =? 8239) || (c =? 8287) || (c =? 12288))%N.

Definition is_digit (c : N) : bool := ((48 <=? c) && (c <=? 57))%N.

Definition is_ascii_alpha (c : N) : bool :=
  (((65 <=? c) && (c <=? 90)) || ((97 <=? c) && (c <=? 122)))%N.

(** Ethiopic syllables (U+1200..U+135A), numerals (U+1369..U+137C) and the
    Ethiopic Supplement (U+1380..U+138F). *)
Definition is_ethiopic_alnum (c : N) : bool :=
  (((4608 <=? c) && (c <=? 4954)) || ((4969 <=? c) && (c <=? 4988))
   || ((4992 <=? c) && (c <=? 5007)))%N.

(** The class [\w]. *)
Definition is_word (c : N) : bool :=
  is_ascii_alpha c || is_digit c || (c =? 95)%N || is_ethiopic_alnum c.

(** *** String methods *)

Fixpoint lstrip (s : str) : str :=
  match s with
  | [] => []
  | c :: r => if is_space c then lstrip r else s
  end.

Definition rstrip (s : str) : str := rev (lstrip (rev s)).

Definition strip (s : str) : str := rstrip (lstrip s).

Fixpoint startswith (s p : str) : bool :=
  match p with
  | [] => true
  | a :: p' =>
      match s with
      | [] => false
      | b :: s' => (a =? b)%N && startswith s' p'
      end
  end.

Definition endswith (s p : str) : bool := startswith (rev s) (rev p).

(** [needle in hay] *)
Fixpoint contains (needle hay : str) : bool :=
  startswith hay needle ||
  match hay with
  | [] => false
  | _ :: r => contains needle r
  end.

(** [s.split(sep)] for a one-character separator: at least one field. *)
Fixpoint split_on (sep : N) (s : str) : list str :=
  match s with
  | [] => [[]]
  | c :: r =>
      if (c =? sep)%N then [] :: split_on sep r
      else match split_on sep r with
           | [] => [[c]]
           | f :: fs => (c :: f) :: fs
           end
  end.

(** [s.split()]: maximal runs of non-space characters. *)
Fixpoint split_ws_go (cur : str) (s : str) : list str :=
  match s with
  | [] => match cur with [] => [] | _ => [rev cur] end
  | c :: r =>
      if is_space c
      then match cur with
           | [] => split_ws_go [] r
           | _ => rev cur :: split_ws_go [] r
           end
      else split_ws_go (c :: cur) r
  end.

Definition split_ws (s : str) : list str := split_ws_go [] s.

(** [sep.join(parts)] *)
Fixpoint join (sep : str) (parts : list str) : str :=
  match parts with
  | [] => []
  | [p] => p
  | p :: ps => p ++ sep ++ join sep ps
  end.

(** [s.replace(c, '')] for a one-character [c]. *)
Definition remove_char (c : N) (s : str) : str :=
  filter (fun x => negb (x =? c)%N) s.

(** [s[a:b]] for [0 <= a], [0 <= b]. *)
Definition slice (s : str) (a b : nat) : str := firstn (b - a) (skipn a s).

(** [x in xs] for a list of strings. *)
Definition mem (x : str) (xs : list str) : bool := existsb (str_eqb x) xs.

(** *** Decimal numerals: [str(n)] and [int(s)] for a natural number *)

Definition digits_val (ds : list N) : N :=
  fold_left (fun a d => (10 * a + d)%N) ds 0%N.

(** The [k] low-order decimal digits of [n], most significant first. *)
Fixpoint low_digits (k : nat) (n : N) : list N :=
  match k with
  | O => []
  | S k' => low_digits k' (n / 10)%N ++ [(n mod 10)%N]
  end.

Fixpoint strip_zeros (ds : list N) : list N :=
  match ds with
  | [] => []
  | d :: r => if (d =? 0)%N then strip_zeros r else ds
  end.

Definition digit_chars (ds : list N) : str := map (fun d => (48 + d)%N) ds.
Definition char_digits (s : str) : list N := map (fun c => (c - 48)%N) s.

Definition str_of_N (n : N) : str :=
  match strip_zeros (low_digits (S (N.to_nat (N.log2 n))) n) with
  | [] => u "0"
  | ds => digit_chars ds
  end.

Definition str_of_nat (n : nat) : str := str_of_N (N.of_nat n).

(** [chr(n)] *)
Definition chr (n : nat) : N := N.of_nat n.

End Py.

(* ================================================================== *)
(** ** The [re] module *)

Module Re.
Import Py.

(** Patterns.  Repetition is over one character class, which is all the
    patterns of [better1.py] use; [Opt] takes any pattern. *)
Inductive regex : Type :=
| Eps
| Chr (p : N -> bool)                         (* one character of a class *)
| Seq (a b : regex)
| Alt (a b : regex)                           (* a|b, [a] tried first *)
| Opt (a : regex)                             (* a? *)
| Rep (lo : nat) (hi : option nat) (p : N -> bool)   (* p{lo,hi}, greedy *)
| Lazy (p : N -> bool)                        (* p*? *)
| Grp (i : nat) (a : regex)                   (* i-th capturing group *)
| Bol (multiline : bool)                      (* ^ *)
| Eol.                                        (* $ *)

(** A position in the subject: its index, the character before it and the
    characters from it on. *)
Record cursor : Type := Cursor { pos : nat; prev : option N; rest : str }.

Definition caps := list (nat * str).

Section Matcher.
Variable A : Type.

(** Greedy [p{lo,hi}]: one more character first, the continuation after. *)
Fixpoint rep (p : N -> bool) (lo : nat) (hi : option nat)
    (k : cursor -> option A) (i : nat) (pv : option N) (s : str)
    {struct s} : option A :=
  let stop := match lo with O => k (Cursor i pv s) | S _ => None end in
  match s with
  | [] => stop
  | x :: s' =>
      if p x && match hi with Some O => false | _ => true end
      then match rep p (Nat.pred lo) (option_map Nat.pred hi) k (S i) (Some x) s' with
           | Some r => Some r
           | None => stop
           end
      else stop
  end.

(** Lazy [p*?]: the continuation first, one more character after. *)
Fixpoint lazy (p : N -> bool) (k : cursor -> option A) (i : nat)
    (pv : option N) (s : str) {struct s} : option A :=
  match k (Cursor i pv s) with
  | Some r => Some r
  | None =>
      match s with
      | [] => None
      | x :: s' => if p x then lazy p k (S i) (Some x) s' else None
      end
  end.

Fixpoint rmatch (r : regex) (c : cursor) (g : caps)
    (k : cursor -> caps -> option A) {struct r} : option A :=
  match r with
  | Eps => k c g
  | Chr p =>
      match rest c with
      | x :: s' => if p x then k (Cursor (S (pos c)) (Some x) s') g else None
      | [] => None
      end
  | Seq a b => rmatch a c g (fun c' g' => rmatch b c' g' k)
  | Alt a b =>
      match rmatch a c g k with
      | Some r => Some r
      | None => rmatch b c g k
      end
  | Opt a =>
      match rmatch a c g k with
      | Some r => Some r
      | None => k c g
      end
  | Rep lo hi p => rep p lo hi (fun c' => k c' g) (pos c) (prev c) (rest c)
  | Lazy p => lazy p (fun c' => k c' g) (pos c) (prev c) (rest c)
  | Grp i a =>
      rmatch a c g
        (fun c' g' => k c' ((i, firstn (pos c' - pos c) (rest c)) :: g'))
  | Bol ml =>
      if (pos c =? 0)%nat
         || (ml && match prev c with Some x => (x =? 10)%N | None => false end)
      then k c g else None
  | Eol =>
      match rest c with
      | [] => k c g
      | [x] => if (x =? 10)%N then k c g else None
      | _ => None
      end
  end.

End Matcher.

(** Match objects: [m.start()], [m.end()], the groups ([0] is the match). *)
Record mobj : Type := Mobj { m_start : nat; m_end : nat; m_caps : caps }.

Fixpoint lookup (i : nat) (g : caps) : option str :=
  match g with
  | [] => None
  | (j, s) :: g' => if (i =? j)%nat then Some s else lookup i g'
  end.

(** [m.group(i)] for a group that took part in the match. *)
Definition group (m : mobj) (i : nat) : str :=
  match lookup i (m_caps m) with Some s => s | None => [] end.

Definition match_at (r : regex) (c : cursor) : option mobj :=
  rmatch r c []
    (fun c' g' =>
       Some (Mobj (pos c) (pos c')
                  ((0%nat, firstn (pos c' - pos c) (rest c)) :: g'))).

(** [re.match(r, s)] *)
Definition re_match (r : regex) (s : str) : option mobj :=
  match_at r (Cursor 0 None s).

Fixpoint search_from (r : regex) (i : nat) (pv : option N) (s : str)
    {struct s} : option mobj :=
  match match_at r (Cursor i pv s) with
  | Some m => Some m
  | None =>
      match s with
      | [] => None
      | x :: s' => search_from r (S i) (Some x) s'
      end
  end.

(** [re.search(r, s)] *)
Definition re_search (r : regex) (s : str) : option mobj :=
  search_from r 0 None s.

(** [re.finditer(r, s)]: the matches from left to right, none overlapping;
    [skip] characters are still covered by the previous match. *)
Fixpoint finditer_from (r : regex) (skip i : nat) (pv : option N) (s : str)
    {struct s} : list mobj :=
  match skip with
  | S n =>
      match s with
      | [] => []
      | x :: s' => finditer_from r n (S i) (Some x) s'
      end
  | O =>
      match match_at r (Cursor i pv s) with
      | Some m =>
          m :: match s with
               | [] => []
               | x :: s' =>
                   finditer_from r (m_end m - i - 1) (S i) (Some x) s'
               end
      | None =>
          match s with
          | [] => []
          | x :: s' => finditer_from r 0 (S i) (Some x) s'
          end
      end
  end.

Definition finditer (r : regex) (s : str) : list mobj :=
  finditer_from r 0 0 None s.

(** [re.findall(r, s)] for a pattern without groups. *)
Definition findall (r : regex) (s : str) : list str :=
  map (fun m => group m 0) (finditer r s).

(** [re.sub(r, repl, s)] for a replacement without group references. *)
Fixpoint sub_from (r : regex) (repl : str) (skip i : nat) (pv : option N)
    (s : str) {struct s} : str :=
  match skip with
  | S n =>
      match s with
      | [] => []
      | x :: s' => sub_from r repl n (S i) (Some x) s'
      end
  | O =>
      match match_at r (Cursor i pv s) with
      | Some m =>
          match (m_end m - i)%nat, s with
          | S n, x :: s' => repl ++ sub_from r repl n (S i) (Some x) s'
          | O, x :: s' => repl ++ x :: sub_from r repl 0 (S i) (Some x) s'
          | _, [] => repl
          end
      | None =>
          match s with
          | [] => []
          | x :: s' => x :: sub_from r repl 0 (S i) (Some x) s'
          end
      end
  end.

Definition re_sub (r : regex) (repl s : str) : str :=
  sub_from r repl 0 0 None s.

(** The character before the position reached by consuming [xs] from a
    position whose previous character is [pv]. *)
Definition last_prev (xs : str) (pv : option N) : option N :=
  last (map Some xs) pv.

(** *** Characters a pattern cannot do without *)

(** [ahead c c']: [c'] is [c] after some characters were consumed. *)
Definition ahead (c c' : cursor) : Prop := exists pre, rest c = pre ++ rest c'.

(** [Needs P r]: every match of [r] consumes a character of the class [P]. *)
Inductive Needs (P : N -> bool) : regex -> Prop :=
| Needs_chr (p : N -> bool) :
    (forall x, p x = true -> P x = true) -> Needs P (Chr p)
| Needs_seq_l (a b : regex) : Needs P a -> Needs P (Seq a b)
| Needs_seq_r (a b : regex) : Needs P b -> Needs P (Seq a b)
| Needs_alt (a b : regex) : Needs P a -> Needs P b -> Needs P (Alt a b)
| Needs_rep (lo : nat) (hi : option nat) (p : N -> bool) :
    (forall x, p x = true -> P x = true) -> Needs P (Rep (S lo) hi p)
| Needs_grp (i : nat) (a : regex) : Needs P a -> Needs P (Grp i a).

(** *** Writing patterns *)

(** A literal character, and the same under [re.IGNORECASE]. *)
Definition ch (c : N) : N -> bool := fun x => (x =? c)%N.
Definition chi (c : N) : N -> bool := fun x => (lower_cp x =? lower_cp c)%N.

Definition one_of (cs : str) : N -> bool :=
  fun x => existsb (fun c => (x =? c)%N) cs.

Definition cor (p q : N -> bool) : N -> bool := fun x => p x || q x.
Definition cnot (p : N -> bool) : N -> bool := fun x => negb (p x).

(** [.] without [re.DOTALL] *)
Definition dot : N -> bool := cnot (ch 10).

Fixpoint seq_of (f : N -> regex) (s : str) : regex :=
  match s with
  | [] => Eps
  | [c] => f c
  | c :: s' => Seq (f c) (seq_of f s')
  end.

(** A literal word, and the same under [re.IGNORECASE]. *)
Definition lit (s : string) : regex := seq_of (fun c => Chr (ch c)) (u s).
Definition liti (s : string) : regex := seq_of (fun c => Chr (chi c)) (u s).

Fixpoint alts (rs : list regex) : regex :=
  match rs with
  | [] => Eps
  | [r] => r
  | r :: rs' => Alt r (alts rs')
  end.

Fixpoint seqs (rs : list regex) : regex :=
  match rs with
  | [] => Eps
  | [r] => r
  | r :: rs' => Seq r (seqs rs')
  end.

Definition star (p : N -> bool) : regex := Rep 0 None p.
Definition plus (p : N -> bool) : regex := Rep 1 None p.
Definition times (lo hi : nat) (p : N -> bool) : regex := Rep lo (Some hi) p.

End Re.

(* ================================================================== *)
(** ** Python floats on decimal numerals *)

Module PyFloat.
Import Py.

(** The value [mant / 10 ^ scale], with no trailing zero in the fraction. *)
Record float : Type := Float { mant : N; scale : nat }.

Fixpoint canon (m : N) (sc : nat) : float :=
  match sc with
  | O => Float m 0
  | S k => if (m mod 10 =? 0)%N then canon (m / 10) k else Float m sc
  end.

(** Values in canonical form: no trailing zero in the fraction. *)
Definition canonical (x : float) : Prop := canon (mant x) (scale x) = x.

Definition all_digits (s : str) : bool := forallb is_digit s.

(** [float(s)] on the strings that reach it, which are made of digits and
    dots: [Some] value for digits with at most one dot and at least one
    digit, [None] where Python raises [ValueError]. *)
Definition float_of_str (s : str) : option float :=
  match split_on 46 s with
  | [ip] =>
      if all_digits ip && truthy ip
      then Some (Float (digits_val (char_digits ip)) 0)
      else None
  | [ip; fp] =>
      if all_digits ip && all_digits fp && (truthy ip || truthy fp)
      then Some (canon (digits_val (char_digits (ip ++ fp))) (length fp))
      else None
  | _ => None
  end.

Definition pow10 (k : nat) : N := (10 ^ N.of_nat k)%N.

(** [a < b] and [a > b] *)
Definition ltb (a b : float) : bool :=
  (mant a * pow10 (scale b) <? mant b * pow10 (scale a))%N.
Definition gtb (a b : float) : bool := ltb b a.

Definition of_nat (n : nat) : float := Float (N.of_nat n) 0.

(** [min(x :: xs)]: the first of the smallest elements. *)
Definition min_list (x : float) (xs : list float) : float :=
  fold_left (fun m y => if ltb y m then y else m) xs x.

(** [str(x)]: integer part, dot, fraction (["0"] when there is none). *)
Definition str_of_float (x : float) : str :=
  str_of_N (mant x / pow10 (scale x))
  ++ u "."
  ++ match scale x with
     | O => u "0"
     | S _ => digit_chars (low_digits (scale x) (mant x mod pow10 (scale x)))
     end.

End PyFloat.

(* ================================================================== *)
(** ** Amount extraction *)

Module Amount.
Import Py Re PyFloat.

(** [[0-9]] and [[0-9,]] *)
Definition d09 : N -> bool := fun c => ((48 <=? c) && (c <=? 57))%N.
Definition d09_comma : N -> bool := cor d09 (ch 44).
(** [[:\s]] *)
Definition colon_space : N -> bool := cor (ch 58) is_space.

(** [([0-9,]+(?:\.[0-9]{2})?)] *)
Definition amount_group : regex :=
  Grp 1 (Seq (plus d09_comma) (Opt (Seq (Chr (ch 46)) (times 2 2 d09)))).

(** [(?:ETB|birr|ብር)], under [re.IGNORECASE] *)
Definition currency : regex := alts [liti "ETB"; liti "birr"; liti "ብር"].

(** [(?:before vat|excluding vat|excl\.? vat)] *)
Definition vat_words : regex :=
  alts [liti "before vat"; liti "excluding vat";
        seqs [liti "excl"; Opt (Chr (ch 46)); liti " vat"]].

Definition amount_labels : list str :=
  [u "settled amount"; u "settled"; u "amount paid"; u "paid"; u "debited";
   u "credited"; u "subtotal"; u "sub-total"; u "sub total"; u "total amount"].

(** [^[0-9,]+\.[0-9]{2}] *)
Definition value_line : regex :=
  seqs [Bol false; plus d09_comma; Chr (ch 46); times 2 2 d09].

(** The [while] loop of [normalize_amount_lines] over [lines[i:]]. *)
Fixpoint join_label_lines (lines : list str) : list str :=
  match lines with
  | [] => []
  | l :: after =>
      let line := strip l in
      if negb (truthy line) then join_label_lines after
      else
        let line_lower := lower line in
        let has_amount_label :=
          existsb (fun label => contains label line_lower) amount_labels in
        match after with
        | nxt :: after' =>
            let next_line := strip nxt in
            if has_amount_label
               && (truthy next_line
                   && (startswith (upper next_line) (u "ETB")
                       || match re_match value_line next_line with
                          | Some _ => true
                          | None => false
                          end))
            then (line ++ u " " ++ strip nxt) :: join_label_lines after'
            else line :: join_label_lines after
        | [] => line :: join_label_lines after
        end
  end.

(** [normalize_amount_lines] (better1.py, line 818) *)
Definition normalize_amount_lines (text : str) : str :=
  join (u (String "010" "")) (join_label_lines (split_on 10 text)).

(** [r'settled\s+amount[:\s]*ETB\s*([0-9,]+(?:\.[0-9]{2})?)'] *)
Definition settled_pattern : regex :=
  seqs [liti "settled"; plus is_space; liti "amount"; star colon_space;
        liti "ETB"; star is_space; amount_group].

(** [r'(?:subtotal|sub-total|sub total|before vat|excluding vat|excl\.? vat)[:\s]*(?:ETB|birr|ብር)?\s*([0-9,]+(?:\.[0-9]{2})?)']
    and
    [r'(?:ETB|birr|ብር)?\s*([0-9,]+(?:\.[0-9]{2})?)\s*(?:before vat|excluding vat|excl\.? vat)'] *)
Definition without_vat_patterns : list regex :=
  [seqs [alts [liti "subtotal"; liti "sub-total"; liti "sub total";
               liti "before vat"; liti "excluding vat";
               seqs [liti "excl"; Opt (Chr (ch 46)); liti " vat"]];
         star colon_space; Opt currency; star is_space; amount_group];
   seqs [Opt currency; star is_space; amount_group; star is_space; vat_words]].

(** [r'ETB\s*([0-9,]+(?:\.[0-9]{2})?)\s+debited'] *)
Definition debited_pattern : regex :=
  seqs [liti "ETB"; star is_space; amount_group; plus is_space; liti "debited"].

(** [r'(?:debited|Debited|DEBITED).*?ETB\s*([0-9,]+(?:\.[0-9]{2})?)'] *)
Definition debited_etb : regex :=
  seqs [alts [liti "debited"; liti "Debited"; liti "DEBITED"]; Lazy dot;
        liti "ETB"; star is_space; amount_group].

(** [r'(?:Amount|amount|AMOUNT).*?(?:ETB|birr)?\s*([0-9,]+(?:\.[0-9]{2})?)'] *)
Definition amount_etb : regex :=
  seqs [alts [liti "Amount"; liti "amount"; liti "AMOUNT"]; Lazy dot;
        Opt (alts [liti "ETB"; liti "birr"]); star is_space; amount_group].

(** [r'(?:ETB|birr|ብር)\s*([0-9,]+(?:\.[0-9]{2})?)'] *)
Definition currency_first : regex :=
  seqs [currency; star is_space; amount_group].

(** [r'([0-9,]+(?:\.[0-9]{2})?)\s*(?:ETB|birr|ብር)'] *)
Definition amount_first : regex :=
  seqs [amount_group; star is_space; currency].

Definition standard_patterns : list regex :=
  [debited_etb; amount_etb; currency_first; amount_first].

(** [(?:^|\n|\s)] under [re.MULTILINE] *)
Definition line_start : regex := alts [Bol true; Chr (ch 10); Chr is_space].

(** [r'(?:^|\n|\s)([0-9,]+\.00)\s*Birr'] and
    [r'(?:^|\n|\s)([0-9,]+\.[0-9]{2})\s*(?:Birr|ETB)'] *)
Definition fallback_patterns : list regex :=
  [seqs [line_start; Grp 1 (seqs [plus d09_comma; Chr (ch 46); lit "00"]);
         star is_space; liti "Birr"];
   seqs [line_start;
         Grp 1 (seqs [plus d09_comma; Chr (ch 46); times 2 2 d09]);
         star is_space; alts [liti "Birr"; liti "ETB"]]].

(** [match.group(1).replace(',', '')] *)
Definition amount_str_of (m : mobj) : str := remove_char 44 (group m 1).

(** [float(amount_str)] inside [try: ... except: pass], with the test
    [amount_val > 50]. *)
Definition amount_val_above_50 (amount_str : str) : option float :=
  match float_of_str amount_str with
  | Some amount_val =>
      if gtb amount_val (of_nat 50) then Some amount_val else None
  | None => None
  end.

(** An amount string that reads as a float above 50. *)
Definition above_50 (a : str) : Prop :=
  exists v, float_of_str a = Some v /\ gtb v (of_nat 50) = true.

(** Priority 1 *)
Definition settled_stage (search_text : str) : option str :=
  match re_search settled_pattern search_text with
  | Some m =>
      match amount_val_above_50 (amount_str_of m) with
      | Some _ => Some (amount_str_of m)
      | None => None
      end
  | None => None
  end.

(** Priority 2: [for pattern in without_vat_patterns] *)
Fixpoint without_vat_stage (patterns : list regex) (search_text : str)
    : option str :=
  match patterns with
  | [] => None
  | pattern :: patterns' =>
      match re_search pattern search_text with
      | Some m =>
          match amount_val_above_50 (amount_str_of m) with
          | Some _ => Some (amount_str_of m)
          | None => without_vat_stage patterns' search_text
          end
      | None => without_vat_stage patterns' search_text
      end
  end.

(** Priority 3 *)
Definition debited_stage (search_text : str) : option str :=
  match re_search debited_pattern search_text with
  | Some m =>
      match amount_val_above_50 (amount_str_of m) with
      | Some _ =>
          let match_pos := m_start m in
          let preceding_text := slice search_text (match_pos - 50) match_pos in
          if negb (contains (u "total") (lower preceding_text))
          then Some (amount_str_of m) else None
      | None => None
      end
  | None => None
  end.

(** Priority 4: the candidate one match contributes to [all_amounts]. *)
Definition candidate (search_text : str) (m : mobj) : list float :=
  match amount_val_above_50 (amount_str_of m) with
  | Some amount_val =>
      let match_pos := m_start m in
      let context :=
        slice search_text (match_pos - 30)
              (Nat.min (length search_text) (match_pos + 100)) in
      if negb (contains (u "total") (lower context))
         && negb (contains (u "with commission") (lower context))
         && negb (contains (u "service charge") (lower context))
         && negb (contains (u "vat") (lower context))
      then [amount_val] else []
  | None => []
  end.

Definition all_amounts (search_text : str) : list float :=
  flat_map
    (fun pattern => flat_map (candidate search_text) (finditer pattern search_text))
    standard_patterns.

Definition standard_stage (search_text : str) : option str :=
  match all_amounts search_text with
  | [] => None
  | x :: xs => Some (str_of_float (min_list x xs))
  end.

(** One turn of [for search_text in [normalized_text, text]]: [Some] is a
    [return]. *)
Definition search_stages (search_text : str) : option str :=
  match settled_stage search_text with
  | Some a => Some a
  | None =>
      match without_vat_stage without_vat_patterns search_text with
      | Some a => Some a
      | None =>
          match debited_stage search_text with
          | Some a => Some a
          | None => standard_stage search_text
          end
      end
  end.

(** The final fallback: the first match above 50, patterns in order. *)
Fixpoint first_above_50 (ms : list mobj) : option str :=
  match ms with
  | [] => None
  | m :: ms' =>
      match amount_val_above_50 (amount_str_of m) with
      | Some _ => Some (amount_str_of m)
      | None => first_above_50 ms'
      end
  end.

Fixpoint fallback_stage (patterns : list regex) (search_text : str)
    : option str :=
  match patterns with
  | [] => None
  | pattern :: patterns' =>
      match first_above_50 (finditer pattern search_text) with
      | Some a => Some a
      | None => fallback_stage patterns' search_text
      end
  end.

(** [extract_amount_from_receipt] (line 861).  After the loop [search_text]
    is bound to its last value, [text], which is what the fallback scans. *)
Definition extract_amount_from_receipt (text : str) : str :=
  let normalized_text := normalize_amount_lines text in
  match search_stages normalized_text with
  | Some a => a
  | None =>
      match search_stages text with
      | Some a => a
      | None =>
          match fallback_stage fallback_patterns text with
          | Some a => a
          | None => []
          end
      end
  end.

(** [E], [i] or [ብ], in either case: every currency word has one. *)
Definition currency_letter : N -> bool := cor (chi 69) (cor (chi 105) (chi 4709)).

(** The characters of ["ETB "] and of a decimal numeral. *)
Definition plain (x : N) : Prop :=
  x = 69%N \/ x = 84%N \/ x = 66%N \/ x = 32%N \/ x = 46%N \/ d09 x = true.

End Amount.

(* ================================================================== *)
(** ** Calendar conversion *)

Module Calendar.
Import Py.

Definition ETHIOPIAN_MONTHS_LIST : list str :=
  [u "Meskerem"; u "Tikimt"; u "Hidar"; u "Tahsas"; u "Tir"; u "Yekatit";
   u "Megabit"; u "Miyazya"; u "Ginbot"; u "Sene"; u "Hamle"; u "Nehase";
   u "Pagume"].

(** A [dict] in insertion order; [d[k] = v] keeps the place of a key that is
    already there. *)
Definition dict := list (str * str).

Fixpoint dict_set (k v : str) (d : dict) : dict :=
  match d with
  | [] => [(k, v)]
  | (k', v') :: d' =>
      if str_eqb k k' then (k, v) :: d' else (k', v') :: dict_set k v d'
  end.

Definition dict_of (items : list (str * str)) : dict :=
  fold_left (fun d kv => dict_set (fst kv) (snd kv) d) items [].

Definition AMHARIC_TO_ETHIOPIAN : dict :=
  dict_of
    [(u "መስከረም", u "Meskerem"); (u "የመስከረም", u "Meskerem");
     (u "ጥቅምት", u "Tikimt"); (u "የጥቅምት", u "Tikimt");
     (u "ጥቅም", u "Tikimt"); (u "የጥቅም", u "Tikimt");
     (u "ህዳር", u "Hidar"); (u "የህዳር", u "Hidar");
     (u "የሕዳር", u "Hidar"); (u "ሕዳር", u "Hidar");
     (u "ታህሳስ", u "Tahsas"); (u "የታህሳስ", u "Tahsas");
     (u "ታህሳ", u "Tahsas"); (u "የታህሳ", u "Tahsas");
     (u "ጥር", u "Tir"); (u "የጥር", u "Tir");
     (u "የካቲት", u "Yekatit"); (u "የካት", u "Yekatit");
     (u "መጋቢት", u "Megabit"); (u "የመጋቢት", u "Megabit");
     (u "መጋቢ", u "Megabit"); (u "የመጋቢ", u "Megabit");
     (u "ሚያዝያ", u "Miyazya"); (u "የሚያዝያ", u "Miyazya");
     (u "ሚያዝ", u "Miyazya"); (u "የሚያዝ", u "Miyazya");
     (u "ግንቦት", u "Ginbot"); (u "የግንቦት", u "Ginbot");
     (u "ግንቦ", u "Ginbot"); (u "የግንቦ", u "Ginbot");
     (u "ሰኔ", u "Sene"); (u "የሰኔ", u "Sene");
     (u "ሐምሌ", u "Hamle"); (u "የሐምሌ", u "Hamle");
     (u "ነሐሴ", u "Nehase"); (u "የነሐሴ", u "Nehase");
     (u "ጳጉሜ", u "Pagume"); (u "የጳጉሜ", u "Pagume")].

(** The literal, then the three module-level updates: the Ethiopian names in
    lower case, ['hedar'], and the Amharic names. *)
Definition GREGORIAN_TO_ETHIOPIAN : dict :=
  let literal :=
    dict_of
      [(u "january", u "Tir"); (u "february", u "Yekatit");
       (u "march", u "Megabit"); (u "april", u "Miyazya");
       (u "may", u "Ginbot"); (u "june", u "Sene"); (u "july", u "Hamle");
       (u "august", u "Nehase"); (u "september", u "Pagume");
       (u "october", u "Meskerem"); (u "november", u "Tikimt");
       (u "december", u "Hidar");
       (u "jan", u "Tir"); (u "feb", u "Yekatit"); (u "mar", u "Megabit");
       (u "apr", u "Miyazya"); (u "may", u "Ginbot"); (u "jun", u "Sene");
       (u "jul", u "Hamle"); (u "aug", u "Nehase"); (u "sep", u "Pagume");
       (u "oct", u "Meskerem"); (u "nov", u "Tikimt"); (u "dec", u "Hidar")] in
  let with_months :=
    fold_left (fun d eth_month => dict_set (lower eth_month) eth_month d)
              ETHIOPIAN_MONTHS_LIST literal in
  let with_hedar := dict_set (u "hedar") (u "Hidar") with_months in
  fold_left (fun d kv => dict_set (fst kv) (snd kv) d)
            AMHARIC_TO_ETHIOPIAN with_hedar.

(** The three loops of [convert_to_ethiopian_month]. *)
Fixpoint scan_ethiopian (months : list str) (text text_lower : str)
    : option str :=
  match months with
  | [] => None
  | eth_month :: months' =>
      if contains (lower eth_month) text_lower || contains eth_month text
      then Some eth_month
      else scan_ethiopian months' text text_lower
  end.

Fixpoint scan_dict (items : dict) (hay : str) : option str :=
  match items with
  | [] => None
  | (name, month) :: items' =>
      if contains name hay then Some month else scan_dict items' hay
  end.

(** [convert_to_ethiopian_month] (line 1485) *)
Definition convert_to_ethiopian_month (text : str) : str :=
  let text_lower := lower text in
  match scan_ethiopian ETHIOPIAN_MONTHS_LIST text text_lower with
  | Some eth_month => eth_month
  | None =>
      match scan_dict AMHARIC_TO_ETHIOPIAN text with
      | Some english_name => english_name
      | None =>
          match scan_dict GREGORIAN_TO_ETHIOPIAN text_lower with
          | Some ethiopian => ethiopian
          | None => []
          end
      end
  end.

End Calendar.

(* ================================================================== *)
(** ** Beneficiary validation *)

Module Beneficiary.
Import Py Re.

(** [r'AND\s*/\s*OR'], [r'&'], [r'[^\w\s]'], [r'\s+'] *)
Definition and_or_pattern : regex :=
  seqs [lit "AND"; star is_space; Chr (ch 47); star is_space; lit "OR"].
Definition ampersand_pattern : regex := Chr (ch 38).
Definition punctuation_pattern : regex := Chr (cnot (cor is_word is_space)).
Definition spaces_pattern : regex := plus is_space.

(** [normalize_name] (line 1321) *)
Definition normalize_name (name : str) : str :=
  if negb (truthy name) then []
  else
    let name := upper name in
    let name := re_sub and_or_pattern (u "AND OR") name in
    let name := re_sub ampersand_pattern (u "AND") name in
    let name := re_sub punctuation_pattern (u " ") name in
    strip (re_sub spaces_pattern (u " ") name).

Definition connectors : list str :=
  [u "AND"; u "OR"; u "ANDOR"; u "THE"; u "OF"; u "TO"; u "A"; u "AN";
   u "&"; u "/"].

Definition authorized_tokens : list str :=
  [u "SEYOUM"; u "SEYSOA"; u "SEYSOM"; u "SEYSUM"; u "SEYOAM";
   u "ASSEFA"; u "ASEFA"; u "ASEFFA";
   u "SENAIT"; u "SENIET"; u "SENAYT"; u "SENAITE";
   u "DAGNIE"; u "DAGNE"; u "DAGINE"; u "DAGNY"; u "DAGNHE"].

(** Python sets are kept as lists; only membership and emptiness are
    observed.  [a - b] and [a & b]: *)
Definition set_diff (a b : list str) : list str :=
  filter (fun t => negb (mem t b)) a.
Definition set_inter (a b : list str) : list str :=
  filter (fun t => mem t b) a.

(** [validate_beneficiary] (line 1337) *)
Definition validate_beneficiary (beneficiary_text : str) : bool * str :=
  if negb (truthy beneficiary_text) then (false, [])
  else
    let normalized := normalize_name beneficiary_text in
    let extracted_tokens := split_ws normalized in
    let extracted_tokens_clean := set_diff extracted_tokens connectors in
    let matching_tokens := set_inter extracted_tokens_clean authorized_tokens in
    match matching_tokens with
    | _ :: _ => (true, normalized)
    | [] => (false, normalized)
    end.

End Beneficiary.

(* ================================================================== *)
(** ** House number extraction *)

Module House.
Import Py Re.

(** [(\d{3,4})] *)
Definition house_group : regex := Grp 1 (times 3 4 is_digit).
(** [[:.]?] *)
Definition colon_dot_opt : regex := Opt (Chr (one_of (u ":."))).

(** [r'ቤት\s*ቁጥር\s*[:.]?\s*(\d{3,4})'] *)
Definition house_pattern_amharic : regex :=
  seqs [lit "ቤት"; star is_space; lit "ቁጥር"; star is_space; colon_dot_opt;
        star is_space; house_group].

(** [r'(?:H\.?\s*No\.?|H-No\.?|House)\s*[:.]?\s*(\d{3,4})'], IGNORECASE *)
Definition house_pattern_english : regex :=
  seqs [alts [seqs [liti "H"; Opt (Chr (ch 46)); star is_space; liti "No";
                    Opt (Chr (ch 46))];
              seqs [liti "H-No"; Opt (Chr (ch 46))];
              liti "House"];
        star is_space; colon_dot_opt; star is_space; house_group].

(** [r'ቁጥር?\s*[:.]?\s*(\d{3,4})']: the [?] binds the last letter only. *)
Definition house_pattern_short : regex :=
  seqs [lit "ቁጥ"; Opt (lit "ር"); star is_space; colon_dot_opt;
        star is_space; house_group].

(** [r'https?://\S+'] and [r'FT\d+\w*'] *)
Definition url_pattern : regex :=
  seqs [lit "http"; Opt (lit "s"); lit "://"; plus (cnot is_space)].
Definition ft_pattern : regex :=
  seqs [lit "FT"; plus is_digit; star is_word].

(** [r'[0-9]+'] *)
Definition number_pattern : regex := plus Amount.d09.

(** [r'ቁ|ብሎክ|ወር|H\.?No|Block'], IGNORECASE *)
Definition keyword_pattern : regex :=
  alts [lit "ቁ"; lit "ብሎክ"; lit "ወር";
        seqs [liti "H"; Opt (Chr (ch 46)); liti "No"]; liti "Block"].

(** [r'(\d{1,2})\s*/\s*(\d{1,2})'] and [r'(\d{1,2})\s+(\d{1,2})'] *)
Definition slash_pattern : regex :=
  seqs [Grp 1 (times 1 2 is_digit); star is_space; Chr (ch 47);
        star is_space; Grp 2 (times 1 2 is_digit)].
Definition space_pattern : regex :=
  seqs [Grp 1 (times 1 2 is_digit); plus is_space;
        Grp 2 (times 1 2 is_digit)].

Definition len_3_or_4 (s : str) : bool :=
  (length s =? 3)%nat || (length s =? 4)%nat.

(** The filter of [all_numbers]: 3 or 4 digits, not a year, not ending in 0. *)
Definition is_valid_number (num : str) : bool :=
  len_3_or_4 num
  && negb ((length num =? 4)%nat
           && (startswith num (u "19") || startswith num (u "20")))
  && negb (endswith num (u "0")).

Definition valid_numbers (caption : str) : list str :=
  let clean_caption := re_sub url_pattern [] caption in
  let clean_caption := re_sub ft_pattern [] clean_caption in
  filter is_valid_number (findall number_pattern clean_caption).

Definition is_short_text (caption : str) : bool := (length caption <? 100)%nat.

Definition has_keywords (caption : str) : bool :=
  match re_search keyword_pattern caption with
  | Some _ => true
  | None => false
  end.

(** The two last resorts: digits joined over a slash, or over spaces. *)
Definition combined_of (p : regex) (caption : str) : option str :=
  match re_search p caption with
  | Some m =>
      let combined := group m 1 ++ group m 2 in
      if len_3_or_4 combined then Some combined else None
  | None => None
  end.

(** Priority 4 and below, once no labelled pattern matched. *)
Definition generic_scan (caption : str) : str :=
  match valid_numbers caption with
  | first :: others =>
      if has_keywords caption || is_short_text caption
      then first
      else last others first
  | [] =>
      match combined_of slash_pattern caption with
      | Some combined => combined
      | None =>
          match combined_of space_pattern caption with
          | Some combined => combined
          | None => []
          end
      end
  end.

(** [extract_house_from_caption] (line 1391) *)
Definition extract_house_from_caption (caption : str) : str :=
  if negb (truthy caption) then []
  else
    match re_search house_pattern_amharic caption with
    | Some m => group m 1
    | None =>
        match re_search house_pattern_english caption with
        | Some m => group m 1
        | None =>
            match re_search house_pattern_short caption with
            | Some m => group m 1
            | None => generic_scan caption
            end
        end
    end.

End House.

(* ================================================================== *)
(** ** Extracted payments *)

(** The dictionary returned by the extractors and kept in
    [user_last_submissions[chat_id][user_id]['data']]. *)
Record payment : Type := Payment {
  house_number : Py.str;
  amount : Py.str;
  transaction_id : Py.str;
  reason : Py.str;
  month : Py.str;
  beneficiary : Py.str
}.

(* ================================================================== *)
(** ** The extraction orchestrator: house number, amount and month *)

Module Orchestrator.
Import Py Re.

(** [[0-9.]] *)
Definition d09_dot : N -> bool := cor Amount.d09 (ch 46).

(** [r'(?:amount|birr|ብር)[:\s]+([0-9.]+)'] and [r'([0-9.]+)\s*(?:birr|ብር)'] *)
Definition amount_label_pattern : regex :=
  seqs [alts [lit "amount"; lit "birr"; lit "ብር"]; plus Amount.colon_space;
        Grp 1 (plus d09_dot)].
Definition amount_currency_pattern : regex :=
  seqs [Grp 1 (plus d09_dot); star is_space; alts [lit "birr"; lit "ብር"]].

(** [r'(?:house|ቤት|home)[:\s]+([0-9]{3,4})'] *)
Definition house_label_pattern : regex :=
  seqs [alts [lit "house"; lit "ቤት"; lit "home"]; plus Amount.colon_space;
        Grp 1 (times 3 4 Amount.d09)].

(** [r'(?:month|ወር)[:\s]+(\w+)'] *)
Definition month_label_pattern : regex :=
  seqs [alts [lit "month"; lit "ወር"]; plus Amount.colon_space;
        Grp 1 (plus is_word)].

(** [r'^[0-9.]+$'] *)
Definition bare_number_pattern : regex :=
  seqs [Bol false; plus d09_dot; Eol].

Definition group1 (m : option mobj) : option str :=
  option_map (fun m => group m 1) m.

(** Truth value of a variable that is [None] or a string. *)
Definition given (x : option str) : bool :=
  match x with Some s => truthy s | None => false end.

Definition is_match (m : option mobj) : bool :=
  match m with Some _ => true | None => false end.

Definition explicit_amount_of (is_edit_mode : bool) (user_text : str)
    : option str :=
  if is_edit_mode && truthy user_text then
    let user_lower := strip (lower user_text) in
    match re_search amount_label_pattern user_lower with
    | Some amount_match => Some (group amount_match 1)
    | None => group1 (re_search amount_currency_pattern user_lower)
    end
  else None.

Definition explicit_house_of (is_edit_mode : bool) (user_text : str)
    : option str :=
  if is_edit_mode && truthy user_text
  then group1 (re_search house_label_pattern (strip (lower user_text)))
  else None.

Definition explicit_month_of (is_edit_mode : bool) (user_text : str)
    : option str :=
  if is_edit_mode && truthy user_text
  then group1 (re_search month_label_pattern (strip (lower user_text)))
  else None.

(** [re.match(r'^[0-9.]+$', user_text.strip())] *)
Definition bare_number_match (user_text : str) : bool :=
  is_match (re_match bare_number_pattern (strip user_text)).

(** [original_data.get('house_number')] when it is there and not empty. *)
Definition original_house (original_data : option payment) : str :=
  match original_data with
  | Some d => house_number d
  | None => []
  end.

(** The first [if]/[elif] chain: the house number and [is_bare_number]. *)
Definition house_from_user_text (user_text : str) (is_edit_mode : bool)
    (original_data : option payment) : str * bool :=
  let explicit_amount := explicit_amount_of is_edit_mode user_text in
  let explicit_house := explicit_house_of is_edit_mode user_text in
  let explicit_month := explicit_month_of is_edit_mode user_text in
  if given explicit_house then
    (match explicit_house with Some h => h | None => [] end, false)
  else if is_edit_mode && truthy user_text then
    if bare_number_match user_text || given explicit_amount
       || given explicit_month
    then (original_house original_data, true)
    else (House.extract_house_from_caption user_text, false)
  else if truthy user_text
  then (House.extract_house_from_caption user_text, false)
  else ([], false).

Definition resolve_house (combined_text caption user_text : str)
    (is_edit_mode : bool) (original_data : option payment) : str :=
  let combined :=
    if truthy caption then caption ++ u (String "010" "") ++ combined_text
    else combined_text in
  let '(house_number, is_bare_number) :=
    house_from_user_text user_text is_edit_mode original_data in
  let house_number :=
    if negb (truthy house_number) && truthy caption
       && negb (is_edit_mode && is_bare_number)
    then House.extract_house_from_caption caption else house_number in
  if negb (truthy house_number) && negb (is_edit_mode && is_bare_number)
  then House.extract_house_from_caption combined else house_number.

Definition resolve_amount (combined_text caption user_text : str)
    (is_edit_mode : bool) : str :=
  let combined :=
    if truthy caption then caption ++ u (String "010" "") ++ combined_text
    else combined_text in
  let explicit_amount := explicit_amount_of is_edit_mode user_text in
  if given explicit_amount then
    match explicit_amount with Some a => a | None => [] end
  else if is_edit_mode && truthy user_text then
    if bare_number_match user_text then strip user_text
    else Amount.extract_amount_from_receipt combined
  else Amount.extract_amount_from_receipt combined.

Definition resolve_month (combined_text caption user_text : str)
    (is_edit_mode : bool) : str :=
  let combined :=
    if truthy caption then caption ++ u (String "010" "") ++ combined_text
    else combined_text in
  let explicit_month := explicit_month_of is_edit_mode user_text in
  let month :=
    if given explicit_month then
      Calendar.convert_to_ethiopian_month
        match explicit_month with Some m => m | None => [] end
    else if is_edit_mode && truthy user_text then
      if negb (bare_number_match user_text)
      then Calendar.convert_to_ethiopian_month user_text else []
    else if truthy user_text
    then Calendar.convert_to_ethiopian_month user_text
    else [] in
  let month :=
    if negb (truthy month) && truthy caption
    then Calendar.convert_to_ethiopian_month caption else month in
  if negb (truthy month)
  then Calendar.convert_to_ethiopian_month combined else month.

(** The fields of [extract_payment_data_buffered] (line 1604) that the
    edit-mode rule decides.  The date, transaction id, payer name, reason and beneficiary
    are computed from the texts alone and are not part of this record. *)
Record resolved : Type := Resolved {
  r_house_number : str;
  r_amount : str;
  r_month : str
}.

Definition extract_payment_data_buffered (combined_text caption user_text : str)
    (is_edit_mode : bool) (original_data : option payment) : resolved :=
  Resolved
    (resolve_house combined_text caption user_text is_edit_mode original_data)
    (resolve_amount combined_text caption user_text is_edit_mode)
    (resolve_month combined_text caption user_text is_edit_mode).

End Orchestrator.

(* ================================================================== *)
(** ** The ledger and the save phase of [process_buffered_messages] *)

Module Ledger.
Import Py PyFloat.

(** A worksheet is its grid of cells, row by row, each cell holding what was
    entered into it (a formula keeps its text, a number is kept as Python
    prints it).  [get_all_values] returns the grid; the house-number and
    FT No cells that the code reads from it hold plain text. *)
Definition sheet := list (list str).

(** [setup_sheets(chat_id)]: the worksheets by reason, in [dict] order. *)
Definition book := list (str * sheet).

(** One call of [Worksheet.update]. *)
Record write : Type := Write { w_sheet : str; w_label : str; w_value : str }.

(** The state the save phase works on: the worksheets, the calls of
    [update] made so far (latest first) and
    [user_last_submissions[chat_id][user_id]['data']]. *)
Record world : Type := World {
  sheets : book;
  log : list write;
  last_submission : option payment
}.

Fixpoint get_sheet (name : str) (b : book) : option sheet :=
  match b with
  | [] => None
  | (n, sh) :: b' => if str_eqb name n then Some sh else get_sheet name b'
  end.

Fixpoint put_sheet (name : str) (sh : sheet) (b : book) : book :=
  match b with
  | [] => []
  | (n, sh') :: b' =>
      if str_eqb name n then (n, sh) :: b' else (n, sh') :: put_sheet name sh b'
  end.

(** *** Cell addresses *)

Definition is_letter (c : N) : bool := is_ascii_alpha c.

(** The column of a run of letters, counted from 1 ([A] is 1, [AA] is 27). *)
Definition column_of_letters (ls : str) : nat :=
  fold_left (fun a c => (a * 26 + (N.to_nat (upper_cp c) - 64))%nat) ls 0%nat.

Fixpoint span_letters (s : str) : str * str :=
  match s with
  | [] => ([], [])
  | c :: r =>
      if is_letter c
      then let '(ls, tl) := span_letters r in (c :: ls, tl)
      else ([], s)
  end.

(** The A1 notation the spreadsheet accepts: letters, then a row number
    that does not start with 0.  The result counts rows and columns from 0. *)
Definition a1_to_rowcol (label : str) : option (nat * nat) :=
  let '(ls, ds) := span_letters label in
  match ls, ds with
  | _ :: _, d :: _ =>
      if forallb is_digit ds && negb (d =? 48)%N
      then Some (N.to_nat (digits_val (char_digits ds)) - 1,
                 column_of_letters ls - 1)%nat
      else None
  | _, _ => None
  end.

Fixpoint set_nth (A : Type) (d : A) (n : nat) (v : A) (l : list A) : list A :=
  match n, l with
  | O, [] => [v]
  | O, _ :: t => v :: t
  | S n', [] => d :: set_nth d n' v []
  | S n', x :: t => x :: set_nth d n' v t
  end.

Definition get_cell (sh : sheet) (r c : nat) : str := nth c (nth r sh []) [].

Definition set_cell (sh : sheet) (r c : nat) (v : str) : sheet :=
  set_nth [] r (set_nth [] c v (nth r sh [])) sh.

(** [sheet.update(label, [[value]])] on the worksheet [name]: [None] when
    the call raises (an address that is not A1 notation). *)
Definition update (w : world) (name label value : str) : option world :=
  match get_sheet name (sheets w), a1_to_rowcol label with
  | Some sh, Some (r, c) =>
      Some (World (put_sheet name (set_cell sh r c value) (sheets w))
                  (Write name label value :: log w)
                  (last_submission w))
  | _, _ => None
  end.

(** [sheet.acell(label, value_render_option='FORMULA').value] *)
Definition acell (sh : sheet) (label : str) : option str :=
  match a1_to_rowcol label with
  | Some (r, c) => Some (get_cell sh r c)
  | None => None
  end.

(** The cell of worksheet [name] at the row [row_index] (counted from 1, as
    [enumerate(..., start=3)] does) and the column [col_idx] (from 0). *)
Definition cell_of (w : world) (name : str) (row_index col_idx : nat)
    : option str :=
  option_map (fun sh => get_cell sh (row_index - 1) col_idx)
             (get_sheet name (sheets w)).

(** Two states with the same worksheet names and the same stored last
    submission. *)
Definition same_frame (w w' : world) : Prop :=
  last_submission w' = last_submission w
  /\ forall n, get_sheet n (sheets w') = None <-> get_sheet n (sheets w) = None.

(** *** The steps of the save phase *)

(** The nested [col_idx_to_letter]; [fuel] bounds the [while] loop, which
    runs at most [idx + 1] times. *)
Fixpoint col_idx_to_letter_go (fuel idx : nat) (result : str) : str :=
  match fuel with
  | O => result
  | S fuel' =>
      let result := chr (65 + idx mod 26) :: result in
      if (idx / 26 =? 0)%nat then result
      else col_idx_to_letter_go fuel' (idx / 26 - 1) result
  end.

Definition col_idx_to_letter (idx : nat) : str :=
  col_idx_to_letter_go (S idx) idx [].

(** [for idx, row in enumerate(rows, start=idx)] looking for the house. *)
Fixpoint find_row_from (idx : nat) (rows : sheet) (house : str) : option nat :=
  match rows with
  | [] => None
  | row :: rows' =>
      if (1 <? length row)%nat
         && str_eqb (strip (nth 1 row [])) (strip house)
      then Some idx
      else find_row_from (S idx) rows' house
  end.

(** The row of the house: the header rows are skipped, data starts at 3. *)
Definition find_row (all_values : sheet) (house : str) : option nat :=
  find_row_from 3 (skipn 2 all_values) house.

Fixpoint index_of (x : str) (xs : list str) : option nat :=
  match xs with
  | [] => None
  | y :: ys =>
      if str_eqb x y then Some 0%nat else option_map S (index_of x ys)
  end.

(** [range(4, len(row), 2)]: the FT No columns of a row. *)
Definition ft_columns (row : list str) : list nat :=
  map (fun k => (4 + 2 * k)%nat) (seq 0 ((length row - 4 + 1) / 2)).

(** [cell_value and txid.strip() in [t.strip() for t in cell_value.split(',')]]
    for [cell_value = row[col_idx].strip()] *)
Definition holds_txid (row : list str) (col_idx : nat) (txid : str) : bool :=
  let cell_value := strip (nth col_idx row []) in
  truthy cell_value && mem (strip txid) (map strip (split_on 44 cell_value)).

(** The [try] block that clears an old entry: the flag tells whether both
    updates went through; an update made before the one that raised stays. *)
Definition clear_entry (w : world) (name : str) (idx col_idx : nat)
    : world * bool :=
  let amount_col_idx_old := (col_idx - 1)%nat in
  let amount_cell := chr (65 + amount_col_idx_old) :: str_of_nat idx in
  let ftno_cell := chr (65 + col_idx) :: str_of_nat idx in
  match update w name amount_cell [] with
  | None => (w, false)
  | Some w1 =>
      match update w1 name ftno_cell [] with
      | None => (w1, false)
      | Some w2 => (w2, true)
      end
  end.

Fixpoint delete_in_columns (cols : list nat) (row : list str) (name txid : str)
    (idx : nat) (w : world) : world * bool :=
  match cols with
  | [] => (w, false)
  | col_idx :: cols' =>
      if holds_txid row col_idx txid then
        let '(w', ok) := clear_entry w name idx col_idx in
        if ok then (w', true)
        else delete_in_columns cols' row name txid idx w'
      else delete_in_columns cols' row name txid idx w
  end.

Fixpoint delete_in_rows (idx : nat) (rows : sheet) (name house txid : str)
    (w : world) : world * bool :=
  match rows with
  | [] => (w, false)
  | row :: rows' =>
      if (1 <? length row)%nat
         && str_eqb (strip (nth 1 row [])) (strip house)
      then
        let '(w', old_entry_deleted) :=
          delete_in_columns (ft_columns row) row name txid idx w in
        if old_entry_deleted then (w', true)
        else delete_in_rows (S idx) rows' name house txid w'
      else delete_in_rows (S idx) rows' name house txid w
  end.

(** [for sheet_reason, sheet in sheets.items()], over the names. *)
Fixpoint delete_in_sheets (names : list str) (house txid : str) (w : world)
    : world * bool :=
  match names with
  | [] => (w, false)
  | name :: names' =>
      let sheet_values :=
        match get_sheet name (sheets w) with Some sh => sh | None => [] end in
      let '(w', old_entry_deleted) :=
        delete_in_rows 3 (skipn 2 sheet_values) name house txid w in
      if old_entry_deleted then (w', true)
      else delete_in_sheets names' house txid w'
  end.

(** EDIT MODE: DELETE OLD ENTRY *)
Definition delete_old_entry (is_edit_mode : bool) (house txid : str) (w : world)
    : world :=
  if is_edit_mode && truthy txid && truthy (strip txid)
  then fst (delete_in_sheets (map fst (sheets w)) house txid w)
  else w.

(** The duplicate scan: the sheet and row of the first FT No cell that
    holds the transaction id. *)
Fixpoint duplicate_in_rows (idx : nat) (rows : sheet) (txid : str) : option nat :=
  match rows with
  | [] => None
  | row :: rows' =>
      if existsb (fun col_idx => holds_txid row col_idx txid) (ft_columns row)
      then Some idx
      else duplicate_in_rows (S idx) rows' txid
  end.

Fixpoint duplicate_in_sheets (b : book) (txid : str) : option (str * nat) :=
  match b with
  | [] => None
  | (sheet_reason, sh) :: b' =>
      match duplicate_in_rows 3 (skipn 2 sh) txid with
      | Some idx => Some (sheet_reason, idx)
      | None => duplicate_in_sheets b' txid
      end
  end.

(** What [amount_value] and [final_amount] hold: a float or a string. *)
Inductive pyval : Type :=
| VFloat (x : float)
| VStr (s : str).

(** [f"{v}"], and the text a cell holds once [v] is entered. *)
Definition render (v : pyval) : str :=
  match v with
  | VFloat x => str_of_float x
  | VStr s => s
  end.

(** [float(data['amount'])], or the string itself when that raises.  The
    amount is not empty here. *)
Definition amount_value_of (amount : str) : pyval :=
  match float_of_str amount with
  | Some x => VFloat x
  | None => VStr amount
  end.

(** [current_amount]: the formula of the amount cell without its [=], or
    the cell of [all_values] when reading the formula raised. *)
Definition read_current_amount (target : sheet) (all_values : sheet)
    (row_index amount_col_idx : nat) : str :=
  let amount_cell := col_idx_to_letter amount_col_idx ++ str_of_nat row_index in
  match acell target amount_cell with
  | Some value =>
      let current_amount := if truthy value then strip value else [] in
      if startswith current_amount (u "=")
      then skipn 1 current_amount else current_amount
  | None =>
      let row := nth (row_index - 1) all_values [] in
      if (amount_col_idx <? length row)%nat
      then strip (nth amount_col_idx row []) else []
  end.

Definition read_current_txid (all_values : sheet) (row_index ftno_col_idx : nat)
    : str :=
  let row := nth (row_index - 1) all_values [] in
  if (ftno_col_idx <? length row)%nat
  then strip (nth ftno_col_idx row []) else [].

(** The amount terms and the transaction ids left once the old ones are
    taken out. *)
Definition remaining_amount_of (old_amount current_amount : str) : str :=
  if truthy old_amount && truthy current_amount then
    let amount_parts := split_on 43 current_amount in
    let amount_parts :=
      map strip
          (filter (fun p => negb (str_eqb (strip p) (strip old_amount)))
                  amount_parts) in
    match amount_parts with
    | [] => []
    | _ => join (u "+") amount_parts
    end
  else current_amount.

Definition remaining_txid_of (old_txid current_txid : str) : str :=
  if truthy old_txid && truthy current_txid then
    let txid_parts := map strip (split_on 44 current_txid) in
    let txid_parts :=
      filter (fun p => negb (str_eqb (strip p) (strip old_txid))) txid_parts in
    match txid_parts with
    | [] => []
    | _ => join (u ", ") txid_parts
    end
  else current_txid.

(** [final_amount] and [final_txid] *)
Definition final_values (is_edit_mode : bool) (last : option payment)
    (current_amount current_txid : str) (amount_value : pyval) (txid : str)
    : pyval * str :=
  if is_edit_mode then
    match last with
    | Some old =>
        let old_amount := amount old in
        let old_txid := transaction_id old in
        let remaining_amount := remaining_amount_of old_amount current_amount in
        let remaining_txid := remaining_txid_of old_txid current_txid in
        (if truthy remaining_amount
         then VStr (remaining_amount ++ u "+" ++ render amount_value)
         else amount_value,
         if truthy remaining_txid
         then remaining_txid ++ u ", " ++ txid
         else txid)
    | None => (amount_value, txid)
    end
  else
    (if truthy current_amount
     then VStr (current_amount ++ u "+" ++ render amount_value)
     else amount_value,
     if truthy current_txid
     then current_txid ++ u ", " ++ txid
     else txid).

(** [final_amount_for_sheet] *)
Definition for_sheet (final_amount : pyval) : pyval :=
  match final_amount with
  | VStr s => if contains (u "+") s then VStr (u "=" ++ s) else VStr s
  | VFloat x => VFloat x
  end.

Inductive outcome : Type :=
| Saved
| ExtractionIncomplete
| BeneficiaryUnverified
| NoSheetForReason
| UnknownHouse
| UnknownMonth
| DuplicateTransaction (sheet_reason : str) (row : nat)
| SaveFailed.

(** The save phase of [process_buffered_messages] (lines 2109-2508), from
    the check that an amount is present to the two updates of the target
    cells and the record of the submission, on the worksheets [sheets w] that
    [setup_sheets] returned at line 2208; [Startup.save_phase] has the
    set-up itself, which writes when it is the first after a start.  [data]
    is what [extract_payment_data_buffered] returned.  The replies sent to
    the chat and the clearing of the message buffers are not part of the
    state. *)
Definition finalize (is_edit_mode : bool) (data : payment) (w : world)
    : outcome * world :=
  if negb (truthy (amount data)) then (ExtractionIncomplete, w)
  else if negb (fst (Beneficiary.validate_beneficiary (beneficiary data)))
  then (BeneficiaryUnverified, w)
  else
    match get_sheet (reason data) (sheets w) with
    | None => (NoSheetForReason, w)
    | Some target_sheet =>
        let amount_value := amount_value_of (amount data) in
        let txid := transaction_id data in
        let all_values := target_sheet in
        match find_row all_values (house_number data) with
        | None => (UnknownHouse, w)
        | Some row_index =>
            match index_of (month data) Calendar.ETHIOPIAN_MONTHS_LIST with
            | None => (UnknownMonth, w)
            | Some month_index =>
                let amount_col_idx := (3 + month_index * 2)%nat in
                let ftno_col_idx := (amount_col_idx + 1)%nat in
                let w1 :=
                  delete_old_entry is_edit_mode (house_number data) txid w in
                match
                  if negb is_edit_mode && truthy txid && truthy (strip txid)
                  then duplicate_in_sheets (sheets w1) txid else None
                with
                | Some (duplicate_sheet, duplicate_row) =>
                    (DuplicateTransaction duplicate_sheet duplicate_row, w1)
                | None =>
                    let amount_col := col_idx_to_letter amount_col_idx in
                    let ftno_col := col_idx_to_letter ftno_col_idx in
                    let target_now :=
                      match get_sheet (reason data) (sheets w1) with
                      | Some sh => sh
                      | None => []
                      end in
                    let current_amount :=
                      read_current_amount target_now all_values row_index
                                          amount_col_idx in
                    let current_txid :=
                      read_current_txid all_values row_index ftno_col_idx in
                    let '(final_amount, final_txid) :=
                      final_values is_edit_mode (last_submission w1)
                                   current_amount current_txid amount_value
                                   txid in
                    let final_amount_for_sheet := for_sheet final_amount in
                    match
                      update w1 (reason data)
                             (amount_col ++ str_of_nat row_index)
                             (render final_amount_for_sheet)
                    with
                    | None => (SaveFailed, w1)
                    | Some w2 =>
                        match
                          update w2 (reason data)
                                 (ftno_col ++ str_of_nat row_index) final_txid
                        with
                        | None => (SaveFailed, w2)
                        | Some w3 =>
                            (Saved,
                             World (sheets w3) (log w3) (Some data))
                        end
                    end
                end
            end
        end
    end.

End Ledger.

(* ================================================================== *)
(** ** A ledger to run the save phase on *)

Module Scenario.
Import Py Ledger.

(** The two header rows that [setup_sheets] writes. *)
Definition header_row1 : list str :=
  [u "No"; u "H.No"; u "Name"]
  ++ flat_map (fun month => [month; []]) Calendar.ETHIOPIAN_MONTHS_LIST
  ++ [u "Remark"].

Definition header_row2 : list str :=
  [[]; []; []]
  ++ flat_map (fun _ => [u "Amount"; u "FT No"]) Calendar.ETHIOPIAN_MONTHS_LIST
  ++ [[]].

(** A house row: number, house, name and the month cells from column 3 on,
    filled up with empty cells to the Remark column. *)
Definition house_row (no house name : string) (cells : list str) : list str :=
  [u no; u house; u name] ++ cells ++ repeat [] (27 - length cells).

(** The water worksheet: in row 5, house 407 has two contributions in the
    Meskerem cells, 500 with FT111 and 300 with FT222, and one in the Tikimt
    cells with the transaction id ABC123456789. *)
Definition water : sheet :=
  [header_row1; header_row2;
   house_row "1" "101" "Abebe" [];
   house_row "2" "205" "Kebede" [];
   house_row "3" "407" "Almaz"
     [u "=500+300"; u "FT111, FT222"; u "1250.0"; u "ABC123456789"];
   house_row "" "TOTAL" "" []].

Definition electricity : sheet :=
  [header_row1; header_row2;
   house_row "1" "101" "Abebe" [];
   house_row "2" "205" "Kebede" [];
   house_row "3" "407" "Almaz" [];
   house_row "" "TOTAL" "" []].

Definition ledger : book := [(u "water", water); (u "electricity", electricity)].

Definition account : str := u "SEYOUM ASSEFA AND OR SENAIT DAGNE".

(** The submission the user made before: 500 for Meskerem, FT111. *)
Definition previous : payment :=
  Payment (u "407") (u "500") (u "FT111") (u "water") (u "Meskerem") account.

(** The corrected submission: the same receipt, the amount now 700. *)
Definition corrected : payment :=
  Payment (u "407") (u "700") (u "FT111") (u "water") (u "Meskerem") account.

(** A submission with a transaction id of its own. *)
Definition fresh : payment :=
  Payment (u "407") (u "700") (u "FT999") (u "water") (u "Meskerem") account.

(** A submission that carries the transaction id of the Tikimt cell. *)
Definition repeated : payment :=
  Payment (u "407") (u "1250.00") (u "ABC123456789") (u "water") (u "Tir")
          account.

Definition with_previous : world := World ledger [] (Some previous).
Definition without_previous : world := World ledger [] None.

End Scenario.

(* ================================================================== *)
(** ** Blank text *)

Module Text.
Import Py.

(** Text made of white space only, which [strip] takes off. *)
Definition blank (s : str) : Prop := Forall (fun c => is_space c = true) s.

(** Code points of the Ethiopic block U+1200..U+137C to which Unicode gives
    no character. *)
Definition unassigned_ethiopic (c : N) : bool :=
  existsb (N.eqb c)
    [4681; 4686; 4687; 4695; 4697; 4702; 4703; 4745; 4750; 4751; 4785; 4790;
     4791; 4799; 4801; 4806; 4807; 4823; 4881; 4886; 4887; 4955; 4956]%N.

(** The characters on which the tables of [Py] are those of Python: ASCII,
    Unicode white space and the assigned characters of the Ethiopic block.
    Outside them [str.upper], [str.lower], [\d], [\w] and letter ranges
    under [re.IGNORECASE] follow the Unicode database ([\d] takes the digits
    of every script, [[a-z]] takes U+212A), which the tables do not. *)
Definition tabled (c : N) : bool :=
  (c <? 128)%N || is_space c
  || ((4608 <=? c) && (c <=? 4988))%N && negb (unassigned_ethiopic c).

(** A text written with those characters only. *)
Definition tabled_text (s : str) : bool := forallb tabled s.

(** A house number as the ledger has them: three or four decimal digits. *)
Definition three_or_four_digits (h : str) : Prop :=
  Forall (fun c => is_digit c = true) h
  /\ (length h = 3%nat \/ length h = 4%nat).

(** What [re.sub(r'\s+', ' ', s)] leaves: every run of white space gives one
    space; [in_run] tells that the run has begun. *)
Fixpoint squeeze (in_run : bool) (s : str) : str :=
  match s with
  | [] => []
  | c :: r =>
      if is_space c
      then if in_run then squeeze true r else 32%N :: squeeze true r
      else c :: squeeze false r
  end.

(** Every white-space character is a space and stands before a character
    that is not white space, or at the end. *)
Fixpoint single_spaced (s : str) : bool :=
  match s with
  | [] => true
  | c :: r =>
      (if is_space c
       then (c =? 32)%N
            && match r with [] => true | d :: _ => negb (is_space d) end
       else true)
      && single_spaced r
  end.

(** The text is empty or begins with a character that is not white space. *)
Definition head_nonspace (s : str) : Prop :=
  match s with [] => True | d :: _ => is_space d = false end.

End Text.

(* ================================================================== *)
(** ** The numbers and the keywords of a caption *)

(** The generic scan in the words of the specification: the numbers of a
    text, the candidates among them and the keywords, written without the
    [re] module.  They are compared with [House.valid_numbers] and
    [House.has_keywords], which follow the code. *)
Module Caption.
Import Py.



(** A number that may be a house number: three digits, or four that do not
    begin with 19 or 20, and the last digit is not 0. *)
Definition candidate (num : str) : bool :=
  match num with
  | [_; _; c] => negb (c =? 48)%N
  | [a; b; _; d] =>
      negb (d =? 48)%N
      && negb ((a =? 49) && (b =? 57))%N
      && negb ((a =? 50) && (b =? 48))%N
  | _ => false
  end.




End Caption.

(* ================================================================== *)
(** ** What a pattern can match *)

Module Matching.
Import Py Re.

(** [moved c pre c']: consuming [pre] from the position [c] leads to [c']. *)
Definition moved (c : cursor) (pre : str) (c' : cursor) : Prop :=
  rest c = pre ++ rest c'
  /\ pos c' = (pos c + length pre)%nat
  /\ prev c' = last_prev pre (prev c).

(** The matches of a pattern at a position, whatever their priority: the
    position reached and the groups captured on the way. *)
Inductive matches : regex -> cursor -> caps -> cursor -> caps -> Prop :=
| M_eps (c : cursor) (g : caps) : matches Eps c g c g
| M_chr (p : N -> bool) (c : cursor) (g : caps) (x : N) (s : str) :
    rest c = x :: s -> p x = true ->
    matches (Chr p) c g (Cursor (S (pos c)) (Some x) s) g
| M_seq (a b : regex) (c c1 c2 : cursor) (g g1 g2 : caps) :
    matches a c g c1 g1 -> matches b c1 g1 c2 g2 ->
    matches (Seq a b) c g c2 g2
| M_alt_l (a b : regex) (c c' : cursor) (g g' : caps) :
    matches a c g c' g' -> matches (Alt a b) c g c' g'
| M_alt_r (a b : regex) (c c' : cursor) (g g' : caps) :
    matches b c g c' g' -> matches (Alt a b) c g c' g'
| M_opt_some (a : regex) (c c' : cursor) (g g' : caps) :
    matches a c g c' g' -> matches (Opt a) c g c' g'
| M_opt_none (a : regex) (c : cursor) (g : caps) : matches (Opt a) c g c g
| M_rep (lo : nat) (hi : option nat) (p : N -> bool) (c c' : cursor)
    (g : caps) (xs : str) :
    Forall (fun x => p x = true) xs ->
    (lo <= length xs)%nat ->
    match hi with Some h => (length xs <= h)%nat | None => True end ->
    moved c xs c' ->
    matches (Rep lo hi p) c g c' g
| M_lazy (p : N -> bool) (c c' : cursor) (g : caps) (xs : str) :
    Forall (fun x => p x = true) xs ->
    moved c xs c' ->
    matches (Lazy p) c g c' g
| M_grp (i : nat) (a : regex) (c c' : cursor) (g g' : caps) :
    matches a c g c' g' ->
    matches (Grp i a) c g c' ((i, firstn (pos c' - pos c) (rest c)) :: g')
| M_bol (ml : bool) (c : cursor) (g : caps) :
    (pos c =? 0)%nat
    || (ml && match prev c with Some x => (x =? 10)%N | None => false end)
    = true ->
    matches (Bol ml) c g c g
| M_eol (c : cursor) (g : caps) :
    rest c = [] \/ rest c = [10%N] -> matches Eol c g c g.

(** Patterns without capturing groups. *)
Fixpoint no_groups (r : regex) : bool :=
  match r with
  | Seq a b | Alt a b => no_groups a && no_groups b
  | Opt a => no_groups a
  | Grp _ _ => false
  | _ => true
  end.

(** The least number of characters a match of the pattern takes. *)
Fixpoint min_len (r : regex) : nat :=
  match r with
  | Chr _ => 1
  | Seq a b => min_len a + min_len b
  | Alt a b => Nat.min (min_len a) (min_len b)
  | Rep lo _ _ => lo
  | Grp _ a => min_len a
  | _ => 0
  end.

(** [Only P r]: a match of [r] takes characters of [P] only. *)
Inductive Only (P : N -> Prop) : regex -> Prop :=
| Only_eps : Only P Eps
| Only_chr (p : N -> bool) : (forall x, p x = true -> P x) -> Only P (Chr p)
| Only_seq (a b : regex) : Only P a -> Only P b -> Only P (Seq a b)
| Only_alt (a b : regex) : Only P a -> Only P b -> Only P (Alt a b)
| Only_opt (a : regex) : Only P a -> Only P (Opt a)
| Only_rep (lo : nat) (hi : option nat) (p : N -> bool) :
    (forall x, p x = true -> P x) -> Only P (Rep lo hi p)
| Only_lazy (p : N -> bool) :
    (forall x, p x = true -> P x) -> Only P (Lazy p)
| Only_grp (i : nat) (a : regex) : Only P a -> Only P (Grp i a)
| Only_bol (ml : bool) : Only P (Bol ml)
| Only_eol : Only P Eol.

(** The position [pre] characters into a text. *)
Definition cursor_at (pre post : str) : cursor :=
  Cursor (length pre) (last_prev pre None) post.

End Matching.

(* ================================================================== *)
(** ** Column letters and the save of the history scanner *)

Module Scanner.
Import Py PyFloat Ledger.

(** The nested [num_to_col] of [setup_sheets] (lines 562 and 629), for a
    column counted from 1; [fuel] bounds the [while] loop, which runs at most
    [n] times. *)
Fixpoint num_to_col_go (fuel n : nat) (string : str) : str :=
  match fuel with
  | O => string
  | S fuel' =>
      if (0 <? n)%nat then
        let remainder := ((n - 1) mod 26)%nat in
        let n := ((n - 1) / 26)%nat in
        num_to_col_go fuel' n (chr (65 + remainder) :: string)
      else string
  end.

Definition num_to_col (n : nat) : str := num_to_col_go n n [].

(** The nested [col_to_letter] of [save_to_sheets] (line 717), for a column
    counted from 0; the loop runs at most [idx + 1] times. *)
Fixpoint col_to_letter_go (fuel idx : nat) (result : str) : str :=
  match fuel with
  | O => result
  | S fuel' =>
      let result := chr (65 + idx mod 26) :: result in
      if (idx / 26 =? 0)%nat then result
      else col_to_letter_go fuel' (idx / 26 - 1) result
  end.

Definition col_to_letter (idx : nat) : str := col_to_letter_go (S idx) idx [].

(** What [save_to_sheets] enters into the amount cell: a formula text, a
    float or the integer [0]. *)
Inductive entered : Type :=
| EStr (s : str)
| EFloat (x : float)
| EInt (n : N).

(** The text a cell holds once the value is entered. *)
Definition text_of (v : entered) : str :=
  match v with
  | EStr s => s
  | EFloat x => str_of_float x
  | EInt n => str_of_N n
  end.

(** [all_values[row_index - 1][col].strip() if len(all_values[row_index - 1]) > col else ''] *)
Definition cell_text (all_values : sheet) (row_index col : nat) : str :=
  let row := nth (row_index - 1) all_values [] in
  if (col <? length row)%nat then strip (nth col row []) else [].

(** [final_amount]: [None] when [float(amount)] raises. *)
Definition final_amount_of (current_amount amount : str) : option entered :=
  if truthy current_amount
  then Some (EStr (u "=" ++ current_amount ++ u "+" ++ amount))
  else if truthy amount then option_map EFloat (float_of_str amount)
  else Some (EInt 0).

Definition final_txid_of (current_txid txid : str) : str :=
  if truthy current_txid then current_txid ++ u ", " ++ txid else txid.

(** [save_to_sheets] (line 676), on the worksheets of the group: the value
    returned and the ledger it leaves.  Any exception inside the [try] block
    ends the call with [False]; an update made before it stays.
    [get_all_values] gives every cell as the spreadsheet shows it (a formula
    by its value); [shown] is that rendering of what a cell holds, which is
    the spreadsheet's and not the repository's. *)
Definition save_to_sheets (shown : str -> str) (w : world)
    (house_number amount txid month reason : str) : bool * world :=
  let '(target_sheet, reason) :=
    match get_sheet reason (sheets w) with
    | Some sh => (Some sh, reason)
    | None => (get_sheet (u "other") (sheets w), u "other")
    end in
  match target_sheet with
  | None => (false, w)
  | Some target_sheet =>
      let all_values := map (map shown) target_sheet in
      match find_row all_values house_number with
      | None => (false, w)
      | Some row_index =>
          let month :=
            if mem month Calendar.ETHIOPIAN_MONTHS_LIST then month
            else u "Tir" in
          match index_of month Calendar.ETHIOPIAN_MONTHS_LIST with
          | None => (false, w)
          | Some month_index =>
              let amount_col_idx := (3 + month_index * 2)%nat in
              let ftno_col_idx := (amount_col_idx + 1)%nat in
              let amount_col := col_to_letter amount_col_idx in
              let ftno_col := col_to_letter ftno_col_idx in
              let current_amount :=
                cell_text all_values row_index amount_col_idx in
              let current_txid := cell_text all_values row_index ftno_col_idx in
              match final_amount_of current_amount amount with
              | None => (false, w)
              | Some final_amount =>
                  let final_txid := final_txid_of current_txid txid in
                  match
                    update w reason (amount_col ++ str_of_nat row_index)
                           (text_of final_amount)
                  with
                  | None => (false, w)
                  | Some w1 =>
                      match
                        update w1 reason (ftno_col ++ str_of_nat row_index)
                               final_txid
                      with
                      | None => (false, w1)
                      | Some w2 => (true, w2)
                      end
                  end
              end
          end
      end
  end.

End Scanner.

(* ================================================================== *)
(** ** The worksheets that [setup_sheets] builds *)

Module Setup.
Import Py Ledger Scanner.

(** [row_data] of a house: its number in the list, the house number, the
    name, two empty cells for every month and one for the remark. *)
Definition row_data (idx : nat) (house_num house_name : str) : list str :=
  [str_of_nat idx; house_num; house_name]
  ++ repeat [] (length Calendar.ETHIOPIAN_MONTHS_LIST * 2)
  ++ [[]].

(** [for idx, house_num in enumerate(sorted_houses, start=1)], each house with
    its name [house_map[house_num]]. *)
Fixpoint all_house_rows_from (idx : nat) (houses : list (str * str)) : sheet :=
  match houses with
  | [] => []
  | (house_num, house_name) :: houses' =>
      row_data idx house_num house_name
      :: all_house_rows_from (S idx) houses'
  end.

(** [f'=SUM({amount_col_letter}{data_start_row}:{amount_col_letter}{data_end_row})'] *)
Definition sum_formula (amount_col_letter : str)
    (data_start_row data_end_row : nat) : str :=
  u "=SUM(" ++ amount_col_letter ++ str_of_nat data_start_row ++ u ":"
    ++ amount_col_letter ++ str_of_nat data_end_row ++ u ")".

(** [totals_row_data] (lines 560 and 641) *)
Definition totals_row_data (data_start_row data_end_row : nat) : list str :=
  [[]; u "TOTAL"; []]
  ++ flat_map
       (fun month_idx =>
          let amount_col_idx := (3 + month_idx * 2)%nat in
          let amount_col_letter := num_to_col (amount_col_idx + 1) in
          [sum_formula amount_col_letter data_start_row data_end_row; []])
       (seq 0 (length Calendar.ETHIOPIAN_MONTHS_LIST))
  ++ [[]].

(** The grid of a worksheet that [setup_sheets] creates or rebuilds (lines
    596 to 663): the two header rows at [A1], the house rows from [A3] on
    and the totals row after them; without houses, the header rows only. *)
Definition new_worksheet (houses : list (str * str)) : sheet :=
  let all_house_rows := all_house_rows_from 1 houses in
  [Scenario.header_row1; Scenario.header_row2]
  ++ match all_house_rows with
     | [] => []
     | _ :: _ =>
         let end_row := (2 + length all_house_rows)%nat in
         let totals_row_num := (end_row + 1)%nat in
         all_house_rows ++ [totals_row_data 3 end_row]
     end.

(** The range of the batch update of the house rows,
    [f'A3:{end_col}{end_row}'], by its last cell. *)
Definition house_rows_end (houses : list (str * str)) : str :=
  let end_row := (2 + length (all_house_rows_from 1 houses))%nat in
  let num_cols := (3 + length Calendar.ETHIOPIAN_MONTHS_LIST * 2 + 1)%nat in
  num_to_col num_cols ++ str_of_nat end_row.

(** What [setup_sheets] decides for a worksheet that exists (lines 537 to
    587): it keeps it, adds a totals row, or clears and rebuilds it;
    [CreateNew] is the bare [except], entered on an [IndexError]. *)
Inductive decision : Type :=
| Keep
| AddTotals
| Rebuild
| CreateNew.

Definition has_correct_headers (all_values : sheet) : bool :=
  let row0 := nth 0 all_values [] in
  let row1 := nth 1 all_values [] in
  (4 <? length row0)%nat
  && str_eqb (nth 3 row0 []) (nth 0 Calendar.ETHIOPIAN_MONTHS_LIST [])
  && str_eqb (nth 4 row0 []) []
  && (4 <? length row1)%nat
  && str_eqb (nth 3 row1 []) (u "Amount")
  && str_eqb (nth 4 row1 []) (u "FT No").

(** [any(row[1] == 'TOTAL' for row in rows)]: [None] when [row[1]] raises
    before a totals row is met. *)
Fixpoint any_total (rows : sheet) : option bool :=
  match rows with
  | [] => Some false
  | row :: rows' =>
      match nth_error row 1 with
      | None => None
      | Some cell => if str_eqb cell (u "TOTAL") then Some true
                     else any_total rows'
      end
  end.

Definition has_totals_row (all_values : sheet) : option bool :=
  if (3 <? length all_values)%nat then any_total (skipn 2 all_values)
  else Some false.

Definition existing_sheet (all_values : sheet) : decision :=
  if (1 <? length all_values)%nat then
    match nth_error (nth 0 all_values []) 0 with
    | None => CreateNew
    | Some cell =>
        if str_eqb cell (u "No") then
          match has_totals_row all_values with
          | None => CreateNew
          | Some has_totals_row =>
              if has_correct_headers all_values && has_totals_row then Keep
              else if has_correct_headers all_values && negb has_totals_row
              then AddTotals
              else Rebuild
          end
        else Rebuild
    end
  else Rebuild.

(** The grid after the totals row is added to a worksheet that lacks it
    (lines 557 to 578). *)
Definition add_totals (all_values : sheet) : sheet :=
  let totals_row_num := (length all_values + 1)%nat in
  all_values ++ [totals_row_data 3 (totals_row_num - 1)].

End Setup.

(* ================================================================== *)
(** ** The reason of a payment *)

Module Reason.
Import Py.

(** [PAYMENT_REASONS], in [dict] order. *)
Definition PAYMENT_REASONS : list (str * list str) :=
  [(u "water",
    [u "ውሃ"; u "water"; u "wuha"; u "weha"; u "የውሀ"; u "ውሀ"; u "wiha";
     u "የውሃ"; u "የውሀ ክፍያ"; u "የውሃ ክፍያ"; u "wha"; u "ውኃ"; u "የዉሃ";
     u "ዉሃ"; u "የዉሀ"; u "ዉሀ"; u "የዉሃ ክፍያ"; u "ዉኃ"; u "የዉኃ"]);
   (u "electricity",
    [u "ኤሌክትሪክ"; u "የመብራት"; u "ሙቀት"; u "electricity"; u "electric";
     u "power"; u "መብራት"]);
   (u "development",
    [u "የልማት"; u "ልማት"; u "አካባቢ"; u "ጥገና"; u "ጤና"; u "development";
     u "environmental"; u "environment"; u "maintenance"; u "repair";
     u "health"; u "medical"; u "hospital"; u "doctor"]);
   (u "penalty",
    [u "ቅጣት"; u "የቅጣት"; u "penalty"; u "fine"; u "ketat"; u "ktat";
     u "kitat"]);
   (u "other", [u "ያልታወቀ"; u "other"; u "unknown"])].

(** [kw.lower() in text_lower or kw in combined] *)
Definition keyword_in (combined text_lower kw : str) : bool :=
  contains (lower kw) text_lower || contains kw combined.

(** [for r, keywords in PAYMENT_REASONS.items()]: the inner loop sets
    [reason] at the first keyword found, the outer one stops once [reason]
    is no longer ['other']. *)
Fixpoint scan_reasons (items : list (str * list str))
    (combined text_lower reason : str) : str :=
  match items with
  | [] => reason
  | (r, keywords) :: items' =>
      let reason :=
        if existsb (keyword_in combined text_lower) keywords then r
        else reason in
      if negb (str_eqb reason (u "other")) then reason
      else scan_reasons items' combined text_lower reason
  end.

(** The reason of [extract_payment_data] (lines 1574-1583) and of
    [extract_payment_data_buffered] (lines 1768-1781). *)
Definition reason_of (combined : str) : str :=
  scan_reasons PAYMENT_REASONS combined (lower combined) (u "other").

End Reason.

(* ================================================================== *)
(** ** Set-up of the worksheets, then the save phase *)

Module Startup.
Import Py Ledger Setup.

(** What [setup_sheets(chat_id)] finds: the chat in [sheets_cache] (a set-up
    went through since the bot was started), a chat that is not in
    [GROUP_CONFIGS], or a first set-up, with the houses of the group sorted
    by number, each with its name. *)
Inductive cache : Type :=
| Cached
| Unconfigured
| NotCached (sorted_houses : list (str * str)).

(** One turn of the loop over the reasons (lines 525 to 667), by the grid of
    the worksheet before and after: a worksheet that is missing is created
    and filled, one that exists is kept, given a totals row, or cleared and
    filled again.  [None]: the bare [except] was entered for a worksheet
    that exists, where [add_worksheet] raises for the title taken. *)
Definition setup_sheet (sorted_houses : list (str * str))
    (existing : option sheet) : option sheet :=
  match existing with
  | None => Some (new_worksheet sorted_houses)
  | Some all_values =>
      match existing_sheet all_values with
      | Keep => Some all_values
      | AddTotals => Some (add_totals all_values)
      | Rebuild => Some (new_worksheet sorted_houses)
      | CreateNew => None
      end
  end.

(** The worksheet [name] of the spreadsheet set to the grid [sh]; a new
    worksheet comes last. *)
Definition store (name : str) (sh : sheet) (spreadsheet : book) : book :=
  match get_sheet name spreadsheet with
  | Some _ => put_sheet name sh spreadsheet
  | None => spreadsheet ++ [(name, sh)]
  end.

(** [for reason in PAYMENT_REASONS.keys()]: the flag is [false] when a turn
    raised; what the turns before it wrote stays. *)
Fixpoint setup_loop (sorted_houses : list (str * str)) (reasons : list str)
    (spreadsheet : book) : bool * book :=
  match reasons with
  | [] => (true, spreadsheet)
  | reason :: reasons' =>
      match setup_sheet sorted_houses (get_sheet reason spreadsheet) with
      | None => (false, spreadsheet)
      | Some sh => setup_loop sorted_houses reasons' (store reason sh spreadsheet)
      end
  end.

(** [setup_sheets] (line 491): the [dict] it returns ([None] from the outer
    [except]) and the state it leaves.  Before the set-up [sheets w] is the
    worksheets of the spreadsheet; after a set-up that went through it is
    the [dict], one worksheet for each reason in the order of
    [PAYMENT_REASONS].  The set-up writes whole rows; they are not entered
    in [log], which lists the one-cell updates of the save phase. *)
Definition setup_sheets (c : cache) (w : world) : option book * world :=
  match c with
  | Cached => (Some (sheets w), w)
  | Unconfigured => (Some [], w)
  | NotCached sorted_houses =>
      let reasons := map fst Reason.PAYMENT_REASONS in
      let '(done, spreadsheet) := setup_loop sorted_houses reasons (sheets w) in
      if done then
        let sheets :=
          map (fun reason =>
                 (reason,
                  match get_sheet reason spreadsheet with
                  | Some sh => sh
                  | None => []
                  end)) reasons in
        (Some sheets, World sheets (log w) (last_submission w))
      else (None, World spreadsheet (log w) (last_submission w))
  end.

(** [process_buffered_messages] from the check of the amount (line 2110) on:
    the amount, the beneficiary, then [sheets = setup_sheets(chat_id)]
    (line 2208) and, with [sheets.get(reason) if sheets else None], the rest
    of the save phase on the worksheets returned. *)
Definition save_phase (c : cache) (is_edit_mode : bool) (data : payment)
    (w : world) : outcome * world :=
  if negb (truthy (amount data)) then (ExtractionIncomplete, w)
  else if negb (fst (Beneficiary.validate_beneficiary (beneficiary data)))
  then (BeneficiaryUnverified, w)
  else
    match setup_sheets c w with
    | (Some (_ :: _), w0) => finalize is_edit_mode data w0
    | (_, w0) => (NoSheetForReason, w0)
    end.

(** [sheets], as the save phase has it from [setup_sheets]: no worksheet
    when the set-up returned [None]. *)
Definition opened (c : cache) (w : world) : book :=
  match fst (setup_sheets c w) with
  | Some sheets => sheets
  | None => []
  end.

(** The worksheets are those of the reasons, each in the format that the
    set-up keeps as it is: a first set-up writes nothing. *)
Definition settled (w : world) : Prop :=
  map fst (sheets w) = map fst Reason.PAYMENT_REASONS
  /\ Forall (fun sh => existing_sheet sh = Keep) (map snd (sheets w)).

(** *** A spreadsheet to start on *)

Definition houses : list (str * str) :=
  [(u "101", u "Abebe"); (u "205", u "Kebede"); (u "407", u "Almaz")].

(** The five worksheets, the water worksheet being [water]. *)
Definition five_sheets (water : sheet) : book :=
  [(u "water", water);
   (u "electricity", Scenario.electricity);
   (u "development", new_worksheet houses);
   (u "penalty", new_worksheet houses);
   (u "other", new_worksheet houses)].

(** The water worksheet before house 407 paid for Tikimt. *)
Definition water_before : sheet :=
  [Scenario.header_row1; Scenario.header_row2;
   Scenario.house_row "1" "101" "Abebe" [];
   Scenario.house_row "2" "205" "Kebede" [];
   Scenario.house_row "3" "407" "Almaz" [u "=500+300"; u "FT111, FT222"];
   Scenario.house_row "" "TOTAL" "" []].

(** The bot has just been started: nothing is cached, no update has been
    made and no submission is stored. *)
Definition first_start : world := World (five_sheets water_before) [] None.

(** The payment for Tikimt, with the transaction id ABC123456789. *)
Definition tikimt : payment :=
  Payment (u "407") (u "1250.0") (u "ABC123456789") (u "water") (u "Tikimt")
          Scenario.account.

(** The state once that payment has been saved: the worksheets are cached,
    the water worksheet is that of [Scenario] and the payment is the last
    submission of the user. *)
Definition running : world :=
  snd (save_phase (NotCached houses) false tikimt first_start).

(** The water worksheet of [Scenario] without its totals row. *)
Definition water_without_totals : sheet := firstn 5 Scenario.water.

(** The bot has just been started, and the water worksheet lacks its totals
    row. *)
Definition started : world := World (five_sheets water_without_totals) [] None.

End Startup.

(* ================================================================== *)
(** ** Groups, administrators and the history link *)

Module Groups.
Import Py.

(** An entry of [GROUP_CONFIGS]: the keys the functions below read, each
    absent or present. *)
Record group_config : Type := GroupConfig {
  cfg_name : option str;
  cfg_admin_user_ids : option (list Z)
}.

(** [GROUP_CONFIGS]: a [dict] from chat ids, in insertion order. *)
Definition configs := list (Z * group_config).

(** [d.get(chat_id)] and [chat_id in d] *)
Fixpoint lookup (chat_id : Z) (d : configs) : option group_config :=
  match d with
  | [] => None
  | (k, v) :: d' => if (chat_id =? k)%Z then Some v else lookup chat_id d'
  end.

Definition configured (chat_id : Z) (d : configs) : bool :=
  match lookup chat_id d with Some _ => true | None => false end.

(** [d[chat_id] = v] *)
Fixpoint put (chat_id : Z) (v : group_config) (d : configs) : configs :=
  match d with
  | [] => [(chat_id, v)]
  | (k, v') :: d' =>
      if (chat_id =? k)%Z then (k, v) :: d' else (k, v') :: put chat_id v d'
  end.

(** [group_config.get('admin_user_ids', [])] *)
Definition admin_ids (c : group_config) : list Z :=
  match cfg_admin_user_ids c with Some ids => ids | None => [] end.

(** [user_id in admin_ids] *)
Definition is_in (user_id : Z) (ids : list Z) : bool :=
  existsb (fun x => (user_id =? x)%Z) ids.

(** [is_admin] (line 3162) *)
Definition is_admin (GROUP_CONFIGS : configs) (user_id chat_id : Z) : bool :=
  match lookup chat_id GROUP_CONFIGS with
  | Some group_config => is_in user_id (admin_ids group_config)
  | None =>
      existsb (fun kv => is_in user_id (admin_ids (snd kv))) GROUP_CONFIGS
  end.

(** [get_admin_groups] (line 3181) *)
Definition get_admin_groups (GROUP_CONFIGS : configs) (user_id : Z) : configs :=
  fold_left
    (fun admin_groups kv =>
       if is_in user_id (admin_ids (snd kv))
       then put (fst kv) (snd kv) admin_groups
       else admin_groups)
    GROUP_CONFIGS [].

(** [str(n)] for an integer *)
Definition str_of_int (n : Z) : str :=
  match n with
  | Z0 => u "0"
  | Zpos p => str_of_N (Npos p)
  | Zneg p => u "-" ++ str_of_N (Npos p)
  end.

(** What [handle_admin_command] (line 3466) answers with: the refusal, the
    group selector with its buttons (the group each one selects and the name
    it shows), or the panel of a group; [Raised] is an [IndexError] or a
    [KeyError]. *)
Inductive admin_reply : Type :=
| NoAdminAccess
| SelectGroup (buttons : list (Z * str))
| AdminPanel (admin_group_id : Z) (group_name : str)
| Raised.

Definition handle_admin_command (GROUP_CONFIGS : configs)
    (user_id chat_id : Z) : admin_reply :=
  if negb (is_admin GROUP_CONFIGS user_id chat_id) then NoAdminAccess
  else
    let admin_groups := get_admin_groups GROUP_CONFIGS user_id in
    if negb (configured chat_id GROUP_CONFIGS)
       && (1 <? length admin_groups)%nat
    then
      SelectGroup
        (map (fun kv =>
                let group_chat_id := fst kv in
                let group_name :=
                  match cfg_name (snd kv) with
                  | Some name => name
                  | None => u "Group " ++ str_of_int group_chat_id
                  end in
                (group_chat_id, group_name))
             admin_groups)
    else
      let chat_id' :=
        if negb (configured chat_id GROUP_CONFIGS)
        then option_map fst (nth_error admin_groups 0)
        else Some chat_id in
      match chat_id' with
      | None => Raised
      | Some chat_id =>
          match lookup chat_id GROUP_CONFIGS with
          | None => Raised
          | Some group_config =>
              AdminPanel chat_id
                match cfg_name group_config with
                | Some name => name
                | None => u "Group"
                end
          end
      end.

End Groups.

Module History.
Import Py Groups.

(** [int(s)] for a field of [split('_')], which holds no underscore: white
    space around, a sign, decimal digits; [None] where [ValueError] is
    raised. *)
Definition int_of_str (s : str) : option Z :=
  let s := strip s in
  let '(negative, ds) :=
    match s with
    | c :: r =>
        if (c =? 45)%N then (true, r)
        else if (c =? 43)%N then (false, r)
        else (false, s)
    | [] => (false, s)
    end in
  if truthy ds && forallb is_digit ds then
    let v := Z.of_N (digits_val (char_digits ds)) in
    Some (if negative then (- v)%Z else v)
  else None.

(** The start parameter of the history button,
    [history_{user_id}_{data['house_number']}_{chat_id}] (line 2514). *)
Definition history_link (user_id : Z) (house_number : str) (chat_id : Z) : str :=
  u "history_" ++ str_of_int user_id ++ u "_" ++ house_number ++ u "_"
    ++ str_of_int chat_id.

(** What [handle_history_deep_link] (line 3300) does with a parameter. *)
Inductive link_reply : Type :=
| InvalidLink
| InvalidLinkFormat
| AccessDenied
| GroupNotFound
| ShowHistory (house_number : str) (group_id : Z).

Definition handle_history_deep_link (GROUP_CONFIGS : configs) (user_id : Z)
    (deep_link_param : str) : link_reply :=
  let parts := split_on 95 deep_link_param in
  if (length parts <? 4)%nat then InvalidLink
  else
    match int_of_str (nth 1 parts []) with
    | None => InvalidLinkFormat
    | Some button_user_id =>
        match int_of_str (last parts []) with
        | None => InvalidLinkFormat
        | Some group_id =>
            let house_number :=
              join (u "_") (firstn (length parts - 1 - 2) (skipn 2 parts)) in
            if negb (user_id =? button_user_id)%Z then AccessDenied
            else if negb (configured group_id GROUP_CONFIGS) then GroupNotFound
            else ShowHistory house_number group_id
        end
    end.

End History.

(* ================================================================== *)
(** ** Date, payer name and typed transaction id *)

Module Receipt.
Import Py Re.

(** [[-/]], and [[a-z]] or [[A-Z]] under [re.IGNORECASE]: the ASCII letters,
    by the case tables of the strings above *)
Definition dash_slash : N -> bool := cor (ch 45) (ch 47).
Definition letter : N -> bool := is_ascii_alpha.
(** [[A-Za-z\s]] and [[A-Z\s]] under [re.IGNORECASE] *)
Definition letter_space : N -> bool := cor is_ascii_alpha is_space.
(** [[A-Z0-9]] under [re.IGNORECASE] *)
Definition letter_digit : N -> bool := cor is_ascii_alpha Amount.d09.

(** [\d{1,2}[-/]\w{3}[-/]\d{4}] *)
Definition day_month_year : regex :=
  seqs [times 1 2 is_digit; Chr dash_slash; times 3 3 is_word; Chr dash_slash;
        times 4 4 is_digit].

(** The three patterns of [extract_date_from_receipt], searched under
    [re.IGNORECASE]. *)
Definition date_pattern_1 : regex := Grp 1 day_month_year.

Definition date_pattern_2 : regex :=
  Grp 1 (seqs [times 1 2 is_digit; plus is_space;
               alts [liti "Jan"; liti "Feb"; liti "Mar"; liti "Apr";
                     liti "May"; liti "Jun"; liti "Jul"; liti "Aug";
                     liti "Sep"; liti "Oct"; liti "Nov"; liti "Dec"];
               star letter; plus is_space; times 4 4 is_digit]).

Definition date_pattern_3 : regex :=
  seqs [liti "on"; plus is_space; Grp 1 day_month_year].

Definition date_patterns : list regex :=
  [date_pattern_1; date_pattern_2; date_pattern_3].

(** [for pattern in patterns: match = re.search(...); if match: return
    match.group(1)], and [""] after the loop. *)
Fixpoint first_group (patterns : list regex) (text : str) : str :=
  match patterns with
  | [] => []
  | pattern :: patterns' =>
      match re_search pattern text with
      | Some m => group m 1
      | None => first_group patterns' text
      end
  end.

(** [extract_date_from_receipt] (line 973) *)
Definition extract_date_from_receipt (text : str) : str :=
  first_group date_patterns text.

(** [([A-Z][A-Za-z\s]+?)] and [([A-Z][A-Z][A-Z\s]{2,}?)] *)
Definition name_group : regex :=
  Grp 1 (seqs [Chr letter; Chr letter_space; Lazy letter_space]).
Definition capitals_group : regex :=
  Grp 1 (seqs [Chr letter; Chr letter; Chr letter_space; Chr letter_space;
               Lazy letter_space]).

(** The three patterns of [extract_name_from_receipt], searched under
    [re.IGNORECASE]. *)
Definition name_patterns : list regex :=
  [seqs [alts [liti "debited from"; liti "from"; liti "paid by"; liti "payer"];
         plus Amount.colon_space; name_group;
         alts [Chr (ch 10); liti "for"; liti "with"]];
   seqs [alts [liti "ABATE"; liti "payer"; liti "account holder"];
         plus Amount.colon_space; name_group;
         alts [Chr (ch 10); liti "for"; liti "on"]];
   seqs [capitals_group; alts [Chr (ch 10); liti "for"; liti "BUNAGO"]]].

(** The loop of [extract_name_from_receipt]: a match whose name is too short
    or too long is passed over. *)
Fixpoint name_loop (patterns : list regex) (text : str) : str :=
  match patterns with
  | [] => []
  | pattern :: patterns' =>
      match re_search pattern text with
      | Some m =>
          let name := strip (group m 1) in
          let name := strip (re_sub (plus is_space) (u " ") name) in
          if (3 <? length name)%nat && (length name <? 50)%nat then name
          else name_loop patterns' text
      | None => name_loop patterns' text
      end
  end.

(** [extract_name_from_receipt] (line 1113) *)
Definition extract_name_from_receipt (text : str) : str :=
  name_loop name_patterns text.

(** The two patterns the typed message is searched with for a transaction
    id (line 1743), under [re.IGNORECASE]. *)
Definition txid_patterns : list regex :=
  [seqs [alts [liti "txid";
               seqs [liti "transaction"; star is_space; liti "id"];
               seqs [liti "tx"; star is_space; liti "id"];
               liti "reference"; liti "ref"];
         plus Amount.colon_space; Grp 1 (Rep 8 None letter_digit)];
   Grp 1 (seqs [times 2 2 Amount.d09; Rep 2 None letter;
                Rep 6 None letter_digit])].

(** [for pattern in txid_patterns: ... txid = match.group(1).upper(); break] *)
Fixpoint txid_loop (patterns : list regex) (user_text : str) : str :=
  match patterns with
  | [] => []
  | pattern :: patterns' =>
      match re_search pattern user_text with
      | Some m => upper (group m 1)
      | None => txid_loop patterns' user_text
      end
  end.

(** [txid] of [extract_payment_data_buffered] before the receipt is
    consulted (lines 1740 to 1752). *)
Definition txid_from_user_text (user_text : str) : str :=
  if truthy user_text then txid_loop txid_patterns user_text else [].

End Receipt.

(* ================================================================== *)
(** * Properties *)

Import Py Re PyFloat.

(** ** Strings *)

Lemma str_eqb_eq (a b : str) : str_eqb a b = true <-> a = b.
Proof.
  unfold str_eqb. destruct (list_eq_dec N.eq_dec a b); split; congruence.
Qed.

Lemma str_eqb_refl (a : str) : str_eqb a a = true.
Proof. now apply str_eqb_eq. Qed.

Lemma mem_In (x : str) (xs : list str) : mem x xs = true <-> In x xs.
Proof.
  unfold mem. rewrite existsb_exists. split.
  - intros (y & Hy & E). apply str_eqb_eq in E. now subst.
  - intros H. exists x. split; [assumption | apply str_eqb_refl].
Qed.

Lemma truthy_nonempty (s : str) : truthy s = true <-> s <> [].
Proof. destruct s; simpl; split; congruence. Qed.

(** A test that fails on every element of a list, decided by running it. *)
Lemma all_miss (A : Type) (f : A -> bool) (l : list A) :
  forallb (fun x => negb (f x)) l = true ->
  forall x, In x l -> f x = false.
Proof.
  intros H x Hin. rewrite forallb_forall in H.
  now apply negb_true_iff, H.
Qed.

Lemma all_miss_keys (f : str -> bool) (items : list (str * str)) :
  forallb (fun kv => negb (f (fst kv))) items = true ->
  forall k v, In (k, v) items -> f k = false.
Proof.
  intros H k v Hin.
  exact (all_miss (fun kv => f (fst kv)) items H (k, v) Hin).
Qed.

(* ================================================================== *)
(** ** Decimal numerals and floats *)

Section Numerals.

Lemma fold_digits (ds : list N) (acc : N) :
  fold_left (fun a d => (10 * a + d)%N) ds acc
  = (acc * 10 ^ N.of_nat (length ds) + digits_val ds)%N.
Proof.
  unfold digits_val. revert acc.
  induction ds as [| d ds IH]; intros acc; cbn [fold_left length].
  - rewrite N.pow_0_r. lia.
  - rewrite IH, (IH (10 * 0 + d)%N).
    rewrite Nat2N.inj_succ, N.pow_succ_r'. lia.
Qed.

Lemma digits_val_app (a b : list N) :
  digits_val (a ++ b)
  = (digits_val a * 10 ^ N.of_nat (length b) + digits_val b)%N.
Proof.
  unfold digits_val at 1. rewrite fold_left_app.
  fold (digits_val a). apply fold_digits.
Qed.

Lemma low_digits_length (k : nat) (n : N) : length (low_digits k n) = k.
Proof.
  revert n. induction k as [| k IH]; intros n; simpl; [reflexivity |].
  rewrite length_app, IH. simpl. lia.
Qed.

Lemma low_digits_val (k : nat) (n : N) :
  digits_val (low_digits k n) = (n mod 10 ^ N.of_nat k)%N.
Proof.
  revert n. induction k as [| k IH]; intros n.
  - simpl. now rewrite N.mod_1_r.
  - cbn [low_digits]. rewrite digits_val_app, IH.
    cbn [length]. change (N.of_nat 1) with 1%N. rewrite N.pow_1_r.
    unfold digits_val at 1. simpl fold_left.
    rewrite Nat2N.inj_succ, N.pow_succ_r'.
    rewrite (N.Div0.mod_mul_r n 10 (10 ^ N.of_nat k)). lia.
Qed.

Lemma low_digits_small (k : nat) (n : N) :
  Forall (fun d => (d < 10)%N) (low_digits k n).
Proof.
  revert n. induction k as [| k IH]; intros n; simpl; [constructor |].
  apply Forall_app. split; [apply IH |].
  constructor; [| constructor]. apply N.mod_lt. lia.
Qed.

Lemma strip_zeros_val (ds : list N) :
  digits_val (strip_zeros ds) = digits_val ds.
Proof.
  induction ds as [| d ds IH]; [reflexivity |].
  simpl. destruct (N.eqb_spec d 0) as [-> | _]; [| reflexivity].
  rewrite IH. change (0%N :: ds) with ([0%N] ++ ds).
  rewrite digits_val_app. reflexivity.
Qed.

Lemma strip_zeros_small (ds : list N) :
  Forall (fun d => (d < 10)%N) ds ->
  Forall (fun d => (d < 10)%N) (strip_zeros ds).
Proof.
  induction 1 as [| d ds Hd Hds IH]; simpl; [constructor |].
  destruct (d =? 0)%N; [assumption | now constructor].
Qed.

Lemma char_digits_digit_chars (ds : list N) : char_digits (digit_chars ds) = ds.
Proof.
  unfold char_digits, digit_chars. rewrite map_map.
  rewrite <- (map_id ds) at 2. apply map_ext. intros d. lia.
Qed.

Lemma digit_chars_all_digits (ds : list N) :
  Forall (fun d => (d < 10)%N) ds -> forallb is_digit (digit_chars ds) = true.
Proof.
  induction 1 as [| d ds Hd Hds IH]; [reflexivity |].
  unfold digit_chars in *. cbn [map forallb].
  rewrite IH, andb_true_r. unfold is_digit.
  apply andb_true_intro. split; apply N.leb_le; lia.
Qed.

Lemma digit_chars_no_dot (ds : list N) :
  Forall (fun d => (d < 10)%N) ds ->
  Forall (fun c => c <> 46%N) (digit_chars ds).
Proof.
  induction 1 as [| d ds Hd Hds IH]; [constructor |].
  unfold digit_chars in *. cbn [map]. constructor; [lia | assumption].
Qed.

Lemma below_pow10 (n : N) : (n < 10 ^ N.of_nat (S (N.to_nat (N.log2 n))))%N.
Proof.
  rewrite Nat2N.inj_succ, N2Nat.id.
  destruct (N.eq_dec n 0) as [-> | Hn]; [reflexivity |].
  apply N.lt_le_trans with (2 ^ N.succ (N.log2 n))%N.
  - apply N.log2_spec. lia.
  - apply N.pow_le_mono_l. lia.
Qed.

(** The numeral of [n]: digits only, not empty, of value [n]. *)
Lemma str_of_N_spec (n : N) :
  exists ds,
    str_of_N n = digit_chars ds
    /\ ds <> []
    /\ Forall (fun d => (d < 10)%N) ds
    /\ digits_val ds = n.
Proof.
  unfold str_of_N.
  set (k := S (N.to_nat (N.log2 n))).
  assert (Hval : digits_val (strip_zeros (low_digits k n)) = n).
  { rewrite strip_zeros_val, low_digits_val.
    apply N.mod_small, below_pow10. }
  assert (Hsm : Forall (fun d => (d < 10)%N) (strip_zeros (low_digits k n)))
    by apply strip_zeros_small, low_digits_small.
  destruct (strip_zeros (low_digits k n)) as [| d ds] eqn:E.
  - exists [0%N]. repeat split; try discriminate.
    + constructor; [lia | constructor].
    + rewrite <- Hval. reflexivity.
  - exists (d :: ds). repeat split; try discriminate; assumption.
Qed.

Lemma split_on_no_sep (sep : N) (s : str) :
  Forall (fun c => c <> sep) s -> split_on sep s = [s].
Proof.
  induction 1 as [| c s Hc Hs IH]; [reflexivity |].
  simpl. destruct (N.eqb_spec c sep); [contradiction |].
  now rewrite IH.
Qed.

Lemma split_on_app_sep (sep : N) (a b : str) :
  Forall (fun c => c <> sep) a ->
  split_on sep (a ++ sep :: b) = a :: split_on sep b.
Proof.
  induction 1 as [| c a Hc Ha IH]; simpl.
  - now rewrite N.eqb_refl.
  - destruct (N.eqb_spec c sep); [contradiction |].
    now rewrite IH.
Qed.

Lemma canon_canonical (m : N) (sc : nat) : canonical (canon m sc).
Proof.
  unfold canonical. revert m.
  induction sc as [| k IH]; intros m; simpl; [reflexivity |].
  destruct (m mod 10 =? 0)%N eqn:E; [apply IH |].
  simpl. now rewrite E.
Qed.

Lemma float_of_str_canonical (s : str) (x : float) :
  float_of_str s = Some x -> canonical x.
Proof.
  unfold float_of_str.
  destruct (split_on 46 s) as [| ip [| fp [| ? ?]]]; try discriminate.
  - destruct (all_digits ip && truthy ip); [| discriminate].
    intros [= <-]. reflexivity.
  - destruct (all_digits ip && all_digits fp && (truthy ip || truthy fp));
      [| discriminate].
    intros [= <-]. apply canon_canonical.
Qed.

(** [float(str(x)) == x] *)
Lemma float_of_str_of_float (x : float) :
  canonical x -> float_of_str (str_of_float x) = Some x.
Proof.
  intros Hc. unfold str_of_float.
  destruct (str_of_N_spec (mant x / pow10 (scale x))) as (ds & -> & Hne & Hsm & Hv).
  unfold float_of_str.
  change (u ".") with [46%N]. cbn [app].
  rewrite split_on_app_sep by now apply digit_chars_no_dot.
  assert (Htr : truthy (digit_chars ds) = true)
    by (destruct ds; [contradiction | reflexivity]).
  destruct x as [m sc]. cbn [scale mant] in *.
  destruct sc as [| k].
  - change (u "0") with (digit_chars [0%N]).
    rewrite split_on_no_sep by (apply digit_chars_no_dot; repeat constructor; lia).
    unfold all_digits.
    rewrite !digit_chars_all_digits by (assumption || (repeat constructor; lia)).
    rewrite Htr. cbn [andb orb].
    unfold digit_chars. rewrite <- map_app. fold (digit_chars (ds ++ [0%N])).
    rewrite char_digits_digit_chars, digits_val_app, Hv.
    unfold pow10. cbn [length Nat.pred]. simpl N.of_nat.
    rewrite N.pow_0_r, N.div_1_r, N.pow_1_r.
    change (digits_val [0%N]) with 0%N. rewrite N.add_0_r.
    change (length (map (fun d : N => (48 + d)%N) [0%N])) with 1%nat.
    cbn [canon].
    rewrite N.Div0.mod_mul, N.eqb_refl, N.div_mul by lia.
    reflexivity.
  - set (p := pow10 (S k)) in *.
    set (fs := low_digits (S k) (m mod p)).
    assert (Hfs : Forall (fun d => (d < 10)%N) fs) by apply low_digits_small.
    rewrite split_on_no_sep by now apply digit_chars_no_dot.
    unfold all_digits.
    rewrite !digit_chars_all_digits by assumption.
    rewrite Htr. cbn [andb orb].
    unfold digit_chars at 1 2. rewrite <- map_app.
    fold (digit_chars (ds ++ fs)).
    rewrite char_digits_digit_chars, digits_val_app, Hv.
    unfold digit_chars. rewrite length_map. unfold fs.
    rewrite low_digits_length, low_digits_val.
    fold (pow10 (S k)). fold p.
    rewrite N.Div0.mod_mod.
    replace (m / p * p + m mod p)%N with m
      by (rewrite (N.div_mod' m p) at 1; lia).
    f_equal. exact Hc.
Qed.


Lemma min_list_In (x : float) (xs : list float) : In (min_list x xs) (x :: xs).
Proof.
  unfold min_list. revert x.
  induction xs as [| y ys IH]; intros x; simpl; [now left |].
  destruct (ltb y x).
  - destruct (IH y) as [E | Hin]; [right; left; exact E | right; right; exact Hin].
  - destruct (IH x) as [E | Hin]; [left; exact E | right; right; exact Hin].
Qed.

End Numerals.

(* ================================================================== *)
(** ** The amount of a receipt whose label and value sit on two lines *)

Section SettledAmount.
Import Amount.

(** C3.  On the text ["Settled Amount\nETB 1,250.00\nTotal with VAT ETB
    1,437.50"] the label line and the value line are joined and the amount
    extractor returns ["1250.00"], the settled amount, not the total with
    VAT ["1437.50"]. *)
Theorem settled_amount_before_vat :
  let text :=
    u "Settled Amount" ++ [10%N] ++ u "ETB 1,250.00" ++ [10%N]
      ++ u "Total with VAT ETB 1,437.50" in
  normalize_amount_lines text
    = u "Settled Amount ETB 1,250.00" ++ [10%N]
        ++ u "Total with VAT ETB 1,437.50"
  /\ extract_amount_from_receipt text = u "1250.00"
  /\ extract_amount_from_receipt text <> u "1437.50".
Proof.
  cbv zeta. split; [vm_compute; reflexivity | split].
  - vm_compute. reflexivity.
  - vm_compute. discriminate.
Qed.

End SettledAmount.

(* ================================================================== *)
(** ** Beneficiary validation *)

Section BeneficiaryFacts.
Import Beneficiary.

Lemma authorized_not_connector (t : str) :
  In t authorized_tokens -> mem t connectors = false.
Proof.
  unfold authorized_tokens. simpl.
  intros H.
  repeat (destruct H as [<- | H]; [vm_compute; reflexivity |]).
  contradiction.
Qed.

(** C5.  A beneficiary text whose normalized form has, among its
    white-space separated tokens, one authorized token is valid, whatever
    the other tokens are; the empty text is invalid. *)
Theorem validate_beneficiary_single_token (beneficiary_text t : str) :
  In t (split_ws (normalize_name beneficiary_text)) ->
  In t authorized_tokens ->
  validate_beneficiary beneficiary_text
    = (true, normalize_name beneficiary_text)
  /\ validate_beneficiary [] = (false, []).
Proof.
  intros Htok Hauth. split; [| reflexivity].
  unfold validate_beneficiary.
  destruct beneficiary_text as [| c r].
  - simpl in Htok. contradiction.
  - cbn [truthy negb].
    assert (Hin : In t (set_inter
                          (set_diff (split_ws (normalize_name (c :: r)))
                                    connectors)
                          authorized_tokens)).
    { unfold set_inter, set_diff. apply filter_In. split.
      - apply filter_In. split; [assumption |].
        now rewrite (authorized_not_connector Hauth).
      - now apply mem_In. }
    destruct (set_inter _ _); [contradiction | reflexivity].
Qed.

Lemma validate_beneficiary_single_token_witness :
  validate_beneficiary (u "Seyoum A. and/or Someone Else")
    = (true, normalize_name (u "Seyoum A. and/or Someone Else"))
  /\ validate_beneficiary [] = (false, []).
Proof.
  apply (@validate_beneficiary_single_token
           (u "Seyoum A. and/or Someone Else") (u "SEYOUM")).
  - vm_compute. left. reflexivity.
  - vm_compute. left. reflexivity.
Defined.

End BeneficiaryFacts.

(* ================================================================== *)
(** ** Calendar conversion *)

Section CalendarFacts.
Import Calendar.

Lemma scan_ethiopian_first (pre : list str) (m : str) (post : list str)
    (text tl : str) :
  contains (lower m) tl || contains m text = true ->
  (forall m', In m' pre ->
     contains (lower m') tl || contains m' text = false) ->
  scan_ethiopian (pre ++ m :: post) text tl = Some m.
Proof.
  intros Hm. induction pre as [| p pre IH]; intros Hpre; simpl.
  - now rewrite Hm.
  - rewrite (Hpre p (or_introl eq_refl)).
    apply IH. intros m' Hin. apply Hpre. now right.
Qed.

Lemma scan_ethiopian_none (months : list str) (text tl : str) :
  (forall m, In m months ->
     contains (lower m) tl || contains m text = false) ->
  scan_ethiopian months text tl = None.
Proof.
  induction months as [| p months IH]; intros H; simpl; [reflexivity |].
  rewrite (H p (or_introl eq_refl)). apply IH.
  intros m Hin. apply H. now right.
Qed.

Lemma scan_dict_first (pre : dict) (k v : str) (post : dict) (hay : str) :
  contains k hay = true ->
  (forall k' v', In (k', v') pre -> contains k' hay = false) ->
  scan_dict (pre ++ (k, v) :: post) hay = Some v.
Proof.
  intros Hk. induction pre as [| [k0 v0] pre IH]; intros Hpre; simpl.
  - now rewrite Hk.
  - rewrite (Hpre k0 v0 (or_introl eq_refl)).
    apply IH. intros k' v' Hin. apply (Hpre k' v'). now right.
Qed.

Lemma scan_dict_none (items : dict) (hay : str) :
  (forall k v, In (k, v) items -> contains k hay = false) ->
  scan_dict items hay = None.
Proof.
  induction items as [| [k0 v0] items IH]; intros H; simpl; [reflexivity |].
  rewrite (H k0 v0 (or_introl eq_refl)). apply IH.
  intros k v Hin. apply (H k v). now right.
Qed.

(** The spellings of the three tables, each converted on its own. *)
Lemma every_spelling_alone :
  forallb (fun m => str_eqb (convert_to_ethiopian_month m) m)
          ETHIOPIAN_MONTHS_LIST
  && forallb (fun kv => str_eqb (convert_to_ethiopian_month (fst kv)) (snd kv))
             AMHARIC_TO_ETHIOPIAN
  && forallb (fun kv => str_eqb (convert_to_ethiopian_month (fst kv)) (snd kv))
             GREGORIAN_TO_ETHIOPIAN
  = true.
Proof. vm_compute. reflexivity. Qed.

(** C6, as stated, fails: the text ["meskerem january"] contains the
    table spelling ["january"], whose month is Tir, and is converted to
    Meskerem, because the Ethiopian names are looked for first. *)
Lemma convert_text_with_two_spellings :
  In (u "january", u "Tir") GREGORIAN_TO_ETHIOPIAN
  /\ contains (u "january") (lower (u "meskerem january")) = true
  /\ convert_to_ethiopian_month (u "meskerem january") = u "Meskerem"
  /\ convert_to_ethiopian_month (u "meskerem january") <> u "Tir".
Proof.
  split; [vm_compute; left; reflexivity |].
  split; [vm_compute; reflexivity |].
  split; [vm_compute; reflexivity | vm_compute; discriminate].
Qed.

(** C6, amended.  Every spelling of the three tables, taken as the whole
    text, is converted to its month (["january"] to Tir, ["october"] to
    Meskerem); a text is converted by the first spelling it contains in the
    order of the search -- the 13 Ethiopian names (in either case), then the
    Amharic table, then the Gregorian table on the lower-cased text --; and a
    text that contains no table entry is converted to the empty string. *)
Theorem convert_first_spelling_in_search_order :
  (forall m, In m ETHIOPIAN_MONTHS_LIST -> convert_to_ethiopian_month m = m)
  /\ (forall k v, In (k, v) AMHARIC_TO_ETHIOPIAN ->
        convert_to_ethiopian_month k = v)
  /\ (forall k v, In (k, v) GREGORIAN_TO_ETHIOPIAN ->
        convert_to_ethiopian_month k = v)
  /\ convert_to_ethiopian_month (u "january") = u "Tir"
  /\ convert_to_ethiopian_month (u "october") = u "Meskerem"
  /\ (forall text pre m post,
        ETHIOPIAN_MONTHS_LIST = pre ++ m :: post ->
        contains (lower m) (lower text) || contains m text = true ->
        (forall m', In m' pre ->
           contains (lower m') (lower text) || contains m' text = false) ->
        convert_to_ethiopian_month text = m)
  /\ (forall text pre k v post,
        AMHARIC_TO_ETHIOPIAN = pre ++ (k, v) :: post ->
        (forall m, In m ETHIOPIAN_MONTHS_LIST ->
           contains (lower m) (lower text) || contains m text = false) ->
        contains k text = true ->
        (forall k' v', In (k', v') pre -> contains k' text = false) ->
        convert_to_ethiopian_month text = v)
  /\ (forall text pre k v post,
        GREGORIAN_TO_ETHIOPIAN = pre ++ (k, v) :: post ->
        (forall m, In m ETHIOPIAN_MONTHS_LIST ->
           contains (lower m) (lower text) || contains m text = false) ->
        (forall k' v', In (k', v') AMHARIC_TO_ETHIOPIAN ->
           contains k' text = false) ->
        contains k (lower text) = true ->
        (forall k' v', In (k', v') pre -> contains k' (lower text) = false) ->
        convert_to_ethiopian_month text = v)
  /\ (forall text,
        (forall m, In m ETHIOPIAN_MONTHS_LIST ->
           contains (lower m) (lower text) || contains m text = false) ->
        (forall k v, In (k, v) AMHARIC_TO_ETHIOPIAN ->
           contains k text = false) ->
        (forall k v, In (k, v) GREGORIAN_TO_ETHIOPIAN ->
           contains k (lower text) = false) ->
        convert_to_ethiopian_month text = []).
Proof.
  pose proof every_spelling_alone as H.
  apply andb_prop in H. destruct H as [H Hg].
  apply andb_prop in H. destruct H as [He Ha].
  rewrite forallb_forall in He, Ha, Hg.
  repeat match goal with |- _ /\ _ => split end.
  - intros m Hm. now apply str_eqb_eq, He.
  - intros k v Hin. apply str_eqb_eq. exact (Ha (k, v) Hin).
  - intros k v Hin. apply str_eqb_eq. exact (Hg (k, v) Hin).
  - vm_compute. reflexivity.
  - vm_compute. reflexivity.
  - intros text pre m post E Hm Hpre.
    unfold convert_to_ethiopian_month. rewrite E.
    now rewrite (scan_ethiopian_first pre m post text (lower text) Hm Hpre).
  - intros text pre k v post E Heth Hk Hpre.
    unfold convert_to_ethiopian_month.
    rewrite (scan_ethiopian_none _ text (lower text) Heth), E.
    now rewrite (scan_dict_first pre k v post text Hk Hpre).
  - intros text pre k v post E Heth Hamh Hk Hpre.
    unfold convert_to_ethiopian_month.
    rewrite (scan_ethiopian_none _ text (lower text) Heth).
    rewrite (scan_dict_none _ text Hamh), E.
    now rewrite (scan_dict_first pre k v post (lower text) Hk Hpre).
  - intros text Heth Hamh Hgre.
    unfold convert_to_ethiopian_month.
    rewrite (scan_ethiopian_none _ text (lower text) Heth).
    rewrite (scan_dict_none _ text Hamh).
    now rewrite (scan_dict_none _ (lower text) Hgre).
Qed.

(** The conversion at a text with a Gregorian name in it, at a text with
    an Amharic name in it and at a text with no month. *)
Lemma convert_first_spelling_in_search_order_witness :
  convert_to_ethiopian_month (u "Paid for January 2024") = u "Tir"
  /\ convert_to_ethiopian_month (u "ቁ 1108 የታህሳስ 2018") = u "Tahsas"
  /\ convert_to_ethiopian_month (u "receipt 407") = [].
Proof.
  destruct convert_first_spelling_in_search_order
    as (_ & _ & _ & _ & _ & _ & Hamh & Hgre & Hnone).
  split; [| split].
  - apply (Hgre (u "Paid for January 2024") [] (u "january") (u "Tir")
                (tl GREGORIAN_TO_ETHIOPIAN)).
    + vm_compute. reflexivity.
    + apply (all_miss
               (fun m => contains (lower m) (lower (u "Paid for January 2024"))
                         || contains m (u "Paid for January 2024"))).
      vm_compute. reflexivity.
    + apply (all_miss_keys (fun k => contains k (u "Paid for January 2024"))).
      vm_compute. reflexivity.
    + vm_compute. reflexivity.
    + intros k' v' [].
  - apply (Hamh (u "ቁ 1108 የታህሳስ 2018")
                (firstn 10 AMHARIC_TO_ETHIOPIAN) (u "ታህሳስ") (u "Tahsas")
                (skipn 11 AMHARIC_TO_ETHIOPIAN)).
    + vm_compute. reflexivity.
    + apply (all_miss
               (fun m => contains (lower m) (lower (u "ቁ 1108 የታህሳስ 2018"))
                         || contains m (u "ቁ 1108 የታህሳስ 2018"))).
      vm_compute. reflexivity.
    + vm_compute. reflexivity.
    + apply (all_miss_keys (fun k => contains k (u "ቁ 1108 የታህሳስ 2018"))).
      vm_compute. reflexivity.
  - apply Hnone.
    + apply (all_miss
               (fun m => contains (lower m) (lower (u "receipt 407"))
                         || contains m (u "receipt 407"))).
      vm_compute. reflexivity.
    + apply (all_miss_keys (fun k => contains k (u "receipt 407"))).
      vm_compute. reflexivity.
    + apply (all_miss_keys (fun k => contains k (lower (u "receipt 407")))).
      vm_compute. reflexivity.
Defined.

End CalendarFacts.

(* ================================================================== *)
(** ** House numbers: the generic scan *)

Section HouseFacts.
Import House.

Lemma valid_numbers_nil : valid_numbers [] = [].
Proof. reflexivity. Qed.

(** A receipt text of 133 characters without keyword: the candidates are
    the account suffix 5521 near the top and 407 near the bottom, and the
    last one is returned. *)
Example long_receipt_takes_last_number :
  let text :=
    u "Commercial Bank of Ethiopia transfer receipt account 1000123456789 suffix 5521 paid to SEYOUM ASSEFA for unit 407 thank you very much" in
  length text = 133%nat
  /\ has_keywords text = false
  /\ valid_numbers text = [u "5521"; u "407"]
  /\ extract_house_from_caption text = u "407".
Proof. vm_compute. repeat split. Qed.

End HouseFacts.

(* ================================================================== *)
(** ** The noise floor of the amount extractor *)

Section NoiseFloor.
Import Amount.

Lemma amount_val_above_50_spec (s : str) (v : float) :
  amount_val_above_50 s = Some v ->
  float_of_str s = Some v /\ gtb v (of_nat 50) = true.
Proof.
  unfold amount_val_above_50.
  destruct (float_of_str s) as [x |]; [| discriminate].
  destruct (gtb x (of_nat 50)) eqn:E; [| discriminate].
  intros [= <-]. now split.
Qed.

(** A candidate that is not above 50 is rejected. *)
Lemma amount_val_not_above_50 (s : str) (v : float) :
  float_of_str s = Some v -> gtb v (of_nat 50) = false ->
  amount_val_above_50 s = None.
Proof.
  intros Hs Hv. unfold amount_val_above_50. now rewrite Hs, Hv.
Qed.

Lemma settled_stage_above_50 (t a : str) :
  settled_stage t = Some a -> above_50 a.
Proof.
  unfold settled_stage.
  destruct (re_search settled_pattern t) as [m |]; [| discriminate].
  destruct (amount_val_above_50 (amount_str_of m)) as [v |] eqn:E;
    [| discriminate].
  intros [= <-]. exists v. now apply amount_val_above_50_spec.
Qed.

Lemma without_vat_stage_above_50 (ps : list regex) (t a : str) :
  without_vat_stage ps t = Some a -> above_50 a.
Proof.
  induction ps as [| p ps IH]; simpl; [discriminate |].
  destruct (re_search p t) as [m |]; [| exact IH].
  destruct (amount_val_above_50 (amount_str_of m)) as [v |] eqn:E;
    [| exact IH].
  intros [= <-]. exists v. now apply amount_val_above_50_spec.
Qed.

Lemma debited_stage_above_50 (t a : str) :
  debited_stage t = Some a -> above_50 a.
Proof.
  unfold debited_stage.
  destruct (re_search debited_pattern t) as [m |]; [| discriminate].
  destruct (amount_val_above_50 (amount_str_of m)) as [v |] eqn:E;
    [| discriminate].
  destruct (negb _); [| discriminate].
  intros [= <-]. exists v. now apply amount_val_above_50_spec.
Qed.

Lemma candidate_above_50 (t : str) (m : mobj) (v : float) :
  In v (candidate t m) -> canonical v /\ gtb v (of_nat 50) = true.
Proof.
  unfold candidate.
  destruct (amount_val_above_50 (amount_str_of m)) as [x |] eqn:E;
    [| intros []].
  apply amount_val_above_50_spec in E. destruct E as [Hf Hg].
  destruct (_ && _); [| intros []].
  intros [<- | []]. split; [| assumption].
  eapply float_of_str_canonical; eassumption.
Qed.

Lemma all_amounts_above_50 (t : str) (v : float) :
  In v (all_amounts t) -> canonical v /\ gtb v (of_nat 50) = true.
Proof.
  unfold all_amounts. intros H.
  apply in_flat_map in H. destruct H as (p & _ & H).
  apply in_flat_map in H. destruct H as (m & _ & H).
  eapply candidate_above_50; eassumption.
Qed.

Lemma standard_stage_above_50 (t a : str) :
  standard_stage t = Some a -> above_50 a.
Proof.
  unfold standard_stage.
  destruct (all_amounts t) as [| x xs] eqn:E; [discriminate |].
  intros [= <-].
  destruct (@all_amounts_above_50 t (min_list x xs)) as [Hc Hg].
  { rewrite E. apply min_list_In. }
  exists (min_list x xs). split; [| assumption].
  now apply float_of_str_of_float.
Qed.

Lemma search_stages_above_50 (t a : str) :
  search_stages t = Some a -> above_50 a.
Proof.
  unfold search_stages.
  destruct (settled_stage t) as [a1 |] eqn:E1.
  { intros [= <-]. eapply settled_stage_above_50; eassumption. }
  destruct (without_vat_stage without_vat_patterns t) as [a2 |] eqn:E2.
  { intros [= <-]. eapply without_vat_stage_above_50; eassumption. }
  destruct (debited_stage t) as [a3 |] eqn:E3.
  { intros [= <-]. eapply debited_stage_above_50; eassumption. }
  apply standard_stage_above_50.
Qed.

Lemma first_above_50_spec (ms : list mobj) (a : str) :
  first_above_50 ms = Some a -> above_50 a.
Proof.
  induction ms as [| m ms IH]; simpl; [discriminate |].
  destruct (amount_val_above_50 (amount_str_of m)) as [v |] eqn:E;
    [| exact IH].
  intros [= <-]. exists v. now apply amount_val_above_50_spec.
Qed.

Lemma fallback_stage_above_50 (ps : list regex) (t a : str) :
  fallback_stage ps t = Some a -> above_50 a.
Proof.
  induction ps as [| p ps IH]; simpl; [discriminate |].
  destruct (first_above_50 (finditer p t)) as [a1 |] eqn:E; [| exact IH].
  intros [= <-]. eapply first_above_50_spec; eassumption.
Qed.

(** What the extractor returns is empty or reads as a float above 50. *)
Lemma extract_amount_above_50 (text : str) :
  extract_amount_from_receipt text = []
  \/ above_50 (extract_amount_from_receipt text).
Proof.
  unfold extract_amount_from_receipt.
  destruct (search_stages (normalize_amount_lines text)) as [a |] eqn:E1.
  { right. eapply search_stages_above_50; eassumption. }
  destruct (search_stages text) as [a |] eqn:E2.
  { right. eapply search_stages_above_50; eassumption. }
  destruct (fallback_stage fallback_patterns text) as [a |] eqn:E3.
  { right. eapply fallback_stage_above_50; eassumption. }
  now left.
Qed.

(** C7.  Whatever the text, a non-empty amount returned by
    [extract_amount_from_receipt] reads as a number [mant / 10 ^ scale]
    above 50, so not below 50: in each stage (settled amount, without VAT,
    debited, generic candidates, standalone fallback) a candidate passes the
    test [amount_val > 50] before it is returned or collected. *)
Theorem extracted_amount_not_below_50 (text : str) :
  extract_amount_from_receipt text <> [] ->
  exists v,
    float_of_str (extract_amount_from_receipt text) = Some v
    /\ (50 * pow10 (scale v) < mant v)%N
    /\ ltb v (of_nat 50) = false.
Proof.
  intros Hne.
  destruct (extract_amount_above_50 text) as [E | (v & Hf & Hg)];
    [contradiction |].
  exists v. split; [assumption |].
  unfold gtb, ltb, of_nat in Hg. cbn [mant scale] in Hg.
  apply N.ltb_lt in Hg.
  change (pow10 0) with 1%N in Hg. change (N.of_nat 50) with 50%N in Hg.
  split; [lia |].
  unfold ltb, of_nat. cbn [mant scale].
  change (pow10 0) with 1%N. change (N.of_nat 50) with 50%N.
  apply N.ltb_ge. lia.
Qed.

Lemma extracted_amount_not_below_50_witness :
  exists v,
    float_of_str (extract_amount_from_receipt (u "paid 1,000.00 Birr, fee 12.00 Birr"))
      = Some v
    /\ (50 * pow10 (scale v) < mant v)%N
    /\ ltb v (of_nat 50) = false.
Proof.
  apply (@extracted_amount_not_below_50 (u "paid 1,000.00 Birr, fee 12.00 Birr")).
  vm_compute. discriminate.
Defined.

End NoiseFloor.

(* ================================================================== *)
(** ** The ledger: addresses, cells and frames *)

Section LedgerBasics.
Import Ledger.

Lemma index_of_lt (x : str) (xs : list str) (i : nat) :
  index_of x xs = Some i -> (i < length xs)%nat.
Proof.
  revert i. induction xs as [| y ys IH]; intros i; simpl; [discriminate |].
  destruct (str_eqb x y).
  - intros [= <-]. lia.
  - destruct (index_of x ys) as [j |]; [| discriminate].
    intros [= <-]. specialize (IH j eq_refl). lia.
Qed.

Lemma find_row_from_ge (i : nat) (rows : sheet) (house : str) (r : nat) :
  find_row_from i rows house = Some r -> (i <= r)%nat.
Proof.
  revert i. induction rows as [| row rows IH]; intros i; simpl; [discriminate |].
  destruct (_ && _).
  - intros [= <-]. lia.
  - intros H. apply IH in H. lia.
Qed.

Lemma strip_zeros_head (ds : list N) (d : N) (r : list N) :
  strip_zeros ds = d :: r -> d <> 0%N.
Proof.
  induction ds as [| x ds IH]; simpl; [discriminate |].
  destruct (N.eqb_spec x 0); [exact IH |].
  intros [= <- _]. assumption.
Qed.

(** The numeral of a positive number does not start with 0. *)
Lemma str_of_N_positive (n : N) :
  n <> 0%N ->
  exists d ds,
    str_of_N n = digit_chars (d :: ds)
    /\ d <> 0%N
    /\ Forall (fun x => (x < 10)%N) (d :: ds)
    /\ digits_val (d :: ds) = n.
Proof.
  intros Hn. unfold str_of_N.
  set (k := S (N.to_nat (N.log2 n))).
  assert (Hval : digits_val (strip_zeros (low_digits k n)) = n).
  { rewrite strip_zeros_val, low_digits_val.
    apply N.mod_small, below_pow10. }
  assert (Hsm : Forall (fun d => (d < 10)%N) (strip_zeros (low_digits k n)))
    by apply strip_zeros_small, low_digits_small.
  destruct (strip_zeros (low_digits k n)) as [| d ds] eqn:E.
  - exfalso. apply Hn. rewrite <- Hval. reflexivity.
  - exists d, ds. repeat split; try assumption.
    eapply strip_zeros_head; eassumption.
Qed.

Lemma span_letters_digits (ls : str) (ds : list N) :
  forallb is_letter ls = true ->
  Forall (fun x => (x < 10)%N) ds ->
  span_letters (ls ++ digit_chars ds) = (ls, digit_chars ds).
Proof.
  intros Hls Hds. induction ls as [| c ls IH].
  - simpl. destruct Hds as [| d ds Hd Hds]; [reflexivity |].
    unfold digit_chars. cbn [map span_letters].
    replace (is_letter (48 + d)) with false; [reflexivity |].
    unfold is_letter, is_ascii_alpha. symmetry.
    apply orb_false_intro; apply andb_false_intro1 || apply andb_false_intro2;
      apply N.leb_gt; lia.
  - simpl in Hls. apply andb_prop in Hls. destruct Hls as [Hc Hls].
    cbn [app span_letters]. now rewrite Hc, IH.
Qed.

(** Letters followed by the numeral of a row from 1 on are an address. *)
Lemma a1_to_rowcol_letters_row (ls : str) (r : nat) :
  forallb is_letter ls = true -> ls <> [] -> (0 < r)%nat ->
  a1_to_rowcol (ls ++ str_of_nat r)
  = Some ((r - 1)%nat, (column_of_letters ls - 1)%nat).
Proof.
  intros Hls Hne Hr. unfold str_of_nat.
  destruct (@str_of_N_positive (N.of_nat r)) as (d & ds & E & Hd & Hsm & Hv);
    [lia |].
  rewrite E. unfold a1_to_rowcol.
  rewrite span_letters_digits by assumption.
  destruct ls as [| l ls]; [contradiction |].
  unfold digit_chars at 1. cbn [map].
  change ((48 + d)%N :: map (fun d0 : N => (48 + d0)%N) ds)
    with (digit_chars (d :: ds)).
  fold (all_digits (digit_chars (d :: ds))). unfold all_digits.
  rewrite digit_chars_all_digits by assumption.
  replace ((48 + d =? 48)%N) with false
    by (symmetry; apply N.eqb_neq; lia).
  cbn [negb andb].
  rewrite char_digits_digit_chars, Hv, Nat2N.id. reflexivity.
Qed.

Lemma month_column_letters (month_index : nat) :
  (month_index < 13)%nat ->
  let c := (3 + month_index * 2)%nat in
  forallb is_letter (col_idx_to_letter c) = true
  /\ col_idx_to_letter c <> []
  /\ (column_of_letters (col_idx_to_letter c) - 1)%nat = c
  /\ forallb is_letter (col_idx_to_letter (c + 1)) = true
  /\ col_idx_to_letter (c + 1) <> []
  /\ (column_of_letters (col_idx_to_letter (c + 1)) - 1)%nat = (c + 1)%nat.
Proof.
  intros H.
  do 13 (destruct month_index as [| month_index];
         [vm_compute; repeat split; discriminate |]).
  lia.
Qed.

(** *** Cells *)

Lemma nth_set_nth_same (A : Type) (d v : A) (n : nat) (l : list A) :
  nth n (set_nth d n v l) d = v.
Proof.
  revert l. induction n as [| n IH]; intros [| x l]; simpl; auto.
Qed.

Lemma nth_set_nth_other (A : Type) (d v : A) (n m : nat) (l : list A) :
  n <> m -> nth m (set_nth d n v l) d = nth m l d.
Proof.
  revert m l. induction n as [| n IH]; intros [| m] [| x l] H; simpl;
    try congruence; auto.
  - destruct m; reflexivity.
  - rewrite IH by congruence. destruct m; reflexivity.
Qed.

Lemma get_set_cell_same (sh : sheet) (r c : nat) (v : str) :
  get_cell (set_cell sh r c v) r c = v.
Proof.
  unfold get_cell, set_cell. now rewrite !nth_set_nth_same.
Qed.

Lemma get_set_cell_other_column (sh : sheet) (r c c' : nat) (v : str) :
  c <> c' -> get_cell (set_cell sh r c v) r c' = get_cell sh r c'.
Proof.
  intros H. unfold get_cell, set_cell.
  now rewrite nth_set_nth_same, nth_set_nth_other.
Qed.

Lemma get_put_sheet_same (name : str) (sh sh0 : sheet) (b : book) :
  get_sheet name b = Some sh0 -> get_sheet name (put_sheet name sh b) = Some sh.
Proof.
  induction b as [| [n s] b IH]; simpl; [discriminate |].
  destruct (str_eqb name n) eqn:E; simpl; rewrite E; auto.
Qed.

Lemma get_put_sheet_none (name n : str) (sh : sheet) (b : book) :
  get_sheet n (put_sheet name sh b) = None <-> get_sheet n b = None.
Proof.
  induction b as [| [k s] b IH]; simpl; [reflexivity |].
  destruct (str_eqb name k) eqn:E; simpl.
  - destruct (str_eqb n k); [split; discriminate | reflexivity].
  - destruct (str_eqb n k); [split; discriminate | exact IH].
Qed.

(** *** Frames *)

Lemma same_frame_refl (w : world) : same_frame w w.
Proof. split; [reflexivity | intros n; reflexivity]. Qed.

Lemma same_frame_trans (w1 w2 w3 : world) :
  same_frame w1 w2 -> same_frame w2 w3 -> same_frame w1 w3.
Proof.
  intros [L1 K1] [L2 K2]. split; [congruence |].
  intros n. now rewrite K2, K1.
Qed.

Lemma update_same_frame (w w' : world) (name label value : str) :
  update w name label value = Some w' -> same_frame w w'.
Proof.
  unfold update.
  destruct (get_sheet name (sheets w)) as [sh |]; [| discriminate].
  destruct (a1_to_rowcol label) as [[r c] |]; [| discriminate].
  intros [= <-]. split; [reflexivity |].
  intros n. cbn [sheets]. apply get_put_sheet_none.
Qed.

Lemma clear_entry_same_frame (w : world) (name : str) (idx col_idx : nat) :
  same_frame w (fst (clear_entry w name idx col_idx)).
Proof.
  unfold clear_entry.
  destruct (update w name _ []) as [w1 |] eqn:E1; [| apply same_frame_refl].
  apply update_same_frame in E1.
  destruct (update w1 name _ []) as [w2 |] eqn:E2; [| exact E1].
  apply update_same_frame in E2. cbn [fst].
  eapply same_frame_trans; eassumption.
Qed.

Lemma delete_in_columns_same_frame (cols : list nat) (row : list str)
    (name txid : str) (idx : nat) (w : world) :
  same_frame w (fst (delete_in_columns cols row name txid idx w)).
Proof.
  revert w. induction cols as [| c cols IH]; intros w; simpl;
    [apply same_frame_refl |].
  destruct (holds_txid row c txid); [| apply IH].
  pose proof (clear_entry_same_frame w name idx c) as Hc.
  destruct (clear_entry w name idx c) as [w' ok]. cbn [fst] in Hc.
  destruct ok; [exact Hc |].
  eapply same_frame_trans; [exact Hc | apply IH].
Qed.

Lemma delete_in_rows_same_frame (idx : nat) (rows : sheet)
    (name house txid : str) (w : world) :
  same_frame w (fst (delete_in_rows idx rows name house txid w)).
Proof.
  revert idx w. induction rows as [| row rows IH]; intros idx w; simpl;
    [apply same_frame_refl |].
  destruct (_ && _); [| apply IH].
  pose proof (delete_in_columns_same_frame (ft_columns row) row name txid idx w)
    as Hc.
  destruct (delete_in_columns _ row name txid idx w) as [w' ok].
  cbn [fst] in Hc.
  destruct ok; [exact Hc |].
  eapply same_frame_trans; [exact Hc | apply IH].
Qed.

Lemma delete_in_sheets_same_frame (names : list str) (house txid : str)
    (w : world) :
  same_frame w (fst (delete_in_sheets names house txid w)).
Proof.
  revert w. induction names as [| name names IH]; intros w; simpl;
    [apply same_frame_refl |].
  match goal with
  | |- context [delete_in_rows 3 ?rows name house txid w] =>
      pose proof (delete_in_rows_same_frame 3 rows name house txid w) as Hc;
      destruct (delete_in_rows 3 rows name house txid w) as [w' ok]
  end.
  cbn [fst] in Hc.
  destruct ok; [exact Hc |].
  eapply same_frame_trans; [exact Hc | apply IH].
Qed.

Lemma delete_old_entry_same_frame (is_edit_mode : bool) (house txid : str)
    (w : world) :
  same_frame w (delete_old_entry is_edit_mode house txid w).
Proof.
  unfold delete_old_entry.
  destruct (_ && _); [apply delete_in_sheets_same_frame | apply same_frame_refl].
Qed.

(** An update of a worksheet that is there, at letters and a row. *)
Lemma update_at_letters_row (w : world) (name ls : str) (r : nat) (value : str)
    (sh : sheet) :
  get_sheet name (sheets w) = Some sh ->
  forallb is_letter ls = true -> ls <> [] -> (0 < r)%nat ->
  update w name (ls ++ str_of_nat r) value
  = Some (World (put_sheet name
                   (set_cell sh (r - 1) (column_of_letters ls - 1) value)
                   (sheets w))
                (Write name (ls ++ str_of_nat r) value :: log w)
                (last_submission w)).
Proof.
  intros Hsh Hls Hne Hr. unfold update.
  now rewrite Hsh, a1_to_rowcol_letters_row.
Qed.

End LedgerBasics.

(* ================================================================== *)
(** ** The save phase *)

Section SavePhase.
Import Ledger.

Lemma strip_nil : strip [] = [].
Proof. reflexivity. Qed.

Lemma truthy_strip (s : str) : truthy (strip s) = true -> truthy s = true.
Proof. destruct s; [discriminate | reflexivity]. Qed.

Lemma contains_middle (c : N) (a b : str) : contains [c] (a ++ c :: b) = true.
Proof.
  induction a as [| x a IH].
  - cbn [app]. destruct b; simpl; now rewrite N.eqb_refl.
  - cbn [app contains]. rewrite IH. apply orb_true_r.
Qed.

(** The two updates that end the save phase, and the cells after them. *)
Lemma write_phase (w1 : world) (name : str) (sh1 : sheet)
    (row_index month_index : nat) (v1 v2 : str) :
  get_sheet name (sheets w1) = Some sh1 ->
  (0 < row_index)%nat -> (month_index < 13)%nat ->
  let c := (3 + month_index * 2)%nat in
  exists w2 w3,
    update w1 name (col_idx_to_letter c ++ str_of_nat row_index) v1 = Some w2
    /\ update w2 name (col_idx_to_letter (c + 1) ++ str_of_nat row_index) v2
       = Some w3
    /\ cell_of w3 name row_index c = Some v1
    /\ cell_of w3 name row_index (c + 1) = Some v2
    /\ log w3
       = Write name (col_idx_to_letter (c + 1) ++ str_of_nat row_index) v2
           :: Write name (col_idx_to_letter c ++ str_of_nat row_index) v1
           :: log w1.
Proof.
  intros Hsh Hr Hm c.
  destruct (month_column_letters Hm) as (L1 & N1 & C1 & L2 & N2 & C2).
  fold c in L1, N1, C1, L2, N2, C2.
  eexists. eexists. split.
  { rewrite (update_at_letters_row _ _ v1 Hsh L1 N1 Hr). reflexivity. }
  split.
  { erewrite update_at_letters_row; [reflexivity | | assumption ..].
    cbn [sheets]. eapply get_put_sheet_same. exact Hsh. }
  rewrite C1, C2. unfold cell_of. cbn [sheets log].
  erewrite get_put_sheet_same
    by (eapply get_put_sheet_same; exact Hsh).
  cbn [option_map].
  rewrite get_set_cell_other_column by lia.
  rewrite !get_set_cell_same. repeat split; reflexivity.
Qed.

(** A transaction id held by an FT No cell of a data row is found by the
    duplicate scan. *)
Lemma duplicate_in_rows_found (idx : nat) (rows : sheet) (txid : str)
    (row : list str) (col_idx : nat) :
  In row rows -> In col_idx (ft_columns row) ->
  holds_txid row col_idx txid = true ->
  exists r, duplicate_in_rows idx rows txid = Some r.
Proof.
  intros Hrow Hcol Hh. revert idx.
  induction rows as [| row0 rows IH]; intros idx; [contradiction |].
  cbn [duplicate_in_rows].
  destruct (existsb (fun c => holds_txid row0 c txid) (ft_columns row0)) eqn:E.
  - now exists idx.
  - destruct Hrow as [-> | Hrow]; [| now apply IH].
    exfalso.
    assert (existsb (fun c => holds_txid row c txid) (ft_columns row) = true)
      by (apply existsb_exists; now exists col_idx).
    congruence.
Qed.

Lemma duplicate_in_sheets_found (b : book) (txid name : str) (sh : sheet)
    (row : list str) (col_idx : nat) :
  In (name, sh) b -> In row (skipn 2 sh) -> In col_idx (ft_columns row) ->
  holds_txid row col_idx txid = true ->
  exists s r, duplicate_in_sheets b txid = Some (s, r).
Proof.
  intros Hsh Hrow Hcol Hh.
  induction b as [| [n0 sh0] b IH]; [contradiction |].
  cbn [duplicate_in_sheets].
  destruct (duplicate_in_rows 3 (skipn 2 sh0) txid) as [r |] eqn:E.
  - now exists n0, r.
  - destruct Hsh as [[= -> ->] | Hsh]; [| now apply IH].
    destruct (@duplicate_in_rows_found 3 (skipn 2 sh) txid row col_idx)
      as [r Hr]; try assumption.
    congruence.
Qed.

(** In edit mode a submission that passes the checks is saved. *)
Lemma edit_mode_saved (data : payment) (w : world) (target : sheet)
    (row_index month_index : nat) :
  truthy (amount data) = true ->
  fst (Beneficiary.validate_beneficiary (beneficiary data)) = true ->
  get_sheet (reason data) (sheets w) = Some target ->
  find_row target (house_number data) = Some row_index ->
  index_of (month data) Calendar.ETHIOPIAN_MONTHS_LIST = Some month_index ->
  fst (finalize true data w) = Saved.
Proof.
  intros Ha Hb Hs Hr Hm. unfold finalize.
  rewrite Ha, Hb, Hs, Hr, Hm. cbn [negb andb].
  set (w1 := delete_old_entry true (house_number data) (transaction_id data) w).
  destruct (delete_old_entry_same_frame true (house_number data)
              (transaction_id data) w) as [_ Hk].
  fold w1 in Hk.
  destruct (get_sheet (reason data) (sheets w1)) as [sh1 |] eqn:E1;
    [| apply Hk in E1; congruence].
  destruct (final_values _ _ _ _ _ _) as [fa ft].
  assert (H0 : (0 < row_index)%nat)
    by (apply find_row_from_ge in Hr; lia).
  assert (H13 : (month_index < 13)%nat)
    by (apply index_of_lt in Hm; exact Hm).
  destruct (@write_phase w1 (reason data) sh1 row_index month_index
              (render (for_sheet fa)) ft E1 H0 H13)
    as (w2 & w3 & U1 & U2 & _).
  cbv zeta in U1, U2. rewrite U1, U2. reflexivity.
Qed.

(** *** Replacing and appending *)

Lemma for_sheet_amount_value (amount : str) :
  contains (u "+") amount = false ->
  for_sheet (amount_value_of amount) = amount_value_of amount.
Proof.
  intros H. unfold amount_value_of.
  destruct (float_of_str amount); [reflexivity |].
  cbn [for_sheet]. now rewrite H.
Qed.

Lemma render_for_sheet_appended (current_amount amount : str) :
  contains (u "+") amount = false ->
  render (for_sheet
            (if truthy current_amount
             then VStr (current_amount ++ u "+"
                          ++ render (amount_value_of amount))
             else amount_value_of amount))
  = if truthy current_amount
    then u "=" ++ current_amount ++ u "+" ++ render (amount_value_of amount)
    else render (amount_value_of amount).
Proof.
  intros H. destruct (truthy current_amount).
  - cbn [for_sheet]. change (u "+") with [43%N].
    cbn [app]. now rewrite contains_middle.
  - now rewrite for_sheet_amount_value.
Qed.

(** [current_amount] is the amount cell, stripped, without a leading [=]. *)
Lemma read_current_amount_cell (target all_values : sheet)
    (row_index month_index : nat) :
  (0 < row_index)%nat -> (month_index < 13)%nat ->
  let value := get_cell target (row_index - 1) (3 + month_index * 2) in
  read_current_amount target all_values row_index (3 + month_index * 2)
  = if startswith (strip value) (u "=") then skipn 1 (strip value)
    else strip value.
Proof.
  intros Hr Hm value. unfold read_current_amount, acell.
  destruct (month_column_letters Hm) as (L1 & N1 & C1 & _).
  rewrite a1_to_rowcol_letters_row by assumption.
  rewrite C1. fold value.
  destruct value; reflexivity.
Qed.

(** [current_txid] is the FT No cell, stripped. *)
Lemma read_current_txid_cell (all_values : sheet) (row_index col_idx : nat) :
  read_current_txid all_values row_index col_idx
  = strip (get_cell all_values (row_index - 1) col_idx).
Proof.
  unfold read_current_txid, get_cell.
  destruct (Nat.ltb_spec col_idx (length (nth (row_index - 1) all_values [])))
    as [H | H]; [reflexivity |].
  now rewrite nth_overflow.
Qed.

(** C10.  For a submission that passes the checks (amount, beneficiary,
    worksheet, house row, month), whose amount holds no [+]:
    - in edit mode with no previous submission stored, the amount cell and
      the FT No cell of the house and month are left holding exactly the new
      amount and the new transaction id, whatever they held;
    - as a new submission whose transaction id is in no FT No cell, the
      amount cell is left holding the former content, [+] and the new
      amount, as a formula, and the FT No cell the former content, a comma
      and the new transaction id (the new value alone where the cell was
      empty). *)
Theorem edit_without_previous_replaces (data : payment) (w : world)
    (target : sheet) (row_index month_index : nat) :
  truthy (amount data) = true ->
  contains (u "+") (amount data) = false ->
  fst (Beneficiary.validate_beneficiary (beneficiary data)) = true ->
  get_sheet (reason data) (sheets w) = Some target ->
  find_row target (house_number data) = Some row_index ->
  index_of (month data) Calendar.ETHIOPIAN_MONTHS_LIST = Some month_index ->
  let amount_col_idx := (3 + month_index * 2)%nat in
  let ftno_col_idx := (amount_col_idx + 1)%nat in
  let new_amount := render (amount_value_of (amount data)) in
  let txid := transaction_id data in
  (last_submission w = None ->
   exists w',
     finalize true data w = (Saved, w')
     /\ cell_of w' (reason data) row_index amount_col_idx = Some new_amount
     /\ cell_of w' (reason data) row_index ftno_col_idx = Some txid)
  /\ (duplicate_in_sheets (sheets w) txid = None ->
      let value := strip (get_cell target (row_index - 1) amount_col_idx) in
      let current_amount :=
        if startswith value (u "=") then skipn 1 value else value in
      let current_txid :=
        strip (get_cell target (row_index - 1) ftno_col_idx) in
      exists w',
        finalize false data w = (Saved, w')
        /\ cell_of w' (reason data) row_index amount_col_idx
           = Some (if truthy current_amount
                   then u "=" ++ current_amount ++ u "+" ++ new_amount
                   else new_amount)
        /\ cell_of w' (reason data) row_index ftno_col_idx
           = Some (if truthy current_txid
                   then current_txid ++ u ", " ++ txid
                   else txid)).
Proof.
  intros Ha Hplus Hb Hs Hr Hm amount_col_idx ftno_col_idx new_amount txid.
  assert (H0 : (0 < row_index)%nat)
    by (apply find_row_from_ge in Hr; lia).
  assert (H13 : (month_index < 13)%nat)
    by (apply index_of_lt in Hm; exact Hm).
  split.
  - intros Hlast. unfold finalize.
    rewrite Ha, Hb, Hs, Hr, Hm. cbn [negb andb].
    set (w1 := delete_old_entry true (house_number data) (transaction_id data) w).
    destruct (delete_old_entry_same_frame true (house_number data)
                (transaction_id data) w) as [Hl Hk].
    fold w1 in Hl, Hk.
    destruct (get_sheet (reason data) (sheets w1)) as [sh1 |] eqn:E1;
      [| apply Hk in E1; congruence].
    unfold final_values. rewrite Hl, Hlast.
    rewrite for_sheet_amount_value by assumption.
    destruct (@write_phase w1 (reason data) sh1 row_index month_index
                new_amount txid E1 H0 H13)
      as (w2 & w3 & U1 & U2 & C1 & C2 & _).
    cbv zeta in U1, U2, C1, C2.
    fold new_amount. fold txid. rewrite U1, U2.
    exists (World (sheets w3) (log w3) (Some data)).
    repeat split; assumption.
  - intros Hdup value current_amount current_txid. unfold finalize.
    rewrite Ha, Hb, Hs, Hr, Hm. cbn [negb andb].
    unfold delete_old_entry. cbn [andb].
    fold txid. rewrite Hdup.
    replace (if truthy txid && truthy (strip txid)
             then @None (str * nat) else None)
      with (@None (str * nat)) by (destruct (_ && _); reflexivity).
    rewrite Hs.
    rewrite (read_current_amount_cell target target H0 H13).
    rewrite read_current_txid_cell.
    cbv zeta. unfold final_values. cbv iota.
    rewrite render_for_sheet_appended by assumption.
    destruct (@write_phase w (reason data) target row_index month_index
                (if truthy current_amount
                 then u "=" ++ current_amount ++ u "+" ++ new_amount
                 else new_amount)
                (if truthy current_txid
                 then current_txid ++ u ", " ++ txid else txid)
                Hs H0 H13)
      as (w2 & w3 & U1 & U2 & C1 & C2 & _).
    cbv zeta in U1, U2, C1, C2.
    match goal with
    | |- context [update w ?n ?l ?v] =>
        replace (update w n l v) with (Some w2) by (symmetry; exact U1)
    end.
    match goal with
    | |- context [update w2 ?n ?l ?v] =>
        replace (update w2 n l v) with (Some w3) by (symmetry; exact U2)
    end.
    exists (World (sheets w3) (log w3) (Some data)).
    repeat split; assumption.
Qed.

Lemma edit_without_previous_replaces_witness :
  (exists w',
     finalize true Scenario.fresh Scenario.without_previous = (Saved, w')
     /\ cell_of w' (u "water") 5 3 = Some (u "700.0")
     /\ cell_of w' (u "water") 5 4 = Some (u "FT999"))
  /\ (exists w',
        finalize false Scenario.fresh Scenario.without_previous = (Saved, w')
        /\ cell_of w' (u "water") 5 3 = Some (u "=500+300+700.0")
        /\ cell_of w' (u "water") 5 4 = Some (u "FT111, FT222, FT999")).
Proof.
  destruct (@edit_without_previous_replaces
              Scenario.fresh Scenario.without_previous Scenario.water
              5%nat 0%nat) as [E N];
    try (vm_compute; reflexivity).
  split.
  - apply E. reflexivity.
  - apply N. vm_compute. reflexivity.
Defined.

(** *** Correcting a payment in a shared cell *)

(** C1, at the scenario: house 407 holds [=500+300] and
    [FT111, FT222] in its Meskerem cells, of which 500 / FT111 is the user's
    previous submission.  The user sends the same receipt again in edit mode
    with the amount 700.  Looking for the receipt's transaction id, the save
    phase first clears both cells, reads the amount cell again (now empty)
    and takes the FT No cell from the values read before: the amount cell is
    left with 700.0 alone -- the 300 of the other contribution is gone --
    while the FT No cell keeps FT222. *)
Theorem edit_same_receipt_drops_other_amount :
  exists w',
    finalize true Scenario.corrected Scenario.with_previous = (Saved, w')
    /\ cell_of Scenario.with_previous (u "water") 5 3 = Some (u "=500+300")
    /\ cell_of Scenario.with_previous (u "water") 5 4 = Some (u "FT111, FT222")
    /\ cell_of w' (u "water") 5 3 = Some (u "700.0")
    /\ cell_of w' (u "water") 5 4 = Some (u "FT222, FT111")
    /\ map w_label (rev (log w')) = [u "D5"; u "E5"; u "D5"; u "E5"]
    /\ map w_value (rev (log w')) = [[]; []; u "700.0"; u "FT222, FT111"].
Proof.
  eexists. split; [vm_compute; reflexivity |].
  vm_compute. repeat split; reflexivity.
Qed.

(** With a transaction id that is not in the ledger, the same correction
    takes out the old term and the old id only. *)
Example edit_new_receipt_keeps_other_amount :
  exists w',
    finalize true Scenario.fresh Scenario.with_previous = (Saved, w')
    /\ cell_of w' (u "water") 5 3 = Some (u "=300+700.0")
    /\ cell_of w' (u "water") 5 4 = Some (u "FT222, FT999").
Proof.
  eexists. split; [vm_compute; reflexivity |].
  vm_compute. repeat split; reflexivity.
Qed.

End SavePhase.

(* ================================================================== *)
(** ** Patterns that cannot match *)

Section PatternFacts.

Lemma ahead_refl (c : cursor) : ahead c c.
Proof. now exists []. Qed.

Lemma ahead_trans (c1 c2 c3 : cursor) : ahead c1 c2 -> ahead c2 c3 -> ahead c1 c3.
Proof.
  intros [p1 E1] [p2 E2]. exists (p1 ++ p2).
  now rewrite E1, E2, app_assoc.
Qed.

Lemma ahead_step (i j : nat) (pv pv' : option N) (x : N) (s : str) :
  ahead (Cursor i pv (x :: s)) (Cursor j pv' s).
Proof. now exists [x]. Qed.

Section Fails.
Variable A : Type.

(** A repetition fails when its continuation fails everywhere ahead. *)
Lemma rep_fails (p : N -> bool) (k : cursor -> option A) (s : str) :
  forall lo hi i pv,
    (forall c', ahead (Cursor i pv s) c' -> k c' = None) ->
    rep p lo hi k i pv s = None.
Proof.
  induction s as [| x s IH]; intros lo hi i pv Hk.
  - simpl. destruct lo; [apply Hk, ahead_refl | reflexivity].
  - cbn [rep].
    assert (Hstop : match lo with
                    | O => k (Cursor i pv (x :: s))
                    | S _ => None
                    end = None)
      by (destruct lo; [apply Hk, ahead_refl | reflexivity]).
    destruct (p x && _); [| exact Hstop].
    rewrite IH; [exact Hstop |].
    intros c' Hc'. apply Hk.
    eapply ahead_trans; [apply ahead_step | exact Hc'].
Qed.

Lemma lazy_fails (p : N -> bool) (k : cursor -> option A) (s : str) :
  forall i pv,
    (forall c', ahead (Cursor i pv s) c' -> k c' = None) ->
    lazy p k i pv s = None.
Proof.
  induction s as [| x s IH]; intros i pv Hk; cbn [lazy];
    rewrite (Hk _ (ahead_refl _)); [reflexivity |].
  destruct (p x); [| reflexivity].
  apply IH. intros c' Hc'. apply Hk.
  eapply ahead_trans; [apply ahead_step | exact Hc'].
Qed.

(** A pattern fails when its continuation fails everywhere ahead. *)
Lemma rmatch_fails (r : regex) :
  forall (c : cursor) (g : caps) (k : cursor -> caps -> option A),
    (forall c' g', ahead c c' -> k c' g' = None) ->
    rmatch r c g k = None.
Proof.
  induction r as [| p | a IHa b IHb | a IHa b IHb | a IHa | lo hi p | p
                  | i a IHa | ml |];
    intros c g k Hk; cbn [rmatch].
  - apply Hk, ahead_refl.
  - destruct c as [i pv [| x s]]; cbn [rest pos]; [reflexivity |].
    destruct (p x); [| reflexivity]. apply Hk, ahead_step.
  - apply IHa. intros c' g' Hc'. apply IHb. intros c'' g'' Hc''.
    apply Hk. eapply ahead_trans; eassumption.
  - rewrite IHa by assumption. now apply IHb.
  - rewrite IHa by assumption. apply Hk, ahead_refl.
  - destruct c as [i pv s]. cbn [rest pos prev].
    apply rep_fails. intros c' Hc'. now apply Hk.
  - destruct c as [i pv s]. cbn [rest pos prev].
    apply lazy_fails. intros c' Hc'. now apply Hk.
  - apply IHa. intros c' g' Hc'. now apply Hk.
  - destruct (_ || _); [apply Hk, ahead_refl | reflexivity].
  - destruct (rest c) as [| x [| y s]]; [apply Hk, ahead_refl | | reflexivity].
    destruct (x =? 10)%N; [apply Hk, ahead_refl | reflexivity].
Qed.

(** A pattern that needs a character of [P] fails on a text without. *)
Lemma rmatch_needs (P : N -> bool) (r : regex) :
  Needs P r ->
  forall (c : cursor) (g : caps) (k : cursor -> caps -> option A),
    Forall (fun x => P x = false) (rest c) ->
    rmatch r c g k = None.
Proof.
  induction 1 as [p Hp | a b Ha IHa | a b Hb IHb | a b Ha IHa Hb IHb
                  | lo hi p Hp | i a Ha IHa];
    intros c g k Hc; cbn [rmatch].
  - destruct c as [i pv [| x s]]; cbn [rest pos] in *; [reflexivity |].
    destruct (p x) eqn:E; [| reflexivity].
    apply Hp in E. inversion Hc; congruence.
  - now apply IHa.
  - apply rmatch_fails. intros c' g' [pre E]. apply IHb.
    rewrite E in Hc. now apply Forall_app in Hc.
  - rewrite IHa by assumption. now apply IHb.
  - destruct c as [i pv [| x s]]; cbn [rest pos prev rep] in *; [reflexivity |].
    destruct (p x) eqn:E; [| reflexivity].
    apply Hp in E. inversion Hc; congruence.
  - now apply IHa.
Qed.

End Fails.

Lemma match_at_needs (P : N -> bool) (r : regex) (c : cursor) :
  Needs P r -> Forall (fun x => P x = false) (rest c) -> match_at r c = None.
Proof. intros Hr Hc. unfold match_at. now apply rmatch_needs with (P := P). Qed.

Lemma search_from_needs (P : N -> bool) (r : regex) (s : str) :
  Needs P r -> Forall (fun x => P x = false) s ->
  forall i pv, search_from r i pv s = None.
Proof.
  intros Hr. induction 1 as [| x s Hx Hs IH]; intros i pv; cbn [search_from].
  - now rewrite (match_at_needs (P := P)) by (assumption || constructor).
  - rewrite (match_at_needs (P := P)) by (assumption || now constructor).
    apply IH.
Qed.

Lemma re_search_needs (P : N -> bool) (r : regex) (s : str) :
  Needs P r -> Forall (fun x => P x = false) s -> re_search r s = None.
Proof. intros Hr Hs. now apply search_from_needs with (P := P). Qed.

Lemma finditer_from_needs (P : N -> bool) (r : regex) (s : str) :
  Needs P r -> Forall (fun x => P x = false) s ->
  forall skip i pv, finditer_from r skip i pv s = [].
Proof.
  intros Hr. induction 1 as [| x s Hx Hs IH]; intros skip i pv;
    cbn [finditer_from].
  - destruct skip; [| reflexivity].
    now rewrite (match_at_needs (P := P)) by (assumption || constructor).
  - destruct skip; [| apply IH].
    rewrite (match_at_needs (P := P)) by (assumption || now constructor).
    apply IH.
Qed.

(** *** The combinators *)

Lemma Needs_seq_of (P : N -> bool) (f : N -> regex) (s : str) (c : N) :
  In c s -> Needs P (f c) -> Needs P (seq_of f s).
Proof.
  intros Hin Hc. induction s as [| x s IH]; [contradiction |].
  destruct s as [| y s].
  - destruct Hin as [-> | []]. exact Hc.
  - change (seq_of f (x :: y :: s)) with (Seq (f x) (seq_of f (y :: s))).
    destruct Hin as [-> | Hin].
    + now apply Needs_seq_l.
    + apply Needs_seq_r. now apply IH.
Qed.

Lemma Needs_lit (P : N -> bool) (s : string) (c : N) :
  In c (u s) -> P c = true -> Needs P (lit s).
Proof.
  intros Hin Hc. unfold lit. apply Needs_seq_of with (c := c); [assumption |].
  constructor. intros x Hx. apply N.eqb_eq in Hx. now subst.
Qed.

Lemma Needs_liti (P : N -> bool) (s : string) (c : N) :
  In c (u s) -> (forall x, chi c x = true -> P x = true) -> Needs P (liti s).
Proof.
  intros Hin Hc. unfold liti. apply Needs_seq_of with (c := c); [assumption |].
  now constructor.
Qed.

Lemma Needs_seqs (P : N -> bool) (rs : list regex) :
  Exists (Needs P) rs -> Needs P (seqs rs).
Proof.
  induction rs as [| r rs IH]; intros H; [inversion H |].
  destruct rs as [| r' rs].
  - inversion H; subst; [assumption | inversion H1].
  - change (seqs (r :: r' :: rs)) with (Seq r (seqs (r' :: rs))).
    inversion H; subst; [now apply Needs_seq_l | apply Needs_seq_r; auto].
Qed.

Lemma Needs_alts (P : N -> bool) (rs : list regex) :
  rs <> [] -> Forall (Needs P) rs -> Needs P (alts rs).
Proof.
  intros Hne H. induction H as [| r rs Hr Hrs IH]; [contradiction |].
  destruct rs as [| r' rs]; [exact Hr |].
  change (alts (r :: r' :: rs)) with (Alt r (alts (r' :: rs))).
  apply Needs_alt; [exact Hr | apply IH; discriminate].
Qed.

End PatternFacts.

(* ================================================================== *)
(** ** Edit mode: a bare number is an amount *)

Section EditModeFacts.
Import Orchestrator.

Lemma lstrip_head (s : str) (x : N) (r : str) :
  lstrip s = x :: r -> is_space x = false.
Proof.
  induction s as [| c s IH]; simpl; [discriminate |].
  destruct (is_space c) eqn:E; [exact IH |].
  intros [= <- _]. exact E.
Qed.

(** A stripped string does not end with white space. *)
Lemma strip_last (s a : str) (x : N) : strip s = a ++ [x] -> is_space x = false.
Proof.
  unfold strip, rstrip. intros H.
  apply (f_equal (@rev N)) in H. rewrite rev_involutive, rev_app_distr in H.
  simpl in H. eapply lstrip_head. exact H.
Qed.

Lemma is_space_range (x : N) :
  is_space x = true -> (x <= 32 \/ 133 <= x)%N.
Proof.
  unfold is_space. intros H.
  repeat (apply orb_prop in H; destruct H as [H | H]);
    try (apply andb_prop in H; destruct H as [H1 H2];
         apply N.leb_le in H1, H2; lia);
    try (apply N.eqb_eq in H; lia).
Qed.

Lemma not_space_in_range (x : N) : (33 <= x <= 132)%N -> is_space x = false.
Proof.
  intros H. destruct (is_space x) eqn:E; [| reflexivity].
  apply is_space_range in E. lia.
Qed.

Lemma is_space_lower_cp (c : N) : is_space (lower_cp c) = is_space c.
Proof.
  unfold lower_cp.
  destruct ((65 <=? c) && (c <=? 90))%N eqn:E; [| reflexivity].
  apply andb_prop in E. destruct E as [E1 E2].
  apply N.leb_le in E1, E2.
  rewrite !not_space_in_range by lia. reflexivity.
Qed.

Lemma lstrip_lower (s : str) : lstrip (lower s) = lower (lstrip s).
Proof.
  induction s as [| c s IH]; [reflexivity |].
  cbn [lower map lstrip]. rewrite is_space_lower_cp.
  destruct (is_space c); [exact IH | reflexivity].
Qed.

Lemma strip_lower (s : str) : strip (lower s) = lower (strip s).
Proof.
  unfold strip, rstrip. rewrite lstrip_lower.
  unfold lower at 1. rewrite <- map_rev. fold (lower (rev (lstrip s))).
  rewrite lstrip_lower. unfold lower. now rewrite map_rev.
Qed.

Lemma lower_digits_dots (s : str) :
  Forall (fun x => d09_dot x = true) s -> lower s = s.
Proof.
  induction 1 as [| x s Hx Hs IH]; [reflexivity |].
  cbn [lower map]. fold (lower s). rewrite IH. f_equal.
  unfold d09_dot, cor, Amount.d09, ch in Hx. unfold lower_cp.
  destruct ((65 <=? x) && (x <=? 90))%N eqn:E; [| reflexivity].
  apply andb_prop in E. destruct E as [E1 E2]. apply N.leb_le in E1, E2.
  apply orb_prop in Hx. destruct Hx as [Hx | Hx].
  - apply andb_prop in Hx. destruct Hx as [_ Hx]. apply N.leb_le in Hx. lia.
  - apply N.eqb_eq in Hx. lia.
Qed.

(** What a successful repetition consumed. *)
Lemma rep_sound (A : Type) (p : N -> bool) (k : cursor -> option A) (s : str) :
  forall lo hi i pv r,
    rep p lo hi k i pv s = Some r ->
    exists pre post j pv',
      s = pre ++ post
      /\ Forall (fun x => p x = true) pre
      /\ (lo <= length pre)%nat
      /\ k (Cursor j pv' post) = Some r.
Proof.
  induction s as [| x s IH]; intros lo hi i pv r H.
  - simpl in H. destruct lo; [| discriminate].
    exists [], [], i, pv. repeat split; [constructor | lia | exact H].
  - cbn [rep] in H.
    assert (Hstop :
      match lo with O => k (Cursor i pv (x :: s)) | S _ => None end = Some r ->
      exists pre post j pv',
        x :: s = pre ++ post /\ Forall (fun x => p x = true) pre
        /\ (lo <= length pre)%nat /\ k (Cursor j pv' post) = Some r).
    { destruct lo; [| discriminate]. intros Hk.
      exists [], (x :: s), i, pv. repeat split; [constructor | lia | exact Hk]. }
    destruct (p x) eqn:Hp; cbn [andb] in H; [| now apply Hstop].
    destruct (match hi with Some 0%nat => false | _ => true end);
      [| now apply Hstop].
    destruct (rep p (Nat.pred lo) (option_map Nat.pred hi) k (S i) (Some x) s)
      as [r' |] eqn:E; [| now apply Hstop].
    injection H as <-.
    apply IH in E. destruct E as (pre & post & j & pv' & -> & Hpre & Hlo & Hk).
    exists (x :: pre), post, j, pv'.
    repeat split; [now constructor | simpl; lia | exact Hk].
Qed.

(** A stripped text that is a bare number is made of digits and dots. *)
Lemma bare_number_chars (user_text : str) :
  bare_number_match user_text = true ->
  Forall (fun x => d09_dot x = true) (strip user_text)
  /\ truthy (strip user_text) = true.
Proof.
  unfold bare_number_match, re_match, match_at, bare_number_pattern.
  cbn [seqs rmatch pos prev rest Nat.eqb orb].
  unfold plus. cbn [rmatch pos prev rest].
  destruct (rep _ _ _ _ _ _ _) as [m |] eqn:E; [| discriminate].
  intros _. apply rep_sound in E.
  destruct E as (pre & post & j & pv' & Es & Hpre & Hlo & Hk).
  cbn [rest] in Hk.
  assert (Hpost : post = []).
  { destruct post as [| y [| z post]]; [reflexivity | | discriminate].
    destruct (N.eqb_spec y 10) as [-> |]; [| discriminate].
    apply strip_last in Es. discriminate. }
  subst post. rewrite app_nil_r in Es. rewrite Es.
  split; [assumption |]. destruct pre; [simpl in Hlo; lia | reflexivity].
Qed.

Lemma digits_dots_no_other (s : str) :
  Forall (fun x => d09_dot x = true) s ->
  Forall (fun x => cnot d09_dot x = false) s.
Proof.
  apply Forall_impl. intros x H. unfold cnot. now rewrite H.
Qed.

(** The four labelled patterns need a character that is no digit and no dot. *)
Lemma label_patterns_need_letter :
  Needs (cnot d09_dot) amount_label_pattern
  /\ Needs (cnot d09_dot) amount_currency_pattern
  /\ Needs (cnot d09_dot) house_label_pattern
  /\ Needs (cnot d09_dot) month_label_pattern.
Proof.
  repeat split.
  - apply Needs_seqs. left. apply Needs_alts; [discriminate |].
    repeat first [apply Forall_nil | apply Forall_cons].
    + refine (@Needs_lit _ _ 97%N _ _); [left |]; reflexivity.
    + refine (@Needs_lit _ _ 98%N _ _); [left |]; reflexivity.
    + refine (@Needs_lit _ _ 4709%N _ _); [left |]; reflexivity.
  - apply Needs_seqs. right. right. left. apply Needs_alts; [discriminate |].
    repeat first [apply Forall_nil | apply Forall_cons].
    + refine (@Needs_lit _ _ 98%N _ _); [left |]; reflexivity.
    + refine (@Needs_lit _ _ 4709%N _ _); [left |]; reflexivity.
  - apply Needs_seqs. left. apply Needs_alts; [discriminate |].
    repeat first [apply Forall_nil | apply Forall_cons].
    + refine (@Needs_lit _ _ 104%N _ _); [left |]; reflexivity.
    + refine (@Needs_lit _ _ 4708%N _ _); [left |]; reflexivity.
    + refine (@Needs_lit _ _ 104%N _ _); [left |]; reflexivity.
  - apply Needs_seqs. left. apply Needs_alts; [discriminate |].
    repeat first [apply Forall_nil | apply Forall_cons].
    + refine (@Needs_lit _ _ 109%N _ _); [left |]; reflexivity.
    + refine (@Needs_lit _ _ 4808%N _ _); [left |]; reflexivity.
Qed.

(** In edit mode a bare number carries no explicit label. *)
Lemma bare_number_no_label (user_text : str) :
  bare_number_match user_text = true ->
  explicit_amount_of true user_text = None
  /\ explicit_house_of true user_text = None
  /\ explicit_month_of true user_text = None.
Proof.
  intros Hb. apply bare_number_chars in Hb. destruct Hb as [Hc Ht].
  destruct label_patterns_need_letter as (N1 & N2 & N3 & N4).
  unfold explicit_amount_of, explicit_house_of, explicit_month_of.
  rewrite (truthy_strip _ Ht). cbn [andb].
  rewrite strip_lower, (lower_digits_dots Hc).
  apply digits_dots_no_other in Hc.
  rewrite (re_search_needs N1 Hc), (re_search_needs N2 Hc),
    (re_search_needs N3 Hc), (re_search_needs N4 Hc).
  repeat split.
Qed.

(** C4, as stated, fails: in edit mode the text ["house: 901 amount: 700"]
    supplies an explicit amount, and the house number is the labelled 901,
    not the 407 of the previous submission. *)
Lemma explicit_house_label_wins :
  given (explicit_amount_of true (u "house: 901 amount: 700")) = true
  /\ r_house_number
       (extract_payment_data_buffered
          (u "house: 901 amount: 700" ++ [10%N]) [] (u "house: 901 amount: 700")
          true (Some Scenario.previous))
     = u "901"
  /\ original_house (Some Scenario.previous) = u "407".
Proof. vm_compute. repeat split. Qed.

(** C4, amended.  In edit mode, when the user text is a bare number, or
    supplies an explicit amount or month label and no explicit house label,
    the house number is the one of the stored previous submission (empty when
    there is none), whatever the caption and the combined text hold; and a
    bare number is the amount. *)
Theorem edit_mode_bare_number_is_amount
    (combined_text caption user_text : str) (original_data : option payment) :
  bare_number_match user_text = true
  \/ ((given (explicit_amount_of true user_text) = true
       \/ given (explicit_month_of true user_text) = true)
      /\ given (explicit_house_of true user_text) = false) ->
  let data :=
    extract_payment_data_buffered combined_text caption user_text true
                                  original_data in
  r_house_number data = original_house original_data
  /\ (bare_number_match user_text = true -> r_amount data = strip user_text).
Proof.
  intros H data.
  assert (Ht : truthy user_text = true).
  { destruct user_text; [| reflexivity].
    destruct H as [H | [[H | H] _]]; vm_compute in H; discriminate. }
  assert (Hh : given (explicit_house_of true user_text) = false).
  { destruct H as [H | [_ H]]; [| exact H].
    apply bare_number_no_label in H. destruct H as (_ & -> & _). reflexivity. }
  assert (Hc : bare_number_match user_text
               || given (explicit_amount_of true user_text)
               || given (explicit_month_of true user_text) = true).
  { destruct H as [-> | [[-> | ->] _]];
      [reflexivity | | ]; rewrite ?orb_true_r; reflexivity. }
  split.
  - unfold data, extract_payment_data_buffered. cbn [r_house_number].
    unfold resolve_house, house_from_user_text.
    rewrite Hh, Ht, Hc. cbn [andb negb].
    rewrite !andb_false_r. reflexivity.
  - intros Hb. unfold data, extract_payment_data_buffered. cbn [r_amount].
    unfold resolve_amount.
    destruct (bare_number_no_label _ Hb) as (-> & _ & _).
    cbn [given]. now rewrite Ht, Hb.
Qed.

Lemma edit_mode_bare_number_is_amount_witness :
  let data :=
    extract_payment_data_buffered (u "700" ++ [10%N] ++ u "H.No 1108 ETB 900.00")
      (u "ቁ 1108") (u " 700 ") true (Some Scenario.previous) in
  r_house_number data = u "407" /\ r_amount data = u "700".
Proof.
  cbv zeta.
  destruct (@edit_mode_bare_number_is_amount
              (u "700" ++ [10%N] ++ u "H.No 1108 ETB 900.00") (u "ቁ 1108")
              (u " 700 ") (Some Scenario.previous)) as [Hh Ha].
  - left. vm_compute. reflexivity.
  - split; [exact Hh |]. apply Ha. vm_compute. reflexivity.
Defined.

End EditModeFacts.

(* ================================================================== *)
(** ** Extracting again from a wrapped amount *)

Section RewrappedAmount.
Import Amount.

Lemma last_cons_default (A : Type) (a : A) (l : list A) (d d' : A) :
  last (a :: l) d = last (a :: l) d'.
Proof.
  revert a. induction l as [| b l IH]; intros a; [reflexivity |].
  change (last (a :: b :: l) d) with (last (b :: l) d).
  change (last (a :: b :: l) d') with (last (b :: l) d').
  apply IH.
Qed.

Lemma last_prev_cons (x : N) (xs : str) (pv : option N) :
  last_prev (x :: xs) pv = last_prev xs (Some x).
Proof.
  unfold last_prev. cbn [map]. destruct xs as [| y xs]; [reflexivity |].
  cbn [map]. change (last (Some x :: Some y :: map Some xs) pv)
    with (last (Some y :: map Some xs) pv).
  apply last_cons_default.
Qed.

(** A greedy repetition that can take a whole run, and no more, takes it
    when the continuation accepts there. *)
Lemma rep_takes_run (A : Type) (p : N -> bool) (k : cursor -> option A)
    (tl : str) (r : A) (xs : str) :
  forall lo hi i pv,
    Forall (fun x => p x = true) xs ->
    (lo <= length xs)%nat ->
    match hi with Some h => (length xs <= h)%nat | None => True end ->
    match tl with [] => True | y :: _ => p y = false end
    \/ hi = Some (length xs) ->
    k (Cursor (i + length xs) (last_prev xs pv) tl) = Some r ->
    rep p lo hi k i pv (xs ++ tl) = Some r.
Proof.
  induction xs as [| x xs IH]; intros lo hi i pv Hp Hlo Hhi Hend Hk.
  - cbn [app length last_prev map last] in *.
    rewrite Nat.add_0_r in Hk.
    assert (lo = 0%nat) by lia. subst lo.
    destruct tl as [| y tl]; cbn [rep]; [exact Hk |].
    destruct Hend as [-> | ->]; [exact Hk |].
    rewrite andb_false_r. exact Hk.
  - cbn [app rep]. inversion Hp as [| ? ? Hx Hxs]; subst.
    rewrite Hx. cbn [length] in *.
    assert (Hh : match hi with Some 0%nat => false | _ => true end = true).
    { destruct hi as [[| h] |]; [lia | reflexivity | reflexivity]. }
    rewrite Hh. cbn [andb].
    rewrite (IH (Nat.pred lo) (option_map Nat.pred hi) (S i) (Some x));
      try assumption; try reflexivity.
    + lia.
    + destruct hi as [h |]; cbn [option_map]; [lia | exact I].
    + destruct Hend as [H | ->]; [now left | right; reflexivity].
    + replace (S i + length xs)%nat with (i + S (length xs))%nat by lia.
      now rewrite <- (last_prev_cons x xs pv).
Qed.

Lemma currency_first_eq :
  currency_first
  = Seq (Alt (Seq (Chr (chi 69)) (Seq (Chr (chi 84)) (Chr (chi 66))))
             (Alt (Seq (Chr (chi 98)) (Seq (Chr (chi 105)) (Seq (Chr (chi 114)) (Chr (chi 114)))))
                  (Seq (Chr (chi 4709)) (Chr (chi 4653)))))
        (Seq (Rep 0 None is_space)
             (Grp 1 (Seq (Rep 1 None d09_comma)
                         (Opt (Seq (Chr (ch 46)) (Rep 2 (Some 2) d09)))))).
Proof. reflexivity. Qed.

Lemma d09_not_space (x : N) : d09 x = true -> is_space x = false.
Proof.
  unfold d09. intros H. apply andb_prop in H. destruct H as [H1 H2].
  apply N.leb_le in H1, H2. apply not_space_in_range. lia.
Qed.

Lemma d09_is_d09_comma (x : N) : d09 x = true -> d09_comma x = true.
Proof. unfold d09_comma, cor. now intros ->. Qed.

Lemma firstn_exact (A : Type) (a b : list A) (n : nat) :
  n = length a -> firstn n (a ++ b) = a.
Proof.
  intros ->. rewrite firstn_app, Nat.sub_diag, firstn_all. cbn [firstn].
  apply app_nil_r.
Qed.


(** ["ETB <digits>.<two digits>"]: the match takes the whole number. *)
Lemma currency_first_cents (D : str) (f1 f2 : N) :
  Forall (fun x => d09 x = true) D -> D <> [] ->
  d09 f1 = true -> d09 f2 = true ->
  exists m,
    match_at currency_first
             (Cursor 0 None (69 :: 84 :: 66 :: 32 :: D ++ [46; f1; f2])%N) = Some m
    /\ m_start m = 0%nat
    /\ m_end m = (4 + length D + 3)%nat
    /\ group m 1 = D ++ [46; f1; f2]%N.
Proof.
  intros HD Hne H1 H2. rewrite currency_first_eq.
  unfold match_at. cbn [rmatch rest pos prev].
  change (chi 69 69) with true. cbv iota.
  change (chi 84 84) with true. cbv iota.
  change (chi 66 66) with true. cbv iota.
  change (32 :: D ++ [46; f1; f2])%N with ([32] ++ (D ++ [46; f1; f2]))%N.
  eexists. split.
  - erewrite rep_takes_run with (xs := [32%N]); [reflexivity | | | | |].
    + repeat constructor.
    + cbn. lia.
    + exact I.
    + left. destruct D as [| d D]; [contradiction |].
      cbn [app]. inversion HD; subst. now apply d09_not_space.
    + cbn [rest pos prev length Nat.add].
      erewrite rep_takes_run with (xs := D); [reflexivity | | | | |].
      * revert HD. apply Forall_impl. exact d09_is_d09_comma.
      * destruct D; [contradiction | cbn; lia].
      * exact I.
      * left. reflexivity.
      * cbn [rest pos prev rep].
        change (ch 46 46) with true. cbv iota.
        rewrite H1, H2. cbn [andb Nat.pred option_map].
        reflexivity.
  - cbn [m_start m_end m_caps pos]. repeat split; [lia |].
    unfold group. cbn [m_caps lookup Nat.eqb].
    rewrite <- (app_nil_r (D ++ [46; f1; f2]%N)) at 1.
    apply firstn_exact. rewrite length_app. cbn [length]. lia.
Qed.

Lemma plain_range (x : N) :
  plain x ->
  (x = 69 \/ x = 84 \/ x = 66 \/ x = 32 \/ 46 <= x <= 57)%N.
Proof.
  unfold plain, d09. intros [H | [H | [H | [H | [H | H]]]]]; try lia.
  apply andb_prop in H. destruct H as [H1 H2]. apply N.leb_le in H1, H2. lia.
Qed.

Lemma plain_lower (x : N) :
  plain x ->
  (lower_cp x = 101 \/ lower_cp x = 116 \/ lower_cp x = 98 \/ lower_cp x = 32
   \/ 46 <= lower_cp x <= 57)%N.
Proof.
  intros H. apply plain_range in H. unfold lower_cp.
  destruct H as [-> | [-> | [-> | [-> | H]]]]; try (cbn; lia).
  replace ((65 <=? x) && (x <=? 90))%N with false; [lia |].
  symmetry. apply andb_false_intro1. apply N.leb_gt. lia.
Qed.

(** A plain character is not the letter [c], in either case, when [c] is
    none of e, t, b. *)
Lemma plain_not_letter (c x : N) :
  (57 < lower_cp c)%N -> lower_cp c <> 101%N -> lower_cp c <> 116%N ->
  lower_cp c <> 98%N ->
  plain x -> chi c x = false.
Proof.
  intros H1 H2 H3 H4 Hx. unfold chi. apply N.eqb_neq.
  apply plain_lower in Hx. lia.
Qed.

Lemma startswith_incl (s p : str) :
  startswith s p = true -> forall c, In c p -> In c s.
Proof.
  revert s. induction p as [| a p IH]; intros s H c Hc; [contradiction |].
  destruct s as [| b s]; [discriminate |].
  cbn [startswith] in H. apply andb_prop in H. destruct H as [E H].
  apply N.eqb_eq in E. subst b.
  destruct Hc as [-> | Hc]; [now left | right; now apply IH].
Qed.

(** A needle with a character that the text lacks is not in the text. *)
Lemma contains_lacks (needle hay : str) (c : N) :
  In c needle -> ~ In c hay -> contains needle hay = false.
Proof.
  intros Hc. induction hay as [| x hay IH]; intros Hn.
  - cbn [contains]. rewrite orb_false_r.
    destruct (startswith [] needle) eqn:E; [| reflexivity].
    exfalso. apply Hn. eapply startswith_incl; eassumption.
  - cbn [contains].
    destruct (startswith (x :: hay) needle) eqn:E.
    + exfalso. apply Hn. eapply startswith_incl; eassumption.
    + apply IH. intros H. apply Hn. now right.
Qed.

Lemma In_firstn (A : Type) (n : nat) (l : list A) (x : A) :
  In x (firstn n l) -> In x l.
Proof.
  revert l. induction n as [| n IH]; intros [| y l] H; try contradiction.
  destruct H as [-> | H]; [now left | right; now apply IH].
Qed.

Lemma In_skipn (A : Type) (n : nat) (l : list A) (x : A) :
  In x (skipn n l) -> In x l.
Proof.
  revert l. induction n as [| n IH]; intros l H; [exact H |].
  destruct l as [| y l]; [contradiction |]. right. now apply IH.
Qed.

(** No word with a letter other than e, t, b is in a slice of a plain text. *)
Lemma plain_slice_lacks (needle t : str) (a b : nat) (c : N) :
  In c needle ->
  (57 < c)%N -> c <> 101%N -> c <> 116%N -> c <> 98%N ->
  Forall plain t ->
  contains needle (lower (slice t a b)) = false.
Proof.
  intros Hc H1 H2 H3 H4 Ht. apply contains_lacks with (c := c); [assumption |].
  unfold lower, slice. intros Hin. apply in_map_iff in Hin.
  destruct Hin as (x & E & Hx).
  apply In_firstn, In_skipn in Hx.
  rewrite Forall_forall in Ht. apply Ht, plain_lower in Hx. lia.
Qed.

Lemma lstrip_fixed (x : N) (s : str) :
  is_space x = false -> lstrip (x :: s) = x :: s.
Proof. intros H. cbn [lstrip]. now rewrite H. Qed.

Lemma strip_fixed (x y : N) (a : str) :
  is_space x = false -> is_space y = false ->
  strip (x :: a ++ [y]) = x :: a ++ [y].
Proof.
  intros Hx Hy. unfold strip, rstrip. rewrite (@lstrip_fixed x (a ++ [y]) Hx).
  assert (E : rev (x :: a ++ [y]) = y :: rev a ++ [x])
    by (cbn [rev]; rewrite rev_app_distr; reflexivity).
  rewrite E, (@lstrip_fixed y (rev a ++ [x]) Hy), <- E. apply rev_involutive.
Qed.

(** A one-line text that is not blank at either end is left as it is. *)
Lemma normalize_one_line (x y : N) (a : str) :
  is_space x = false -> is_space y = false ->
  Forall (fun c => c <> 10%N) (x :: a ++ [y]) ->
  normalize_amount_lines (x :: a ++ [y]) = x :: a ++ [y].
Proof.
  intros Hx Hy Hnl. unfold normalize_amount_lines.
  rewrite split_on_no_sep by assumption.
  cbn [join_label_lines]. rewrite strip_fixed by assumption.
  reflexivity.
Qed.

Lemma without_vat_stage_needs (P : N -> bool) (ps : list regex) (t : str) :
  Forall (Needs P) ps -> Forall (fun x => P x = false) t ->
  without_vat_stage ps t = None.
Proof.
  intros Hps Ht. induction Hps as [| p ps Hp Hps IH]; [reflexivity |].
  cbn [without_vat_stage]. now rewrite (re_search_needs Hp Ht).
Qed.

Lemma standard_patterns_eq :
  standard_patterns = [debited_etb; amount_etb; currency_first; amount_first].
Proof. reflexivity. Qed.


Ltac in_word := vm_compute; tauto.

Lemma settled_needs_s : Needs (chi 115) settled_pattern.
Proof.
  apply Needs_seqs. left.
  refine (@Needs_liti _ _ 115%N _ _); [in_word | auto].
Qed.

Lemma without_vat_need_s_or_v :
  Forall (Needs (cor (chi 115) (chi 118))) without_vat_patterns.
Proof.
  assert (Hs : forall x, chi 115 x = true -> cor (chi 115) (chi 118) x = true)
    by (intros x H; unfold cor; now rewrite H).
  assert (Hv : forall x, chi 118 x = true -> cor (chi 115) (chi 118) x = true)
    by (intros x H; unfold cor; rewrite H; apply orb_true_r).
  repeat first [apply Forall_nil | apply Forall_cons].
  - apply Needs_seqs. left. apply Needs_alts; [discriminate |].
    repeat first [apply Forall_nil | apply Forall_cons].
    + refine (@Needs_liti _ _ 115%N _ _); [in_word | exact Hs].
    + refine (@Needs_liti _ _ 115%N _ _); [in_word | exact Hs].
    + refine (@Needs_liti _ _ 115%N _ _); [in_word | exact Hs].
    + refine (@Needs_liti _ _ 118%N _ _); [in_word | exact Hv].
    + refine (@Needs_liti _ _ 118%N _ _); [in_word | exact Hv].
    + apply Needs_seqs. right. right. left.
      refine (@Needs_liti _ _ 118%N _ _); [in_word | exact Hv].
  - apply Needs_seqs. do 4 right. left.
    apply Needs_alts; [discriminate |].
    repeat first [apply Forall_nil | apply Forall_cons].
    + refine (@Needs_liti _ _ 118%N _ _); [in_word | exact Hv].
    + refine (@Needs_liti _ _ 118%N _ _); [in_word | exact Hv].
    + apply Needs_seqs. right. right. left.
      refine (@Needs_liti _ _ 118%N _ _); [in_word | exact Hv].
Qed.

Lemma debited_needs_d : Needs (chi 100) debited_pattern.
Proof.
  apply Needs_seqs. do 4 right. left.
  refine (@Needs_liti _ _ 100%N _ _); [in_word | auto].
Qed.

Lemma debited_etb_needs_d : Needs (chi 100) debited_etb.
Proof.
  apply Needs_seqs. left. apply Needs_alts; [discriminate |].
  repeat first [apply Forall_nil | apply Forall_cons].
  - refine (@Needs_liti _ _ 100%N _ _); [in_word | auto].
  - refine (@Needs_liti _ _ 68%N _ _); [in_word | intros x H; exact H].
  - refine (@Needs_liti _ _ 68%N _ _); [in_word | intros x H; exact H].
Qed.

Lemma amount_etb_needs_a : Needs (chi 97) amount_etb.
Proof.
  apply Needs_seqs. left. apply Needs_alts; [discriminate |].
  repeat first [apply Forall_nil | apply Forall_cons].
  - refine (@Needs_liti _ _ 65%N _ _); [in_word | intros x H; exact H].
  - refine (@Needs_liti _ _ 97%N _ _); [in_word | auto].
  - refine (@Needs_liti _ _ 65%N _ _); [in_word | intros x H; exact H].
Qed.

Lemma currency_needs_letter : Needs currency_letter currency.
Proof.
  apply Needs_alts; [discriminate |].
  repeat first [apply Forall_nil | apply Forall_cons].
  - refine (@Needs_liti _ _ 69%N _ _); [in_word |].
    intros x H. unfold currency_letter, cor. now rewrite H.
  - refine (@Needs_liti _ _ 105%N _ _); [in_word |].
    intros x H. unfold currency_letter, cor. rewrite H.
    now rewrite orb_true_r.
  - refine (@Needs_liti _ _ 4709%N _ _); [in_word |].
    intros x H. unfold currency_letter, cor. rewrite H.
    now rewrite !orb_true_r.
Qed.

Lemma currency_first_needs_letter : Needs currency_letter currency_first.
Proof. apply Needs_seqs. left. exact currency_needs_letter. Qed.

Lemma amount_first_needs_letter : Needs currency_letter amount_first.
Proof. apply Needs_seqs. right. right. left. exact currency_needs_letter. Qed.

(** [amount_first] starts with a digit or a comma. *)
Lemma amount_first_head (i : nat) (pv : option N) (x : N) (s : str) :
  d09_comma x = false -> match_at amount_first (Cursor i pv (x :: s)) = None.
Proof.
  intros H. unfold match_at.
  change amount_first
    with (Seq amount_group (Seq (Rep 0 None is_space) currency)).
  unfold amount_group, plus. cbn [rmatch rep rest pos prev].
  now rewrite H.
Qed.

Lemma plain_not_currency_letter (x : N) :
  plain x -> x <> 69%N -> currency_letter x = false.
Proof.
  intros Hp Hx. unfold currency_letter, cor, chi.
  assert (H : (lower_cp x = 116 \/ lower_cp x = 98 \/ lower_cp x = 32
               \/ 46 <= lower_cp x <= 57)%N).
  { pose proof (plain_range Hp) as R. pose proof (plain_lower Hp) as L.
    destruct R as [-> | R]; [contradiction |].
    destruct L as [L | L]; [| exact L].
    exfalso. unfold lower_cp in L.
    destruct ((65 <=? x) && (x <=? 90))%N eqn:E; [| lia].
    apply andb_prop in E. destruct E as [E1 E2]. apply N.leb_le in E1, E2.
    lia. }
  change (lower_cp 69) with 101%N. change (lower_cp 105) with 105%N.
  change (lower_cp 4709) with 4709%N.
  repeat (apply orb_false_intro); apply N.eqb_neq; lia.
Qed.

Lemma finditer_from_match (r : regex) (i : nat) (pv : option N) (x : N)
    (s : str) (m : mobj) :
  match_at r (Cursor i pv (x :: s)) = Some m ->
  finditer_from r 0 i pv (x :: s)
  = m :: finditer_from r (m_end m - i - 1) (S i) (Some x) s.
Proof. intros H. cbn [finditer_from]. now rewrite H. Qed.

Lemma finditer_from_no_match (r : regex) (i : nat) (pv : option N) (x : N)
    (s : str) :
  match_at r (Cursor i pv (x :: s)) = None ->
  finditer_from r 0 i pv (x :: s) = finditer_from r 0 (S i) (Some x) s.
Proof. intros H. cbn [finditer_from]. now rewrite H. Qed.

Section Rewrapped.

(** The text ["ETB " ++ tail], where [tail] is a decimal numeral that ends
    with a digit [y]; the currency-first pattern matches at the start,
    with the group [G], which reads as [v] above 50. *)
Variables (a : str) (y : N) (G : str) (v : float) (m : mobj).
Let tail : str := a ++ [y].
Let text : str := (69 :: 84 :: 66 :: 32 :: tail)%N.

Hypothesis tail_plain : Forall (fun x => x = 46%N \/ d09 x = true) tail.
Hypothesis y_digit : d09 y = true.
Hypothesis matched : match_at currency_first (Cursor 0 None text) = Some m.
Hypothesis matched_start : m_start m = 0%nat.
Hypothesis matched_group : group m 1 = G.
Hypothesis G_no_comma : Forall (fun x => x <> 44%N) G.
Hypothesis G_value : float_of_str G = Some v.
Hypothesis v_above : gtb v (of_nat 50) = true.

Lemma text_plain : Forall plain text.
Proof.
  unfold text. repeat (constructor; [unfold plain; tauto |]).
  revert tail_plain. apply Forall_impl. unfold plain. tauto.
Qed.

Lemma text_lacks (c : N) :
  (57 < lower_cp c)%N -> lower_cp c <> 101%N -> lower_cp c <> 116%N ->
  lower_cp c <> 98%N ->
  Forall (fun x => chi c x = false) text.
Proof.
  intros. generalize text_plain. apply Forall_impl.
  intros x Hx. now apply plain_not_letter.
Qed.

Lemma after_E_lacks_currency :
  Forall (fun x => currency_letter x = false) (84 :: 66 :: 32 :: tail)%N.
Proof.
  repeat (constructor; [reflexivity |]).
  revert tail_plain. apply Forall_impl. intros x Hx.
  apply plain_not_currency_letter.
  - unfold plain. tauto.
  - destruct Hx as [-> | Hx]; [discriminate |].
    intros ->. discriminate.
Qed.

Lemma tail_lacks_currency : Forall (fun x => currency_letter x = false) tail.
Proof.
  pose proof after_E_lacks_currency as H.
  now inversion H as [| ? ? _ [| ? ? _ [| ? ? _ H3]]].
Qed.

Lemma normalize_text : normalize_amount_lines text = text.
Proof.
  unfold text, tail.
  change (69 :: 84 :: 66 :: 32 :: a ++ [y])%N
    with (69 :: (84 :: 66 :: 32 :: a) ++ [y])%N.
  apply normalize_one_line; [reflexivity | now apply d09_not_space |].
  change (69 :: (84 :: 66 :: 32 :: a) ++ [y])%N with text.
  generalize text_plain. apply Forall_impl.
  intros x Hx ->. apply plain_range in Hx. lia.
Qed.

Lemma candidate_of_match : candidate text m = [v].
Proof.
  unfold candidate, amount_str_of. rewrite matched_group.
  unfold remove_char.
  replace (filter (fun x => negb (x =? 44)%N) G) with G.
  2:{ symmetry. apply forallb_filter_id. apply forallb_forall.
      rewrite Forall_forall in G_no_comma. intros x Hx.
      apply negb_true_iff, N.eqb_neq. now apply G_no_comma. }
  unfold amount_val_above_50. rewrite G_value, v_above, matched_start.
  rewrite (@plain_slice_lacks (u "total") text _ _ 111%N) by
    (try apply text_plain; try lia; in_word).
  rewrite (@plain_slice_lacks (u "with commission") text _ _ 119%N) by
    (try apply text_plain; try lia; in_word).
  rewrite (@plain_slice_lacks (u "service charge") text _ _ 115%N) by
    (try apply text_plain; try lia; in_word).
  rewrite (@plain_slice_lacks (u "vat") text _ _ 118%N) by
    (try apply text_plain; try lia; in_word).
  reflexivity.
Qed.

Lemma all_amounts_text : all_amounts text = [v].
Proof.
  unfold all_amounts. rewrite standard_patterns_eq. cbn [flat_map].
  unfold finditer.
  rewrite (finditer_from_needs debited_etb_needs_d)
    by (apply text_lacks; vm_compute; (reflexivity || discriminate)).
  rewrite (finditer_from_needs amount_etb_needs_a)
    by (apply text_lacks; vm_compute; (reflexivity || discriminate)).
  assert (E3 : finditer_from currency_first 0 0 None text = [m]).
  { unfold text. rewrite (@finditer_from_match _ _ _ _ _ _ matched).
    now rewrite (finditer_from_needs currency_first_needs_letter
                   after_E_lacks_currency). }
  assert (E4 : finditer_from amount_first 0 0 None text = []).
  { unfold text.
    rewrite !finditer_from_no_match by (now apply amount_first_head).
    now rewrite (finditer_from_needs amount_first_needs_letter
                   tail_lacks_currency). }
  rewrite E3, E4. cbn [flat_map app].
  now rewrite candidate_of_match.
Qed.

Lemma search_stages_text : search_stages text = Some (str_of_float v).
Proof.
  unfold search_stages, settled_stage, debited_stage, standard_stage.
  rewrite (re_search_needs settled_needs_s)
    by (apply text_lacks; vm_compute; (reflexivity || discriminate)).
  rewrite (@without_vat_stage_needs (cor (chi 115) (chi 118))).
  2: exact without_vat_need_s_or_v.
  2:{ generalize text_plain. apply Forall_impl. intros x Hx. unfold cor.
      rewrite !plain_not_letter;
        try assumption; vm_compute; (reflexivity || discriminate). }
  rewrite (re_search_needs debited_needs_d)
    by (apply text_lacks; vm_compute; (reflexivity || discriminate)).
  now rewrite all_amounts_text.
Qed.

Lemma extract_text : extract_amount_from_receipt text = str_of_float v.
Proof.
  unfold extract_amount_from_receipt.
  now rewrite normalize_text, search_stages_text.
Qed.

End Rewrapped.

Lemma digit_chars_d09 (ds : list N) :
  Forall (fun d => (d < 10)%N) ds ->
  Forall (fun x => d09 x = true) (digit_chars ds).
Proof.
  intros H. apply Forall_forall. intros x Hx.
  pose proof (digit_chars_all_digits H) as Hall.
  rewrite forallb_forall in Hall. exact (Hall x Hx).
Qed.


Lemma d09_plain_tail (s : str) :
  Forall (fun x => d09 x = true) s ->
  Forall (fun x => x = 46%N \/ d09 x = true) s.
Proof. apply Forall_impl. tauto. Qed.

Lemma d09_not_comma (s : str) :
  Forall (fun x => d09 x = true) s -> Forall (fun x => x <> 44%N) s.
Proof. apply Forall_impl. intros x H ->. discriminate. Qed.


Lemma digit_char_d09 (d : N) : (d < 10)%N -> d09 (48 + d) = true.
Proof.
  intros H. unfold d09. apply andb_true_intro. split; apply N.leb_le; lia.
Qed.

(** An amount above 50 with two fraction digits, printed as a float and
    wrapped again. *)
Lemma rewrap_cents (n : N) :
  canonical (Float n 2) ->
  gtb (Float n 2) (of_nat 50) = true ->
  extract_amount_from_receipt (u "ETB " ++ str_of_float (Float n 2))
  = str_of_float (Float n 2).
Proof.
  intros Hc Hv.
  assert (Hn : (n / pow10 2 <> 0)%N).
  { unfold gtb, ltb, of_nat in Hv. cbn [mant scale] in Hv.
    apply N.ltb_lt in Hv. change (pow10 0) with 1%N in Hv.
    change (pow10 2) with 100%N in *. change (N.of_nat 50) with 50%N in Hv.
    intros E. apply N.div_small_iff in E; lia. }
  pose proof (float_of_str_of_float Hc) as Hround.
  destruct (str_of_N_positive Hn) as (d & ds & E & Hd & Hsm & Hval).
  set (k := (n mod pow10 2)%N).
  set (f1 := (48 + (k / 10) mod 10)%N).
  set (f2 := (48 + k mod 10)%N).
  assert (Hstr : str_of_float (Float n 2)
                 = (digit_chars (d :: ds) ++ [46; f1; f2])%N).
  { unfold str_of_float. cbn [mant scale]. now rewrite E. }
  rewrite Hstr in Hround. rewrite Hstr at 1.
  assert (H1 : d09 f1 = true) by (apply digit_char_d09, N.mod_lt; lia).
  assert (H2 : d09 f2 = true) by (apply digit_char_d09, N.mod_lt; lia).
  pose proof (digit_chars_d09 Hsm) as HD.
  assert (Hne : digit_chars (d :: ds) <> []) by discriminate.
  destruct (@currency_first_cents _ f1 f2 HD Hne H1 H2)
    as (m & Hm & Hs & He & Hg).
  change (u "ETB " ++ digit_chars (d :: ds) ++ [46; f1; f2])%N
    with (69 :: 84 :: 66 :: 32 :: digit_chars (d :: ds) ++ [46; f1; f2])%N.
  replace (digit_chars (d :: ds) ++ [46; f1; f2])%N
    with ((digit_chars (d :: ds) ++ [46; f1]) ++ [f2])%N in Hm |- *
    by (now rewrite <- app_assoc).
  apply (@extract_text (digit_chars (d :: ds) ++ [46; f1]%N) f2
           (digit_chars (d :: ds) ++ [46; f1; f2]%N) (Float n 2) m).
  - apply Forall_app. split.
    + apply Forall_app. split; [now apply d09_plain_tail |].
      constructor; [now left |]. constructor; [now right | constructor].
    + constructor; [now right | constructor].
  - exact H2.
  - exact Hm.
  - exact Hs.
  - exact Hg.
  - apply Forall_app. split; [now apply d09_not_comma |].
    constructor; [discriminate |].
    apply d09_not_comma. now repeat constructor.
  - exact Hround.
  - exact Hv.
Qed.








End RewrappedAmount.

(* ================================================================== *)
(** ** The matcher and the matches of a pattern *)

Section MatcherFacts.
Import Matching.

Lemma last_prev_app (a b : str) (pv : option N) :
  last_prev (a ++ b) pv = last_prev b (last_prev a pv).
Proof.
  revert pv. induction a as [| x a IH]; intros pv; [reflexivity |].
  cbn [app]. now rewrite !last_prev_cons, IH.
Qed.

Lemma cursor_eta (c : cursor) : Cursor (pos c) (prev c) (rest c) = c.
Proof. now destruct c. Qed.

Lemma moved_refl (c : cursor) : moved c [] c.
Proof. unfold moved. cbn. repeat split. lia. Qed.

Lemma moved_trans (c1 c2 c3 : cursor) (a b : str) :
  moved c1 a c2 -> moved c2 b c3 -> moved c1 (a ++ b) c3.
Proof.
  intros (R1 & P1 & V1) (R2 & P2 & V2). unfold moved.
  rewrite R1, R2, P2, P1, V2, V1, length_app, last_prev_app, app_assoc.
  repeat split. lia.
Qed.

Lemma moved_step (c : cursor) (x : N) (s : str) :
  rest c = x :: s -> moved c [x] (Cursor (S (pos c)) (Some x) s).
Proof. intros H. unfold moved. cbn. rewrite H. repeat split. lia. Qed.

Lemma moved_unique (c c1 c2 : cursor) (pre : str) :
  moved c pre c1 -> moved c pre c2 -> c1 = c2.
Proof.
  intros (R1 & P1 & V1) (R2 & P2 & V2).
  destruct c1, c2. cbn in *. f_equal; try congruence.
  rewrite R1 in R2. now apply app_inv_head in R2.
Qed.

Lemma moved_firstn (c c' : cursor) (pre : str) :
  moved c pre c' -> firstn (pos c' - pos c) (rest c) = pre.
Proof.
  intros (R & P & _). rewrite R, P.
  replace (pos c + length pre - pos c)%nat with (length pre + 0)%nat by lia.
  rewrite firstn_app_2. cbn. apply app_nil_r.
Qed.

(** Every match moves the position forward over part of the text. *)
Lemma matches_moved (r : regex) (c c' : cursor) (g g' : caps) :
  matches r c g c' g' -> exists pre, moved c pre c'.
Proof.
  induction 1 as [c g | p c g x s Hr Hp
                  | a b c c1 c2 g g1 g2 _ [p1 H1] _ [p2 H2]
                  | a b c c' g g' _ IH | a b c c' g g' _ IH
                  | a c c' g g' _ IH | a c g
                  | lo hi p c c' g xs Hxs Hlo Hhi Hm
                  | p c c' g xs Hxs Hm
                  | i a c c' g g' _ IH | ml c g Hb | c g He].
  - exists []. apply moved_refl.
  - exists [x]. now apply moved_step.
  - exists (p1 ++ p2). eapply moved_trans; eassumption.
  - exact IH.
  - exact IH.
  - exact IH.
  - exists []. apply moved_refl.
  - now exists xs.
  - now exists xs.
  - exact IH.
  - exists []. apply moved_refl.
  - exists []. apply moved_refl.
Qed.

(** The groups a match starts from do not decide whether it matches. *)
Lemma matches_any_caps (r : regex) (c c' : cursor) (g g' : caps) :
  matches r c g c' g' -> forall h, exists h', matches r c h c' h'.
Proof.
  induction 1 as [c g | p c g x s Hr Hp
                  | a b c c1 c2 g g1 g2 _ IH1 _ IH2
                  | a b c c' g g' _ IH | a b c c' g g' _ IH
                  | a c c' g g' _ IH | a c g
                  | lo hi p c c' g xs Hxs Hlo Hhi Hm
                  | p c c' g xs Hxs Hm
                  | i a c c' g g' _ IH | ml c g Hb | c g He]; intros h.
  - exists h. constructor.
  - exists h. now constructor.
  - destruct (IH1 h) as [h1 H1]. destruct (IH2 h1) as [h2 H2].
    exists h2. econstructor; eassumption.
  - destruct (IH h) as [h' H']. exists h'. now apply M_alt_l.
  - destruct (IH h) as [h' H']. exists h'. now apply M_alt_r.
  - destruct (IH h) as [h' H']. exists h'. now apply M_opt_some.
  - exists h. apply M_opt_none.
  - exists h. now apply M_rep with (xs := xs).
  - exists h. now apply M_lazy with (xs := xs).
  - destruct (IH h) as [h' H']. eexists. apply M_grp. exact H'.
  - exists h. now constructor.
  - exists h. now constructor.
Qed.

Section Sound.
Variable A : Type.

Lemma rep_matches (p : N -> bool) (k : cursor -> option A) (s : str) :
  forall lo hi i pv r,
    rep p lo hi k i pv s = Some r ->
    exists xs c',
      Forall (fun x => p x = true) xs
      /\ (lo <= length xs)%nat
      /\ match hi with Some h => (length xs <= h)%nat | None => True end
      /\ moved (Cursor i pv s) xs c'
      /\ k c' = Some r.
Proof.
  induction s as [| x s IH]; intros lo hi i pv r H.
  - cbn [rep] in H. destruct lo; [| discriminate].
    exists [], (Cursor i pv []).
    refine (conj _ (conj _ (conj _ (conj _ H))));
      [constructor | cbn; lia | destruct hi; cbn; [lia | exact I]
       | apply moved_refl].
  - cbn [rep] in H.
    assert (Hstop :
      match lo with O => k (Cursor i pv (x :: s)) | S _ => None end = Some r ->
      exists xs c',
        Forall (fun x => p x = true) xs
        /\ (lo <= length xs)%nat
        /\ match hi with Some h => (length xs <= h)%nat | None => True end
        /\ moved (Cursor i pv (x :: s)) xs c'
        /\ k c' = Some r).
    { destruct lo; [| discriminate]. intros Hk.
      exists [], (Cursor i pv (x :: s)).
      refine (conj _ (conj _ (conj _ (conj _ Hk))));
        [constructor | cbn; lia | destruct hi; cbn; [lia | exact I]
         | apply moved_refl]. }
    destruct (p x) eqn:Hp; cbn [andb] in H; [| now apply Hstop].
    destruct hi as [[| h] |]; [now apply Hstop | |].
    + cbn [option_map Nat.pred] in H.
      destruct (rep p (Nat.pred lo) (Some h) k (S i) (Some x) s)
        as [r' |] eqn:E; [| now apply Hstop].
      injection H as <-. apply IH in E.
      destruct E as (xs & c' & Hxs & Hlo & Hhi & Hm & Hk).
      exists (x :: xs), c'.
      refine (conj _ (conj _ (conj _ (conj _ Hk))));
        [now constructor | cbn; lia | cbn; lia |].
      apply (@moved_trans (Cursor i pv (x :: s)) (Cursor (S i) (Some x) s) c'
                          [x] xs); [| exact Hm].
      now apply (@moved_step (Cursor i pv (x :: s)) x s).
    + cbn [option_map] in H.
      destruct (rep p (Nat.pred lo) None k (S i) (Some x) s)
        as [r' |] eqn:E; [| now apply Hstop].
      injection H as <-. apply IH in E.
      destruct E as (xs & c' & Hxs & Hlo & Hhi & Hm & Hk).
      exists (x :: xs), c'.
      refine (conj _ (conj _ (conj _ (conj _ Hk))));
        [now constructor | cbn; lia | exact I |].
      apply (@moved_trans (Cursor i pv (x :: s)) (Cursor (S i) (Some x) s) c'
                          [x] xs); [| exact Hm].
      now apply (@moved_step (Cursor i pv (x :: s)) x s).
Qed.

Lemma lazy_matches (p : N -> bool) (k : cursor -> option A) (s : str) :
  forall i pv r,
    lazy p k i pv s = Some r ->
    exists xs c',
      Forall (fun x => p x = true) xs
      /\ moved (Cursor i pv s) xs c'
      /\ k c' = Some r.
Proof.
  induction s as [| x s IH]; intros i pv r H; cbn [lazy] in H.
  - destruct (k (Cursor i pv [])) as [r' |] eqn:E; [| discriminate].
    injection H as <-. exists [], (Cursor i pv []).
    refine (conj _ (conj _ E)); [constructor | apply moved_refl].
  - destruct (k (Cursor i pv (x :: s))) as [r' |] eqn:E.
    + injection H as <-. exists [], (Cursor i pv (x :: s)).
      refine (conj _ (conj _ E)); [constructor | apply moved_refl].
    + destruct (p x) eqn:Hp; [| discriminate].
      apply IH in H. destruct H as (xs & c' & Hxs & Hm & Hk).
      exists (x :: xs), c'. refine (conj _ (conj _ Hk)); [now constructor |].
      apply (@moved_trans (Cursor i pv (x :: s)) (Cursor (S i) (Some x) s) c'
                          [x] xs); [| exact Hm].
      now apply (@moved_step (Cursor i pv (x :: s)) x s).
Qed.

(** What the matcher returns comes from a match of the pattern. *)
Lemma rmatch_matches (r : regex) :
  forall (c : cursor) (g : caps) (k : cursor -> caps -> option A) (x : A),
    rmatch r c g k = Some x ->
    exists c' g', matches r c g c' g' /\ k c' g' = Some x.
Proof.
  induction r as [| p | a IHa b IHb | a IHa b IHb | a IHa | lo hi p | p
                  | i a IHa | ml |];
    intros c g k x H; cbn [rmatch] in H.
  - exists c, g. split; [constructor | exact H].
  - destruct (rest c) as [| y s] eqn:E; [discriminate |].
    destruct (p y) eqn:Hp; [| discriminate].
    exists (Cursor (S (pos c)) (Some y) s), g.
    split; [now apply M_chr | exact H].
  - apply IHa in H. destruct H as (c1 & g1 & H1 & H).
    apply IHb in H. destruct H as (c2 & g2 & H2 & H).
    exists c2, g2. split; [econstructor; eassumption | exact H].
  - destruct (rmatch a c g k) as [y |] eqn:E.
    + injection H as <-. apply IHa in E. destruct E as (c' & g' & H1 & H).
      exists c', g'. split; [now apply M_alt_l | exact H].
    + apply IHb in H. destruct H as (c' & g' & H1 & H).
      exists c', g'. split; [now apply M_alt_r | exact H].
  - destruct (rmatch a c g k) as [y |] eqn:E.
    + injection H as <-. apply IHa in E. destruct E as (c' & g' & H1 & H).
      exists c', g'. split; [now apply M_opt_some | exact H].
    + exists c, g. split; [apply M_opt_none | exact H].
  - apply rep_matches in H. destruct H as (xs & c' & Hxs & Hlo & Hhi & Hm & Hk).
    rewrite cursor_eta in Hm.
    exists c', g. split; [now apply M_rep with (xs := xs) | exact Hk].
  - apply lazy_matches in H. destruct H as (xs & c' & Hxs & Hm & Hk).
    rewrite cursor_eta in Hm.
    exists c', g. split; [now apply M_lazy with (xs := xs) | exact Hk].
  - apply IHa in H. destruct H as (c' & g' & H1 & H).
    eexists. eexists. split; [apply M_grp; exact H1 | exact H].
  - destruct (_ || _) eqn:E; [| discriminate].
    exists c, g. split; [now constructor | exact H].
  - exists c, g. destruct (rest c) as [| y [| z s]] eqn:E; [| | discriminate].
    + split; [constructor; now left | exact H].
    + destruct (N.eqb_spec y 10) as [-> |]; [| discriminate].
      split; [constructor; now right | exact H].
Qed.

Lemma rep_complete (p : N -> bool) (k : cursor -> option A) (tl : str)
    (xs : str) :
  forall lo hi i pv,
    Forall (fun x => p x = true) xs ->
    (lo <= length xs)%nat ->
    match hi with Some h => (length xs <= h)%nat | None => True end ->
    (exists r, k (Cursor (i + length xs) (last_prev xs pv) tl) = Some r) ->
    exists r, rep p lo hi k i pv (xs ++ tl) = Some r.
Proof.
  induction xs as [| x xs IH]; intros lo hi i pv Hp Hlo Hhi [r Hk].
  - cbn [app length last_prev map last] in *.
    rewrite Nat.add_0_r in Hk.
    assert (lo = 0%nat) by lia. subst lo.
    destruct tl as [| y tl]; cbn [rep]; [now exists r |].
    destruct (p y && _); [| now exists r].
    destruct (rep p _ _ k (S i) (Some y) tl) as [r' |];
      [now exists r' | now exists r].
  - cbn [app rep]. inversion Hp as [| ? ? Hx Hxs]; subst.
    rewrite Hx. cbn [length] in *.
    assert (Hh : match hi with Some 0%nat => false | _ => true end = true).
    { destruct hi as [[| h] |]; [lia | reflexivity | reflexivity]. }
    rewrite Hh. cbn [andb].
    destruct (IH (Nat.pred lo) (option_map Nat.pred hi) (S i) (Some x))
      as [r' Hr']; try assumption.
    + lia.
    + destruct hi as [h |]; cbn [option_map]; [lia | exact I].
    + exists r.
      replace (S i + length xs)%nat with (i + S (length xs))%nat by lia.
      now rewrite <- (last_prev_cons x xs pv).
    + rewrite Hr'. now exists r'.
Qed.

Lemma lazy_complete (p : N -> bool) (k : cursor -> option A) (tl : str)
    (xs : str) :
  forall i pv,
    Forall (fun x => p x = true) xs ->
    (exists r, k (Cursor (i + length xs) (last_prev xs pv) tl) = Some r) ->
    exists r, lazy p k i pv (xs ++ tl) = Some r.
Proof.
  induction xs as [| x xs IH]; intros i pv Hp [r Hk].
  - cbn [app length last_prev map last] in *.
    rewrite Nat.add_0_r in Hk.
    destruct tl as [| y tl]; cbn [lazy]; rewrite Hk; now exists r.
  - cbn [app lazy]. inversion Hp as [| ? ? Hx Hxs]; subst.
    destruct (k (Cursor i pv (x :: xs ++ tl))) as [r0 |]; [now exists r0 |].
    rewrite Hx. apply IH; [assumption |].
    exists r. cbn [length] in Hk.
    replace (S i + length xs)%nat with (i + S (length xs))%nat by lia.
    now rewrite <- (last_prev_cons x xs pv).
Qed.

(** The matcher finds a result whenever the pattern has a match that the
    continuation accepts. *)
Lemma matches_rmatch (r : regex) (c c' : cursor) (g g' : caps) :
  matches r c g c' g' ->
  forall k : cursor -> caps -> option A,
    (exists x, k c' g' = Some x) -> exists x, rmatch r c g k = Some x.
Proof.
  induction 1 as [c g | p c g x s Hr Hp
                  | a b c c1 c2 g g1 g2 _ IH1 _ IH2
                  | a b c c' g g' _ IH | a b c c' g g' _ IH
                  | a c c' g g' _ IH | a c g
                  | lo hi p c c' g xs Hxs Hlo Hhi Hm
                  | p c c' g xs Hxs Hm
                  | i a c c' g g' _ IH | ml c g Hb | c g He];
    intros k Hk; cbn [rmatch].
  - exact Hk.
  - rewrite Hr, Hp. exact Hk.
  - apply IH1. now apply IH2.
  - destruct (IH k Hk) as [y ->]. now exists y.
  - destruct (rmatch a c g k) as [y |]; [now exists y | now apply IH].
  - destruct (IH k Hk) as [y ->]. now exists y.
  - destruct (rmatch a c g k) as [y |]; [now exists y | exact Hk].
  - destruct Hm as (R & P & V). rewrite R.
    apply rep_complete; try assumption.
    rewrite <- P, <- V, cursor_eta. exact Hk.
  - destruct Hm as (R & P & V). rewrite R.
    apply lazy_complete; try assumption.
    rewrite <- P, <- V, cursor_eta. exact Hk.
  - apply IH. exact Hk.
  - rewrite Hb. exact Hk.
  - destruct He as [-> | ->]; [exact Hk |]. exact Hk.
Qed.

End Sound.

(** [match_at] returns the match object of a match of the pattern, and
    finds one whenever there is a match. *)
Lemma match_at_matches (r : regex) (c : cursor) (m : mobj) :
  match_at r c = Some m ->
  exists c' g',
    matches r c [] c' g'
    /\ m = Mobj (pos c) (pos c')
              ((0%nat, firstn (pos c' - pos c) (rest c)) :: g').
Proof.
  unfold match_at. intros H. apply rmatch_matches in H.
  destruct H as (c' & g' & Hm & [= <-]). now exists c', g'.
Qed.

Lemma matches_match_at (r : regex) (c c' : cursor) (g g' : caps) :
  matches r c g c' g' -> exists m, match_at r c = Some m.
Proof.
  intros H. destruct (matches_any_caps H []) as [h' H'].
  unfold match_at. eapply matches_rmatch; [exact H' |]. eexists. reflexivity.
Qed.

(** [search_from] returns the match at some position of the text, and finds
    one whenever some position has a match. *)
Lemma search_from_sound (r : regex) (s : str) :
  forall i pv m,
    search_from r i pv s = Some m ->
    exists pre post,
      s = pre ++ post
      /\ match_at r (Cursor (i + length pre) (last_prev pre pv) post) = Some m.
Proof.
  induction s as [| x s IH]; intros i pv m H; cbn [search_from] in H.
  - destruct (match_at r (Cursor i pv [])) as [m' |] eqn:E; [| discriminate].
    injection H as <-. exists [], []. cbn. rewrite Nat.add_0_r. now split.
  - destruct (match_at r (Cursor i pv (x :: s))) as [m' |] eqn:E.
    + injection H as <-. exists [], (x :: s). cbn. rewrite Nat.add_0_r.
      now split.
    + apply IH in H. destruct H as (pre & post & -> & H).
      exists (x :: pre), post. split; [reflexivity |].
      rewrite last_prev_cons. cbn [length].
      now replace (i + S (length pre))%nat with (S i + length pre)%nat by lia.
Qed.

Lemma search_from_complete (r : regex) (pre post : str) :
  forall i pv,
    (exists m,
       match_at r (Cursor (i + length pre) (last_prev pre pv) post) = Some m) ->
    exists m, search_from r i pv (pre ++ post) = Some m.
Proof.
  induction pre as [| x pre IH]; intros i pv [m H].
  - cbn in H. rewrite Nat.add_0_r in H. cbn [app].
    destruct post; cbn [search_from]; rewrite H; now exists m.
  - cbn [app search_from].
    destruct (match_at r (Cursor i pv (x :: pre ++ post))) as [m' |];
      [now exists m' |].
    apply IH. exists m. rewrite last_prev_cons in H. cbn [length] in H.
    now replace (S i + length pre)%nat with (i + S (length pre))%nat by lia.
Qed.

Lemma re_search_sound (r : regex) (s : str) (m : mobj) :
  re_search r s = Some m ->
  exists pre post, s = pre ++ post /\ match_at r (cursor_at pre post) = Some m.
Proof.
  intros H. apply search_from_sound in H.
  destruct H as (pre & post & E & H). now exists pre, post.
Qed.

Lemma re_search_complete (r : regex) (pre post : str) :
  (exists m, match_at r (cursor_at pre post) = Some m) ->
  exists m, re_search r (pre ++ post) = Some m.
Proof. intros H. unfold re_search. now apply search_from_complete. Qed.

(** Every match that [finditer] yields is the match at some position. *)
Lemma finditer_from_sound (r : regex) (s : str) :
  forall skip i pv m,
    In m (finditer_from r skip i pv s) ->
    exists pre post,
      s = pre ++ post
      /\ match_at r (Cursor (i + length pre) (last_prev pre pv) post) = Some m.
Proof.
  induction s as [| x s IH]; intros skip i pv m H; cbn [finditer_from] in H.
  - destruct skip; [| contradiction].
    destruct (match_at r (Cursor i pv [])) as [m' |] eqn:E; [| contradiction].
    destruct H as [<- | []]. exists [], []. cbn. rewrite Nat.add_0_r. now split.
  - assert (Hstep : forall n,
              In m (finditer_from r n (S i) (Some x) s) ->
              exists pre post,
                x :: s = pre ++ post
                /\ match_at r (Cursor (i + length pre) (last_prev pre pv) post)
                   = Some m).
    { intros n Hn. apply IH in Hn. destruct Hn as (pre & post & -> & Hn).
      exists (x :: pre), post. split; [reflexivity |].
      rewrite last_prev_cons. cbn [length].
      now replace (i + S (length pre))%nat with (S i + length pre)%nat by lia. }
    destruct skip; [| now apply Hstep in H].
    destruct (match_at r (Cursor i pv (x :: s))) as [m' |] eqn:E.
    + destruct H as [<- | H]; [| now apply Hstep in H].
      exists [], (x :: s). cbn. rewrite Nat.add_0_r. now split.
    + now apply Hstep in H.
Qed.

Lemma finditer_sound (r : regex) (s : str) (m : mobj) :
  In m (finditer r s) ->
  exists pre post, s = pre ++ post /\ match_at r (cursor_at pre post) = Some m.
Proof.
  intros H. apply finditer_from_sound in H.
  destruct H as (pre & post & E & H). now exists pre, post.
Qed.

End MatcherFacts.


Section GroupFacts0.
Import Matching.

(** A pattern without groups captures nothing. *)
Lemma matches_no_groups (r : regex) (c c' : cursor) (g g' : caps) :
  matches r c g c' g' -> no_groups r = true -> g' = g.
Proof.
  induction 1 as [c g | p c g x s Hr Hp
                  | a b c c1 c2 g g1 g2 _ IH1 _ IH2
                  | a b c c' g g' _ IH | a b c c' g g' _ IH
                  | a c c' g g' _ IH | a c g
                  | lo hi p c c' g xs Hxs Hlo Hhi Hm
                  | p c c' g xs Hxs Hm
                  | i a c c' g g' _ IH | ml c g Hb | c g He];
    cbn [no_groups]; intros Hn; try reflexivity.
  - apply andb_prop in Hn. destruct Hn as [Ha Hb].
    now rewrite (IH2 Hb), (IH1 Ha).
  - apply andb_prop in Hn. now apply IH.
  - apply andb_prop in Hn. now apply IH.
  - now apply IH.
  - discriminate.
Qed.

Lemma no_groups_seq_of (f : N -> regex) (s : str) :
  (forall c, no_groups (f c) = true) -> no_groups (seq_of f s) = true.
Proof.
  intros Hf. induction s as [| x [| y s] IH]; [reflexivity | apply Hf |].
  change (seq_of f (x :: y :: s)) with (Seq (f x) (seq_of f (y :: s))).
  cbn [no_groups]. now rewrite Hf, IH.
Qed.

(** A match of a sequence whose last pattern follows patterns without
    groups ends with a match of the last pattern, on the same groups. *)
Lemma matches_seqs_last (rs : list regex) (r : regex) :
  forallb no_groups rs = true ->
  forall c g c' g',
    matches (seqs (rs ++ [r])) c g c' g' ->
    exists c1 pre, moved c pre c1 /\ matches r c1 g c' g'.
Proof.
  induction rs as [| a rs IH]; intros Hn c g c' g' H.
  - exists c, []. split; [apply moved_refl | exact H].
  - cbn [forallb] in Hn. apply andb_prop in Hn. destruct Hn as [Ha Hrs].
    assert (E : seqs ((a :: rs) ++ [r]) = Seq a (seqs (rs ++ [r])))
      by (destruct rs; reflexivity).
    rewrite E in H. inversion H as [| | ? ? ? c1 ? ? g1 ? H1 H2 | | | | | | | | |];
      subst.
    apply matches_no_groups in H1 as Eg; [| exact Ha]. subst g1.
    destruct (matches_moved H1) as [p1 M1].
    destruct (IH Hrs _ _ _ _ H2) as (c2 & p2 & M2 & H3).
    exists c2, (p1 ++ p2). split; [eapply moved_trans; eassumption | exact H3].
Qed.

(** What a group over a repetition captures. *)
Lemma matches_group_rep (i lo : nat) (hi : option nat) (p : N -> bool)
    (c c' : cursor) (g g' : caps) :
  matches (Grp i (Rep lo hi p)) c g c' g' ->
  exists xs,
    g' = (i, xs) :: g
    /\ moved c xs c'
    /\ Forall (fun x => p x = true) xs
    /\ (lo <= length xs)%nat
    /\ match hi with Some h => (length xs <= h)%nat | None => True end.
Proof.
  intros H. inversion H as [| | | | | | | | | ? ? ? ? ? ? H1 | |]; subst.
  inversion H1 as [| | | | | | | ? ? ? ? ? ? xs Hxs Hlo Hhi Hm | | | |]; subst.
  exists xs. rewrite (moved_firstn Hm).
  exact (conj eq_refl (conj Hm (conj Hxs (conj Hlo Hhi)))).
Qed.

Lemma group_of_match (r : regex) (c c' : cursor) (g' : caps) (i : nat) :
  group (Mobj (pos c) (pos c')
              ((0%nat, firstn (pos c' - pos c) (rest c)) :: g')) (S i)
  = match lookup (S i) g' with Some s => s | None => [] end.
Proof. reflexivity. Qed.

(** Where the text consumed by a later match lies in the text. *)
Lemma moved_cursor_at (pre post xs : str) (c1 c2 : cursor) (p1 : str) :
  moved (cursor_at pre post) p1 c1 -> moved c1 xs c2 ->
  post = p1 ++ xs ++ rest c2.
Proof.
  intros (R1 & _) (R2 & _). cbn [cursor_at rest] in R1. now rewrite R1, R2.
Qed.

Lemma contains_app_l (x a : str) : contains x (x ++ a) = true.
Proof.
  assert (H : startswith (x ++ a) x = true).
  { induction x as [| c x IH]; [destruct a; reflexivity |].
    cbn [app startswith]. now rewrite N.eqb_refl. }
  destruct (x ++ a); cbn [contains]; now rewrite H.
Qed.

(** A part of a text is contained in it. *)
Lemma contains_middle_part (a x b : str) : contains x (a ++ x ++ b) = true.
Proof.
  induction a as [| c a IH]; [exact (contains_app_l x b) |].
  cbn [app contains]. rewrite IH. apply orb_true_r.
Qed.

End GroupFacts0.

(* ================================================================== *)
(** ** Column letters *)

Section ColumnLetters.
Import Ledger Scanner.

Lemma col_idx_to_letter_go_acc (idx : nat) :
  forall fuel acc,
    (idx < fuel)%nat ->
    col_idx_to_letter_go fuel idx acc = col_idx_to_letter idx ++ acc.
Proof.
  induction idx as [idx IH] using (well_founded_induction lt_wf).
  intros [| fuel] acc Hf; [lia |].
  unfold col_idx_to_letter. cbn [col_idx_to_letter_go].
  destruct (Nat.eqb_spec (idx / 26) 0) as [E | E]; [reflexivity |].
  assert (Hlt : (idx / 26 - 1 < idx)%nat).
  { assert (idx / 26 <= idx)%nat by (apply Nat.Div0.div_le_upper_bound; lia).
    lia. }
  rewrite (IH _ Hlt fuel) by lia.
  rewrite (IH _ Hlt idx) by lia.
  now rewrite <- app_assoc.
Qed.

(** The letters of a column: one letter below 26, and otherwise the letters
    of [idx / 26 - 1] followed by one more. *)
Lemma col_idx_to_letter_step (idx : nat) :
  col_idx_to_letter idx
  = if (idx / 26 =? 0)%nat then [chr (65 + idx mod 26)]
    else col_idx_to_letter (idx / 26 - 1) ++ [chr (65 + idx mod 26)].
Proof.
  unfold col_idx_to_letter at 1. cbn [col_idx_to_letter_go].
  destruct (Nat.eqb_spec (idx / 26) 0) as [E | E]; [reflexivity |].
  apply col_idx_to_letter_go_acc.
  assert (idx / 26 <= idx)%nat by (apply Nat.Div0.div_le_upper_bound; lia).
  lia.
Qed.

Lemma col_to_letter_go_eq (fuel idx : nat) (acc : str) :
  col_to_letter_go fuel idx acc = col_idx_to_letter_go fuel idx acc.
Proof.
  revert idx acc. induction fuel as [| fuel IH]; intros idx acc; [reflexivity |].
  cbn [col_to_letter_go col_idx_to_letter_go].
  destruct (idx / 26 =? 0)%nat; [reflexivity | apply IH].
Qed.

Lemma num_to_col_go_acc (n : nat) :
  forall fuel acc,
    (n <= fuel)%nat ->
    num_to_col_go fuel n acc
    = match n with O => [] | S idx => col_idx_to_letter idx end ++ acc.
Proof.
  induction n as [n IH] using (well_founded_induction lt_wf).
  intros fuel acc Hf. destruct n as [| idx].
  - destruct fuel; reflexivity.
  - destruct fuel as [| fuel]; [lia |].
    cbn [num_to_col_go Nat.ltb Nat.leb].
    replace (S idx - 1)%nat with idx by lia.
    assert (Hd : (idx / 26 <= idx)%nat)
      by (apply Nat.Div0.div_le_upper_bound; lia).
    rewrite (IH (idx / 26)%nat) by lia.
    rewrite (col_idx_to_letter_step idx).
    destruct (idx / 26)%nat as [| q] eqn:E; cbn [Nat.eqb]; [reflexivity |].
    replace (S q - 1)%nat with q by lia.
    now rewrite <- app_assoc.
Qed.

Lemma chr_letter (r : nat) :
  (r < 26)%nat ->
  is_letter (chr (65 + r)) = true
  /\ (N.to_nat (upper_cp (chr (65 + r))) - 64 = r + 1)%nat.
Proof.
  intros H. unfold chr, is_letter, is_ascii_alpha, upper_cp.
  assert (E1 : (65 <=? N.of_nat (65 + r))%N = true) by (apply N.leb_le; lia).
  assert (E2 : (N.of_nat (65 + r) <=? 90)%N = true) by (apply N.leb_le; lia).
  assert (E3 : (97 <=? N.of_nat (65 + r))%N = false) by (apply N.leb_gt; lia).
  rewrite E1, E2, E3. cbn [andb orb]. split; [reflexivity | lia].
Qed.

Lemma column_of_letters_snoc (ls : str) (c : N) :
  column_of_letters (ls ++ [c])
  = (column_of_letters ls * 26 + (N.to_nat (upper_cp c) - 64))%nat.
Proof. unfold column_of_letters. now rewrite fold_left_app. Qed.

(** The letters of any column are letters, and name that column. *)
Lemma col_idx_to_letter_spec (idx : nat) :
  forallb is_letter (col_idx_to_letter idx) = true
  /\ col_idx_to_letter idx <> []
  /\ column_of_letters (col_idx_to_letter idx) = S idx.
Proof.
  induction idx as [idx IH] using (well_founded_induction lt_wf).
  rewrite col_idx_to_letter_step.
  assert (Hr : (idx mod 26 < 26)%nat) by (apply Nat.mod_upper_bound; lia).
  destruct (chr_letter Hr) as [Hl Hv].
  pose proof (Nat.div_mod_eq idx 26) as Hdm.
  destruct (Nat.eqb_spec (idx / 26) 0) as [E | E].
  - cbn [forallb]. rewrite Hl. repeat split; [discriminate |].
    change [chr (65 + idx mod 26)] with ([] ++ [chr (65 + idx mod 26)]).
    rewrite column_of_letters_snoc, Hv.
    change (column_of_letters []) with 0%nat. lia.
  - assert (Hlt : (idx / 26 - 1 < idx)%nat).
    { assert (idx / 26 <= idx)%nat by (apply Nat.Div0.div_le_upper_bound; lia).
      lia. }
    destruct (IH _ Hlt) as (L & _ & C).
    rewrite forallb_app, L. cbn [forallb]. rewrite Hl.
    repeat split.
    + intros H. apply app_eq_nil in H. destruct H as [_ H]. discriminate.
    + rewrite column_of_letters_snoc, C, Hv. lia.
Qed.

End ColumnLetters.

Section ColumnLettersMain.
Import Ledger Scanner.

(** X1.  The three column-letter helpers agree -- [col_idx_to_letter] of the
    save phase, [col_to_letter] of [save_to_sheets] (both from 0) and
    [num_to_col] of [setup_sheets] (from 1) -- and they are right for every
    column, not only for the 26 single letters: followed by a row number
    from 1 on, the letters are the A1 address of that row and column. *)
Theorem column_letters_round_trip (idx row : nat) :
  (0 < row)%nat ->
  col_to_letter idx = col_idx_to_letter idx
  /\ num_to_col (S idx) = col_idx_to_letter idx
  /\ a1_to_rowcol (col_idx_to_letter idx ++ str_of_nat row)
     = Some ((row - 1)%nat, idx).
Proof.
  intros Hrow. split; [apply col_to_letter_go_eq |]. split.
  - unfold num_to_col. rewrite num_to_col_go_acc by lia. apply app_nil_r.
  - destruct (col_idx_to_letter_spec idx) as (L & Hne & C).
    rewrite a1_to_rowcol_letters_row by assumption.
    rewrite C. do 2 f_equal. lia.
Qed.

Lemma column_letters_round_trip_witness :
  col_to_letter 27 = u "AB"
  /\ num_to_col 28 = u "AB"
  /\ a1_to_rowcol (u "AB5") = Some (4%nat, 27%nat).
Proof.
  destruct (@column_letters_round_trip 27 5) as (A & B & C); [lia |].
  split; [rewrite A; reflexivity |].
  split; [rewrite B; reflexivity | exact C].
Defined.

End ColumnLettersMain.

(* ================================================================== *)
(** ** Stripping, splitting and joining *)

Section StripSplit.
Import Text.

Lemma lstrip_blank (a s : str) : blank a -> lstrip (a ++ s) = lstrip s.
Proof.
  induction 1 as [| c a Hc Ha IH]; [reflexivity |].
  cbn [app lstrip]. now rewrite Hc.
Qed.

Lemma lstrip_nil_blank (s : str) : lstrip s = [] -> blank s.
Proof.
  induction s as [| c s IH]; intros H; [constructor |].
  cbn [lstrip] in H. destruct (is_space c) eqn:E; [| discriminate].
  constructor; [exact E | now apply IH].
Qed.

Lemma blank_lstrip (s : str) : blank s -> lstrip s = [].
Proof.
  intros H. rewrite <- (app_nil_r s). now rewrite lstrip_blank.
Qed.

Lemma lstrip_app (s b : str) : lstrip s <> [] -> lstrip (s ++ b) = lstrip s ++ b.
Proof.
  induction s as [| c s IH]; intros H; [now contradiction H |].
  cbn [app lstrip] in *. destruct (is_space c); [now apply IH | reflexivity].
Qed.

(** [lstrip] takes a blank prefix off. *)
Lemma lstrip_decomp (s : str) : exists a, s = a ++ lstrip s /\ blank a.
Proof.
  induction s as [| c s (a & E & Ha)].
  - exists []. split; [reflexivity | constructor].
  - cbn [lstrip]. destruct (is_space c) eqn:Hc.
    + exists (c :: a). split; [cbn; now rewrite <- E | now constructor].
    + exists []. split; [reflexivity | constructor].
Qed.

Lemma blank_rev (s : str) : blank s -> blank (rev s).
Proof. unfold blank. apply Forall_rev. Qed.

Lemma blank_app (a b : str) : blank a -> blank b -> blank (a ++ b).
Proof. unfold blank. intros. apply Forall_app. now split. Qed.

Lemma rstrip_blank (s b : str) : blank b -> rstrip (s ++ b) = rstrip s.
Proof.
  intros H. unfold rstrip. rewrite rev_app_distr.
  rewrite lstrip_blank by now apply blank_rev. reflexivity.
Qed.

Lemma rstrip_decomp (s : str) : exists b, s = rstrip s ++ b /\ blank b.
Proof.
  destruct (lstrip_decomp (rev s)) as (a & E & Ha).
  exists (rev a). split; [| now apply blank_rev].
  unfold rstrip. rewrite <- rev_app_distr, <- E. now rewrite rev_involutive.
Qed.

Lemma rstrip_app (a s : str) : rstrip s <> [] -> rstrip (a ++ s) = a ++ rstrip s.
Proof.
  intros H. unfold rstrip in *. rewrite rev_app_distr.
  rewrite lstrip_app.
  - now rewrite rev_app_distr, rev_involutive.
  - intros E. apply H. now rewrite E.
Qed.

Lemma blank_rstrip (s : str) : blank s -> rstrip s = [].
Proof.
  intros H. unfold rstrip. rewrite blank_lstrip by now apply blank_rev.
  reflexivity.
Qed.

Lemma strip_blank_l (a s : str) : blank a -> strip (a ++ s) = strip s.
Proof. intros H. unfold strip. now rewrite lstrip_blank. Qed.

Lemma strip_blank_r (s b : str) : blank b -> strip (s ++ b) = strip s.
Proof.
  intros H. unfold strip.
  destruct (lstrip s) as [| c r] eqn:E.
  - apply lstrip_nil_blank in E.
    rewrite blank_lstrip by now apply blank_app.
    reflexivity.
  - rewrite lstrip_app by (rewrite E; discriminate).
    rewrite E. now apply rstrip_blank.
Qed.

Lemma strip_blank (s : str) : blank s -> strip s = [].
Proof.
  intros H. unfold strip. now rewrite blank_lstrip.
Qed.

(** [strip] takes a blank prefix and a blank suffix off. *)
Lemma strip_decomp (s : str) :
  exists a b, s = a ++ strip s ++ b /\ blank a /\ blank b.
Proof.
  destruct (lstrip_decomp s) as (a & E & Ha).
  destruct (rstrip_decomp (lstrip s)) as (b & E' & Hb).
  exists a, b. unfold strip. rewrite <- E', <- E. now repeat split.
Qed.

Lemma strip_idem (s : str) : strip (strip s) = strip s.
Proof.
  destruct (strip_decomp s) as (a & b & E & Ha & Hb).
  rewrite E at 2. rewrite strip_blank_l by assumption.
  now rewrite strip_blank_r.
Qed.

Lemma strip_nonblank (s : str) : strip s = [] -> blank s.
Proof.
  intros H. destruct (strip_decomp s) as (a & b & E & Ha & Hb).
  rewrite E, H. now apply blank_app.
Qed.

(** *** [split] *)

Lemma split_on_cons (sep : N) (s : str) :
  exists f fs, split_on sep s = f :: fs.
Proof.
  induction s as [| c s (f & fs & E)]; [now exists [], [] |].
  cbn [split_on]. destruct (c =? sep)%N; [now eexists; eexists |].
  rewrite E. now eexists; eexists.
Qed.

Lemma split_on_app (sep : N) (x y : str) :
  split_on sep (x ++ sep :: y) = split_on sep x ++ split_on sep y.
Proof.
  induction x as [| c x IH]; cbn [app split_on].
  - now rewrite N.eqb_refl.
  - destruct (c =? sep)%N; [now rewrite IH |].
    rewrite IH. destruct (split_on_cons sep x) as (f & fs & ->). reflexivity.
Qed.

Lemma split_on_prefix (sep : N) (a s : str) (f : str) (fs : list str) :
  Forall (fun c => c <> sep) a ->
  split_on sep s = f :: fs ->
  split_on sep (a ++ s) = (a ++ f) :: fs.
Proof.
  intros Ha E. induction Ha as [| c a Hc Ha IH]; [exact E |].
  cbn [app split_on]. destruct (N.eqb_spec c sep); [contradiction |].
  now rewrite IH.
Qed.

Lemma split_on_suffix (sep : N) (s b : str) :
  Forall (fun c => c <> sep) b ->
  exists init l,
    split_on sep s = init ++ [l] /\ split_on sep (s ++ b) = init ++ [l ++ b].
Proof.
  intros Hb. induction s as [| c s (init & l & E & E')].
  - exists [], []. split; [reflexivity |].
    cbn [app]. now apply split_on_no_sep.
  - cbn [app split_on]. destruct (c =? sep)%N.
    + exists ([] :: init), l. rewrite E, E'. now split.
    + rewrite E, E'. destruct init as [| f init]; cbn [app].
      * exists [], (c :: l). now split.
      * exists ((c :: f) :: init), l. now split.
Qed.

Lemma blank_no_char (c : N) (a : str) :
  is_space c = false -> blank a -> Forall (fun x => x <> c) a.
Proof.
  intros Hc. apply Forall_impl. intros x Hx ->. congruence.
Qed.

(** Stripping a text before splitting it does not change the stripped
    fields, for a separator that is no white space. *)
Lemma strip_fields (sep : N) (s : str) :
  is_space sep = false ->
  map strip (split_on sep (strip s)) = map strip (split_on sep s).
Proof.
  intros Hsep. destruct (strip_decomp s) as (a & b & E & Ha & Hb).
  rewrite E at 2.
  destruct (@split_on_suffix sep (strip s) b) as (init & l & E1 & E2);
    [now apply blank_no_char |].
  destruct (split_on_cons sep (strip s ++ b)) as (f & fs & E3).
  rewrite (@split_on_prefix sep a (strip s ++ b) f fs)
    by (now apply blank_no_char || exact E3).
  cbn [map]. rewrite strip_blank_l by assumption.
  change (strip f :: map strip fs) with (map strip (f :: fs)).
  rewrite <- E3, E2, E1, !map_app. cbn [map].
  now rewrite strip_blank_r.
Qed.

(** *** [join] *)

Lemma join_cons (sep p : str) (q : str) (ps : list str) :
  join sep (p :: q :: ps) = p ++ sep ++ join sep (q :: ps).
Proof. reflexivity. Qed.

(** Splitting what was joined over a one-character separator gives the
    parts back, when no part holds the separator. *)
Lemma split_on_join (sep : N) (ps : list str) :
  ps <> [] ->
  Forall (Forall (fun c => c <> sep)) ps ->
  split_on sep (join [sep] ps) = ps.
Proof.
  intros Hne H. induction H as [| p ps Hp Hps IH]; [contradiction |].
  destruct ps as [| q ps].
  - cbn [join]. now apply split_on_no_sep.
  - rewrite join_cons. cbn [app].
    rewrite split_on_app, split_on_no_sep by assumption.
    cbn [app]. f_equal. apply IH. discriminate.
Qed.

(** Joining the fields of a split text gives the text back. *)
Lemma join_split_on (sep : N) (s : str) : join [sep] (split_on sep s) = s.
Proof.
  induction s as [| c s IH]; [reflexivity |].
  cbn [split_on]. destruct (N.eqb_spec c sep) as [-> | Hc].
  - destruct (split_on_cons sep s) as (f & fs & E). rewrite E in *.
    rewrite join_cons. cbn [app]. now rewrite IH.
  - destruct (split_on_cons sep s) as (f & fs & E). rewrite E in *.
    rewrite <- IH. destruct fs; reflexivity.
Qed.

Lemma split_on_fields_no_sep (sep : N) (s : str) :
  Forall (Forall (fun c => c <> sep)) (split_on sep s).
Proof.
  induction s as [| c s IH]; [repeat constructor |].
  cbn [split_on]. destruct (N.eqb_spec c sep) as [-> | Hc].
  - constructor; [constructor | exact IH].
  - destruct (split_on sep s) as [| f fs]; [repeat constructor; assumption |].
    inversion IH; subst. constructor; [now constructor | assumption].
Qed.

End StripSplit.

(* ================================================================== *)
(** ** The ledger after a save *)

Section LedgerAfterSave.
Import Text Ledger.

Lemma length_set_nth (A : Type) (d v : A) (n : nat) (l : list A) :
  (n < length (set_nth d n v l))%nat.
Proof.
  revert l. induction n as [| n IH]; intros [| x l]; cbn [set_nth length];
    try lia.
  - specialize (IH []). lia.
  - specialize (IH l). lia.
Qed.

Lemma In_skipn_nth (A : Type) (d : A) (k i : nat) (l : list A) :
  (k <= i < length l)%nat -> In (nth i l d) (skipn k l).
Proof.
  intros H. rewrite <- (firstn_skipn k l) at 1.
  rewrite app_nth2 by (rewrite length_firstn; lia).
  apply nth_In. rewrite length_firstn, length_skipn. lia.
Qed.

Lemma get_set_cell_other (sh : sheet) (r c r' c' : nat) (v : str) :
  r <> r' \/ c <> c' ->
  get_cell (set_cell sh r c v) r' c' = get_cell sh r' c'.
Proof.
  intros H. destruct (Nat.eq_dec r r') as [<- | Hr].
  - destruct H as [H | H]; [contradiction |].
    now apply get_set_cell_other_column.
  - unfold get_cell, set_cell. now rewrite nth_set_nth_other.
Qed.

Lemma get_put_sheet_other (name n : str) (sh : sheet) (b : book) :
  n <> name -> get_sheet n (put_sheet name sh b) = get_sheet n b.
Proof.
  intros Hn. induction b as [| [k s] b IH]; [reflexivity |].
  cbn [put_sheet]. destruct (str_eqb name k) eqn:E; cbn [get_sheet].
  - apply str_eqb_eq in E. subst k.
    destruct (str_eqb n name) eqn:E'; [| reflexivity].
    apply str_eqb_eq in E'. contradiction.
  - destruct (str_eqb n k); [reflexivity | exact IH].
Qed.

Lemma In_put_sheet (name : str) (sh sh0 : sheet) (b : book) :
  get_sheet name b = Some sh0 -> In (name, sh) (put_sheet name sh b).
Proof.
  induction b as [| [k s] b IH]; cbn [get_sheet put_sheet]; [discriminate |].
  destruct (str_eqb name k) eqn:E.
  - apply str_eqb_eq in E. subst k. intros _. now left.
  - intros H. right. now apply IH.
Qed.

Lemma put_put_sheet (name : str) (sh sh' : sheet) (b : book) :
  put_sheet name sh (put_sheet name sh' b) = put_sheet name sh b.
Proof.
  induction b as [| [k s] b IH]; [reflexivity |].
  cbn [put_sheet]. destruct (str_eqb name k) eqn:E; cbn [put_sheet]; rewrite E.
  - reflexivity.
  - now rewrite IH.
Qed.

Lemma ft_columns_In (row : list str) (m : nat) :
  (2 * m + 5 <= length row)%nat -> In (4 + 2 * m)%nat (ft_columns row).
Proof.
  intros H. unfold ft_columns.
  apply in_map_iff. exists m. split; [reflexivity |].
  apply in_seq. split; [lia |].
  assert (m + 1 <= (length row - 4 + 1) / 2)%nat
    by (apply Nat.div_le_lower_bound; lia).
  lia.
Qed.

(** The two updates of the target cells, written out. *)
Lemma two_updates (w : world) (name : str) (sh : sheet)
    (row_index month_index : nat) (v1 v2 : str) :
  get_sheet name (sheets w) = Some sh ->
  (0 < row_index)%nat ->
  let c := (3 + month_index * 2)%nat in
  let l1 := col_idx_to_letter c ++ str_of_nat row_index in
  let l2 := col_idx_to_letter (c + 1) ++ str_of_nat row_index in
  let sh' := set_cell (set_cell sh (row_index - 1) c v1)
                      (row_index - 1) (c + 1) v2 in
  exists w2,
    update w name l1 v1 = Some w2
    /\ update w2 name l2 v2
       = Some (World (put_sheet name sh' (sheets w))
                     (Write name l2 v2 :: Write name l1 v1 :: log w)
                     (last_submission w)).
Proof.
  intros Hsh Hr c l1 l2 sh'.
  destruct (col_idx_to_letter_spec c) as (L1 & N1 & C1).
  destruct (col_idx_to_letter_spec (c + 1)) as (L2 & N2 & C2).
  set (sh1 := set_cell sh (row_index - 1) c v1).
  exists (World (put_sheet name sh1 (sheets w)) (Write name l1 v1 :: log w)
                (last_submission w)).
  split.
  { unfold l1. rewrite (update_at_letters_row _ _ v1 Hsh L1 N1 Hr).
    rewrite C1. unfold sh1.
    replace (S c - 1)%nat with c by lia. reflexivity. }
  unfold l2.
  rewrite (@update_at_letters_row _ name (col_idx_to_letter (c + 1))
             row_index v2 sh1); try assumption.
  - cbn [sheets log last_submission]. rewrite put_put_sheet, C2.
    unfold sh', sh1.
    replace (S (c + 1) - 1)%nat with (c + 1)%nat by lia. reflexivity.
  - cbn [sheets]. eapply get_put_sheet_same. exact Hsh.
Qed.

(** A stored transaction id is one of the tokens of the cell it was
    appended to. *)
Lemma holds_txid_appended (row : list str) (col_idx : nat)
    (current_txid txid : str) :
  truthy (strip txid) = true ->
  Forall (fun c => c <> 44%N) txid ->
  nth col_idx row []
  = (if truthy current_txid then current_txid ++ u ", " ++ txid else txid) ->
  holds_txid row col_idx txid = true.
Proof.
  intros Ht Hc E. unfold holds_txid. rewrite E.
  set (final := if truthy current_txid then _ else _).
  assert (Hmem : mem (strip txid) (map strip (split_on 44 final)) = true).
  { apply mem_In. unfold final. destruct (truthy current_txid).
    - change (u ", ") with [44%N; 32%N]. cbn [app].
      rewrite split_on_app.
      rewrite (@split_on_no_sep 44 (32%N :: txid))
        by (constructor; [discriminate | assumption]).
      rewrite map_app. apply in_or_app. right. left.
      apply (@strip_blank_l [32%N] txid). now repeat constructor.
    - rewrite split_on_no_sep by assumption. now left. }
  rewrite strip_fields by reflexivity. rewrite Hmem, andb_true_r.
  destruct (strip final) eqn:Ef; [| reflexivity].
  exfalso. rewrite <- (@strip_fields 44 final), Ef in Hmem by reflexivity.
  cbn in Hmem. destruct (strip txid); [discriminate |].
  unfold str_eqb in Hmem. destruct (list_eq_dec _ _ _); discriminate.
Qed.

(** What a new submission that was saved has gone through. *)
Lemma finalize_new_saved (data : payment) (w w' : world) :
  finalize false data w = (Saved, w') ->
  exists target row_index month_index,
    truthy (amount data) = true
    /\ fst (Beneficiary.validate_beneficiary (beneficiary data)) = true
    /\ get_sheet (reason data) (sheets w) = Some target
    /\ find_row target (house_number data) = Some row_index
    /\ index_of (month data) Calendar.ETHIOPIAN_MONTHS_LIST = Some month_index
    /\ let c := (3 + month_index * 2)%nat in
       let current_txid := read_current_txid target row_index (c + 1) in
       let final_txid :=
         if truthy current_txid
         then current_txid ++ u ", " ++ transaction_id data
         else transaction_id data in
       exists v1,
         w' = World
                (put_sheet (reason data)
                   (set_cell (set_cell target (row_index - 1) c v1)
                             (row_index - 1) (c + 1) final_txid)
                   (sheets w))
                (Write (reason data)
                   (col_idx_to_letter (c + 1) ++ str_of_nat row_index)
                   final_txid
                 :: Write (reason data)
                      (col_idx_to_letter c ++ str_of_nat row_index) v1
                 :: log w)
                (Some data).
Proof.
  unfold finalize.
  destruct (truthy (amount data)) eqn:Ha; cbn [negb]; [| discriminate].
  destruct (fst (Beneficiary.validate_beneficiary (beneficiary data))) eqn:Hb;
    cbn [negb]; [| discriminate].
  destruct (get_sheet (reason data) (sheets w)) as [target |] eqn:Hs;
    [| discriminate].
  destruct (find_row target (house_number data)) as [row_index |] eqn:Hr;
    [| discriminate].
  destruct (index_of (month data) Calendar.ETHIOPIAN_MONTHS_LIST)
    as [month_index |] eqn:Hm; [| discriminate].
  unfold delete_old_entry. cbn [andb negb].
  destruct (if truthy (transaction_id data)
               && truthy (strip (transaction_id data))
            then duplicate_in_sheets (sheets w) (transaction_id data)
            else None) as [[ds dr] |]; [discriminate |].
  rewrite Hs. unfold final_values. cbv iota beta zeta.
  assert (H0 : (0 < row_index)%nat)
    by (apply find_row_from_ge in Hr; lia).
  match goal with
  | |- context [update w ?n ?l1 ?v1] =>
      destruct (@two_updates w n target row_index month_index v1
                  (if truthy (read_current_txid target row_index
                                (3 + month_index * 2 + 1))
                   then read_current_txid target row_index
                          (3 + month_index * 2 + 1)
                        ++ u ", " ++ transaction_id data
                   else transaction_id data) Hs H0) as (w2 & U1 & U2);
      cbv zeta in U1, U2; rewrite U1; cbv beta iota
  end.
  match goal with
  | |- context [update w2 ?n ?l ?v] =>
      match type of U2 with
      | _ = ?rhs => replace (update w2 n l v) with rhs by (symmetry; exact U2)
      end
  end.
  intros [= <-].
  exists target, row_index, month_index.
  repeat (split; [reflexivity || assumption |]).
  cbv zeta. eexists. reflexivity.
Qed.

(** A new submission whose transaction id the duplicate scan finds is not
    saved and writes nothing. *)
Lemma duplicate_found_not_saved (data : payment) (w : world) (s : str) (r : nat) :
  truthy (strip (transaction_id data)) = true ->
  duplicate_in_sheets (sheets w) (transaction_id data) = Some (s, r) ->
  snd (finalize false data w) = w /\ fst (finalize false data w) <> Saved.
Proof.
  intros Ht Hd. pose proof (truthy_strip _ Ht) as Ht'.
  unfold finalize.
  destruct (truthy (amount data)); cbn [negb];
    [| split; [reflexivity | discriminate]].
  destruct (fst (Beneficiary.validate_beneficiary (beneficiary data)));
    cbn [negb]; [| split; [reflexivity | discriminate]].
  destruct (get_sheet (reason data) (sheets w)) as [target |];
    [| split; [reflexivity | discriminate]].
  destruct (find_row target (house_number data)) as [row_index |];
    [| split; [reflexivity | discriminate]].
  destruct (index_of (month data) Calendar.ETHIOPIAN_MONTHS_LIST)
    as [month_index |]; [| split; [reflexivity | discriminate]].
  unfold delete_old_entry. cbn [andb negb]. rewrite Ht', Ht, Hd.
  split; [reflexivity | discriminate].
Qed.

End LedgerAfterSave.


Section LedgerTheorems.
Import Text Ledger.

(** X2.  Once a new submission is saved, its transaction id is found by the
    duplicate scan: no later new submission that carries the same id -- for
    any house, month or reason -- is saved, and none writes to the ledger.
    The id has a character that is no white space, and no comma. *)
Theorem saved_txid_blocks_resubmission (data : payment) (w w' : world) :
  finalize false data w = (Saved, w') ->
  truthy (strip (transaction_id data)) = true ->
  Forall (fun c => c <> 44%N) (transaction_id data) ->
  forall again : payment,
    transaction_id again = transaction_id data ->
    snd (finalize false again w') = w'
    /\ fst (finalize false again w') <> Saved.
Proof.
  intros Hsaved Ht Hc again Hsame.
  apply finalize_new_saved in Hsaved.
  destruct Hsaved as (target & row_index & month_index & _ & _ & Hs & Hr & Hm
                      & Hw).
  cbv zeta in Hw. destruct Hw as (v1 & ->).
  set (c := (3 + month_index * 2)%nat) in *.
  set (final_txid := if truthy (read_current_txid target row_index (c + 1))
                     then _ else _) in *.
  set (sh' := set_cell (set_cell target (row_index - 1) c v1)
                       (row_index - 1) (c + 1) final_txid).
  set (row := nth (row_index - 1) sh' []).
  assert (H3 : (3 <= row_index)%nat) by (now apply find_row_from_ge in Hr).
  assert (Hrow : row = set_nth [] (c + 1) final_txid
                         (nth (row_index - 1)
                              (set_cell target (row_index - 1) c v1) [])).
  { unfold row, sh', set_cell at 1. now rewrite nth_set_nth_same. }
  assert (Hlen : (c + 1 < length row)%nat)
    by (rewrite Hrow; apply length_set_nth).
  destruct (@duplicate_in_sheets_found
              (put_sheet (reason data) sh' (sheets w)) (transaction_id data)
              (reason data) sh' row (c + 1)%nat) as (s & r & Hd).
  - eapply In_put_sheet. exact Hs.
  - unfold row. apply In_skipn_nth. split; [lia |].
    unfold sh', set_cell at 1. apply length_set_nth.
  - replace (c + 1)%nat with (4 + 2 * month_index)%nat by (unfold c; lia).
    apply ft_columns_In. unfold c in Hlen. lia.
  - apply holds_txid_appended
      with (current_txid := read_current_txid target row_index (c + 1));
      try assumption.
    rewrite Hrow. apply nth_set_nth_same.
  - apply duplicate_found_not_saved with (s := s) (r := r).
    + now rewrite Hsame.
    + cbn [sheets]. now rewrite Hsame.
Qed.

Lemma saved_txid_blocks_resubmission_witness :
  let w' := snd (finalize false Scenario.fresh Scenario.without_previous) in
  let again :=
    Payment (u "101") (u "90") (u "FT999") (u "electricity") (u "Tir")
            Scenario.account in
  snd (finalize false again w') = w' /\ fst (finalize false again w') <> Saved.
Proof.
  cbv zeta.
  apply (@saved_txid_blocks_resubmission Scenario.fresh
           Scenario.without_previous).
  - vm_compute. reflexivity.
  - vm_compute. reflexivity.
  - vm_compute. repeat constructor; discriminate.
  - reflexivity.
Defined.

End LedgerTheorems.


Section ClearingOldEntries.
Import Ledger.

Lemma update_chr_letter (w : world) (name : str) (sh : sheet) (idx c : nat)
    (v : str) :
  get_sheet name (sheets w) = Some sh -> (0 < idx)%nat -> (c <= 25)%nat ->
  update w name (chr (65 + c) :: str_of_nat idx) v
  = Some (World (put_sheet name (set_cell sh (idx - 1) c v) (sheets w))
                (Write name (chr (65 + c) :: str_of_nat idx) v :: log w)
                (last_submission w)).
Proof.
  intros Hs Hi Hc.
  assert (Hlt : (c < 26)%nat) by lia.
  destruct (chr_letter Hlt) as [Hl Hv].
  change (chr (65 + c) :: str_of_nat idx)
    with ([chr (65 + c)] ++ str_of_nat idx).
  rewrite (@update_at_letters_row w name [chr (65 + c)] idx v sh);
    try assumption.
  - unfold column_of_letters. cbn [fold_left]. rewrite Hv.
    replace (0 * 26 + (c + 1) - 1)%nat with c by lia. reflexivity.
  - cbn [forallb]. now rewrite Hl.
  - discriminate.
Qed.

Lemma update_chr_not_letter (w : world) (name : str) (idx c : nat) (v : str) :
  (26 <= c <= 31)%nat ->
  update w name (chr (65 + c) :: str_of_nat idx) v = None.
Proof.
  intros Hc. unfold update.
  destruct (get_sheet name (sheets w)); [| reflexivity].
  unfold a1_to_rowcol. cbn [span_letters].
  replace (is_letter (chr (65 + c))) with false; [reflexivity |].
  symmetry. unfold is_letter, is_ascii_alpha, chr.
  apply orb_false_intro; apply andb_false_iff.
  - right. apply N.leb_gt. lia.
  - left. apply N.leb_gt. lia.
Qed.

(** X5.  The clearing of an old entry in edit mode addresses the two cells
    with a single character, [chr(65 + column)], which is a column letter up
    to Z only.  For the months Meskerem to Hamle (FT No columns E to Y) both
    cells are cleared.  For Nehase the amount cell, in column Z, is cleared
    and the update of the FT No cell (column 26, addressed as [[]) raises:
    the transaction id stays.  For Pagume the first update raises and
    nothing is cleared. *)
Theorem clear_entry_up_to_column_z (w : world) (name : str) (sh : sheet)
    (idx month_index : nat) :
  get_sheet name (sheets w) = Some sh ->
  (0 < idx)%nat ->
  let amount_col := (3 + month_index * 2)%nat in
  let ftno_col := (amount_col + 1)%nat in
  let w' := fst (clear_entry w name idx ftno_col) in
  let ok := snd (clear_entry w name idx ftno_col) in
  ((month_index < 11)%nat ->
   ok = true
   /\ cell_of w' name idx amount_col = Some []
   /\ cell_of w' name idx ftno_col = Some [])
  /\ (month_index = 11%nat ->
      ok = false
      /\ cell_of w' name idx amount_col = Some []
      /\ cell_of w' name idx ftno_col = cell_of w name idx ftno_col)
  /\ (month_index = 12%nat -> ok = false /\ w' = w).
Proof.
  intros Hs Hi amount_col ftno_col w' ok.
  unfold w', ok, clear_entry. clear w' ok.
  replace (ftno_col - 1)%nat with amount_col by (unfold ftno_col; lia).
  split; [| split].
  - intros Hm.
    rewrite (@update_chr_letter w name sh idx amount_col [] Hs Hi)
      by (unfold amount_col; lia).
    rewrite (@update_chr_letter _ name
               (set_cell sh (idx - 1) amount_col []) idx ftno_col []);
      try assumption.
    + cbn [fst snd]. unfold cell_of. cbn [sheets].
      rewrite put_put_sheet, (get_put_sheet_same _ _ _ Hs). cbn [option_map].
      rewrite get_set_cell_same.
      rewrite get_set_cell_other_column by (unfold ftno_col; lia).
      now rewrite get_set_cell_same.
    + cbn [sheets]. eapply get_put_sheet_same. exact Hs.
    + unfold ftno_col, amount_col. lia.
  - intros Hm.
    rewrite (@update_chr_letter w name sh idx amount_col [] Hs Hi)
      by (unfold amount_col; lia).
    rewrite update_chr_not_letter by (unfold ftno_col, amount_col; lia).
    cbn [fst snd]. unfold cell_of. cbn [sheets].
    rewrite (get_put_sheet_same _ _ _ Hs), Hs. cbn [option_map].
    rewrite get_set_cell_same.
    rewrite get_set_cell_other_column by (unfold ftno_col; lia).
    now repeat split.
  - intros Hm.
    rewrite update_chr_not_letter by (unfold amount_col; lia).
    now split.
Qed.

Lemma clear_entry_up_to_column_z_witness :
  snd (clear_entry Scenario.with_previous (u "water") 5 4) = true
  /\ cell_of (fst (clear_entry Scenario.with_previous (u "water") 5 4))
             (u "water") 5 3 = Some []
  /\ cell_of (fst (clear_entry Scenario.with_previous (u "water") 5 4))
             (u "water") 5 4 = Some [].
Proof.
  destruct (@clear_entry_up_to_column_z Scenario.with_previous (u "water")
              Scenario.water 5 0) as (A & _ & _).
  - reflexivity.
  - lia.
  - apply A. lia.
Defined.

End ClearingOldEntries.

(* ================================================================== *)
(** ** The save of the history scanner *)

Section ScannerSave.
Import Ledger Scanner.

Lemma index_of_mem (x : str) (xs : list str) :
  mem x xs = true -> exists i, index_of x xs = Some i.
Proof.
  unfold mem. induction xs as [| y ys IH]; cbn [existsb index_of];
    [discriminate |].
  destruct (str_eqb x y); [now exists 0%nat |].
  cbn [orb]. intros H. destruct (IH H) as [i ->]. now exists (S i).
Qed.

Lemma col_to_letter_eq (idx : nat) : col_to_letter idx = col_idx_to_letter idx.
Proof. apply col_to_letter_go_eq. Qed.

(** The worksheet and the month [save_to_sheets] books under. *)
Lemma booked_month_index (month : str) :
  exists month_index,
    index_of (if mem month Calendar.ETHIOPIAN_MONTHS_LIST then month
              else u "Tir") Calendar.ETHIOPIAN_MONTHS_LIST
    = Some month_index
    /\ (month_index < 13)%nat
    /\ (mem month Calendar.ETHIOPIAN_MONTHS_LIST = false ->
        month_index = 4%nat).
Proof.
  destruct (mem month Calendar.ETHIOPIAN_MONTHS_LIST) eqn:E.
  - destruct (index_of_mem _ _ E) as [i Hi]. exists i.
    split; [exact Hi |]. split; [| discriminate].
    now apply index_of_lt in Hi.
  - exists 4%nat. split; [reflexivity | split; [lia | reflexivity]].
Qed.

(** [save_to_sheets] once the worksheet and the row of the house are found. *)
Lemma save_to_sheets_found (shown : str -> str) (w : world)
    (house_number amount txid month reason : str) (sh : sheet)
    (row_index month_index : nat) :
  let booked :=
    match get_sheet reason (sheets w) with
    | Some _ => reason
    | None => u "other"
    end in
  get_sheet booked (sheets w) = Some sh ->
  find_row (map (map shown) sh) house_number = Some row_index ->
  index_of (if mem month Calendar.ETHIOPIAN_MONTHS_LIST then month
            else u "Tir") Calendar.ETHIOPIAN_MONTHS_LIST
  = Some month_index ->
  let c := (3 + month_index * 2)%nat in
  let final_txid :=
    final_txid_of (cell_text (map (map shown) sh) row_index (c + 1)) txid in
  save_to_sheets shown w house_number amount txid month reason
  = match
      final_amount_of (cell_text (map (map shown) sh) row_index c) amount
    with
    | None => (false, w)
    | Some final_amount =>
        (true,
         World (put_sheet booked
                  (set_cell (set_cell sh (row_index - 1) c
                                      (text_of final_amount))
                            (row_index - 1) (c + 1) final_txid)
                  (sheets w))
               (Write booked
                  (col_idx_to_letter (c + 1) ++ str_of_nat row_index)
                  final_txid
                :: Write booked
                     (col_idx_to_letter c ++ str_of_nat row_index)
                     (text_of final_amount)
                :: log w)
               (last_submission w))
    end.
Proof.
  intros booked Hs Hr Hm c final_txid.
  assert (H0 : (0 < row_index)%nat)
    by (apply find_row_from_ge in Hr; lia).
  unfold save_to_sheets.
  assert (E : match get_sheet reason (sheets w) with
              | Some sh0 => (Some sh0, reason)
              | None => (get_sheet (u "other") (sheets w), u "other")
              end = (Some sh, booked)).
  { unfold booked in *. destruct (get_sheet reason (sheets w)) eqn:E0.
    - rewrite E0 in Hs. now rewrite Hs.
    - now rewrite Hs. }
  rewrite E, Hr, Hm. cbv zeta. fold c.
  destruct (final_amount_of (cell_text (map (map shown) sh) row_index c)
                            amount)
    as [final_amount |]; [| reflexivity].
  destruct (@two_updates w booked sh row_index month_index
              (text_of final_amount) final_txid Hs H0) as (w2 & U1 & U2).
  cbv zeta in U1, U2. fold c in U1, U2.
  rewrite !col_to_letter_eq. rewrite U1. cbv beta iota.
  match goal with
  | |- context [update w2 ?n ?l ?v] =>
      match type of U2 with
      | _ = ?rhs => replace (update w2 n l v) with rhs by (symmetry; exact U2)
      end
  end.
  reflexivity.
Qed.

(** X6.  [save_to_sheets] books a payment in the worksheet of its reason, or
    in [other] when the reason has no worksheet, and under its month, or under
    Tir when the month is not one of the thirteen.  With the house's row
    found in what the worksheet shows, and unless the amount cell shows
    nothing and the amount is no number, it returns [True] after exactly two
    updates: the amount cell gets the formula [=current+amount] on what the
    cell showed (the number itself when it showed nothing, [0] when there is
    no amount) and the FT No cell [current, txid].  No cell other than these
    two changes. *)
Theorem save_to_sheets_books (shown : str -> str) (w : world)
    (house_number amount txid month reason : str) (sh : sheet)
    (row_index : nat) (final_amount : entered) :
  let booked :=
    match get_sheet reason (sheets w) with
    | Some _ => reason
    | None => u "other"
    end in
  get_sheet booked (sheets w) = Some sh ->
  find_row (map (map shown) sh) house_number = Some row_index ->
  exists month_index,
    index_of (if mem month Calendar.ETHIOPIAN_MONTHS_LIST then month
              else u "Tir") Calendar.ETHIOPIAN_MONTHS_LIST
    = Some month_index
    /\ (mem month Calendar.ETHIOPIAN_MONTHS_LIST = false ->
        month_index = 4%nat)
    /\ let c := (3 + month_index * 2)%nat in
       (final_amount_of (cell_text (map (map shown) sh) row_index c) amount
        = Some final_amount ->
        exists w',
          save_to_sheets shown w house_number amount txid month reason
          = (true, w')
          /\ cell_of w' booked row_index c = Some (text_of final_amount)
          /\ cell_of w' booked row_index (c + 1)
             = Some (final_txid_of
                       (cell_text (map (map shown) sh) row_index (c + 1))
                       txid)
          /\ length (log w') = S (S (length (log w)))
          /\ forall (name : str) (r k : nat),
               (0 < r)%nat ->
               name <> booked \/ r <> row_index
               \/ (k <> c /\ k <> (c + 1)%nat) ->
               cell_of w' name r k = cell_of w name r k).
Proof.
  intros booked Hs Hr.
  destruct (booked_month_index month) as (month_index & Hm & H13 & Htir).
  exists month_index. split; [exact Hm |]. split; [exact Htir |].
  intros c Hfa.
  assert (H0 : (0 < row_index)%nat)
    by (apply find_row_from_ge in Hr; lia).
  pose proof (@save_to_sheets_found shown w house_number amount txid month
                reason sh row_index month_index Hs Hr Hm) as E.
  cbv zeta in E. fold booked in E. fold c in E. rewrite Hfa in E.
  eexists. split; [exact E |]. split; [| split; [| split]].
  - unfold cell_of. cbn [sheets].
    rewrite (get_put_sheet_same _ _ _ Hs). cbn [option_map].
    rewrite get_set_cell_other_column by lia.
    now rewrite get_set_cell_same.
  - unfold cell_of. cbn [sheets].
    rewrite (get_put_sheet_same _ _ _ Hs). cbn [option_map].
    now rewrite get_set_cell_same.
  - reflexivity.
  - intros name r k Hpos Hother. unfold cell_of. cbn [sheets].
    destruct (list_eq_dec N.eq_dec name booked) as [-> | Hn].
    + rewrite (get_put_sheet_same _ _ _ Hs), Hs. cbn [option_map]. f_equal.
      destruct Hother as [H | [H | [H1 H2]]]; [contradiction | |].
      * rewrite !get_set_cell_other by (left; lia). reflexivity.
      * rewrite !get_set_cell_other by (right; lia). reflexivity.
    + now rewrite get_put_sheet_other.
Qed.

Lemma save_to_sheets_books_witness :
  exists w',
    save_to_sheets (fun s => s) Scenario.without_previous (u "407")
                   (u "90") (u "FT5") (u "January") (u "water") = (true, w')
    /\ cell_of w' (u "water") 5 11 = Some (u "90.0")
    /\ cell_of w' (u "water") 5 12 = Some (u "FT5").
Proof.
  destruct (@save_to_sheets_books (fun s => s) Scenario.without_previous
              (u "407") (u "90") (u "FT5") (u "January") (u "water")
              Scenario.water 5 (EFloat (Float 90 0)) eq_refl eq_refl)
    as (month_index & _ & Htir & H).
  rewrite (Htir eq_refl) in H.
  destruct (H eq_refl) as (w' & E & A & T & _).
  exists w'. split; [exact E |]. split; [exact A | exact T].
Defined.

End ScannerSave.

Section ScannerRefusal.
Import Ledger Scanner.

(** X7.  For an amount made of digits and dots, as the extractors return
    it, [save_to_sheets] returns [False] in three cases, and in each of them
    the ledger is left as it was: neither the reason nor [other] has a
    worksheet; the house has no row in the worksheet; or the amount cell
    shows nothing and the amount, not empty, is not a number ([float]
    raises).  An amount that is not a number is thus refused only on an
    empty cell: on a cell that shows a value it is appended to the formula
    unchecked. *)
Theorem save_to_sheets_refuses (shown : str -> str) (w : world)
    (house_number amount txid month reason : str)
    (Hamount : Forall (fun c => Orchestrator.d09_dot c = true) amount) :
  let booked :=
    match get_sheet reason (sheets w) with
    | Some _ => reason
    | None => u "other"
    end in
  let result :=
    save_to_sheets shown w house_number amount txid month reason in
  (fst result = false -> snd result = w)
  /\ (fst result = false <->
      get_sheet booked (sheets w) = None
      \/ (exists sh, get_sheet booked (sheets w) = Some sh
                     /\ find_row (map (map shown) sh) house_number = None)
      \/ (exists sh row_index month_index,
            get_sheet booked (sheets w) = Some sh
            /\ find_row (map (map shown) sh) house_number = Some row_index
            /\ index_of (if mem month Calendar.ETHIOPIAN_MONTHS_LIST
                         then month else u "Tir")
                        Calendar.ETHIOPIAN_MONTHS_LIST = Some month_index
            /\ cell_text (map (map shown) sh) row_index
                         (3 + month_index * 2) = []
            /\ truthy amount = true
            /\ float_of_str amount = None)).
Proof.
  intros booked result.
  destruct (get_sheet booked (sheets w)) as [sh |] eqn:Hs.
  2: { assert (E : result = (false, w)).
       { unfold result, save_to_sheets. unfold booked in Hs.
         destruct (get_sheet reason (sheets w)) eqn:E0; [congruence |].
         now rewrite Hs. }
       rewrite E. split; [reflexivity |]. split; [now left | reflexivity]. }
  destruct (find_row (map (map shown) sh) house_number) as [row_index |] eqn:Hr.
  2: { assert (E : result = (false, w)).
       { unfold result, save_to_sheets. unfold booked in Hs.
         destruct (get_sheet reason (sheets w)) eqn:E0.
         - rewrite E0 in Hs. injection Hs as ->. now rewrite Hr.
         - now rewrite Hs, Hr. }
       rewrite E. split; [reflexivity |]. split; [| reflexivity].
       intros _. right. left. now exists sh. }
  destruct (booked_month_index month) as (month_index & Hm & _ & _).
  pose proof (@save_to_sheets_found shown w house_number amount txid month
                reason sh row_index month_index Hs Hr Hm) as E.
  cbv zeta in E. fold booked in E. fold result in E.
  unfold final_amount_of in E.
  destruct (truthy (cell_text (map (map shown) sh) row_index
                              (3 + month_index * 2))) eqn:Hc.
  - rewrite E. cbn [fst snd]. split; [discriminate |]. split; [discriminate |].
    intros [H | [(sh0 & H & H') | (sh0 & r0 & m0 & H1 & H2 & H3 & H4 & _)]];
      try congruence.
    assert (m0 = month_index) by congruence. subst m0.
    assert (sh0 = sh) by congruence. subst sh0.
    assert (r0 = row_index) by congruence. subst r0.
    rewrite H4 in Hc. discriminate.
  - destruct (truthy amount) eqn:Ha.
    + destruct (float_of_str amount) as [x |] eqn:Hf; cbn [option_map] in E;
        rewrite E; cbn [fst snd].
      * split; [discriminate |]. split; [discriminate |].
        intros [H | [(sh0 & H & H')
                    | (sh0 & r0 & m0 & H1 & H2 & H3 & H4 & H5 & H6)]];
          congruence.
      * split; [reflexivity |]. split; [| reflexivity].
        intros _. right. right. exists sh, row_index, month_index.
        repeat (split; [assumption || reflexivity |]).
        split; [| split; reflexivity].
        destruct (cell_text (map (map shown) sh) row_index
                            (3 + month_index * 2));
          [reflexivity | discriminate].
    + rewrite E. cbn [fst snd]. split; [discriminate |]. split; [discriminate |].
      intros [H | [(sh0 & H & H')
                  | (sh0 & r0 & m0 & H1 & H2 & H3 & H4 & H5 & H6)]];
        congruence.
Qed.

Lemma save_to_sheets_refuses_witness :
  fst (save_to_sheets (fun s => s) Scenario.without_previous (u "407")
                      (u "1.2.3") (u "FT5") (u "Tir") (u "water")) = false
  /\ snd (save_to_sheets (fun s => s) Scenario.without_previous (u "407")
                         (u "1.2.3") (u "FT5") (u "Tir") (u "water"))
     = Scenario.without_previous.
Proof.
  assert (Hamount : Forall (fun c => Orchestrator.d09_dot c = true)
                           (u "1.2.3")) by (repeat constructor).
  split; [reflexivity |].
  exact (proj1 (@save_to_sheets_refuses (fun s => s)
                  Scenario.without_previous (u "407") (u "1.2.3") (u "FT5")
                  (u "Tir") (u "water") Hamount) eq_refl).
Defined.

End ScannerRefusal.

(* ================================================================== *)
(** ** Scanned receipts *)

Section ScannedReceipts.
Import Ledger Scanner Amount.

(** X22.  An amount found by [extract_amount_from_receipt] is never the
    reason for [save_to_sheets] to fail: with a worksheet for the reason (or
    [other]) and a row for the house, the save returns [True], whatever the
    month, the transaction id and the cells hold. *)
Theorem scanned_amount_is_booked (shown : str -> str) (w : world)
    (text house_number txid month reason : str) (sh : sheet)
    (row_index : nat) :
  let amount := extract_amount_from_receipt text in
  let booked :=
    match get_sheet reason (sheets w) with
    | Some _ => reason
    | None => u "other"
    end in
  amount <> [] ->
  get_sheet booked (sheets w) = Some sh ->
  find_row (map (map shown) sh) house_number = Some row_index ->
  fst (save_to_sheets shown w house_number amount txid month reason) = true.
Proof.
  intros amount booked Ha Hs Hr.
  destruct (booked_month_index month) as (month_index & Hm & _ & _).
  pose proof (@save_to_sheets_found shown w house_number amount txid month
                reason sh row_index month_index Hs Hr Hm) as E.
  cbv zeta in E. rewrite E. unfold final_amount_of.
  destruct (truthy (cell_text (map (map shown) sh) row_index
                              (3 + month_index * 2))); [reflexivity |].
  destruct (extract_amount_above_50 text) as [E0 | (v & Hv & _)];
    [contradiction |].
  fold amount in Hv. rewrite Hv.
  destruct amount; [contradiction | reflexivity].
Qed.

Lemma scanned_amount_is_booked_witness :
  fst (save_to_sheets (fun s => s) Scenario.without_previous (u "407")
         (extract_amount_from_receipt (u "paid 1,000.00 Birr, fee 12.00 Birr"))
         (u "FT5") (u "Tir") (u "water")) = true.
Proof.
  apply (@scanned_amount_is_booked (fun s => s) Scenario.without_previous
           (u "paid 1,000.00 Birr, fee 12.00 Birr") (u "407") (u "FT5")
           (u "Tir") (u "water") Scenario.water 5).
  - vm_compute. discriminate.
  - reflexivity.
  - reflexivity.
Defined.

End ScannedReceipts.

(* ================================================================== *)
(** ** The layout of a new worksheet *)

Section WorksheetLayout.
Import Ledger Scanner Setup.

Lemma num_to_col_eq (idx : nat) : num_to_col (S idx) = col_idx_to_letter idx.
Proof. unfold num_to_col. rewrite num_to_col_go_acc by lia. apply app_nil_r. Qed.

Lemma index_of_nth (x : str) (xs : list str) (i : nat) :
  index_of x xs = Some i -> nth i xs [] = x.
Proof.
  revert i. induction xs as [| y ys IH]; intros i; cbn [index_of];
    [discriminate |].
  destruct (str_eqb x y) eqn:E.
  - intros [= <-]. apply str_eqb_eq in E. now subst.
  - destruct (index_of x ys) as [j |]; [| discriminate].
    intros [= <-]. cbn [option_map nth]. now apply IH.
Qed.

(** The cells of a row made of pairs, one pair for every element. *)
Lemma nth_flat_map_pair (A B : Type) (f g : A -> B) (l : list A)
    (tl : list B) (d : B) (da : A) :
  forall i,
    (i < length l)%nat ->
    nth (i * 2) (flat_map (fun m => [f m; g m]) l ++ tl) d = f (nth i l da)
    /\ nth (i * 2 + 1) (flat_map (fun m => [f m; g m]) l ++ tl) d
       = g (nth i l da).
Proof.
  induction l as [| x l IH]; intros i Hi; cbn [length] in Hi; [lia |].
  destruct i as [| i]; [now split |].
  cbn [flat_map app Nat.mul Nat.add nth].
  apply IH. lia.
Qed.

Lemma nth_repeat_nil (n k : nat) (tl : list str) :
  Forall (fun c => c = []) tl -> nth k (repeat [] n ++ tl) [] = [].
Proof.
  intros Htl. destruct (Nat.lt_ge_cases k (length (repeat ([] : str) n ++ tl)))
    as [H | H]; [| now apply nth_overflow].
  assert (F : Forall (fun c : str => c = []) (repeat [] n ++ tl)).
  { apply Forall_app. split; [| exact Htl].
    apply Forall_forall. intros c Hc. now apply repeat_spec in Hc. }
  rewrite Forall_forall in F. apply F. now apply nth_In.
Qed.

Lemma row_data_cells (idx : nat) (house_num house_name : str) :
  length (row_data idx house_num house_name) = 30%nat
  /\ nth 1 (row_data idx house_num house_name) [] = house_num
  /\ nth 2 (row_data idx house_num house_name) [] = house_name
  /\ forall c, (3 <= c)%nat -> nth c (row_data idx house_num house_name) [] = [].
Proof.
  split; [reflexivity |]. split; [reflexivity |]. split; [reflexivity |].
  intros c Hc. destruct c as [| [| [| c]]]; try lia.
  unfold row_data. cbn [app nth].
  apply nth_repeat_nil. now repeat constructor.
Qed.

Lemma length_house_rows (houses : list (str * str)) :
  forall idx, length (all_house_rows_from idx houses) = length houses.
Proof.
  induction houses as [| [n name] houses IH]; intros idx; [reflexivity |].
  cbn [all_house_rows_from length]. now rewrite IH.
Qed.

Lemma house_rows_app (pre post : list (str * str)) :
  forall idx,
    all_house_rows_from idx (pre ++ post)
    = all_house_rows_from idx pre
      ++ all_house_rows_from (idx + length pre) post.
Proof.
  induction pre as [| [n name] pre IH]; intros idx; cbn [app length].
  - now rewrite Nat.add_0_r.
  - cbn [all_house_rows_from app]. rewrite IH. do 3 f_equal. lia.
Qed.

Lemma find_row_from_house_rows (pre : list (str * str)) (house_num : str)
    (rest : sheet) (row : list str) :
  (forall p, In p pre -> strip (fst p) <> strip house_num) ->
  (1 <? length row)%nat = true -> nth 1 row [] = house_num ->
  forall k idx,
    find_row_from idx (all_house_rows_from k pre ++ row :: rest) house_num
    = Some (idx + length pre)%nat.
Proof.
  intros Hpre Hl Hrow.
  induction pre as [| [n name] pre IH]; intros k idx.
  - cbn [all_house_rows_from app find_row_from length].
    rewrite Hl, Hrow, str_eqb_refl. cbn [andb]. f_equal. lia.
  - cbn [all_house_rows_from app find_row_from length].
    change (nth 1 (row_data k n name) []) with n.
    change (1 <? length (row_data k n name))%nat with true. cbn [andb].
    destruct (str_eqb (strip n) (strip house_num)) eqn:E.
    + apply str_eqb_eq in E. exfalso.
      apply (Hpre (n, name)); [now left | exact E].
    + rewrite IH; [f_equal; lia |].
      intros p Hp. apply Hpre. now right.
Qed.

Lemma any_total_rows (houses : list (str * str)) (a b : nat) :
  forall idx,
    any_total (all_house_rows_from idx houses ++ [totals_row_data a b])
    = Some true.
Proof.
  induction houses as [| [n name] houses IH]; intros idx.
  - reflexivity.
  - cbn [all_house_rows_from app any_total].
    change (nth_error (row_data idx n name) 1) with (Some n). cbv iota beta.
    match goal with
    | |- context [if ?b then _ else _] => destruct b
    end; [reflexivity | apply IH].
Qed.

(** A new worksheet with at least one house. *)
Lemma new_worksheet_rows (houses : list (str * str)) :
  houses <> [] ->
  new_worksheet houses
  = Scenario.header_row1 :: Scenario.header_row2
    :: all_house_rows_from 1 houses
       ++ [totals_row_data 3 (2 + length houses)].
Proof.
  intros Hne. unfold new_worksheet.
  destruct houses as [| [n name] houses]; [contradiction |].
  cbn [all_house_rows_from]. cbv zeta. cbn [app length].
  now rewrite length_house_rows.
Qed.

Lemma header_cells (month : str) (month_index : nat) :
  index_of month Calendar.ETHIOPIAN_MONTHS_LIST = Some month_index ->
  nth (3 + month_index * 2) Scenario.header_row1 [] = month
  /\ nth (3 + month_index * 2) Scenario.header_row2 [] = u "Amount"
  /\ nth (3 + month_index * 2 + 1) Scenario.header_row2 [] = u "FT No".
Proof.
  intros H. pose proof (index_of_lt _ _ H) as Hlt.
  apply index_of_nth in H.
  change (nth (3 + month_index * 2) Scenario.header_row1 [])
    with (nth (month_index * 2)
              (flat_map (fun m : str => [m; []])
                        Calendar.ETHIOPIAN_MONTHS_LIST ++ [u "Remark"]) []).
  change (nth (3 + month_index * 2) Scenario.header_row2 [])
    with (nth (month_index * 2)
              (flat_map (fun _ : str => [u "Amount"; u "FT No"])
                        Calendar.ETHIOPIAN_MONTHS_LIST ++ [[]]) []).
  change (nth (3 + month_index * 2 + 1) Scenario.header_row2 [])
    with (nth (month_index * 2 + 1)
              (flat_map (fun _ : str => [u "Amount"; u "FT No"])
                        Calendar.ETHIOPIAN_MONTHS_LIST ++ [[]]) []).
  destruct (@nth_flat_map_pair str str (fun m => m) (fun _ => [])
              Calendar.ETHIOPIAN_MONTHS_LIST [u "Remark"] [] []
              month_index Hlt) as [A _].
  destruct (@nth_flat_map_pair str str (fun _ => u "Amount")
              (fun _ => u "FT No") Calendar.ETHIOPIAN_MONTHS_LIST [[]] [] []
              month_index Hlt) as [B C].
  exact (conj (eq_trans A H) (conj B C)).
Qed.

Lemma totals_cells (a b month_index : nat) :
  (month_index < length Calendar.ETHIOPIAN_MONTHS_LIST)%nat ->
  nth 1 (totals_row_data a b) [] = u "TOTAL"
  /\ nth (3 + month_index * 2) (totals_row_data a b) []
     = sum_formula (col_idx_to_letter (3 + month_index * 2)) a b
  /\ nth (3 + month_index * 2 + 1) (totals_row_data a b) [] = [].
Proof.
  intros Hlt. split; [reflexivity |].
  change (nth (3 + month_index * 2) (totals_row_data a b) [])
    with (nth (month_index * 2)
              (flat_map
                 (fun month_idx =>
                    [sum_formula (num_to_col (3 + month_idx * 2 + 1)) a b; []])
                 (seq 0 (length Calendar.ETHIOPIAN_MONTHS_LIST)) ++ [[]]) []).
  change (nth (3 + month_index * 2 + 1) (totals_row_data a b) [])
    with (nth (month_index * 2 + 1)
              (flat_map
                 (fun month_idx =>
                    [sum_formula (num_to_col (3 + month_idx * 2 + 1)) a b; []])
                 (seq 0 (length Calendar.ETHIOPIAN_MONTHS_LIST)) ++ [[]]) []).
  assert (Hs : (month_index
                < length (seq 0 (length Calendar.ETHIOPIAN_MONTHS_LIST)))%nat)
    by now rewrite length_seq.
  destruct (@nth_flat_map_pair nat str
              (fun month_idx =>
                 sum_formula (num_to_col (3 + month_idx * 2 + 1)) a b)
              (fun _ => [])
              (seq 0 (length Calendar.ETHIOPIAN_MONTHS_LIST)) [[]] [] 0%nat
              month_index Hs) as [A B].
  cbv beta in A, B. rewrite seq_nth in A by exact Hlt.
  assert (E : num_to_col (3 + (0 + month_index) * 2 + 1)
              = col_idx_to_letter (3 + month_index * 2)).
  { replace (3 + (0 + month_index) * 2 + 1)%nat
      with (S (3 + month_index * 2)) by lia.
    apply num_to_col_eq. }
  rewrite E in A.
  exact (conj A B).
Qed.

(** X23.  The worksheet that [setup_sheets] builds has the layout the save
    code counts on.  A house of the list has its row where [find_row] looks
    for it, the third row for the first house; for every month, the two
    columns that the save phase and [save_to_sheets] compute,
    [3 + 2 * month_index] and the next, stand under the month's name and
    under [Amount] and [FT No], are empty in the house's row, and the first
    of them is the column the month's [=SUM(...)] of the [TOTAL] row adds
    up, from row 3 to the last house row.  The range of the batch update
    ends in the last cell of the last house row. *)
Theorem new_worksheet_layout (houses pre post : list (str * str))
    (house_num house_name : str) :
  houses = pre ++ (house_num, house_name) :: post ->
  (forall p, In p pre -> strip (fst p) <> strip house_num) ->
  let sh := new_worksheet houses in
  let row_index := (3 + length pre)%nat in
  let totals_row_num := (3 + length houses)%nat in
  find_row sh house_num = Some row_index
  /\ get_cell sh (row_index - 1) 1 = house_num
  /\ get_cell sh (row_index - 1) 2 = house_name
  /\ get_cell sh (totals_row_num - 1) 1 = u "TOTAL"
  /\ a1_to_rowcol (house_rows_end houses)
     = Some ((totals_row_num - 2)%nat,
             (length (nth (row_index - 1) sh []) - 1)%nat)
  /\ forall (month : str) (month_index : nat),
       index_of month Calendar.ETHIOPIAN_MONTHS_LIST = Some month_index ->
       let c := (3 + month_index * 2)%nat in
       get_cell sh 0 c = month
       /\ get_cell sh 1 c = u "Amount"
       /\ get_cell sh 1 (c + 1) = u "FT No"
       /\ get_cell sh (row_index - 1) c = []
       /\ get_cell sh (row_index - 1) (c + 1) = []
       /\ get_cell sh (totals_row_num - 1) c
          = sum_formula (col_idx_to_letter c) 3 (totals_row_num - 1).
Proof.
  intros E Hpre sh row_index totals_row_num.
  assert (Hne : houses <> []) by (rewrite E; now destruct pre).
  assert (Hsh : sh = Scenario.header_row1 :: Scenario.header_row2
                     :: all_house_rows_from 1 houses
                        ++ [totals_row_data 3 (2 + length houses)])
    by now apply new_worksheet_rows.
  assert (Hrows : all_house_rows_from 1 houses
                  = all_house_rows_from 1 pre
                    ++ row_data (1 + length pre) house_num house_name
                       :: all_house_rows_from (S (1 + length pre)) post).
  { rewrite E, house_rows_app. reflexivity. }
  destruct (row_data_cells (1 + length pre) house_num house_name)
    as (Rl & R1 & R2 & Rc).
  assert (Hrow : nth (row_index - 1) sh []
                 = row_data (1 + length pre) house_num house_name).
  { rewrite Hsh, Hrows. unfold row_index.
    replace (3 + length pre - 1)%nat with (S (S (length pre))) by lia.
    cbn [nth]. rewrite <- app_assoc.
    rewrite app_nth2 by (rewrite length_house_rows; lia).
    rewrite length_house_rows, Nat.sub_diag. reflexivity. }
  assert (Htot : nth (totals_row_num - 1) sh []
                 = totals_row_data 3 (2 + length houses)).
  { rewrite Hsh. unfold totals_row_num.
    replace (3 + length houses - 1)%nat with (S (S (length houses))) by lia.
    cbn [nth]. rewrite app_nth2 by (rewrite length_house_rows; lia).
    rewrite length_house_rows, Nat.sub_diag. reflexivity. }
  unfold get_cell. rewrite Hrow, Htot.
  split; [| split; [exact R1 | split; [exact R2 | split; [reflexivity |]]]].
  - unfold find_row. rewrite Hsh. cbn [skipn]. rewrite Hrows, <- app_assoc.
    cbn [app]. unfold row_index.
    apply find_row_from_house_rows; [exact Hpre | reflexivity | exact R1].
  - split.
    + unfold house_rows_end. cbv zeta. rewrite length_house_rows.
      change (3 + length Calendar.ETHIOPIAN_MONTHS_LIST * 2 + 1)%nat
        with (S 29).
      rewrite num_to_col_eq.
      destruct (col_idx_to_letter_spec 29) as (L & Hn & C).
      rewrite a1_to_rowcol_letters_row by (assumption || lia).
      rewrite C, Rl. unfold totals_row_num. do 2 f_equal; lia.
    + intros month month_index Hm. cbv zeta.
      set (c := (3 + month_index * 2)%nat).
      destruct (header_cells _ Hm) as (H1 & H2 & H3).
      pose proof (index_of_lt _ _ Hm) as Hlt.
      destruct (@totals_cells 3 (2 + length houses) month_index Hlt)
        as (_ & T & _).
      rewrite Hsh. cbn [nth]. fold c in H1, H2, H3, T.
      split; [exact H1 |]. split; [exact H2 |]. split; [exact H3 |].
      split; [apply Rc; unfold c; lia |].
      split; [apply Rc; unfold c; lia |].
      rewrite T. unfold totals_row_num. f_equal; lia.
Qed.

Lemma new_worksheet_layout_witness :
  find_row (new_worksheet [(u "101", u "Abebe"); (u "205", u "Kebede")])
           (u "205") = Some 4%nat
  /\ get_cell (new_worksheet [(u "101", u "Abebe"); (u "205", u "Kebede")])
              4 1 = u "TOTAL".
Proof.
  destruct (@new_worksheet_layout
              [(u "101", u "Abebe"); (u "205", u "Kebede")]
              [(u "101", u "Abebe")] [] (u "205") (u "Kebede") eq_refl)
    as (A & _ & _ & B & _).
  - intros p [<- | []]. vm_compute. discriminate.
  - split; [exact A | exact B].
Defined.

Lemma has_correct_headers_new (rest : sheet) :
  has_correct_headers (Scenario.header_row1 :: Scenario.header_row2 :: rest)
  = true.
Proof. reflexivity. Qed.

(** X24.  What [setup_sheets] builds it recognises: on the next set-up a
    new worksheet with at least one house passes the format check and is
    kept as it is, its entries untouched.  A worksheet built for no house
    has the header rows only; it is found to lack the totals row on each of
    the next two set-ups, which add one each, and is kept from then on. *)
Theorem new_worksheet_is_kept (houses : list (str * str)) :
  existing_sheet (new_worksheet houses)
  = match houses with [] => AddTotals | _ :: _ => Keep end
  /\ existing_sheet (add_totals (new_worksheet [])) = AddTotals
  /\ existing_sheet (add_totals (add_totals (new_worksheet []))) = Keep.
Proof.
  split; [| split; reflexivity].
  destruct houses as [| h houses]; [reflexivity |].
  rewrite new_worksheet_rows by discriminate.
  set (rows := all_house_rows_from 1 (h :: houses)).
  set (totals := totals_row_data 3 (2 + length (h :: houses))).
  unfold existing_sheet.
  change (1 <? length (Scenario.header_row1 :: Scenario.header_row2
                       :: rows ++ [totals]))%nat with true.
  cbv iota.
  change (nth_error (nth 0 (Scenario.header_row1 :: Scenario.header_row2
                            :: rows ++ [totals]) []) 0)
    with (Some (u "No")).
  cbv iota. change (str_eqb (u "No") (u "No")) with true. cbv iota.
  rewrite has_correct_headers_new.
  unfold has_totals_row.
  replace (3 <? length (Scenario.header_row1 :: Scenario.header_row2
                        :: rows ++ [totals]))%nat with true.
  - cbn [skipn]. unfold rows, totals. rewrite any_total_rows. reflexivity.
  - symmetry. apply Nat.ltb_lt. cbn [length]. rewrite length_app.
    unfold rows. rewrite length_house_rows. cbn [length]. lia.
Qed.

End WorksheetLayout.

(* ================================================================== *)
(** ** The save phase after the set-up of the worksheets *)

Section SetUpThenSave.
Import Text Ledger Setup Startup.

Lemma put_sheet_same (name : str) (sh : sheet) (b : book) :
  get_sheet name b = Some sh -> put_sheet name sh b = b.
Proof.
  induction b as [| [n sh0] b IH]; [reflexivity |].
  cbn [get_sheet put_sheet]. destruct (str_eqb name n).
  - now intros [= ->].
  - intros H. now rewrite IH.
Qed.

Lemma store_same (name : str) (sh : sheet) (b : book) :
  get_sheet name b = Some sh -> store name sh b = b.
Proof.
  intros H. unfold store. rewrite H. now apply put_sheet_same.
Qed.

Lemma setup_loop_kept (sorted_houses : list (str * str)) (reasons : list str)
    (b : book) :
  (forall reason, In reason reasons ->
     exists sh, get_sheet reason b = Some sh /\ existing_sheet sh = Keep) ->
  setup_loop sorted_houses reasons b = (true, b).
Proof.
  induction reasons as [| reason reasons IH]; intros H; [reflexivity |].
  cbn [setup_loop].
  destruct (H reason (or_introl eq_refl)) as (sh & Hs & Hk).
  rewrite Hs. cbn [setup_sheet]. rewrite Hk, (store_same _ _ Hs).
  apply IH. intros r Hr. apply H. now right.
Qed.

(** A first set-up that finds the five worksheets in the kept format
    returns them and writes nothing. *)
Lemma setup_settled (sorted_houses : list (str * str)) (w : world) :
  settled w -> setup_sheets (NotCached sorted_houses) w = (Some (sheets w), w).
Proof.
  destruct w as [b l ls]. unfold settled. cbn [sheets]. intros [Hn Hk].
  destruct b as [| [n1 s1] [| [n2 s2] [| [n3 s3] [| [n4 s4] [| [n5 s5]
             [| ? ?]]]]]]; try discriminate Hn.
  cbn [map fst] in Hn. injection Hn as -> -> -> -> ->.
  cbn [map snd] in Hk.
  inversion Hk as [| ? ? K1 Hk1]; subst.
  inversion Hk1 as [| ? ? K2 Hk2]; subst.
  inversion Hk2 as [| ? ? K3 Hk3]; subst.
  inversion Hk3 as [| ? ? K4 Hk4]; subst.
  inversion Hk4 as [| ? ? K5 _]; subst.
  unfold setup_sheets. cbv zeta.
  rewrite setup_loop_kept.
  - reflexivity.
  - intros reason Hr. cbn [map fst Reason.PAYMENT_REASONS] in Hr.
    destruct Hr as [<- | [<- | [<- | [<- | [<- | []]]]]];
      eexists; (split; [vm_compute; reflexivity | assumption]).
Qed.

Lemma setup_frame (c : cache) (w : world) :
  log (snd (setup_sheets c w)) = log w
  /\ last_submission (snd (setup_sheets c w)) = last_submission w.
Proof.
  destruct c as [| | sorted_houses]; cbn [setup_sheets snd];
    try (split; reflexivity).
  destruct (setup_loop _ _ _) as [[|] spreadsheet]; split; reflexivity.
Qed.

(** Nothing is written when the worksheets are cached, when the chat has
    no configuration, or when the five worksheets are in the kept format. *)
Lemma setup_writes_nothing (c : cache) (w : world) :
  c = Cached \/ c = Unconfigured \/ settled w -> snd (setup_sheets c w) = w.
Proof.
  intros [-> | [-> | H]]; try reflexivity.
  destruct c as [| | sorted_houses]; try reflexivity.
  now rewrite setup_settled.
Qed.

(** After a set-up that returned worksheets, the state holds them. *)
Lemma opened_sheets (c : cache) (w : world) :
  opened c w <> [] -> sheets (snd (setup_sheets c w)) = opened c w.
Proof.
  unfold opened. destruct c as [| | sorted_houses]; cbn [setup_sheets fst snd].
  - reflexivity.
  - intros H. now contradiction H.
  - destruct (setup_loop _ _ _) as [[|] spreadsheet]; cbn [fst snd sheets].
    + reflexivity.
    + intros H. now contradiction H.
Qed.

(** The four ways of the save phase: two rejections before the set-up, no
    worksheet, or the rest of the save phase on the worksheets returned. *)
Lemma save_phase_cases (c : cache) (is_edit_mode : bool) (data : payment)
    (w : world) :
  save_phase c is_edit_mode data w = (ExtractionIncomplete, w)
  \/ save_phase c is_edit_mode data w = (BeneficiaryUnverified, w)
  \/ (save_phase c is_edit_mode data w
      = (NoSheetForReason, snd (setup_sheets c w))
      /\ opened c w = [])
  \/ (save_phase c is_edit_mode data w
      = finalize is_edit_mode data (snd (setup_sheets c w))
      /\ opened c w <> []).
Proof.
  unfold save_phase, opened.
  destruct (truthy (amount data)); cbn [negb]; [| now left].
  destruct (fst (Beneficiary.validate_beneficiary (beneficiary data)));
    cbn [negb]; [| right; now left].
  right. right.
  destruct (setup_sheets c w) as [[[| p b] |] w0]; cbn [fst snd].
  - left. now split.
  - right. split; [reflexivity | discriminate].
  - left. now split.
Qed.

(** The save phase on worksheets that were returned, once the amount and
    the beneficiary are accepted. *)
Lemma save_phase_opened (c : cache) (is_edit_mode : bool) (data : payment)
    (w : world) :
  truthy (amount data) = true ->
  fst (Beneficiary.validate_beneficiary (beneficiary data)) = true ->
  opened c w <> [] ->
  save_phase c is_edit_mode data w
  = finalize is_edit_mode data (snd (setup_sheets c w)).
Proof.
  intros Ha Hb Ho. unfold save_phase. rewrite Ha, Hb. cbn [negb].
  unfold opened in Ho.
  destruct (setup_sheets c w) as [[[| p b] |] w0]; cbn [fst snd] in *;
    [now contradiction Ho | reflexivity | now contradiction Ho].
Qed.

(** A rejection by the rest of the save phase leaves the state as it is. *)
Lemma finalize_rejection (is_edit_mode : bool) (data : payment) (w : world) :
  fst (finalize is_edit_mode data w) <> Saved ->
  fst (finalize is_edit_mode data w) <> SaveFailed ->
  snd (finalize is_edit_mode data w) = w.
Proof.
  unfold finalize.
  destruct (truthy (amount data)); cbn [negb]; [| reflexivity].
  destruct (fst (Beneficiary.validate_beneficiary (beneficiary data)));
    cbn [negb]; [| reflexivity].
  destruct (get_sheet (reason data) (sheets w)) as [target |];
    [| reflexivity].
  destruct (find_row target (house_number data)) as [row_index |];
    [| reflexivity].
  destruct (index_of (month data) Calendar.ETHIOPIAN_MONTHS_LIST)
    as [month_index |]; [| reflexivity].
  destruct is_edit_mode; cbn [negb andb].
  - destruct (final_values _ _ _ _ _ _) as [fa ft].
    destruct (update _ _ _ _) as [w2 |]; [| intros _ H; now contradiction H].
    destruct (update _ _ _ _) as [w3 |]; intros H1 H2;
      [now contradiction H1 | now contradiction H2].
  - unfold delete_old_entry. cbn [andb].
    destruct (if truthy (transaction_id data)
                 && truthy (strip (transaction_id data))
              then duplicate_in_sheets (sheets w) (transaction_id data)
              else None) as [[ds dr] |]; [reflexivity |].
    destruct (final_values _ _ _ _ _ _) as [fa ft].
    destruct (update _ _ _ _) as [w2 |]; [| intros _ H; now contradiction H].
    destruct (update _ _ _ _) as [w3 |]; intros H1 H2;
      [now contradiction H1 | now contradiction H2].
Qed.

(** A transaction id that the duplicate scan finds, for a new submission
    that passes the checks before the scan. *)
Lemma duplicate_found_rejected (data : payment) (w : world) (s : str)
    (r : nat) (target : sheet) (row_index month_index : nat) :
  truthy (strip (transaction_id data)) = true ->
  duplicate_in_sheets (sheets w) (transaction_id data) = Some (s, r) ->
  truthy (amount data) = true ->
  fst (Beneficiary.validate_beneficiary (beneficiary data)) = true ->
  get_sheet (reason data) (sheets w) = Some target ->
  find_row target (house_number data) = Some row_index ->
  index_of (month data) Calendar.ETHIOPIAN_MONTHS_LIST = Some month_index ->
  finalize false data w = (DuplicateTransaction s r, w).
Proof.
  intros Ht Hd Ha Hb Hs Hr Hm. pose proof (truthy_strip _ Ht) as Ht'.
  unfold finalize. rewrite Ha, Hb, Hs, Hr, Hm. cbn [negb andb].
  unfold delete_old_entry. cbn [andb].
  now rewrite Ht', Ht, Hd.
Qed.

(** C2, as stated, fails on the first submission after a start: the
    transaction id ABC123456789 is in an FT No cell of the water worksheet,
    which lacks its totals row; the new submission that carries the id is
    rejected as a duplicate, and the set-up has by then written the totals
    row, [TOTAL] into the cell B6, which was empty. *)
Lemma duplicate_rejected_after_totals_written :
  holds_txid (nth 4 water_without_totals []) 6
             (transaction_id Scenario.repeated) = true
  /\ In (nth 4 water_without_totals []) (skipn 2 water_without_totals)
  /\ get_sheet (u "water") (sheets started) = Some water_without_totals
  /\ fst (save_phase (NotCached houses) false Scenario.repeated started)
     = DuplicateTransaction (u "water") 5
  /\ cell_of started (u "water") 6 1 = Some []
  /\ cell_of (snd (save_phase (NotCached houses) false Scenario.repeated
                              started))
             (u "water") 6 1
     = Some (u "TOTAL").
Proof.
  split; [vm_compute; reflexivity |].
  split; [vm_compute; right; right; left; reflexivity |].
  repeat split; vm_compute; reflexivity.
Qed.

(** C2, amended.  A new submission whose transaction id is held, as a
    comma-separated token, by an FT No cell of a data row of a worksheet that
    [setup_sheets] returned is never saved, and the save phase writes
    nothing: the ledger is as it was or as the set-up left it, and it is as
    it was when the worksheets were cached or are the five worksheets in the
    format that the set-up keeps.  When the submission passes the earlier
    checks (amount, beneficiary, worksheet, house row, month) it is rejected
    as a duplicate.  The same submission in edit mode is not checked for
    duplicates and is saved. *)
Theorem duplicate_rejected_unless_edit (c : cache) (data : payment)
    (w : world) (name : str) (sh : sheet) (row : list str) (col_idx : nat) :
  truthy (strip (transaction_id data)) = true ->
  In (name, sh) (opened c w) ->
  In row (skipn 2 sh) ->
  In col_idx (ft_columns row) ->
  holds_txid row col_idx (transaction_id data) = true ->
  let after_setup := snd (setup_sheets c w) in
  fst (save_phase c false data w) <> Saved
  /\ (snd (save_phase c false data w) = w
      \/ snd (save_phase c false data w) = after_setup)
  /\ (c = Cached \/ settled w -> snd (save_phase c false data w) = w)
  /\ (forall target row_index month_index,
        truthy (amount data) = true ->
        fst (Beneficiary.validate_beneficiary (beneficiary data)) = true ->
        get_sheet (reason data) (opened c w) = Some target ->
        find_row target (house_number data) = Some row_index ->
        index_of (month data) Calendar.ETHIOPIAN_MONTHS_LIST
          = Some month_index ->
        (exists s r,
           save_phase c false data w = (DuplicateTransaction s r, after_setup))
        /\ fst (save_phase c true data w) = Saved).
Proof.
  intros Ht Hsh Hrow Hcol Hh after_setup.
  assert (Ho : opened c w <> []) by (intros E; now rewrite E in Hsh).
  pose proof (@opened_sheets c w Ho) as Hs0. fold after_setup in Hs0.
  destruct (@duplicate_in_sheets_found (sheets after_setup)
              (transaction_id data) name sh row col_idx)
    as (s & r & Hd); try assumption; [now rewrite Hs0 |].
  destruct (@duplicate_found_not_saved data after_setup s r Ht Hd)
    as [Hw Hns].
  assert (Hcases :
    fst (save_phase c false data w) <> Saved
    /\ (snd (save_phase c false data w) = w
        \/ snd (save_phase c false data w) = after_setup)).
  { destruct (save_phase_cases c false data w)
      as [E | [E | [[E _] | [E _]]]]; rewrite E; cbn [fst snd].
    - split; [discriminate | now left].
    - split; [discriminate | now left].
    - split; [discriminate | now right].
    - fold after_setup. split; [exact Hns | now right]. }
  destruct Hcases as [H1 H2].
  split; [exact H1 |]. split; [exact H2 |]. split.
  - intros Hc. destruct H2 as [H2 | H2]; [exact H2 |].
    rewrite H2. apply setup_writes_nothing. tauto.
  - intros target row_index month_index Ha Hb Hg Hr Hm.
    rewrite <- Hs0 in Hg. split.
    + exists s, r. rewrite (save_phase_opened c false data w Ha Hb Ho).
      fold after_setup.
      now apply duplicate_found_rejected
        with (target := target) (row_index := row_index)
             (month_index := month_index).
    + rewrite (save_phase_opened c true data w Ha Hb Ho).
      fold after_setup. eapply edit_mode_saved; eassumption.
Qed.

Lemma duplicate_rejected_unless_edit_witness :
  save_phase (NotCached houses) false tikimt first_start = (Saved, running)
  /\ sheets running = five_sheets Scenario.water
  /\ last_submission running = Some tikimt
  /\ save_phase Cached false Scenario.repeated running
     = (DuplicateTransaction (u "water") 5, running)
  /\ fst (save_phase Cached true Scenario.repeated running) = Saved.
Proof.
  split; [vm_compute; reflexivity |].
  split; [vm_compute; reflexivity |].
  split; [vm_compute; reflexivity |].
  destruct (@duplicate_rejected_unless_edit Cached Scenario.repeated running
              (u "water") Scenario.water (nth 4 Scenario.water []) 6)
    as (_ & _ & _ & C).
  - vm_compute. reflexivity.
  - left. reflexivity.
  - vm_compute. right. right. left. reflexivity.
  - vm_compute. right. left. reflexivity.
  - vm_compute. reflexivity.
  - destruct (C Scenario.water 5%nat 4%nat) as [_ E];
      try (vm_compute; reflexivity).
    split; [vm_compute; reflexivity | exact E].
Defined.

(** X3.  A new submission that is saved changes two cells and no other of
    the ledger that the set-up left: the ledger afterwards differs from it
    only in the amount cell and the FT No cell of the house's row and the
    month's columns in the worksheet of the reason; these two are the
    one-cell updates of the save phase, and the submission is stored as the
    user's last one.  The set-up leaves the ledger as it was when the
    worksheets were cached or are the five worksheets in the format that the
    set-up keeps; otherwise, on the first submission after a start, it has
    written before. *)
Theorem new_submission_changes_two_cells (c : cache) (data : payment)
    (w w' : world) :
  save_phase c false data w = (Saved, w') ->
  let after_setup := snd (setup_sheets c w) in
  (c = Cached \/ settled w -> after_setup = w)
  /\ exists (target : sheet) (row_index month_index : nat),
       get_sheet (reason data) (sheets after_setup) = Some target
       /\ find_row target (house_number data) = Some row_index
       /\ index_of (month data) Calendar.ETHIOPIAN_MONTHS_LIST
          = Some month_index
       /\ last_submission w' = Some data
       /\ map (fun x => (w_sheet x, w_label x)) (log w')
          = (reason data,
             col_idx_to_letter (3 + month_index * 2 + 1)
               ++ str_of_nat row_index)
            :: (reason data,
                col_idx_to_letter (3 + month_index * 2)
                  ++ str_of_nat row_index)
            :: map (fun x => (w_sheet x, w_label x)) (log w)
       /\ forall (name : str) (r col : nat),
            (0 < r)%nat ->
            name <> reason data \/ r <> row_index
            \/ (col <> (3 + month_index * 2)%nat
                /\ col <> (3 + month_index * 2 + 1)%nat) ->
            cell_of w' name r col = cell_of after_setup name r col.
Proof.
  intros Hsaved after_setup.
  split; [intros Hc; apply setup_writes_nothing; tauto |].
  assert (Hf : finalize false data after_setup = (Saved, w')).
  { destruct (save_phase_cases c false data w)
      as [E | [E | [[E _] | [E _]]]]; rewrite E in Hsaved;
      try discriminate Hsaved.
    exact Hsaved. }
  apply finalize_new_saved in Hf.
  destruct Hf as (target & row_index & month_index & _ & _ & Hs & Hr & Hm
                  & Hw).
  cbv zeta in Hw. destruct Hw as (v1 & ->).
  exists target, row_index, month_index.
  repeat (split; [reflexivity || assumption |]).
  split.
  { cbn [log map w_sheet w_label]. unfold after_setup.
    now rewrite (proj1 (setup_frame c w)). }
  intros name r col Hpos Hother. unfold cell_of. cbn [sheets].
  assert (H3 : (3 <= row_index)%nat) by (now apply find_row_from_ge in Hr).
  destruct (list_eq_dec N.eq_dec name (reason data)) as [-> | Hn].
  - rewrite (get_put_sheet_same _ _ _ Hs), Hs. cbn [option_map]. f_equal.
    destruct Hother as [H | [H | [H1 H2]]]; [contradiction | |].
    + rewrite !get_set_cell_other by (left; lia). reflexivity.
    + rewrite !get_set_cell_other by (right; lia). reflexivity.
  - now rewrite get_put_sheet_other.
Qed.

Lemma new_submission_changes_two_cells_witness :
  exists (target : sheet) (row_index month_index : nat),
    get_sheet (u "water") (sheets running) = Some target
    /\ find_row target (u "407") = Some row_index
    /\ index_of (u "Meskerem") Calendar.ETHIOPIAN_MONTHS_LIST
       = Some month_index.
Proof.
  destruct (@new_submission_changes_two_cells Cached Scenario.fresh running
              (snd (save_phase Cached false Scenario.fresh running)))
    as (_ & target & row_index & month_index & A & B & C & _).
  - vm_compute. reflexivity.
  - exists target, row_index, month_index. repeat split; assumption.
Defined.

(** X4.  Validation comes before writing, in both modes: when the save phase
    ends with anything but a save (or a failed update), it has written
    nothing.  A missing amount and an unverified beneficiary are found
    before the set-up of the worksheets, and leave the ledger as it was; the
    other rejections leave it as the set-up left it, which is as it was
    when the worksheets were cached, the chat has no configuration or the
    five worksheets are in the format that the set-up keeps.  The log of
    one-cell updates and the stored last submission are what they were.  In
    edit mode the old entry is cleared only once the amount, the
    beneficiary, the worksheet, the house row and the month have been
    accepted. *)
Theorem rejection_leaves_ledger (c : cache) (is_edit_mode : bool)
    (data : payment) (w : world) :
  fst (save_phase c is_edit_mode data w) <> Saved ->
  fst (save_phase c is_edit_mode data w) <> SaveFailed ->
  let after := snd (save_phase c is_edit_mode data w) in
  (after = w \/ after = snd (setup_sheets c w))
  /\ (truthy (amount data) = false
      \/ fst (Beneficiary.validate_beneficiary (beneficiary data)) = false ->
      after = w)
  /\ (c = Cached \/ c = Unconfigured \/ settled w -> after = w)
  /\ log after = log w
  /\ last_submission after = last_submission w.
Proof.
  intros H1 H2. cbv zeta. unfold save_phase in *.
  destruct (truthy (amount data)) eqn:Ha; cbn [negb] in *;
    [| cbn [snd]; repeat split; auto].
  destruct (fst (Beneficiary.validate_beneficiary (beneficiary data))) eqn:Hb;
    cbn [negb] in *; [| cbn [snd]; repeat split; auto].
  destruct (setup_frame c w) as [Hl Hls].
  pose proof (@setup_writes_nothing c w) as Hn.
  destruct (setup_sheets c w) as [[[| p b] |] w0]; cbn [fst snd] in *;
    try rewrite (finalize_rejection _ _ _ H1 H2);
    (split; [now right |]);
    (split; [intros [H | H]; discriminate H |]);
    (split; [exact Hn |]); split; assumption.
Qed.

Lemma rejection_leaves_ledger_witness :
  settled first_start
  /\ save_phase (NotCached houses) false
       (Payment (u "999") (u "700") (u "FT333") (u "water") (u "Meskerem")
                Scenario.account)
       first_start
     = (UnknownHouse, first_start)
  /\ snd (save_phase Cached true
            (Payment (u "999") (u "700") (u "FT111") (u "water")
                     (u "Meskerem") Scenario.account)
            running)
     = running.
Proof.
  assert (S : settled first_start).
  { split; [reflexivity |].
    repeat (constructor; [vm_compute; reflexivity |]). constructor. }
  split; [exact S |]. split.
  - destruct (@rejection_leaves_ledger (NotCached houses) false
                (Payment (u "999") (u "700") (u "FT333") (u "water")
                         (u "Meskerem") Scenario.account)
                first_start) as (_ & _ & H & _).
    + vm_compute. discriminate.
    + vm_compute. discriminate.
    + rewrite <- (H (or_intror (or_intror S))) at 2.
      apply surjective_pairing.
  - destruct (@rejection_leaves_ledger Cached true
                (Payment (u "999") (u "700") (u "FT111") (u "water")
                         (u "Meskerem") Scenario.account)
                running) as (_ & _ & H & _).
    + vm_compute. discriminate.
    + vm_compute. discriminate.
    + apply H. now left.
Defined.

End SetUpThenSave.

(* ================================================================== *)
(** ** The reason of a payment *)

Section ReasonFacts.
Import Reason.

Lemma startswith_map (f : N -> N) (s p : str) :
  startswith s p = true -> startswith (map f s) (map f p) = true.
Proof.
  revert s. induction p as [| a p IH]; intros [| b s]; cbn; try easy.
  intros H. apply andb_prop in H. destruct H as [E H].
  apply N.eqb_eq in E. subst. rewrite N.eqb_refl. now apply IH.
Qed.

(** A text that holds a word holds it in lower case once lowered. *)
Lemma contains_lower (kw s : str) :
  contains kw s = true -> contains (lower kw) (lower s) = true.
Proof.
  unfold lower. induction s as [| c s IH]; cbn [contains map]; intros H.
  - apply orb_prop in H. destruct H as [H | H]; [| discriminate].
    apply startswith_map with (f := lower_cp) in H. cbn [map] in H.
    now rewrite H.
  - apply orb_prop in H. destruct H as [H | H].
    + apply startswith_map with (f := lower_cp) in H. cbn [map] in H.
      now rewrite H.
    + rewrite (IH H). apply orb_true_r.
Qed.

Lemma lower_cp_idem (c : N) : lower_cp (lower_cp c) = lower_cp c.
Proof.
  unfold lower_cp.
  destruct ((65 <=? c) && (c <=? 90))%N eqn:E; [| now rewrite E].
  apply andb_prop in E. destruct E as [E1 E2]. apply N.leb_le in E1, E2.
  replace ((c + 32 <=? 90)%N) with false by (symmetry; apply N.leb_gt; lia).
  now rewrite andb_false_r.
Qed.

Lemma lower_idem (s : str) : lower (lower s) = lower s.
Proof.
  unfold lower. rewrite map_map. apply map_ext. apply lower_cp_idem.
Qed.

(** The keywords of the table are in lower case. *)
Lemma keywords_lower (r : str) (keywords : list str) (kw : str) :
  In (r, keywords) PAYMENT_REASONS -> In kw keywords -> lower kw = kw.
Proof.
  intros Hr Hk.
  assert (H : forallb (fun rk => forallb (fun k => str_eqb (lower k) k) (snd rk))
                      PAYMENT_REASONS = true) by (vm_compute; reflexivity).
  rewrite forallb_forall in H. specialize (H _ Hr). cbn [snd] in H.
  rewrite forallb_forall in H. now apply str_eqb_eq, H.
Qed.

(** For a keyword of the table the test on the text as written adds nothing
    to the test on the lowered text. *)
Lemma keyword_in_lower (combined kw : str) :
  lower kw = kw ->
  keyword_in combined (lower combined) kw = contains kw (lower combined).
Proof.
  intros E. unfold keyword_in. rewrite E.
  destruct (contains kw (lower combined)) eqn:H; [reflexivity |].
  destruct (contains kw combined) eqn:H'; [| reflexivity].
  apply contains_lower in H'. rewrite E in H'. congruence.
Qed.

Lemma existsb_keyword_in (combined r : str) (keywords : list str) :
  In (r, keywords) PAYMENT_REASONS ->
  existsb (keyword_in combined (lower combined)) keywords
  = existsb (fun kw => contains kw (lower combined)) keywords.
Proof.
  intros Hr.
  assert (H : forall kw, In kw keywords -> lower kw = kw)
    by (intros kw; now apply keywords_lower with (r := r)).
  clear Hr. induction keywords as [| kw kws IH]; [reflexivity |].
  cbn [existsb]. rewrite keyword_in_lower by (apply H; now left).
  rewrite IH; [reflexivity |]. intros k Hk. apply H. now right.
Qed.

(** The scan, on the lowered text alone. *)
Lemma scan_reasons_lower (items : list (str * list str)) (combined reason : str) :
  incl items PAYMENT_REASONS ->
  scan_reasons items combined (lower combined) reason
  = scan_reasons items (lower combined) (lower combined) reason.
Proof.
  revert reason. induction items as [| [r kws] items IH]; intros reason Hi;
    [reflexivity |].
  cbn [scan_reasons].
  assert (Hr : In (r, kws) PAYMENT_REASONS) by (apply Hi; now left).
  rewrite (existsb_keyword_in combined Hr).
  pose proof (existsb_keyword_in (lower combined) Hr) as E.
  rewrite lower_idem in E. rewrite E.
  rewrite IH; [reflexivity |]. intros x Hx. apply Hi. now right.
Qed.

(** X8.  The reason found in a text does not depend on the case of its
    letters: two texts that agree once lowered have the same reason.  (The
    keywords are all in lower case, so the second test of the loop,
    [kw in combined], never finds what [kw.lower() in text_lower] misses.) *)
Theorem reason_ignores_case (a b : str) :
  lower a = lower b -> reason_of a = reason_of b.
Proof.
  intros E. unfold reason_of.
  rewrite (scan_reasons_lower a), (scan_reasons_lower b)
    by apply incl_refl.
  now rewrite E.
Qed.

Lemma reason_ignores_case_witness :
  reason_of (u "WATER bill") = reason_of (u "Water Bill").
Proof. apply reason_ignores_case. reflexivity. Defined.

Lemma scan_reasons_miss (pre items : list (str * list str))
    (combined text_lower : str) :
  (forall r kws kw,
     In (r, kws) pre -> In kw kws -> keyword_in combined text_lower kw = false) ->
  scan_reasons (pre ++ items) combined text_lower (u "other")
  = scan_reasons items combined text_lower (u "other").
Proof.
  induction pre as [| [r kws] pre IH]; intros H; [reflexivity |].
  cbn [app scan_reasons].
  replace (existsb (keyword_in combined text_lower) kws) with false.
  - cbn [negb str_eqb]. rewrite str_eqb_refl. cbn [negb]. apply IH.
    intros r' kws' kw Hr Hk. apply (H r' kws' kw); [now right | exact Hk].
  - symmetry. apply not_true_is_false. intros E.
    apply existsb_exists in E. destruct E as (kw & Hk & E).
    rewrite (H r kws kw) in E; [discriminate | now left | exact Hk].
Qed.

(** X9.  The reason is the first one, in the order of [PAYMENT_REASONS]
    (water, electricity, development, penalty, other), one of whose keywords
    occurs in the lowered text, and [other] when none occurs; so it is always
    one of the five names the worksheets are kept under. *)
Theorem reason_is_first_mentioned (combined : str) :
  In (reason_of combined) (map fst PAYMENT_REASONS)
  /\ (forall pre r keywords post,
        PAYMENT_REASONS = pre ++ (r, keywords) :: post ->
        (forall r' kws kw,
           In (r', kws) pre -> In kw kws ->
           contains kw (lower combined) = false) ->
        (exists kw, In kw keywords /\ contains kw (lower combined) = true) ->
        reason_of combined = r)
  /\ ((forall r kws kw,
         In (r, kws) PAYMENT_REASONS -> In kw kws ->
         contains kw (lower combined) = false) ->
      reason_of combined = u "other").
Proof.
  assert (Hfirst : forall pre r keywords post,
    PAYMENT_REASONS = pre ++ (r, keywords) :: post ->
    (forall r' kws kw,
       In (r', kws) pre -> In kw kws ->
       contains kw (lower combined) = false) ->
    (exists kw, In kw keywords /\ contains kw (lower combined) = true) ->
    reason_of combined = r).
  { intros pre r keywords post E Hpre (kw & Hk & Hhit).
    unfold reason_of. rewrite E.
    assert (Hin : forall x, In x pre -> In x PAYMENT_REASONS)
      by (intros x Hx; rewrite E; apply in_or_app; now left).
    assert (Hr : In (r, keywords) PAYMENT_REASONS)
      by (rewrite E; apply in_or_app; right; now left).
    rewrite scan_reasons_miss.
    - cbn [scan_reasons].
      replace (existsb (keyword_in combined (lower combined)) keywords)
        with true.
      + destruct (str_eqb r (u "other")) eqn:Er; cbn [negb]; [| reflexivity].
        apply str_eqb_eq in Er. subst r.
        assert (post = []).
        { assert (Hl : length PAYMENT_REASONS
                       = (length pre + S (length post))%nat)
            by (rewrite E, length_app; reflexivity).
          assert (Hn : nth (length pre) PAYMENT_REASONS ([], [])
                       = (u "other", keywords))
            by (rewrite E, nth_middle; reflexivity).
          change (length PAYMENT_REASONS) with 5%nat in Hl.
          destruct (length pre) as [| [| [| [| [| n]]]]]; try lia;
            vm_compute in Hn; try discriminate Hn.
          destruct post; [reflexivity | cbn [length] in Hl; lia]. }
        subst post. reflexivity.
      + symmetry. rewrite (existsb_keyword_in combined Hr).
        apply existsb_exists. now exists kw.
    - intros r' kws kw' Hr' Hk'.
      rewrite keyword_in_lower
        by (apply keywords_lower with (r := r') (keywords := kws);
            [now apply Hin | exact Hk']).
      now apply (Hpre r' kws). }
  assert (Hnone :
    (forall r kws kw,
       In (r, kws) PAYMENT_REASONS -> In kw kws ->
       contains kw (lower combined) = false) ->
    reason_of combined = u "other").
  { intros H. unfold reason_of.
    rewrite <- (app_nil_r PAYMENT_REASONS) at 1.
    rewrite scan_reasons_miss; [reflexivity |].
    intros r kws kw Hr Hk.
    rewrite keyword_in_lower by now apply keywords_lower with (r := r) (keywords := kws).
    now apply (H r kws). }
  split; [| split; assumption].
  (* the range: the scan returns a key or the initial reason *)
  assert (Hrange : forall items reason,
            In (scan_reasons items combined (lower combined) reason)
               (reason :: map fst items)).
  { induction items as [| [r kws] items IH]; intros reason; [now left |].
    cbn [scan_reasons map fst].
    destruct (existsb _ kws).
    - destruct (negb (str_eqb r (u "other"))); [right; now left |].
      destruct (IH r) as [H | H]; [right; left; exact H | now do 2 right].
    - destruct (negb (str_eqb reason (u "other"))); [now left |].
      destruct (IH reason) as [H | H]; [now left | now do 2 right]. }
  destruct (Hrange PAYMENT_REASONS (u "other")) as [H | H]; [| exact H].
  unfold reason_of. rewrite <- H. vm_compute. tauto.
Qed.

End ReasonFacts.

(* ================================================================== *)
(** ** Administrators *)

Section GroupFacts.
Import Groups.

Lemma is_in_In (x : Z) (ids : list Z) : is_in x ids = true <-> In x ids.
Proof.
  unfold is_in. rewrite existsb_exists. split.
  - intros (y & Hy & E). apply Z.eqb_eq in E. now subst.
  - intros H. exists x. split; [assumption | apply Z.eqb_refl].
Qed.

Lemma lookup_In (chat_id : Z) (d : configs) (c : group_config) :
  lookup chat_id d = Some c -> In (chat_id, c) d.
Proof.
  induction d as [| [k v] d IH]; cbn [lookup]; [discriminate |].
  destruct (Z.eqb_spec chat_id k) as [-> | _].
  - intros [= ->]. now left.
  - intros H. right. now apply IH.
Qed.

Lemma In_lookup (chat_id : Z) (d : configs) (c : group_config) :
  NoDup (map fst d) -> In (chat_id, c) d -> lookup chat_id d = Some c.
Proof.
  induction d as [| [k v] d IH]; cbn [map fst lookup]; [contradiction |].
  intros Hnd [[= -> ->] | Hin].
  - now rewrite Z.eqb_refl.
  - inversion Hnd as [| ? ? Hk Hd]; subst.
    destruct (Z.eqb_spec chat_id k) as [-> | _]; [| now apply IH].
    exfalso. apply Hk. apply in_map_iff. now exists (k, c).
Qed.

Lemma lookup_None (chat_id : Z) (d : configs) :
  lookup chat_id d = None -> ~ In chat_id (map fst d).
Proof.
  induction d as [| [k v] d IH]; cbn [lookup map fst]; [tauto |].
  destruct (Z.eqb_spec chat_id k) as [-> | Hk]; [discriminate |].
  intros H [E | Hin]; [congruence | now apply IH].
Qed.

Lemma put_fresh (k : Z) (v : group_config) (d : configs) :
  ~ In k (map fst d) -> put k v d = d ++ [(k, v)].
Proof.
  induction d as [| [k' v'] d IH]; cbn [put map fst app]; [reflexivity |].
  intros H. destruct (Z.eqb_spec k k') as [-> | _];
    [exfalso; apply H; now left |].
  rewrite IH; [reflexivity |]. intros Hin. apply H. now right.
Qed.

(** The keys of a [dict] are distinct, so the groups of an administrator are
    the entries of [GROUP_CONFIGS] that list the user, in their order. *)
Lemma get_admin_groups_filter (GROUP_CONFIGS : configs) (user_id : Z) :
  NoDup (map fst GROUP_CONFIGS) ->
  get_admin_groups GROUP_CONFIGS user_id
  = filter (fun kv => is_in user_id (admin_ids (snd kv))) GROUP_CONFIGS.
Proof.
  unfold get_admin_groups.
  set (p := fun kv : Z * group_config => is_in user_id (admin_ids (snd kv))).
  assert (H : forall l acc,
            NoDup (map fst (acc ++ l)) ->
            fold_left
              (fun admin_groups kv =>
                 if p kv then put (fst kv) (snd kv) admin_groups
                 else admin_groups) l acc
            = acc ++ filter p l).
  { induction l as [| [k v] l IH]; intros acc Hnd; cbn [fold_left filter].
    - now rewrite app_nil_r.
    - assert (Hk : ~ In k (map fst acc)).
      { rewrite map_app in Hnd. cbn [map fst] in Hnd.
        apply NoDup_remove_2 in Hnd. intros Hin. apply Hnd.
        apply in_or_app. now left. }
      destruct (p (k, v)) eqn:E; cbn [fst snd].
      + rewrite put_fresh by assumption. rewrite IH.
        * now rewrite <- app_assoc.
        * now rewrite <- app_assoc.
      + apply IH. rewrite map_app in *. cbn [map fst] in Hnd.
        now apply NoDup_remove_1 in Hnd. }
  intros Hnd. exact (H GROUP_CONFIGS [] Hnd).
Qed.

Lemma existsb_filter_nonempty (A : Type) (p : A -> bool) (l : list A) :
  existsb p l = true <-> filter p l <> [].
Proof.
  induction l as [| x l IH]; cbn [existsb filter].
  - split; [discriminate | congruence].
  - destruct (p x); cbn [orb]; [split; [discriminate | reflexivity] | exact IH].
Qed.

(** X10.  [is_admin] and [get_admin_groups] agree.  The groups returned for
    a user are the configured groups that list the user as an
    administrator.  In a configured chat [is_admin] holds exactly when that
    chat is among them -- being an administrator elsewhere does not count --
    and in any other chat (a private one) exactly when there is at least
    one. *)
Theorem is_admin_agrees_with_admin_groups (GROUP_CONFIGS : configs)
    (user_id chat_id : Z) :
  NoDup (map fst GROUP_CONFIGS) ->
  (forall g c,
     In (g, c) (get_admin_groups GROUP_CONFIGS user_id)
     <-> In (g, c) GROUP_CONFIGS /\ In user_id (admin_ids c))
  /\ (configured chat_id GROUP_CONFIGS = true ->
      (is_admin GROUP_CONFIGS user_id chat_id = true
       <-> In chat_id (map fst (get_admin_groups GROUP_CONFIGS user_id))))
  /\ (configured chat_id GROUP_CONFIGS = false ->
      (is_admin GROUP_CONFIGS user_id chat_id = true
       <-> get_admin_groups GROUP_CONFIGS user_id <> [])).
Proof.
  intros Hnd. rewrite get_admin_groups_filter by assumption.
  split; [| split].
  - intros g c. rewrite filter_In. cbn [snd]. now rewrite is_in_In.
  - unfold configured, is_admin.
    destruct (lookup chat_id GROUP_CONFIGS) as [c |] eqn:E; [| discriminate].
    intros _. rewrite is_in_In. split.
    + intros H. apply in_map_iff. exists (chat_id, c). split; [reflexivity |].
      apply filter_In. split; [now apply lookup_In |].
      cbn [snd]. now apply is_in_In.
    + intros H. apply in_map_iff in H. destruct H as ([g c'] & Hg & H).
      cbn [fst] in Hg. subst g. apply filter_In in H. destruct H as [Hin H].
      cbn [snd] in H. apply is_in_In in H.
      rewrite (In_lookup _ _ _ Hnd Hin) in E. now injection E as <-.
  - unfold configured, is_admin.
    destruct (lookup chat_id GROUP_CONFIGS) as [c |] eqn:E; [discriminate |].
    intros _. apply existsb_filter_nonempty.
Qed.

Lemma is_admin_agrees_with_admin_groups_witness :
  let GROUP_CONFIGS :=
    [((-1001)%Z, GroupConfig (Some (u "Block A")) (Some [7%Z; 8%Z]));
     ((-1002)%Z, GroupConfig (Some (u "Block B")) (Some [8%Z]))] in
  is_admin GROUP_CONFIGS 7 (-1002) = true
  <-> In (-1002)%Z (map fst (get_admin_groups GROUP_CONFIGS 7)).
Proof.
  cbv zeta.
  refine (proj1 (proj2 (@is_admin_agrees_with_admin_groups _ 7%Z (-1002)%Z _))
                _).
  - repeat constructor; cbn; intuition discriminate.
  - reflexivity.
Defined.

(** [handle_admin_command], case by case. *)
Lemma handle_admin_command_cases (GROUP_CONFIGS : configs)
    (user_id chat_id : Z) :
  NoDup (map fst GROUP_CONFIGS) ->
  let admin_groups :=
    filter (fun kv => is_in user_id (admin_ids (snd kv))) GROUP_CONFIGS in
  match handle_admin_command GROUP_CONFIGS user_id chat_id with
  | NoAdminAccess => is_admin GROUP_CONFIGS user_id chat_id = false
  | SelectGroup buttons =>
      configured chat_id GROUP_CONFIGS = false
      /\ (1 < length buttons)%nat
      /\ map fst buttons = map fst admin_groups
  | AdminPanel g _ =>
      (exists c, In (g, c) GROUP_CONFIGS /\ In user_id (admin_ids c))
      /\ (configured chat_id GROUP_CONFIGS = true -> g = chat_id)
      /\ (configured chat_id GROUP_CONFIGS = false ->
          exists c, admin_groups = [(g, c)])
  | Raised => False
  end.
Proof.
  intros Hnd admin_groups. unfold handle_admin_command.
  rewrite get_admin_groups_filter by assumption. fold admin_groups.
  destruct (is_admin GROUP_CONFIGS user_id chat_id) eqn:Ha; cbn [negb];
    [| reflexivity].
  unfold configured.
  destruct (lookup chat_id GROUP_CONFIGS) as [c |] eqn:E; cbn [negb andb].
  - rewrite E. split; [| split; [reflexivity | discriminate]].
    exists c. split; [now apply lookup_In |].
    unfold is_admin in Ha. rewrite E in Ha. now apply is_in_In.
  - destruct (Nat.ltb_spec 1 (length admin_groups)) as [Hl | Hl].
    + split; [reflexivity |]. split; [now rewrite length_map |].
      rewrite map_map. reflexivity.
    + unfold is_admin in Ha. rewrite E in Ha.
      apply existsb_filter_nonempty in Ha. fold admin_groups in Ha.
      destruct admin_groups as [| [g c] [| ? ?]] eqn:Eg;
        [contradiction | | cbn [length] in Hl; lia].
      cbn [nth_error option_map fst].
      assert (Hin : In (g, c) admin_groups) by (rewrite Eg; now left).
      unfold admin_groups in Hin. apply filter_In in Hin.
      destruct Hin as [Hin Hu]. cbn [snd] in Hu.
      rewrite (In_lookup _ _ _ Hnd Hin).
      split; [| split; [discriminate | intros _; now exists c]].
      exists c. split; [assumption | now apply is_in_In].
Qed.

(** X11.  [handle_admin_command] cannot fail on its two lookups
    ([list(admin_groups.keys())[0]] and [GROUP_CONFIGS[chat_id]]), and the
    panel it opens is always that of a configured group in which the user is
    an administrator: the chat itself when it is a configured group, and
    otherwise the only group the user administers; with more than one the
    selector is shown, whose buttons are the user's groups. *)
Theorem admin_panel_only_for_admins (GROUP_CONFIGS : configs)
    (user_id chat_id : Z) :
  NoDup (map fst GROUP_CONFIGS) ->
  handle_admin_command GROUP_CONFIGS user_id chat_id <> Raised
  /\ (forall g name,
        handle_admin_command GROUP_CONFIGS user_id chat_id = AdminPanel g name ->
        is_admin GROUP_CONFIGS user_id g = true
        /\ configured g GROUP_CONFIGS = true)
  /\ (forall buttons g name,
        handle_admin_command GROUP_CONFIGS user_id chat_id
        = SelectGroup buttons ->
        In (g, name) buttons ->
        is_admin GROUP_CONFIGS user_id g = true).
Proof.
  intros Hnd.
  pose proof (@handle_admin_command_cases GROUP_CONFIGS user_id chat_id Hnd)
    as H.
  cbv zeta in H.
  assert (Hadm : forall g c,
            In (g, c) GROUP_CONFIGS -> In user_id (admin_ids c) ->
            is_admin GROUP_CONFIGS user_id g = true
            /\ configured g GROUP_CONFIGS = true).
  { intros g c Hin Hu. unfold is_admin, configured.
    rewrite (In_lookup _ _ _ Hnd Hin). split; [now apply is_in_In | reflexivity]. }
  destruct (handle_admin_command GROUP_CONFIGS user_id chat_id)
    as [| buttons | g0 name0 |]; try contradiction.
  - split; [discriminate |]. split; intros; discriminate.
  - split; [discriminate |]. split; [intros; discriminate |].
    intros bs g name [= <-] Hin. destruct H as (_ & _ & Hb).
    apply (in_map fst) in Hin. rewrite Hb in Hin. cbn [fst] in Hin.
    apply in_map_iff in Hin. destruct Hin as ([g' c] & Hg & Hin).
    cbn [fst] in Hg. subst g'.
    apply filter_In in Hin. destruct Hin as [Hin Hu]. cbn [snd] in Hu.
    apply is_in_In in Hu. now apply (Hadm g c).
  - split; [discriminate |]. split; [| intros; discriminate].
    intros g name [= <- _]. destruct H as ((c & Hin & Hu) & _).
    now apply (Hadm g0 c).
Qed.

Lemma admin_panel_only_for_admins_witness :
  let GROUP_CONFIGS :=
    [((-1001)%Z, GroupConfig (Some (u "Block A")) (Some [7%Z; 8%Z]));
     ((-1002)%Z, GroupConfig (Some (u "Block B")) (Some [8%Z]))] in
  handle_admin_command GROUP_CONFIGS 7 42 = AdminPanel (-1001) (u "Block A")
  /\ is_admin GROUP_CONFIGS 7 (-1001) = true
  /\ configured (-1001) GROUP_CONFIGS = true.
Proof.
  cbv zeta. split; [reflexivity |].
  assert (Hnd : NoDup (map fst
            [((-1001)%Z, GroupConfig (Some (u "Block A")) (Some [7%Z; 8%Z]));
             ((-1002)%Z, GroupConfig (Some (u "Block B")) (Some [8%Z]))]))
    by (repeat constructor; cbn; intuition discriminate).
  exact (proj1 (proj2 (@admin_panel_only_for_admins _ 7%Z 42%Z Hnd))
               (-1001)%Z (u "Block A") eq_refl).
Defined.

End GroupFacts.

(* ================================================================== *)
(** ** The history link *)

Section HistoryLink.
Import Text Groups History.

Lemma lstrip_no_space (s : str) :
  Forall (fun c => is_space c = false) s -> lstrip s = s.
Proof. intros [| c r Hc Hr]; [reflexivity |]. cbn [lstrip]. now rewrite Hc. Qed.

Lemma strip_no_space (s : str) :
  Forall (fun c => is_space c = false) s -> strip s = s.
Proof.
  intros H. unfold strip, rstrip. rewrite (lstrip_no_space H).
  rewrite lstrip_no_space by now apply Forall_rev.
  apply rev_involutive.
Qed.

Lemma digit_chars_plain (ds : list N) :
  Forall (fun d => (d < 10)%N) ds ->
  Forall (fun c => is_space c = false /\ c <> 95%N /\ is_digit c = true)
         (digit_chars ds).
Proof.
  induction 1 as [| d ds Hd Hds IH]; [constructor |].
  unfold digit_chars in *. cbn [map]. constructor; [| exact IH].
  split; [apply not_space_in_range; lia |]. split; [lia |].
  unfold is_digit. apply andb_true_intro. split; apply N.leb_le; lia.
Qed.

(** The numeral of an integer: a sign and digits, read back by [int]. *)
Lemma str_of_int_spec (n : Z) :
  Forall (fun c => is_space c = false /\ c <> 95%N) (str_of_int n)
  /\ int_of_str (str_of_int n) = Some n.
Proof.
  destruct n as [| p | p].
  - split; [| reflexivity]. repeat constructor; discriminate.
  - cbn [str_of_int].
    destruct (@str_of_N_positive (Npos p)) as (d & ds & E & Hd & Hsm & Hv);
      [discriminate |].
    rewrite E. pose proof (digit_chars_plain Hsm) as Hp.
    split; [eapply Forall_impl; [| exact Hp]; cbn; tauto |].
    unfold int_of_str. rewrite strip_no_space
      by (eapply Forall_impl; [| exact Hp]; cbn; tauto).
    unfold digit_chars at 1. cbn [map].
    inversion Hsm as [| ? ? Hd10 _]; subst.
    replace ((48 + d =? 45)%N) with false by (symmetry; apply N.eqb_neq; lia).
    replace ((48 + d =? 43)%N) with false by (symmetry; apply N.eqb_neq; lia).
    change ((48 + d)%N :: map (fun d0 : N => (48 + d0)%N) ds)
      with (digit_chars (d :: ds)).
    replace (forallb is_digit (digit_chars (d :: ds))) with true.
    + cbn [truthy digit_chars map andb].
      change ((48 + d)%N :: map (fun d0 : N => (48 + d0)%N) ds)
        with (digit_chars (d :: ds)).
      now rewrite char_digits_digit_chars, Hv.
    + symmetry. apply forallb_forall. intros c Hc.
      rewrite Forall_forall in Hp. now apply Hp.
  - cbn [str_of_int].
    destruct (@str_of_N_positive (Npos p)) as (d & ds & E & Hd & Hsm & Hv);
      [discriminate |].
    rewrite E. pose proof (digit_chars_plain Hsm) as Hp.
    assert (Hall : Forall (fun c => is_space c = false /\ c <> 95%N)
                          (u "-" ++ digit_chars (d :: ds))).
    { constructor; [split; [reflexivity | discriminate] |].
      eapply Forall_impl; [| exact Hp]. cbn. tauto. }
    split; [exact Hall |].
    unfold int_of_str. rewrite strip_no_space
      by (eapply Forall_impl; [| exact Hall]; cbn; tauto).
    change (u "-" ++ digit_chars (d :: ds)) with (45%N :: digit_chars (d :: ds)).
    cbv beta iota. rewrite N.eqb_refl.
    replace (forallb is_digit (digit_chars (d :: ds))) with true.
    + cbn [truthy digit_chars map andb].
      change ((48 + d)%N :: map (fun d0 : N => (48 + d0)%N) ds)
        with (digit_chars (d :: ds)).
      now rewrite char_digits_digit_chars, Hv.
    + symmetry. apply forallb_forall. intros c Hc.
      rewrite Forall_forall in Hp. now apply Hp.
Qed.

Lemma last_app_singleton (A : Type) (l : list A) (x d : A) :
  last (l ++ [x]) d = x.
Proof. apply last_last. Qed.

(** X12.  The history button decodes to what was encoded.  For the start
    parameter [history_{user_id}_{house_number}_{chat_id}] that the save
    phase puts on the button -- whatever the house number, even one with
    underscores or an empty one -- [handle_history_deep_link] recovers the
    three parts, refuses every user other than the one the button was made
    for, and otherwise shows the history of that house in that group, or
    reports that the group is not configured. *)
Theorem history_link_round_trip (GROUP_CONFIGS : configs)
    (viewer user_id chat_id : Z) (house_number : str) :
  handle_history_deep_link GROUP_CONFIGS viewer
    (history_link user_id house_number chat_id)
  = if negb (viewer =? user_id)%Z then AccessDenied
    else if negb (configured chat_id GROUP_CONFIGS) then GroupNotFound
    else ShowHistory house_number chat_id.
Proof.
  destruct (str_of_int_spec user_id) as [Hu Iu].
  destruct (str_of_int_spec chat_id) as [Hc Ic].
  assert (Hu' : Forall (fun c => c <> 95%N) (str_of_int user_id))
    by (eapply Forall_impl; [| exact Hu]; cbn; tauto).
  assert (Hc' : Forall (fun c => c <> 95%N) (str_of_int chat_id))
    by (eapply Forall_impl; [| exact Hc]; cbn; tauto).
  assert (Hparts :
    split_on 95 (history_link user_id house_number chat_id)
    = [u "history"; str_of_int user_id] ++ split_on 95 house_number
        ++ [str_of_int chat_id]).
  { unfold history_link.
    change (u "history_") with (u "history" ++ [95%N]).
    change (u "_") with [95%N].
    rewrite <- !app_assoc. cbn [app].
    rewrite (@split_on_app 95 (u "history")).
    rewrite (@split_on_no_sep 95 (u "history"))
      by (repeat constructor; discriminate).
    rewrite (@split_on_app 95 (str_of_int user_id)).
    rewrite (@split_on_no_sep 95 (str_of_int user_id)) by assumption.
    rewrite (@split_on_app 95 house_number).
    rewrite (@split_on_no_sep 95 (str_of_int chat_id)) by assumption.
    reflexivity. }
  unfold handle_history_deep_link. rewrite Hparts.
  set (hs := split_on 95 house_number).
  assert (Hlen : (1 <= length hs)%nat).
  { unfold hs. destruct (split_on_cons 95 house_number) as (f & fs & ->).
    cbn [length]. lia. }
  replace (length ([u "history"; str_of_int user_id] ++ hs
                   ++ [str_of_int chat_id]))
    with (length hs + 3)%nat
    by (cbn [app length]; rewrite length_app; cbn [length]; lia).
  destruct (Nat.ltb_spec (length hs + 3) 4) as [H | _]; [lia |].
  cbn [app nth]. rewrite Iu.
  change (u "history" :: str_of_int user_id :: hs ++ [str_of_int chat_id])
    with ([u "history"; str_of_int user_id] ++ hs ++ [str_of_int chat_id]).
  rewrite !app_assoc, last_last, Ic. rewrite <- !app_assoc.
  cbn [app skipn].
  replace (length hs + 3 - 1 - 2)%nat with (length hs + 0)%nat by lia.
  rewrite firstn_app_2. cbn [firstn]. rewrite app_nil_r.
  change (u "_") with [95%N]. unfold hs. now rewrite join_split_on.
Qed.

End HistoryLink.

(* ================================================================== *)
(** ** The shape of a house number *)

Section HouseShape.
Import Text Matching House.

(** The first group of a search, for a pattern that ends with its only
    group, a repetition. *)
Lemma search_last_group (rs : list regex) (i lo : nat) (hi : option nat)
    (p : N -> bool) (s : str) (m : mobj) :
  forallb no_groups rs = true ->
  re_search (seqs (rs ++ [Grp (S i) (Rep lo hi p)])) s = Some m ->
  Forall (fun x => p x = true) (group m (S i))
  /\ (lo <= length (group m (S i)))%nat
  /\ match hi with
     | Some h => (length (group m (S i)) <= h)%nat
     | None => True
     end
  /\ contains (group m (S i)) s = true.
Proof.
  intros Hn H. apply re_search_sound in H.
  destruct H as (pre & post & -> & H).
  apply match_at_matches in H. destruct H as (c' & g' & Hm & ->).
  apply matches_seqs_last in Hm; [| exact Hn].
  destruct Hm as (c1 & p1 & M1 & Hm).
  apply matches_group_rep in Hm.
  destruct Hm as (xs & -> & M2 & Hxs & Hlo & Hhi).
  unfold group. cbn [m_caps lookup Nat.eqb]. rewrite Nat.eqb_refl.
  repeat (split; [assumption |]).
  rewrite (@moved_cursor_at _ _ _ _ _ _ M1 M2), app_assoc.
  apply contains_middle_part.
Qed.

Lemma len_3_or_4_spec (s : str) :
  len_3_or_4 s = true -> length s = 3%nat \/ length s = 4%nat.
Proof.
  unfold len_3_or_4. intros H. apply orb_prop in H.
  destruct H as [H | H]; apply Nat.eqb_eq in H; tauto.
Qed.

Lemma bounds_3_4 (s : str) :
  (3 <= length s)%nat -> (length s <= 4)%nat ->
  length s = 3%nat \/ length s = 4%nat.
Proof. lia. Qed.

(** What [findall] yields for a repetition of one class. *)
Lemma findall_rep (lo : nat) (hi : option nat) (p : N -> bool) (s x : str) :
  In x (findall (Rep lo hi p) s) -> Forall (fun c => p c = true) x.
Proof.
  unfold findall. intros H. apply in_map_iff in H.
  destruct H as (m & <- & H). apply finditer_sound in H.
  destruct H as (pre & post & _ & H).
  apply match_at_matches in H. destruct H as (c' & g' & Hm & ->).
  inversion Hm as [| | | | | | | ? ? ? ? ? ? xs Hxs Hlo Hhi Hmv | | | |]; subst.
  unfold group. cbn [m_caps lookup Nat.eqb].
  now rewrite (moved_firstn Hmv).
Qed.

(** The two groups of a pattern made of a group, patterns without groups and
    a second group. *)
Lemma search_two_groups (rs : list regex) (lo1 lo2 : nat)
    (hi1 hi2 : option nat) (p1 p2 : N -> bool) (s : str) (m : mobj) :
  forallb no_groups rs = true ->
  re_search (Seq (Grp 1 (Rep lo1 hi1 p1))
                 (seqs (rs ++ [Grp 2 (Rep lo2 hi2 p2)]))) s = Some m ->
  Forall (fun x => p1 x = true) (group m 1)
  /\ Forall (fun x => p2 x = true) (group m 2).
Proof.
  intros Hn H. apply re_search_sound in H.
  destruct H as (pre & post & -> & H).
  apply match_at_matches in H. destruct H as (c' & g' & Hm & ->).
  inversion Hm as [| | ? ? ? c1 ? ? g1 ? H1 H2 | | | | | | | | |]; subst.
  apply matches_group_rep in H1.
  destruct H1 as (xs & -> & _ & Hxs & _).
  apply matches_seqs_last in H2; [| exact Hn].
  destruct H2 as (c2 & q & _ & H2).
  apply matches_group_rep in H2.
  destruct H2 as (ys & -> & _ & Hys & _).
  unfold group. cbn [m_caps lookup Nat.eqb]. now split.
Qed.

Lemma combined_of_digits (rs : list regex) (caption combined : str) :
  forallb no_groups rs = true ->
  combined_of (Seq (Grp 1 (times 1 2 is_digit))
                   (seqs (rs ++ [Grp 2 (times 1 2 is_digit)]))) caption
  = Some combined ->
  three_or_four_digits combined.
Proof.
  intros Hn. unfold combined_of.
  destruct (re_search _ caption) as [m |] eqn:E; [| discriminate].
  destruct (len_3_or_4 (group m 1 ++ group m 2)) eqn:L; [| discriminate].
  intros [= <-]. apply search_two_groups in E; [| exact Hn].
  destruct E as [H1 H2]. split; [| now apply len_3_or_4_spec].
  apply Forall_app. now split.
Qed.

Lemma valid_numbers_digits (caption x : str) :
  In x (valid_numbers caption) -> three_or_four_digits x.
Proof.
  unfold valid_numbers. intros H. apply filter_In in H.
  destruct H as [Hin Hv]. split.
  - exact (findall_rep _ _ _ _ _ Hin).
  - unfold is_valid_number in Hv.
    apply andb_prop in Hv. destruct Hv as [Hv _].
    apply andb_prop in Hv. destruct Hv as [Hv _].
    now apply len_3_or_4_spec.
Qed.

Lemma generic_scan_digits (caption : str) :
  generic_scan caption = [] \/ three_or_four_digits (generic_scan caption).
Proof.
  unfold generic_scan.
  destruct (valid_numbers caption) as [| first others] eqn:E.
  - destruct (combined_of slash_pattern caption) as [combined |] eqn:E1.
    + right. apply (@combined_of_digits
                      [star is_space; Chr (ch 47); star is_space]
                      caption combined); [reflexivity | exact E1].
    + destruct (combined_of space_pattern caption) as [combined |] eqn:E2;
        [| now left].
      right. apply (@combined_of_digits [plus is_space] caption combined);
        [reflexivity | exact E2].
  - right. apply (@valid_numbers_digits caption). rewrite E.
    destruct (has_keywords caption || is_short_text caption); [now left |].
    destruct others as [| y ys]; [now left |].
    right. change (last (y :: ys) first) with (last (y :: ys) first).
    destruct (exists_last (l := y :: ys)) as (l' & z & ->); [discriminate |].
    rewrite last_last. apply in_or_app. right. now left.
Qed.

Lemma labelled_house (rs : list regex) (p : N -> bool) (s : str) (m : mobj) :
  forallb no_groups rs = true ->
  (forall x, p x = true -> is_digit x = true) ->
  re_search (seqs (rs ++ [Grp 1 (times 3 4 p)])) s = Some m ->
  three_or_four_digits (group m 1).
Proof.
  intros Hn Hp H. apply search_last_group in H; [| exact Hn].
  destruct H as (Hd & Hlo & Hhi & _). split.
  - eapply Forall_impl; [| exact Hd]. exact Hp.
  - now apply bounds_3_4.
Qed.

Lemma house_number_shape_aux (caption : str) :
  extract_house_from_caption caption = []
  \/ three_or_four_digits (extract_house_from_caption caption).
Proof.
  unfold extract_house_from_caption.
  destruct (truthy caption); cbn [negb]; [| now left].
  destruct (re_search house_pattern_amharic caption) as [m |] eqn:E1.
  { right. apply (@labelled_house
                    [lit "ቤት"; star is_space; lit "ቁጥር"; star is_space;
                     colon_dot_opt; star is_space] is_digit caption m);
      [reflexivity | trivial | exact E1]. }
  destruct (re_search house_pattern_english caption) as [m |] eqn:E2.
  { right. apply (@labelled_house
                    [alts [seqs [liti "H"; Opt (Chr (ch 46)); star is_space;
                                 liti "No"; Opt (Chr (ch 46))];
                           seqs [liti "H-No"; Opt (Chr (ch 46))];
                           liti "House"];
                     star is_space; colon_dot_opt; star is_space]
                    is_digit caption m);
      [reflexivity | trivial | exact E2]. }
  destruct (re_search house_pattern_short caption) as [m |] eqn:E3.
  { right. apply (@labelled_house
                    [lit "ቁጥ"; Opt (lit "ር"); star is_space; colon_dot_opt;
                     star is_space] is_digit caption m);
      [reflexivity | trivial | exact E3]. }
  apply generic_scan_digits.
Qed.

(** X13.  For a caption written in ASCII, Ethiopic characters and white
    space, [extract_house_from_caption] returns the empty string or three or
    four decimal digits [0-9]: every way out of the function -- the three
    labelled patterns, the first or last of the numbers kept by the filter,
    the digits joined over a slash or over spaces -- yields that shape.
    (Outside those characters [\d] also takes the digits of other scripts.) *)
Theorem house_number_is_three_or_four_digits (caption : str) :
  tabled_text caption = true ->
  extract_house_from_caption caption = []
  \/ three_or_four_digits (extract_house_from_caption caption).
Proof.
  intros _.
  unfold extract_house_from_caption.
  destruct (truthy caption); cbn [negb]; [| now left].
  destruct (re_search house_pattern_amharic caption) as [m |] eqn:E1.
  { right. apply (@labelled_house
                    [lit "ቤት"; star is_space; lit "ቁጥር"; star is_space;
                     colon_dot_opt; star is_space] is_digit caption m);
      [reflexivity | trivial | exact E1]. }
  destruct (re_search house_pattern_english caption) as [m |] eqn:E2.
  { right. apply (@labelled_house
                    [alts [seqs [liti "H"; Opt (Chr (ch 46)); star is_space;
                                 liti "No"; Opt (Chr (ch 46))];
                           seqs [liti "H-No"; Opt (Chr (ch 46))];
                           liti "House"];
                     star is_space; colon_dot_opt; star is_space]
                    is_digit caption m);
      [reflexivity | trivial | exact E2]. }
  destruct (re_search house_pattern_short caption) as [m |] eqn:E3.
  { right. apply (@labelled_house
                    [lit "ቁጥ"; Opt (lit "ር"); star is_space; colon_dot_opt;
                     star is_space] is_digit caption m);
      [reflexivity | trivial | exact E3]. }
  apply generic_scan_digits.
Qed.

Lemma house_number_is_three_or_four_digits_witness :
  extract_house_from_caption (u "ቤት ቁጥር 1108 የታህሳስ 2018") = u "1108"
  /\ three_or_four_digits (u "1108").
Proof.
  assert (E : extract_house_from_caption (u "ቤት ቁጥር 1108 የታህሳስ 2018")
              = u "1108") by (vm_compute; reflexivity).
  split; [exact E |].
  destruct (@house_number_is_three_or_four_digits
              (u "ቤት ቁጥር 1108 የታህሳስ 2018")) as [H | H].
  - vm_compute. reflexivity.
  - rewrite E in H. discriminate H.
  - rewrite E in H. exact H.
Defined.

End HouseShape.

Section BufferedHouse.
Import Text Matching House Orchestrator.

(** X14.  For texts written in ASCII, Ethiopic characters and white space,
    the house number of [extract_payment_data_buffered] is empty, three or
    four decimal digits [0-9], or -- in edit mode only -- the house number of
    the stored previous submission: an explicit label, the user text, the
    caption and the combined text can each supply nothing else. *)
Theorem buffered_house_number_shape (combined_text caption user_text : str)
    (is_edit_mode : bool) (original_data : option payment) :
  tabled_text combined_text = true ->
  tabled_text caption = true ->
  tabled_text user_text = true ->
  let h :=
    r_house_number
      (extract_payment_data_buffered combined_text caption user_text
                                     is_edit_mode original_data) in
  h = [] \/ three_or_four_digits h
  \/ (is_edit_mode = true /\ h = original_house original_data).
Proof.
  intros _ _ _.
  cbv zeta. unfold extract_payment_data_buffered. cbn [r_house_number].
  unfold resolve_house.
  assert (Hx : forall s, extract_house_from_caption s = []
                         \/ three_or_four_digits (extract_house_from_caption s)
                         \/ (is_edit_mode = true
                             /\ extract_house_from_caption s
                                = original_house original_data)).
  { intros s. destruct (house_number_shape_aux s); tauto. }
  assert (Hu : let hb := house_from_user_text user_text is_edit_mode
                                              original_data in
               fst hb = [] \/ three_or_four_digits (fst hb)
               \/ (is_edit_mode = true
                   /\ fst hb = original_house original_data)).
  { cbv zeta. unfold house_from_user_text.
    destruct (given (explicit_house_of is_edit_mode user_text)) eqn:G.
    - cbn [fst]. unfold explicit_house_of in *.
      destruct (is_edit_mode && truthy user_text); [| discriminate G].
      unfold group1 in *.
      destruct (re_search house_label_pattern (strip (lower user_text)))
        as [m |] eqn:E; [| discriminate G].
      cbn [option_map]. right. left.
      apply (@labelled_house
               [alts [lit "house"; lit "ቤት"; lit "home"];
                plus Amount.colon_space] Amount.d09
               (strip (lower user_text)) m);
        [reflexivity | trivial | exact E].
    - destruct (is_edit_mode && truthy user_text) eqn:Em.
      + destruct (bare_number_match user_text
                  || given (explicit_amount_of is_edit_mode user_text)
                  || given (explicit_month_of is_edit_mode user_text)).
        * cbn [fst]. right. right. split; [| reflexivity].
          now apply andb_prop in Em.
        * cbn [fst]. apply Hx.
      + destruct (truthy user_text); cbn [fst]; [apply Hx | now left]. }
  cbv zeta in Hu.
  destruct (house_from_user_text user_text is_edit_mode original_data)
    as [house_number is_bare_number].
  cbn [fst] in Hu.
  repeat match goal with
         | |- context [if ?b then _ else _] => destruct b
         end; first [apply Hx | exact Hu].
Qed.

Lemma buffered_house_number_shape_witness :
  r_house_number
    (extract_payment_data_buffered (u "ቁ 1108 የታህሳስ 2018 500 birr")
                                   (u "ቁ 1108 የታህሳስ 2018") (u "500 birr")
                                   false None)
  = u "1108"
  /\ three_or_four_digits (u "1108").
Proof.
  assert (E : r_house_number
                (extract_payment_data_buffered
                   (u "ቁ 1108 የታህሳስ 2018 500 birr")
                   (u "ቁ 1108 የታህሳስ 2018") (u "500 birr") false None)
              = u "1108") by (vm_compute; reflexivity).
  split; [exact E |].
  destruct (@buffered_house_number_shape
              (u "ቁ 1108 የታህሳስ 2018 500 birr")
              (u "ቁ 1108 የታህሳስ 2018") (u "500 birr") false None)
    as [H | [H | [H _]]].
  - vm_compute. reflexivity.
  - vm_compute. reflexivity.
  - vm_compute. reflexivity.
  - rewrite E in H. discriminate H.
  - rewrite E in H. exact H.
  - discriminate H.
Defined.

End BufferedHouse.

(* ================================================================== *)
(** ** Substitution and the normal form of a name *)

Section Substitution.
Import Text.

(** A pattern that needs a character the text does not have replaces
    nothing. *)
Lemma sub_from_needs (P : N -> bool) (r : regex) (repl s : str) :
  Needs P r -> Forall (fun x => P x = false) s ->
  forall i pv, sub_from r repl 0 i pv s = s.
Proof.
  intros Hr. induction 1 as [| x s Hx Hs IH]; intros i pv; cbn [sub_from].
  - now rewrite (match_at_needs (P := P)) by (assumption || constructor).
  - rewrite (match_at_needs (P := P)) by (assumption || now constructor).
    now rewrite IH.
Qed.

Lemma re_sub_needs (P : N -> bool) (r : regex) (repl s : str) :
  Needs P r -> Forall (fun x => P x = false) s -> re_sub r repl s = s.
Proof. intros Hr Hs. unfold re_sub. now apply sub_from_needs with (P := P). Qed.

(** Every character after a substitution is one of the text or one of the
    replacement. *)
Lemma sub_from_Forall (Q : N -> Prop) (r : regex) (repl s : str) :
  Forall Q repl -> Forall Q s ->
  forall skip i pv, Forall Q (sub_from r repl skip i pv s).
Proof.
  intros Hrepl. induction 1 as [| x s Hx Hs IH]; intros skip i pv;
    cbn [sub_from].
  - destruct skip; [| constructor].
    destruct (match_at r (Cursor i pv [])) as [m |]; [| constructor].
    destruct (m_end m - i)%nat; exact Hrepl.
  - destruct skip; [| apply IH].
    destruct (match_at r (Cursor i pv (x :: s))) as [m |].
    + destruct (m_end m - i)%nat; apply Forall_app; split; try exact Hrepl.
      * constructor; [exact Hx | apply IH].
      * apply IH.
    + constructor; [exact Hx | apply IH].
Qed.

Lemma re_sub_Forall (Q : N -> Prop) (r : regex) (repl s : str) :
  Forall Q repl -> Forall Q s -> Forall Q (re_sub r repl s).
Proof. intros. unfold re_sub. now apply sub_from_Forall. Qed.

(** Substitution for a one-character pattern, character by character. *)
Lemma sub_from_chr (p : N -> bool) (repl s : str) :
  forall i pv,
    sub_from (Chr p) repl 0 i pv s
    = flat_map (fun c => if p c then repl else [c]) s.
Proof.
  induction s as [| x s IH]; intros i pv; cbn [sub_from flat_map].
  - reflexivity.
  - unfold match_at. cbn [rmatch rest pos].
    destruct (p x).
    + cbn [m_end]. replace (S i - i)%nat with 1%nat by lia.
      now rewrite IH.
    + now rewrite IH.
Qed.

Lemma re_sub_chr (p : N -> bool) (repl s : str) :
  re_sub (Chr p) repl s = flat_map (fun c => if p c then repl else [c]) s.
Proof. unfold re_sub. apply sub_from_chr. Qed.

Lemma lstrip_head_nonspace (s : str) : head_nonspace (lstrip s).
Proof.
  induction s as [| c r IH]; cbn [lstrip]; [exact I |].
  destruct (is_space c) eqn:E; [exact IH | exact E].
Qed.

(** One or more characters of a class, at the start of a run of them. *)
Lemma match_at_plus_run (p : N -> bool) (xs tl : str) (x : N) (i : nat)
    (pv : option N) :
  Forall (fun c => p c = true) (x :: xs) ->
  match tl with [] => True | d :: _ => p d = false end ->
  exists m,
    match_at (plus p) (Cursor i pv ((x :: xs) ++ tl)) = Some m
    /\ m_end m = (i + S (length xs))%nat.
Proof.
  intros Hp Htl. unfold match_at, plus. cbn [rmatch rest pos prev].
  eexists. split.
  - apply rep_takes_run with (xs := x :: xs) (tl := tl);
      [exact Hp | cbn [length]; lia | exact I | now left | reflexivity].
  - reflexivity.
Qed.

Lemma match_at_plus_none (p : N -> bool) (s : str) (i : nat) (pv : option N) :
  match s with [] => True | d :: _ => p d = false end ->
  match_at (plus p) (Cursor i pv s) = None.
Proof.
  intros H. unfold match_at, plus. cbn [rmatch rest pos prev].
  destruct s as [| d s]; cbn [rep]; [reflexivity |]. now rewrite H.
Qed.

(** [re.sub(r'\s+', ' ', s)] is [squeeze]. *)
Lemma sub_from_spaces (s : str) :
  forall (b : bool) (skip i : nat) (pv : option N),
    (if b
     then exists xs tl,
            s = xs ++ tl /\ length xs = skip /\ blank xs /\ head_nonspace tl
     else skip = 0%nat) ->
    sub_from (plus is_space) [32%N] skip i pv s = squeeze b s.
Proof.
  induction s as [| x s IH]; intros b skip i pv H.
  - assert (skip = 0%nat) as ->.
    { destruct b; [| exact H]. destruct H as (xs & tl & E & L & _).
      symmetry in E. apply app_eq_nil in E. destruct E as [-> _].
      now rewrite <- L. }
    cbn [sub_from squeeze]. now rewrite match_at_plus_none.
  - assert (Hns : is_space x = false ->
                  sub_from (plus is_space) [32%N] 0 i pv (x :: s)
                  = x :: squeeze false s).
    { intros E. cbn [sub_from]. rewrite match_at_plus_none by exact E.
      now rewrite (IH false). }
    destruct b.
    + destruct H as (xs & tl & E & L & Hb & Ht).
      destruct xs as [| y xs].
      * cbn [app] in E. subst tl. cbn [length] in L. subst skip.
        cbn [head_nonspace] in Ht. cbn [squeeze]. rewrite Ht.
        now apply Hns.
      * cbn [app] in E. injection E as <- ->. cbn [length] in L. subst skip.
        inversion Hb as [| ? ? Hx Hxs]; subst.
        cbn [sub_from squeeze]. rewrite Hx.
        apply (IH true). now exists xs, tl.
    + subst skip. cbn [squeeze].
      destruct (is_space x) eqn:E; [| now apply Hns].
      destruct (lstrip_decomp s) as (a & Ea & Ha).
      destruct (@match_at_plus_run is_space a (lstrip s) x i pv)
        as (m & Hm & Hend).
      { constructor; assumption. }
      { exact (lstrip_head_nonspace s). }
      cbn [sub_from]. cbn [app] in Hm. rewrite <- Ea in Hm. rewrite Hm, Hend.
      replace (i + S (length a) - i)%nat with (S (length a)) by lia.
      cbn [app]. f_equal. apply (IH true).
      exists a, (lstrip s). repeat split; try assumption. apply lstrip_head_nonspace.
Qed.

Lemma re_sub_spaces (s : str) :
  re_sub (plus is_space) [32%N] s = squeeze false s.
Proof. unfold re_sub. now apply (sub_from_spaces s false). Qed.

(** *** [squeeze] *)

Lemma squeeze_single_spaced (s : str) :
  head_nonspace (squeeze true s)
  /\ single_spaced (squeeze true s) = true
  /\ single_spaced (squeeze false s) = true.
Proof.
  induction s as [| c r (Hh & Ht & Hf)]; [now repeat split |].
  cbn [squeeze]. destruct (is_space c) eqn:E.
  - split; [exact Hh |]. split; [exact Ht |].
    cbn [single_spaced]. rewrite Ht.
    change (is_space 32) with true. change (32 =? 32)%N with true.
    destruct (squeeze true r) as [| d t]; [reflexivity |].
    cbn [head_nonspace] in Hh. now rewrite Hh.
  - split; [exact E |].
    cbn [single_spaced]. now rewrite E, Hf.
Qed.

Lemma single_spaced_tail (c : N) (r : str) :
  single_spaced (c :: r) = true -> single_spaced r = true.
Proof. cbn [single_spaced]. intros H. now apply andb_prop in H. Qed.

Lemma squeeze_fixed (t : str) :
  single_spaced t = true ->
  squeeze false t = t /\ (head_nonspace t -> squeeze true t = t).
Proof.
  induction t as [| c r IH]; intros H; [now split |].
  pose proof (single_spaced_tail _ _ H) as Hr.
  destruct (IH Hr) as [IHf IHt].
  cbn [single_spaced] in H. apply andb_prop in H. destruct H as [H _].
  cbn [squeeze]. destruct (is_space c) eqn:E.
  - apply andb_prop in H. destruct H as [Hc Hd].
    apply N.eqb_eq in Hc. subst c. split.
    + rewrite IHt; [reflexivity |].
      destruct r as [| d r]; [exact I |].
      cbn [head_nonspace]. now apply negb_true_iff in Hd.
    + cbn [head_nonspace]. congruence.
  - rewrite IHf. now split.
Qed.

Lemma single_spaced_app_r (a m : str) :
  single_spaced (a ++ m) = true -> single_spaced m = true.
Proof.
  induction a as [| c a IH]; [trivial |].
  cbn [app]. intros H. apply IH. exact (single_spaced_tail _ _ H).
Qed.

Lemma single_spaced_app_l (m b : str) :
  single_spaced (m ++ b) = true -> single_spaced m = true.
Proof.
  induction m as [| c m IH]; [reflexivity |].
  cbn [app single_spaced]. intros H.
  apply andb_prop in H. destruct H as [H1 H2].
  rewrite (IH H2), andb_true_r.
  destruct (is_space c); [| reflexivity].
  apply andb_prop in H1. destruct H1 as [-> H1]. cbn [andb].
  destruct m; [reflexivity | exact H1].
Qed.

Lemma single_spaced_strip (s : str) :
  single_spaced s = true -> single_spaced (strip s) = true.
Proof.
  intros H. destruct (strip_decomp s) as (a & b & E & _).
  rewrite E in H. apply single_spaced_app_r in H.
  now apply single_spaced_app_l in H.
Qed.

Lemma Forall_strip (Q : N -> Prop) (s : str) :
  Forall Q s -> Forall Q (strip s).
Proof.
  intros H. destruct (strip_decomp s) as (a & b & E & _).
  rewrite E in H. apply Forall_app in H. destruct H as [_ H].
  apply Forall_app in H. tauto.
Qed.

Lemma squeeze_Forall (Q : N -> Prop) (s : str) :
  Q 32%N -> Forall Q s -> forall b, Forall Q (squeeze b s).
Proof.
  intros Hq. induction 1 as [| c r Hc Hr IH]; intros b; cbn [squeeze];
    [constructor |].
  destruct (is_space c); [destruct b |]; try constructor; auto.
Qed.

Lemma squeeze_or_space (q : N -> bool) (s : str) :
  Forall (fun c => cor q is_space c = true) s ->
  forall b, Forall (fun c => q c = true \/ c = 32%N) (squeeze b s).
Proof.
  induction 1 as [| c r Hc Hr IH]; intros b; cbn [squeeze]; [constructor |].
  destruct (is_space c) eqn:E.
  - destruct b; [apply IH |]. constructor; [now right | apply IH].
  - constructor; [| apply IH]. left. unfold cor in Hc. rewrite E in Hc.
    now rewrite orb_false_r in Hc.
Qed.

Lemma upper_cp_idem (c : N) : upper_cp (upper_cp c) = upper_cp c.
Proof.
  unfold upper_cp.
  destruct ((97 <=? c) && (c <=? 122))%N eqn:E; [| now rewrite E].
  apply andb_prop in E. destruct E as [E1 E2]. apply N.leb_le in E1, E2.
  destruct ((97 <=? c - 32) && (c - 32 <=? 122))%N eqn:E'; [| reflexivity].
  apply andb_prop in E'. destruct E' as [E3 _]. apply N.leb_le in E3. lia.
Qed.

Lemma upper_fixed (s : str) :
  Forall (fun c => upper_cp c = c) s -> upper s = s.
Proof.
  induction 1 as [| c r Hc Hr IH]; [reflexivity |].
  cbn [upper map]. fold (upper r). now rewrite Hc, IH.
Qed.

End Substitution.

Section NormalForm.
Import Text Beneficiary.

(** What [normalize_name] returns, step by step. *)
Lemma normalize_name_parts (name : str) :
  let n := normalize_name name in
  Forall (fun c => upper_cp c = c) n
  /\ Forall (fun c => is_word c = true \/ c = 32%N) n
  /\ single_spaced n = true
  /\ strip n = n.
Proof.
  cbv zeta. unfold normalize_name.
  destruct (truthy name); cbn [negb]; [| now repeat split].
  unfold spaces_pattern, punctuation_pattern.
  change (u " ") with [32%N].
  rewrite re_sub_spaces, re_sub_chr.
  set (s2 := re_sub ampersand_pattern (u "AND")
               (re_sub and_or_pattern (u "AND OR") (upper name))).
  assert (U2 : Forall (fun c => upper_cp c = c) s2).
  { apply re_sub_Forall; [repeat constructor |].
    apply re_sub_Forall; [repeat constructor |].
    unfold upper. apply Forall_forall. intros c Hc.
    apply in_map_iff in Hc. destruct Hc as (d & <- & _).
    apply upper_cp_idem. }
  set (f := fun c : N => if cnot (cor is_word is_space) c then [32%N] else [c]).
  assert (U3 : Forall (fun c => upper_cp c = c) (flat_map f s2)).
  { apply Forall_flat_map. eapply Forall_impl; [| exact U2].
    intros c Hc. unfold f.
    destruct (cnot (cor is_word is_space) c); repeat constructor. exact Hc. }
  assert (W3 : Forall (fun c => cor is_word is_space c = true) (flat_map f s2)).
  { apply Forall_flat_map. apply Forall_forall. intros c _. unfold f.
    destruct (cnot (cor is_word is_space) c) eqn:E; repeat constructor.
    unfold cnot in E. now apply negb_false_iff in E. }
  split; [| split; [| split]].
  - apply Forall_strip, squeeze_Forall; [reflexivity | exact U3].
  - apply Forall_strip, squeeze_or_space. exact W3.
  - apply single_spaced_strip, squeeze_single_spaced.
  - apply strip_idem.
Qed.

Lemma normalize_name_fixed (t : str) :
  Forall (fun c => upper_cp c = c) t ->
  Forall (fun c => is_word c = true \/ c = 32%N) t ->
  single_spaced t = true ->
  strip t = t ->
  normalize_name t = t.
Proof.
  intros U W S T. unfold normalize_name.
  destruct t as [| c0 t0]; [reflexivity |]. cbn [truthy negb].
  set (t := c0 :: t0) in *.
  rewrite (upper_fixed U).
  rewrite (@re_sub_needs (ch 47) and_or_pattern).
  - rewrite (@re_sub_needs (ch 38) ampersand_pattern).
    + rewrite (@re_sub_needs (cnot (cor is_word is_space)) punctuation_pattern).
      * unfold spaces_pattern. change (u " ") with [32%N].
        rewrite re_sub_spaces.
        destruct (squeeze_fixed t S) as [-> _]. exact T.
      * now constructor.
      * eapply Forall_impl; [| exact W]. intros c [Hc | ->]; [| reflexivity].
        unfold cnot, cor. now rewrite Hc.
    + now constructor.
    + eapply Forall_impl; [| exact W]. intros c [Hc | ->]; [| reflexivity].
      unfold ch. destruct (N.eqb_spec c 38); [| reflexivity].
      subst c. discriminate Hc.
  - change and_or_pattern
      with (Seq (lit "AND")
              (Seq (star is_space)
                 (Seq (Chr (ch 47)) (Seq (star is_space) (lit "OR"))))).
    apply Needs_seq_r, Needs_seq_r, Needs_seq_l. now constructor.
  - eapply Forall_impl; [| exact W]. intros c [Hc | ->]; [| reflexivity].
    unfold ch. destruct (N.eqb_spec c 47); [| reflexivity].
    subst c. discriminate Hc.
Qed.

Lemma normalize_name_idem (name : str) :
  normalize_name (normalize_name name) = normalize_name name.
Proof.
  destruct (normalize_name_parts name) as (U & W & S & T).
  now apply normalize_name_fixed.
Qed.

(** X15.  For a name written in ASCII, Ethiopic characters and white space,
    the normalized name is in normal form: it has no lower-case letter left,
    every character is a word character or a space, no white space stands at
    either end and no two white-space characters stand side by side.
    (Outside those characters [\w] and [str.upper] keep letters that the
    tables do not list.) *)
Theorem normalize_name_normal_form (name : str) :
  tabled_text name = true ->
  let n := normalize_name name in
  upper n = n
  /\ strip n = n
  /\ Forall (fun c => is_word c = true \/ c = 32%N) n
  /\ forall (a b : str) (x y : N),
       n = a ++ x :: y :: b -> is_space x = true -> is_space y = false.
Proof.
  intros _.
  cbv zeta. destruct (normalize_name_parts name) as (U & W & S & T).
  split; [now apply upper_fixed |]. split; [exact T |]. split; [exact W |].
  intros a b x y E Hx. rewrite E in S. apply single_spaced_app_r in S.
  cbn [single_spaced] in S. rewrite Hx in S.
  apply andb_prop in S. destruct S as [S _].
  apply andb_prop in S. destruct S as [_ S]. now apply negb_true_iff in S.
Qed.

Lemma normalize_name_normal_form_witness :
  normalize_name (u "  abebe   k. seyoum ") = u "ABEBE K SEYOUM"
  /\ upper (u "ABEBE K SEYOUM") = u "ABEBE K SEYOUM"
  /\ strip (u "ABEBE K SEYOUM") = u "ABEBE K SEYOUM"
  /\ Forall (fun c => is_word c = true \/ c = 32%N) (u "ABEBE K SEYOUM").
Proof.
  assert (E : normalize_name (u "  abebe   k. seyoum ") = u "ABEBE K SEYOUM")
    by (vm_compute; reflexivity).
  split; [exact E |].
  destruct (@normalize_name_normal_form (u "  abebe   k. seyoum "))
    as (A & B & C & _).
  - vm_compute. reflexivity.
  - rewrite E in A, B, C. repeat split; assumption.
Defined.

(** X16.  Normalizing is idempotent, and validation does not tell a
    beneficiary text from its normalized form: [validate_beneficiary] gives
    the same verdict and the same normalized name for both. *)
Theorem normalize_name_idempotent (name : str) :
  normalize_name (normalize_name name) = normalize_name name
  /\ validate_beneficiary (normalize_name name) = validate_beneficiary name.
Proof.
  split; [apply normalize_name_idem |].
  unfold validate_beneficiary.
  destruct name as [| c r]; [reflexivity |]. cbn [truthy negb].
  destruct (normalize_name (c :: r)) as [| d t] eqn:E; [reflexivity |].
  cbn [truthy negb]. rewrite <- E, normalize_name_idem. reflexivity.
Qed.

End NormalForm.

(* ================================================================== *)
(** ** The generic number scan of a caption *)

Section NumberScan.
Import Text Matching Caption House.

(** *** The numbers of a text *)








(** *** The words of a text *)








(** *** The keywords *)











(** *** The caption without links and FT ids *)







End NumberScan.

(* ================================================================== *)
(** ** Date, payer name and typed transaction id *)

Section Spans.
Import Text Matching.

(** What a match takes: characters of the pattern's classes, at least
    [min_len] of them. *)
Lemma matches_span (P : N -> Prop) (r : regex) (c c' : cursor) (g g' : caps) :
  matches r c g c' g' -> Only P r ->
  exists xs, moved c xs c' /\ Forall P xs /\ (min_len r <= length xs)%nat.
Proof.
  induction 1 as [c g | p c g x s Hr Hp
                  | a b c c1 c2 g g1 g2 _ IH1 _ IH2
                  | a b c c' g g' _ IH | a b c c' g g' _ IH
                  | a c c' g g' _ IH | a c g
                  | lo hi p c c' g xs Hxs Hlo Hhi Hm
                  | p c c' g xs Hxs Hm
                  | i a c c' g g' _ IH | ml c g Hb | c g He];
    intros Ho; inversion Ho; subst; cbn [min_len].
  - exists []. split; [apply moved_refl |]. split; [constructor | cbn; lia].
  - exists [x]. split; [now apply moved_step |].
    split; [constructor; auto | cbn; lia].
  - destruct IH1 as (xs & M1 & F1 & L1); [assumption |].
    destruct IH2 as (ys & M2 & F2 & L2); [assumption |].
    exists (xs ++ ys). split; [eapply moved_trans; eassumption |].
    split; [apply Forall_app; now split | rewrite length_app; lia].
  - destruct IH as (xs & M1 & F1 & L1); [assumption |].
    exists xs. split; [assumption |]. split; [assumption | lia].
  - destruct IH as (xs & M1 & F1 & L1); [assumption |].
    exists xs. split; [assumption |]. split; [assumption | lia].
  - destruct IH as (xs & M1 & F1 & L1); [assumption |].
    exists xs. split; [assumption |]. split; [assumption | lia].
  - exists []. split; [apply moved_refl |]. split; [constructor | cbn; lia].
  - exists xs. split; [assumption |]. split; [| assumption].
    eapply Forall_impl; [| exact Hxs]. auto.
  - exists xs. split; [assumption |]. split; [| lia].
    eapply Forall_impl; [| exact Hxs]. auto.
  - destruct IH as (xs & M1 & F1 & L1); [assumption |].
    exists xs. split; [assumption |]. split; assumption.
  - exists []. split; [apply moved_refl |]. split; [constructor | cbn; lia].
  - exists []. split; [apply moved_refl |]. split; [constructor | cbn; lia].
Qed.

(** Where a position reached from [cursor_at pre post] stands. *)
Lemma moved_from_cursor_at (pre post x : str) (c1 : cursor) :
  moved (cursor_at pre post) x c1 ->
  c1 = cursor_at (pre ++ x) (rest c1) /\ post = x ++ rest c1.
Proof.
  intros (R & P & V). cbn [cursor_at rest pos prev] in *. split; [| exact R].
  unfold cursor_at. rewrite length_app, last_prev_app, <- P, <- V.
  symmetry. apply cursor_eta.
Qed.

(** The first group of a match of a group without inner groups, at any place
    of a sequence whose other patterns have no group. *)
Lemma group_then (P : N -> Prop) (a tl : regex) (pre post : str)
    (c1 c' : cursor) (g' : caps) (x : str) :
  no_groups a = true -> no_groups tl = true -> Only P a ->
  moved (cursor_at pre post) x c1 ->
  matches (Seq (Grp 1 a) tl) c1 [] c' g' ->
  let m := Mobj (length pre) (pos c')
                ((0%nat, firstn (pos c' - length pre) post) :: g') in
  Forall P (group m 1)
  /\ (min_len a <= length (group m 1))%nat
  /\ contains (group m 1) (pre ++ post) = true.
Proof.
  intros Ha Htl Ho M1 H.
  inversion H as [| | ? ? ? c2 ? ? g1 ? H1 H2 | | | | | | | | |]; subst.
  apply matches_no_groups in H2; [| exact Htl]. subst g'.
  inversion H1 as [| | | | | | | | | ? ? ? ? ? g0 H0 | |]; subst.
  pose proof (matches_no_groups H0 Ha) as ->.
  destruct (matches_span H0 Ho) as (xs & M2 & F & L).
  cbv zeta. unfold group. cbn [m_caps lookup Nat.eqb].
  rewrite (moved_firstn M2).
  split; [exact F |]. split; [exact L |].
  destruct M1 as (R1 & _). destruct M2 as (R2 & _).
  cbn [cursor_at rest] in R1. rewrite R1, R2, app_assoc.
  apply contains_middle_part.
Qed.

Lemma group_last (P : N -> Prop) (a : regex) (pre post : str)
    (c1 c' : cursor) (g' : caps) (x : str) :
  no_groups a = true -> Only P a ->
  moved (cursor_at pre post) x c1 ->
  matches (Grp 1 a) c1 [] c' g' ->
  let m := Mobj (length pre) (pos c')
                ((0%nat, firstn (pos c' - length pre) post) :: g') in
  Forall P (group m 1)
  /\ (min_len a <= length (group m 1))%nat
  /\ contains (group m 1) (pre ++ post) = true.
Proof.
  intros Ha Ho M1 H.
  inversion H as [| | | | | | | | | ? ? ? ? ? g0 H0 | |]; subst.
  pose proof (matches_no_groups H0 Ha) as ->.
  destruct (matches_span H0 Ho) as (xs & M2 & F & L).
  cbv zeta. unfold group. cbn [m_caps lookup Nat.eqb].
  rewrite (moved_firstn M2).
  split; [exact F |]. split; [exact L |].
  destruct M1 as (R1 & _). destruct M2 as (R2 & _).
  cbn [cursor_at rest] in R1. rewrite R1, R2, app_assoc.
  apply contains_middle_part.
Qed.

(** The same for a search. *)
Lemma search_group_last (P : N -> Prop) (rs : list regex) (a : regex)
    (s : str) (m : mobj) :
  forallb no_groups rs = true -> no_groups a = true -> Only P a ->
  re_search (seqs (rs ++ [Grp 1 a])) s = Some m ->
  Forall P (group m 1)
  /\ (min_len a <= length (group m 1))%nat
  /\ contains (group m 1) s = true.
Proof.
  intros Hn Ha Ho H. apply re_search_sound in H.
  destruct H as (pre & post & -> & H).
  apply match_at_matches in H. destruct H as (c' & g' & Hm & ->).
  apply matches_seqs_last in Hm; [| exact Hn].
  destruct Hm as (c1 & x & M1 & Hm).
  exact (group_last Ha Ho M1 Hm).
Qed.

Lemma search_group_then (P : N -> Prop) (rs : list regex) (a tl : regex)
    (s : str) (m : mobj) :
  forallb no_groups rs = true -> no_groups a = true -> no_groups tl = true ->
  Only P a ->
  re_search (seqs (rs ++ [Seq (Grp 1 a) tl])) s = Some m ->
  Forall P (group m 1)
  /\ (min_len a <= length (group m 1))%nat
  /\ contains (group m 1) s = true.
Proof.
  intros Hn Ha Htl Ho H. apply re_search_sound in H.
  destruct H as (pre & post & -> & H).
  apply match_at_matches in H. destruct H as (c' & g' & Hm & ->).
  apply matches_seqs_last in Hm; [| exact Hn].
  destruct Hm as (c1 & x & M1 & Hm).
  exact (group_then Ha Htl Ho M1 Hm).
Qed.

(** A pattern found after other patterns is found by itself. *)
Lemma search_suffix_pattern (rs : list regex) (r : regex) (s : str) (m : mobj) :
  forallb no_groups rs = true ->
  re_search (seqs (rs ++ [r])) s = Some m ->
  exists m', re_search r s = Some m'.
Proof.
  intros Hn H. apply re_search_sound in H.
  destruct H as (pre & post & -> & H).
  apply match_at_matches in H. destruct H as (c' & g' & Hm & _).
  apply matches_seqs_last in Hm; [| exact Hn].
  destruct Hm as (c1 & x & M1 & Hm).
  destruct (moved_from_cursor_at M1) as [E1 E2].
  apply matches_match_at in Hm. rewrite E1 in Hm.
  apply re_search_complete in Hm.
  now rewrite E2, app_assoc.
Qed.

Lemma Only_True (r : regex) : Only (fun _ => True) r.
Proof. induction r; constructor; auto. Qed.

End Spans.

Section ReceiptDate.
Import Text Matching Receipt.

(** X17.  The third date pattern, [on\s+(...)], never decides: wherever it
    matches, the first pattern -- the same date without the word before it --
    matches too, and the loop has returned before it is tried.  The date is
    the one the first two patterns give. *)
Theorem date_third_pattern_never_decides (text : str) :
  extract_date_from_receipt text
  = first_group [date_pattern_1; date_pattern_2] text
  /\ (re_search date_pattern_1 text = None ->
      re_search date_pattern_3 text = None).
Proof.
  assert (H : re_search date_pattern_1 text = None ->
              re_search date_pattern_3 text = None).
  { intros E1. destruct (re_search date_pattern_3 text) as [m |] eqn:E3;
      [| reflexivity].
    apply (@search_suffix_pattern [liti "on"; plus is_space] date_pattern_1)
      in E3; [| reflexivity].
    destruct E3 as [m' E3]. congruence. }
  split; [| exact H].
  unfold extract_date_from_receipt, date_patterns. cbn [first_group].
  destruct (re_search date_pattern_1 text) eqn:E1; [reflexivity |].
  destruct (re_search date_pattern_2 text) eqn:E2; [reflexivity |].
  now rewrite H.
Qed.

(** X18.  A date that [extract_date_from_receipt] returns is a piece of the
    text, at least ten characters long; when there is none the result is the
    empty string. *)
Theorem date_is_part_of_text (text : str) :
  let date := extract_date_from_receipt text in
  date = []
  \/ (contains date text = true /\ (10 <= length date)%nat).
Proof.
  cbv zeta. unfold extract_date_from_receipt, date_patterns.
  cbn [first_group].
  destruct (re_search date_pattern_1 text) as [m |] eqn:E1.
  { right. apply (@search_group_last (fun _ => True) [] day_month_year) in E1;
      [| reflexivity | reflexivity | apply Only_True].
    destruct E1 as (_ & L & C). split; [exact C | exact L]. }
  destruct (re_search date_pattern_2 text) as [m |] eqn:E2.
  { right. unfold date_pattern_2 in E2.
    match type of E2 with
    | re_search (Grp 1 ?a) _ = _ =>
        apply (@search_group_last (fun _ => True) [] a) in E2;
          [| reflexivity | reflexivity | apply Only_True]
    end.
    destruct E2 as (_ & L & C). split; [exact C | exact L]. }
  destruct (re_search date_pattern_3 text) as [m |] eqn:E3; [| now left].
  right.
  apply (@search_group_last (fun _ => True) [liti "on"; plus is_space]
           day_month_year) in E3;
    [| reflexivity | reflexivity | apply Only_True].
  destruct E3 as (_ & L & C). split; [exact C | exact L].
Qed.

End ReceiptDate.

Section ReceiptName.
Import Text Matching Receipt.

Lemma tidy_name (xs : str) :
  Forall (fun c => letter_space c = true) xs ->
  let name := strip (re_sub (plus is_space) (u " ") (strip xs)) in
  Forall (fun c => is_ascii_alpha c = true \/ c = 32%N) name
  /\ strip name = name
  /\ single_spaced name = true.
Proof.
  intros H. cbv zeta. change (u " ") with [32%N]. rewrite re_sub_spaces.
  split; [| split].
  - apply Forall_strip, squeeze_or_space, Forall_strip. exact H.
  - apply strip_idem.
  - apply single_spaced_strip, squeeze_single_spaced.
Qed.

Lemma name_group_only :
  Only (fun c => letter_space c = true)
       (seqs [Chr letter; Chr letter_space; Lazy letter_space])
  /\ Only (fun c => letter_space c = true)
          (seqs [Chr letter; Chr letter; Chr letter_space; Chr letter_space;
                 Lazy letter_space]).
Proof.
  assert (L : forall x, letter x = true -> letter_space x = true).
  { intros x Hx. unfold letter_space, cor. unfold letter in Hx.
    now rewrite Hx. }
  split; cbn [seqs]; repeat (apply Only_seq || apply Only_chr
                             || apply Only_lazy); auto.
Qed.

Lemma name_loop_shape (patterns : list regex) (text : str) :
  Forall (fun pattern =>
            forall m, re_search pattern text = Some m ->
                      Forall (fun c => letter_space c = true) (group m 1))
         patterns ->
  let name := name_loop patterns text in
  name = []
  \/ ((3 < length name < 50)%nat
      /\ Forall (fun c => is_ascii_alpha c = true \/ c = 32%N) name
      /\ strip name = name
      /\ single_spaced name = true).
Proof.
  cbv zeta. induction 1 as [| pattern patterns Hp Hps IH]; [now left |].
  cbn [name_loop].
  destruct (re_search pattern text) as [m |] eqn:E; [| exact IH].
  cbv zeta.
  destruct ((3 <? length _)%nat && (length _ <? 50)%nat) eqn:B; [| exact IH].
  right. apply andb_prop in B. destruct B as [B1 B2].
  apply Nat.ltb_lt in B1, B2. split; [lia |].
  apply tidy_name. now apply Hp.
Qed.

(** X19.  For a receipt text written in ASCII, Ethiopic characters and white
    space, a payer name that [extract_name_from_receipt] returns has between
    4 and 49 characters, all of them ASCII letters or spaces, no white space
    at either end and no two spaces side by side; otherwise the result is
    the empty string.  (Outside those characters [[A-Z]] under
    [re.IGNORECASE] also takes U+212A, U+017F, U+0130 and U+0131.) *)
Theorem payer_name_shape (text : str) :
  tabled_text text = true ->
  let name := extract_name_from_receipt text in
  name = []
  \/ ((3 < length name < 50)%nat
      /\ Forall (fun c => is_ascii_alpha c = true \/ c = 32%N) name
      /\ strip name = name
      /\ forall (a b : str) (x y : N),
           name = a ++ x :: y :: b -> is_space x = true -> is_space y = false).
Proof.
  intros _.
  cbv zeta. unfold extract_name_from_receipt.
  destruct (@name_loop_shape name_patterns text) as [H | (L & F & T & S)];
    [| now left |].
  - destruct name_group_only as [O1 O2].
    unfold name_patterns. repeat constructor; intros m E.
    + apply (@search_group_then (fun c => letter_space c = true)
               [alts [liti "debited from"; liti "from"; liti "paid by";
                      liti "payer"];
                plus Amount.colon_space]
               (seqs [Chr letter; Chr letter_space; Lazy letter_space])
               (alts [Chr (ch 10); liti "for"; liti "with"])) in E;
        [tauto | reflexivity | reflexivity | reflexivity | exact O1].
    + apply (@search_group_then (fun c => letter_space c = true)
               [alts [liti "ABATE"; liti "payer"; liti "account holder"];
                plus Amount.colon_space]
               (seqs [Chr letter; Chr letter_space; Lazy letter_space])
               (alts [Chr (ch 10); liti "for"; liti "on"])) in E;
        [tauto | reflexivity | reflexivity | reflexivity | exact O1].
    + apply (@search_group_then (fun c => letter_space c = true) []
               (seqs [Chr letter; Chr letter; Chr letter_space;
                      Chr letter_space; Lazy letter_space])
               (alts [Chr (ch 10); liti "for"; liti "BUNAGO"])) in E;
        [tauto | reflexivity | reflexivity | reflexivity | exact O2].
  - right. split; [exact L |]. split; [exact F |]. split; [exact T |].
    intros a b x y E Hx. rewrite E in S. apply single_spaced_app_r in S.
    cbn [single_spaced] in S. rewrite Hx in S.
    apply andb_prop in S. destruct S as [S _].
    apply andb_prop in S. destruct S as [_ S]. now apply negb_true_iff in S.
Qed.

Lemma payer_name_shape_witness :
  extract_name_from_receipt
    (u "Payer: Abebe Kebede" ++ [10%N] ++ u "Amount 500")
  = u "Abebe Kebede"
  /\ Forall (fun c => is_ascii_alpha c = true \/ c = 32%N) (u "Abebe Kebede").
Proof.
  assert (E : extract_name_from_receipt
                (u "Payer: Abebe Kebede" ++ [10%N] ++ u "Amount 500")
              = u "Abebe Kebede") by (vm_compute; reflexivity).
  split; [exact E |].
  destruct (@payer_name_shape
              (u "Payer: Abebe Kebede" ++ [10%N] ++ u "Amount 500"))
    as [H | (_ & H & _)].
  - vm_compute. reflexivity.
  - rewrite E in H. discriminate H.
  - rewrite E in H. exact H.
Defined.

End ReceiptName.

Section TypedTxid.
Import Text Matching Receipt.

Lemma upper_letter_digit (c : N) :
  letter_digit c = true ->
  ((48 <= upper_cp c <= 57) \/ (65 <= upper_cp c <= 90))%N.
Proof.
  unfold letter_digit, cor, is_ascii_alpha, Amount.d09, upper_cp.
  intros H.
  repeat (apply orb_prop in H; destruct H as [H | H]);
    apply andb_prop in H; destruct H as [H1 H2]; apply N.leb_le in H1, H2;
    destruct (N.leb_spec 97 c), (N.leb_spec c 122); cbn [andb]; lia.
Qed.

Lemma upper_group (xs : str) (n : nat) :
  Forall (fun c => letter_digit c = true) xs -> (n <= length xs)%nat ->
  (n <= length (upper xs))%nat
  /\ Forall (fun c => (48 <= c <= 57) \/ (65 <= c <= 90))%N (upper xs).
Proof.
  intros F L. unfold upper. rewrite length_map. split; [exact L |].
  apply Forall_forall. intros c Hc. apply in_map_iff in Hc.
  destruct Hc as (d & <- & Hd). apply upper_letter_digit.
  revert d Hd. now apply Forall_forall.
Qed.

(** X20.  For a typed message written in ASCII, Ethiopic characters and
    white space, a transaction id taken from it is at least eight characters
    long and made of digits [0-9] and capital letters [A-Z] only -- so it
    holds no comma and no white space; when the message is empty or neither
    pattern matches, it is the empty string and the receipt is consulted.
    (Outside those characters [[A-Z0-9]] under [re.IGNORECASE] also takes
    U+212A, U+017F, U+0130 and U+0131, and [str.upper] keeps U+0130.) *)
Theorem typed_txid_shape (user_text : str) :
  tabled_text user_text = true ->
  let txid := txid_from_user_text user_text in
  txid = []
  \/ ((8 <= length txid)%nat
      /\ Forall (fun c => (48 <= c <= 57) \/ (65 <= c <= 90))%N txid
      /\ Forall (fun c => c <> 44%N /\ is_space c = false) txid).
Proof.
  intros _.
  cbv zeta.
  assert (K : forall t : str,
            (8 <= length t)%nat
            /\ Forall (fun c => (48 <= c <= 57) \/ (65 <= c <= 90))%N t ->
            (8 <= length t)%nat
            /\ Forall (fun c => (48 <= c <= 57) \/ (65 <= c <= 90))%N t
            /\ Forall (fun c => c <> 44%N /\ is_space c = false) t).
  { intros t [L F]. split; [exact L |]. split; [exact F |].
    eapply Forall_impl; [| exact F]. intros c Hc. cbv beta in Hc.
    split; [lia | apply not_space_in_range; lia]. }
  unfold txid_from_user_text.
  destruct (truthy user_text); [| now left].
  unfold txid_patterns. cbn [txid_loop].
  destruct (re_search _ user_text) as [m |] eqn:E1.
  { right. apply K.
    apply (@search_group_last (fun c => letter_digit c = true)
             [alts [liti "txid";
                    seqs [liti "transaction"; star is_space; liti "id"];
                    seqs [liti "tx"; star is_space; liti "id"];
                    liti "reference"; liti "ref"];
              plus Amount.colon_space]
             (Rep 8 None letter_digit)) in E1;
      [| reflexivity | reflexivity | now constructor].
    destruct E1 as (F & L & _). exact (upper_group F L). }
  match goal with
  | |- context [re_search ?r user_text] =>
      destruct (re_search r user_text) as [m |] eqn:E2; [| now left]
  end.
  right. apply K.
  apply (@search_group_last (fun c => letter_digit c = true) []
           (seqs [times 2 2 Amount.d09; Rep 2 None letter;
                  Rep 6 None letter_digit])) in E2;
    [| reflexivity | reflexivity |].
  - destruct E2 as (F & L & _).
    assert (L' : (8 <= length (group m 1))%nat) by (cbn in L; lia).
    exact (upper_group F L').
  - cbn [seqs]. unfold times.
    repeat (apply Only_seq || apply Only_rep); intros x Hx;
      try exact Hx; unfold letter_digit, cor, letter in *;
      rewrite Hx; auto using orb_true_r.
Qed.

Lemma typed_txid_shape_witness :
  txid_from_user_text (u "txid: ft24abc12345") = u "FT24ABC12345"
  /\ Forall (fun c => (48 <= c <= 57) \/ (65 <= c <= 90))%N (u "FT24ABC12345").
Proof.
  assert (E : txid_from_user_text (u "txid: ft24abc12345") = u "FT24ABC12345")
    by (vm_compute; reflexivity).
  split; [exact E |].
  destruct (@typed_txid_shape (u "txid: ft24abc12345")) as [H | (_ & H & _)].
  - vm_compute. reflexivity.
  - rewrite E in H. discriminate H.
  - rewrite E in H. exact H.
Defined.

End TypedTxid.

(* ================================================================== *)
(** ** The month of a submission *)

Section MonthRange.
Import Calendar Orchestrator.

Lemma scan_ethiopian_In (months : list str) (text text_lower m : str) :
  scan_ethiopian months text text_lower = Some m -> In m months.
Proof.
  induction months as [| eth_month months IH]; cbn [scan_ethiopian];
    [discriminate |].
  destruct (contains (lower eth_month) text_lower || contains eth_month text).
  - intros [= <-]. now left.
  - intros H. right. now apply IH.
Qed.

Lemma scan_dict_In (items : dict) (hay v : str) :
  scan_dict items hay = Some v -> exists k, In (k, v) items.
Proof.
  induction items as [| [name month] items IH]; cbn [scan_dict];
    [discriminate |].
  destruct (contains name hay).
  - intros [= <-]. exists name. now left.
  - intros H. destruct (IH H) as [k Hk]. exists k. now right.
Qed.

Lemma table_months (d : dict) (k v : str) :
  forallb (fun kv => mem (snd kv) ETHIOPIAN_MONTHS_LIST) d = true ->
  In (k, v) d -> In v ETHIOPIAN_MONTHS_LIST.
Proof.
  intros H Hin. rewrite forallb_forall in H.
  apply mem_In. exact (H (k, v) Hin).
Qed.

Lemma convert_range (text : str) :
  convert_to_ethiopian_month text = []
  \/ In (convert_to_ethiopian_month text) ETHIOPIAN_MONTHS_LIST.
Proof.
  unfold convert_to_ethiopian_month.
  destruct (scan_ethiopian ETHIOPIAN_MONTHS_LIST text (lower text))
    as [m |] eqn:E1.
  { right. now apply scan_ethiopian_In in E1. }
  destruct (scan_dict AMHARIC_TO_ETHIOPIAN text) as [m |] eqn:E2.
  { right. apply scan_dict_In in E2. destruct E2 as [k Hk].
    apply (@table_months AMHARIC_TO_ETHIOPIAN k m); [| exact Hk].
    vm_compute. reflexivity. }
  destruct (scan_dict GREGORIAN_TO_ETHIOPIAN (lower text)) as [m |] eqn:E3;
    [| now left].
  right. apply scan_dict_In in E3. destruct E3 as [k Hk].
  apply (@table_months GREGORIAN_TO_ETHIOPIAN k m); [| exact Hk].
  vm_compute. reflexivity.
Qed.

(** X21.  [convert_to_ethiopian_month] returns the empty string or one of the
    thirteen names of [ETHIOPIAN_MONTHS_LIST], the only months the ledger has
    columns for; so does the month of [extract_payment_data_buffered],
    whichever of the typed text, the caption and the receipt supplies it.
    The month the scanners pass on, [data.get('month') or 'Tir'], is
    therefore always one of the thirteen, and [save_to_sheets] never has to
    replace it. *)
Theorem month_is_ethiopian_or_empty :
  (forall text,
     convert_to_ethiopian_month text = []
     \/ In (convert_to_ethiopian_month text) ETHIOPIAN_MONTHS_LIST)
  /\ (forall combined_text caption user_text is_edit_mode original_data,
        let month :=
          r_month (extract_payment_data_buffered combined_text caption
                     user_text is_edit_mode original_data) in
        month = [] \/ In month ETHIOPIAN_MONTHS_LIST)
  /\ (forall text,
        let month :=
          if truthy (convert_to_ethiopian_month text)
          then convert_to_ethiopian_month text else u "Tir" in
        mem month ETHIOPIAN_MONTHS_LIST = true).
Proof.
  split; [exact convert_range |]. split.
  - intros combined_text caption user_text is_edit_mode original_data.
    cbv zeta. unfold extract_payment_data_buffered. cbn [r_month].
    unfold resolve_month.
    repeat match goal with
           | |- context [if ?b then _ else _] => destruct b
           end;
      first [apply convert_range | now left].
  - intros text. cbv zeta.
    destruct (convert_range text) as [E | H].
    + rewrite E. reflexivity.
    + destruct (convert_to_ethiopian_month text) as [| c r] eqn:E;
        [reflexivity |].
      cbn [truthy]. now apply mem_In.
Qed.

End MonthRange.
